(** * Batch transcode orchestrator of [av1-converter-v2.5.py]

    A shallow embedding of [ConversionThread] (encoder selection, preset
    mapping, probing with its cache, command construction, the batch loop
    with its weighted progress), of the time helpers [seconds_to_hhmmss]
    and [parse_hhmmss], and of the window [VideoConverterApp] (clamping
    getters, file list, crop fields, start of a conversion), followed by
    the properties proved about them.

    Python values are modelled as follows: [int] is [Z]; [float] is a
    binary64 value of the Standard Library's [spec_float] with the
    operations [SFadd], [SFmul], [SFdiv] at precision 53 and [emax] 1024;
    [str] is [string] (ASCII); a [dict] keyed by strings is a [gmap];
    an exception raised inside a [try] is the [Raise] case of [result]. *)

From Stdlib Require Import ZArith QArith Qround Qpower Lia Lqa Ascii String DecimalString
  DecimalPos DecimalZ SpecFloat Sorted.
From stdpp Require Import gmap strings list.

Open Scope Z_scope.

(** Membership in an explicit list, and its negation. *)
Ltac in_list :=
  rewrite ?elem_of_cons, ?elem_of_nil in *; intuition (try congruence; try discriminate).


(** ** Python builtins used by the program *)

Module Py.

Inductive exn :=
| ValueError
| OverflowError
| ZeroDivisionError
| KeyError
| IndexError
| ExternalError.

Inductive result (A : Type) :=
| Ok (a : A)
| Raise (e : exn).
Arguments Ok {A} a.
Arguments Raise {A} e.

Definition bind {A B : Type} (r : result A) (k : A -> result B) : result B :=
  match r with
  | Ok a => k a
  | Raise e => Raise e
  end.

#[global] Instance result_ret : MRet result := @Ok.
#[global] Instance result_bind : MBind result := fun A B k r => bind r k.
#[global] Instance result_fmap : FMap result := fun A B f r => bind r (fun a => Ok (f a)).

(** [try: r except Exception: d] *)
Definition try_except {A : Type} (r : result A) (d : A) : A :=
  match r with
  | Ok a => a
  | Raise _ => d
  end.

Definition code (c : ascii) : Z := Z.of_nat (nat_of_ascii c).

(** [str.isspace] on the ASCII range. *)
Definition is_space (c : ascii) : bool :=
  let n := code c in
  (n =? 32) || ((9 <=? n) && (n <=? 13)) || ((28 <=? n) && (n <=? 31)).

Definition digit_of (c : ascii) : option Z :=
  let n := code c in
  if (48 <=? n) && (n <=? 57) then Some (n - 48) else None.

Definition lower_ascii (c : ascii) : ascii :=
  let n := code c in
  if (65 <=? n) && (n <=? 90) then ascii_of_nat (Z.to_nat (n + 32)) else c.

(** [str.lower] on ASCII text: the letters A..Z become a..z. A character
    above 127 is left as it is, so the function stands for [str.lower]
    on strings of ASCII characters only. *)
Fixpoint lower (s : string) : string :=
  match s with
  | EmptyString => EmptyString
  | String c r => String (lower_ascii c) (lower r)
  end.

Definition upper_ascii (c : ascii) : ascii :=
  let n := code c in
  if (97 <=? n) && (n <=? 122) then ascii_of_nat (Z.to_nat (n - 32)) else c.

(** [str.upper] on ASCII text: the letters a..z become A..Z; above 127
    as for [lower]. *)
Fixpoint upper (s : string) : string :=
  match s with
  | EmptyString => EmptyString
  | String c r => String (upper_ascii c) (upper r)
  end.

Fixpoint lstrip (s : string) : string :=
  match s with
  | EmptyString => EmptyString
  | String c r => if is_space c then lstrip r else s
  end.

Fixpoint rstrip (s : string) : string :=
  match s with
  | EmptyString => EmptyString
  | String c r =>
      match rstrip r with
      | EmptyString => if is_space c then EmptyString else String c EmptyString
      | r' => String c r'
      end
  end.

(** [str.strip] *)
Definition strip (s : string) : string := rstrip (lstrip s).

(** The digits after the first one of a decimal literal: digits, each
    possibly preceded by one underscore. *)
Fixpoint parse_digits (acc : Z) (cs : list ascii) : option Z :=
  match cs with
  | [] => Some acc
  | c :: r =>
      match digit_of c with
      | Some d => parse_digits (10 * acc + d) r
      | None =>
          if (code c =? 95) then
            match r with
            | c2 :: r2 =>
                match digit_of c2 with
                | Some d => parse_digits (10 * acc + d) r2
                | None => None
                end
            | [] => None
            end
          else None
      end
  end.

Definition parse_unsigned (cs : list ascii) : option Z :=
  match cs with
  | [] => None
  | c :: r =>
      match digit_of c with
      | Some d => parse_digits d r
      | None => None
      end
  end.

(** [int(s)] for a string: surrounding blanks, an optional sign, decimal
    digits. [None] stands for the [ValueError] Python raises. *)
Definition int_of_str (s : string) : option Z :=
  match list_ascii_of_string (strip s) with
  | c :: r =>
      if (code c =? 43) then parse_unsigned r
      else if (code c =? 45) then Z.opp <$> parse_unsigned r
      else parse_unsigned (c :: r)
  | [] => None
  end.

(** [str(n)] for an integer. *)
Definition str_of_int (n : Z) : string := NilZero.string_of_int (Z.to_int n).

(** [s.startswith(' ')] *)
Definition startswith_space (s : string) : bool :=
  match s with
  | String c _ => code c =? 32
  | EmptyString => false
  end.

(** Line boundaries of [str.splitlines] on the ASCII range. *)
Definition is_linebreak (c : ascii) : bool :=
  let n := code c in
  ((10 <=? n) && (n <=? 13)) || ((28 <=? n) && (n <=? 30)).

(** [str.splitlines]: [cur] is the line being read, reversed. A carriage
    return followed by a line feed is one boundary; a last line without
    boundary is kept when it is not empty. *)
Fixpoint splitlines_aux (cur : list ascii) (cs : list ascii) : list string :=
  match cs with
  | [] => match cur with [] => [] | _ => [string_of_list_ascii (rev cur)] end
  | c :: r =>
      if is_linebreak c then
        string_of_list_ascii (rev cur) ::
          match r with
          | c2 :: r2 =>
              if (code c =? 13) && (code c2 =? 10) then splitlines_aux [] r2
              else splitlines_aux [] r
          | [] => splitlines_aux [] r
          end
      else splitlines_aux (c :: cur) r
  end.

Definition splitlines (s : string) : list string :=
  splitlines_aux [] (list_ascii_of_string s).

(** [str.split()] with no argument: the maximal runs of non-blank
    characters. *)
Fixpoint split_aux (cur : list ascii) (cs : list ascii) : list string :=
  match cs with
  | [] => match cur with [] => [] | _ => [string_of_list_ascii (rev cur)] end
  | c :: r =>
      if is_space c then
        match cur with
        | [] => split_aux [] r
        | _ => string_of_list_ascii (rev cur) :: split_aux [] r
        end
      else split_aux (c :: cur) r
  end.

Definition split (s : string) : list string :=
  split_aux [] (list_ascii_of_string s).

End Py.

Import Py.

(** ** Global bounds for rate control *)

Definition BITRATE_MIN_KBPS : Z := 50.
Definition BITRATE_MAX_KBPS : Z := 200000.
Definition CRF_MIN : Z := 0.
Definition CRF_MAX_HEVC : Z := 51.
Definition CRF_MAX_AV1 : Z := 63.

(** ** Encoder selection *)

(** The body of the [try] in [available_encoders], on the decoded output
    of [ffmpeg -hide_banner -encoders]. *)
Definition encoder_names (text : string) : list string :=
  flat_map
    (fun line =>
       if startswith_space line then
         match split line with
         | _ :: name :: _ => [name]
         | _ => []
         end
       else [])
    (splitlines text).

(** [available_encoders]: [listing] is the output of the subprocess, [None]
    when running it raised. *)
Definition available_encoders (listing : option string) : list string :=
  match listing with
  | Some text => encoder_names text
  | None => []
  end.

Definition choose_encoder (codec : string) (encoders : list string) : string :=
  if decide (codec = "H.265") then
    if decide ("hevc_nvenc" ∈ encoders) then "hevc_nvenc" else "libx265"
  else
    if decide ("av1_nvenc" ∈ encoders) then "av1_nvenc"
    else if decide ("libsvtav1" ∈ encoders) then "libsvtav1"
    else "libaom-av1".

(** ** Preset mapping *)

Definition nvenc_map : gmap string string :=
  list_to_map
    [("ultrafast", "p1"); ("superfast", "p2"); ("veryfast", "p3");
     ("faster", "p4"); ("fast", "p5"); ("medium", "p6");
     ("slow", "p7"); ("slower", "p7"); ("veryslow", "p7")].

Definition svt_map : gmap string string :=
  list_to_map
    [("ultrafast", "13"); ("superfast", "12"); ("veryfast", "10");
     ("faster", "9"); ("fast", "8"); ("medium", "6");
     ("slow", "4"); ("slower", "3"); ("veryslow", "2")].

Definition is_nvenc (encoder : string) : bool :=
  bool_decide (encoder ∈ ["hevc_nvenc"; "av1_nvenc"]).

Definition map_preset (encoder ui_preset : string) : string :=
  if is_nvenc encoder then default "p6" (nvenc_map !! ui_preset)
  else if decide (encoder = "libsvtav1") then default "6" (svt_map !! ui_preset)
  else ui_preset.

(** The nine abstract preset levels, fastest first. *)
Definition ui_presets : list string :=
  ["ultrafast"; "superfast"; "veryfast"; "faster"; "fast"; "medium";
   "slow"; "slower"; "veryslow"].

(** ** Clamping getters of the window *)

Definition _clamp (v lo hi : Z) : Z := Z.max lo (Z.min hi v).

Definition bitrate_bounds : Z * Z := (BITRATE_MIN_KBPS, BITRATE_MAX_KBPS).

Definition quality_bounds (codec_av1_checked : bool) : Z * Z :=
  (CRF_MIN, if codec_av1_checked then CRF_MAX_AV1 else CRF_MAX_HEVC).

(** What a getter does besides returning: the text it leaves in the line
    edit, and whether it showed the "Invalid Input" warning box. *)
Record getter_result := {
  value : option Z;
  edit_text : string;
  warned : bool;
}.

(** The common body of [get_bitrate] and [get_quality_value]. *)
Definition get_clamped (text : string) (bounds : Z * Z) : getter_result :=
  let txt := strip text in
  if decide (txt = "") then {| value := None; edit_text := text; warned := false |}
  else
    match int_of_str txt with
    | None => {| value := None; edit_text := text; warned := true |}
    | Some v =>
        let '(lo, hi) := bounds in
        let v_clamped := _clamp v lo hi in
        {| value := Some v_clamped;
           edit_text := if decide (v = v_clamped) then text else str_of_int v_clamped;
           warned := false |}
    end.

Definition get_bitrate (bitrate_edit : string) : getter_result :=
  get_clamped bitrate_edit bitrate_bounds.

Definition get_quality_value (quality_edit : string) (codec_av1_checked : bool)
  : getter_result :=
  get_clamped quality_edit (quality_bounds codec_av1_checked).

(** ** Python floats

    A [float] is an IEEE 754 binary64 value; arithmetic is the Standard
    Library's executable specification at that format. *)

Module F64.

Definition prec : Z := 53.
Definition emax : Z := 1024.

Definition add : spec_float -> spec_float -> spec_float := SFadd prec emax.
Definition mul : spec_float -> spec_float -> spec_float := SFmul prec emax.

(** The nearest binary64 value of an integer (ties to even). *)
Definition of_Z (n : Z) : spec_float := binary_normalize prec emax n 0 false.

Definition zero : spec_float := S754_zero false.

Definition is_zero (f : spec_float) : bool :=
  match f with
  | S754_zero _ => true
  | _ => false
  end.

(** The conversion of an [int] operand of a float operation, and
    [float(n)]: [OverflowError] when the integer is too large. *)
Definition of_int (n : Z) : result spec_float :=
  match of_Z n with
  | S754_infinity _ => Raise OverflowError
  | f => Ok f
  end.

(** [x / y] on floats. *)
Definition truediv (x y : spec_float) : result spec_float :=
  if is_zero y then Raise ZeroDivisionError else Ok (SFdiv prec emax x y).

(** [int(f)]: truncation toward zero. *)
Definition to_int (f : spec_float) : result Z :=
  match f with
  | S754_zero _ => Ok 0
  | S754_finite s m e => Ok (cond_Zopp s (Z.shiftl (Z.pos m) e))
  | S754_infinity _ => Raise OverflowError
  | S754_nan => Raise ValueError
  end.

End F64.

(** ** The value of a float

    The exact rational a float stands for, and the rounding of a
    non-negative rational to binary64 the operations are compared with. *)

Module Rounding.

(** Round to the nearest integer, ties to even. *)
Definition rne (s : Q) : Z :=
  let f := Qfloor s in
  match Qcompare (s - inject_Z f) (1 # 2) with
  | Lt => f
  | Eq => if Z.even f then f else f + 1
  | Gt => f + 1
  end.

Definition pow2 (e : Z) : Q := (2 ^ e)%Q.

(** [mag x] is the [k] with [2^(k-1) <= x < 2^k]. *)
Definition mag (x : Q) : Z :=
  let k := Z.log2 (Qnum x) - Z.log2 (Z.pos (Qden x)) in
  if Qle_bool (pow2 k) x then k + 1 else k.

(** The exponent of the binary64 values of a binade: [max (e - 53) (-1074)]. *)
Definition fexp (e : Z) : Z := SpecFloat.fexp 53 1024 e.

(** [x] rounded at the exponent [e]: the nearest multiple of [2^e]. *)
Definition round_at (e : Z) (x : Q) : Q :=
  (inject_Z (rne (x / pow2 e)) * pow2 e)%Q.

(** The binary64 value nearest to [x] (ties to even), overflow apart;
    [0] for [x <= 0]. *)
Definition rnd (x : Q) : Q :=
  if Qle_bool x 0 then 0%Q else round_at (fexp (mag x)) x.

Definition F2Q (f : spec_float) : Q :=
  match f with
  | S754_finite s m e => (inject_Z (cond_Zopp s (Z.pos m)) * pow2 e)%Q
  | _ => 0%Q
  end.

(** A zero or a positive finite binary64 value. *)
Definition nonneg (f : spec_float) : Prop :=
  match f with
  | S754_zero _ => True
  | S754_finite false m e => bounded 53 1024 m e = true
  | _ => False
  end.

(** [q] lies where the location [l] says, between [m] and [m + 1]. *)
Definition located (m : Z) (l : location) (q : Q) : Prop :=
  match l with
  | loc_Exact => (q == inject_Z m)%Q
  | loc_Inexact Lt => (inject_Z m < q < inject_Z m + (1 # 2))%Q
  | loc_Inexact Eq => (q == inject_Z m + (1 # 2))%Q
  | loc_Inexact Gt => (inject_Z m + (1 # 2) < q < inject_Z m + 1)%Q
  end.

End Rounding.

Import Rounding.

(** An infinity or a NaN: the floats [int] raises on. *)
Definition top (f : spec_float) : Prop :=
  match f with
  | S754_infinity _ | S754_nan => True
  | _ => False
  end.

(** [f] is the non-negative float of value [q], unless the computation
    left the finite range. *)
Definition value_or_top (f : spec_float) (q : Q) : Prop :=
  (nonneg f /\ (F2Q f == q)%Q) \/ top f.

(** A value handed to [float(...)]: an [int], a [float] (or a string
    that [float] parses to it), or anything [float] rejects. *)
Inductive py_value :=
| PyInt (n : Z)
| PyFloat (f : spec_float)
| PyOther.

Definition py_float (v : py_value) : result spec_float :=
  match v with
  | PyInt n => F64.of_int n
  | PyFloat f => Ok f
  | PyOther => Raise ValueError
  end.

(** ** Signals of the conversion thread *)

(** The text of a log line, by the f-string that builds it. *)
Inductive message :=
| SelectedEncoder (encoder : string)
| UsingPreset (mapped_preset ui_preset : string)
| FfprobeFailed (file : string) (e : exn)
| FileNotFound (file : string)
| Converting (file out_path codec : string) (stream_copy : bool) (encoder : string)
| Completed (out_path : string)
| ErrorConverting (file : string) (e : exn).

Inductive signal :=
| progress_updated (overall : Z)
| log_message (m : message) (color : string)
| per_file_label (position total : nat) (file : string) (percent : Z)
| finished.

(** ** Probing *)

Record ProbeInfo := {
  duration : spec_float;
  vcodec : option string;
  acodec : option string;
  audio_bitrate_kbps : option spec_float;
}.

(** One entry of [info['streams']]; [None] is an absent key. *)
Record raw_stream := {
  codec_type : option string;
  codec_name : option string;
  bit_rate : option py_value;
}.

(** What [ffmpeg.probe] returns. [format_duration] is [None] when the
    key ['format'] is missing, [Some None] when the format has no
    ['duration']; [streams] is [None] when the key is missing. *)
Record raw_info := {
  format_duration : option (option py_value);
  streams : option (list raw_stream);
}.

(** [not s] for an optional string: [None] and the empty string. *)
Definition falsy (s : option string) : bool :=
  match s with
  | None => true
  | Some t => bool_decide (t = "")
  end.

(** One iteration of the loop over the streams, on the triple
    [(vcodec, acodec, abitrate)]. *)
Definition probe_stream (acc : option string * option string * option spec_float)
    (stream : raw_stream) : option string * option string * option spec_float :=
  let '(vcodec, acodec, abitrate) := acc in
  let vcodec' :=
    if bool_decide (codec_type stream = Some "video") && falsy vcodec
    then codec_name stream else vcodec in
  if bool_decide (codec_type stream = Some "audio") && falsy acodec then
    let abitrate' :=
      match bit_rate stream with
      | Some br =>
          match bind (py_float br) (fun b => F64.truediv b (F64.of_Z 1000)) with
          | Ok a => Some a
          | Raise _ => None
          end
      | None => abitrate
      end in
    (vcodec', codec_name stream, abitrate')
  else (vcodec', acodec, abitrate).

(** The body of the [try] in [probe], after [ffmpeg.probe] returned. *)
Definition read_info (info : raw_info) : result ProbeInfo :=
  match format_duration info with
  | None => Raise KeyError
  | Some d =>
      bind (py_float (default (PyFloat F64.zero) d)) (fun duration =>
        let '(vcodec, acodec, abitrate) :=
          foldl probe_stream (None, None, None) (default [] (streams info)) in
        Ok {| duration := duration; vcodec := vcodec; acodec := acodec;
              audio_bitrate_kbps := abitrate |})
  end.

Definition sentinel : ProbeInfo :=
  {| duration := F64.zero; vcodec := None; acodec := None;
     audio_bitrate_kbps := None |}.

(** The effects of one call of [probe]: the cache afterwards, the signals
    emitted, and the paths [ffmpeg.probe] was invoked on. *)
Record probed := {
  info : ProbeInfo;
  cache : gmap string ProbeInfo;
  emitted : list signal;
  invoked : list string;
}.

Definition probe (ffprobe : string -> result raw_info)
    (_probe_cache : gmap string ProbeInfo) (file : string) : probed :=
  match _probe_cache !! file with
  | Some pi =>
      {| info := pi; cache := _probe_cache; emitted := []; invoked := [] |}
  | None =>
      match bind (ffprobe file) read_info with
      | Ok pi =>
          {| info := pi; cache := <[file := pi]> _probe_cache;
             emitted := []; invoked := [file] |}
      | Raise e =>
          {| info := sentinel; cache := <[file := sentinel]> _probe_cache;
             emitted := [log_message (FfprobeFailed file e) "red"];
             invoked := [file] |}
      end
  end.

(** ** The conversion thread *)

(** The arguments of [ConversionThread.__init__]. *)
Record ConversionThread := {
  files : list string;
  codec : string;
  container : string;
  rate_mode : string;
  bitrate_kbps : option Z;
  crf_cq_value : option Z;
  preset : string;
  custom_output_dir : option string;
  crop_settings : gmap string (Z * Z);
  audio_copy : bool;
  audio_codec : string;
  audio_bitrate : Z;
  smart_copy_when_same_codec : bool;
}.

Definition desired_vcodec (self : ConversionThread) : string :=
  if decide (codec self = "AV1") then "av1" else "hevc".

(** "Decide copy vs encode". *)
Definition do_stream_copy (self : ConversionThread) (pinfo : ProbeInfo) : bool :=
  smart_copy_when_same_codec self
  && bool_decide (lower (default "" (vcodec pinfo)) = desired_vcodec self).

(** "Rate control": the flags of the bitrate or quality mode. *)
Definition rate_flags (self : ConversionThread) (encoder : string)
  : result (list string) :=
  if decide (rate_mode self = "bitrate") then
    match bitrate_kbps self with
    | None => Raise ValueError
    | Some kbps =>
        if kbps <=? 0 then Raise ValueError
        else if is_nvenc encoder then
          let b := str_of_int kbps +:+ "k" in
          Ok ["-rc:v"; "vbr"; "-b:v"; b; "-maxrate"; b;
              "-bufsize"; str_of_int (kbps * 2) +:+ "k"]
        else Ok ["-b:v"; str_of_int kbps +:+ "k"]
    end
  else
    let q :=
      match crf_cq_value self with
      | Some v => if 0 <=? v then v else 23
      | None => 23
      end in
    if is_nvenc encoder then Ok ["-rc:v"; "vbr"; "-cq:v"; str_of_int q]
    else if decide (encoder = "libsvtav1") then Ok ["-crf"; str_of_int q; "-b:v"; "0"]
    else Ok ["-crf"; str_of_int q].

(** "Audio handling". *)
Definition audio_flags (self : ConversionThread) : list string :=
  if audio_copy self then ["-c:a"; "copy"]
  else if decide (audio_codec self = "AAC") then
    ["-c:a"; "aac"; "-b:a"; str_of_int (audio_bitrate self) +:+ "k"]
  else if decide (audio_codec self = "Opus") then
    ["-c:a"; "libopus"; "-b:a"; str_of_int (audio_bitrate self) +:+ "k"]
  else ["-c:a"; "copy"].

(** The argument list [cmd] that [run] builds for one file, from
    [cmd = ['ffmpeg', ...]] to [cmd.extend(['-progress', ...])]. *)
Definition build_cmd (self : ConversionThread) (file : string) (pinfo : ProbeInfo)
    (out_path encoder mapped_preset : string) : result (list string) :=
  let crop := crop_settings self !! file in
  let seek :=
    match crop with
    | Some (start, _) => ["-ss"; str_of_int start]
    | None => []
    end in
  let until :=
    match crop with
    | Some (_, end_) => ["-to"; str_of_int end_]
    | None => []
    end in
  let movflags :=
    if decide (upper (container self) = "MP4") then ["-movflags"; "+faststart"]
    else [] in
  bind
    (if do_stream_copy self pinfo then Ok ["-c"; "copy"]
     else
       bind (rate_flags self encoder) (fun rate =>
         Ok (["-c:v"; encoder; "-preset"; mapped_preset] ++ rate
             ++ audio_flags self ++ ["-c:s"; "copy"])))
    (fun streams_part =>
       Ok (["ffmpeg"; "-hide_banner"; "-nostats"] ++ seek ++ ["-i"; file] ++ until
           ++ ["-map"; "0"] ++ movflags ++ streams_part
           ++ ["-progress"; "pipe:2"; out_path])).

(** *** What the thread meets while it runs

    The generator of [FfmpegProgress] yields progress values; the user
    interface may call [stop] between two of them. *)
Inductive ff_item :=
| Yields (pct : py_value)
| StopCalled.

(** The surroundings of one file's turn in the batch loop. *)
Record job_world := {
  (** [stop] was called since the previous file's turn *)
  stop_before : bool;
  (** [os.path.exists(file)] *)
  file_exists : bool;
  (** [out_path] as [os.makedirs], [os.path] and [time.time] leave it;
      an exception of theirs when they raise *)
  resolved_out_path : result string;
  (** what [ff.run_command_with_progress()] yields, with the calls of
      [stop] in between *)
  ffmpeg_items : list ff_item;
  (** the exception that ends the generator after its items, if any
      (a failing [FfmpegProgress(cmd)] is an empty generator ending so) *)
  ffmpeg_raises : option exn;
}.

Record world := {
  encoder_listing : option string;
  ffprobe : string -> result raw_info;
  job : nat -> job_world;
}.

(** The target duration of a file in "Build totals for progress". *)
Definition target_duration (self : ConversionThread) (f : string) (p : ProbeInfo)
  : result Z :=
  match crop_settings self !! f with
  | Some (s, e) => Ok (Z.max 0 (e - s))
  | None => if F64.is_zero (duration p) then Ok 0 else F64.to_int (duration p)
  end.

(** The first loop of [run]: the signals of the probes, the list
    [durations] (or the exception that leaves [run]) and the cache. *)
Fixpoint build_totals (self : ConversionThread) (ffprobe : string -> result raw_info)
    (fs : list string) (_probe_cache : gmap string ProbeInfo)
  : list signal * result (list Z) * gmap string ProbeInfo :=
  match fs with
  | [] => ([], Ok [], _probe_cache)
  | f :: rest =>
      let p := probe ffprobe _probe_cache f in
      match target_duration self f (info p) with
      | Raise e => (emitted p, Raise e, cache p)
      | Ok dur =>
          let '(sigs, durations, c) := build_totals self ffprobe rest (cache p) in
          (emitted p ++ sigs, cons dur <$> durations, c)
      end
  end.

(** [sum(durations) or 1] *)
Definition total_of (durations : list Z) : Z :=
  let s := foldr Z.add 0 durations in
  if s =? 0 then 1 else s.

(** [max(0, min(100, int(x / total_duration * 100.0)))] *)
Definition percent_of (x : spec_float) (total_duration : Z) : result Z :=
  total ← F64.of_int total_duration;
  ratio ← F64.truediv x total;
  o ← F64.to_int (F64.mul ratio (F64.of_Z 100));
  Ok (Z.max 0 (Z.min 100 o)).

(** [overall_int] of one progress event: "Overall progress (weighted by
    duration)". *)
Definition overall_int (done_duration pct_float : spec_float)
    (target_dur total_duration : Z) : result Z :=
  fraction ← F64.truediv pct_float (F64.of_Z 100);
  target ← F64.of_int target_dur;
  percent_of (F64.add done_duration (F64.mul fraction target)) total_duration.

Inductive loop_exit :=
| Exhausted
| Broke
| Raised (e : exn).

(** [for pct in ff.run_command_with_progress(): ...]: the signals emitted,
    [_is_running] afterwards, and how the loop was left. *)
Fixpoint progress_loop (idx n : nat) (file : string) (done_duration : spec_float)
    (target_dur total_duration : Z) (_is_running : bool) (last_pct : Z)
    (items : list ff_item) : list signal * bool * loop_exit :=
  match items with
  | [] => ([], _is_running, Exhausted)
  | StopCalled :: rest =>
      progress_loop idx n file done_duration target_dur total_duration false last_pct rest
  | Yields pct :: rest =>
      if negb _is_running then ([], _is_running, Broke)
      else
        let pct_float := try_except (py_float pct) F64.zero in
        match overall_int done_duration pct_float target_dur total_duration with
        | Raise e => ([], _is_running, Raised e)
        | Ok overall =>
            if overall =? last_pct then
              progress_loop idx n file done_duration target_dur total_duration
                _is_running last_pct rest
            else
              match F64.to_int pct_float with
              | Raise e => ([progress_updated overall], _is_running, Raised e)
              | Ok p =>
                  let '(sigs, r, x) :=
                    progress_loop idx n file done_duration target_dur total_duration
                      _is_running overall rest in
                  (progress_updated overall :: per_file_label (idx + 1) n file p :: sigs,
                   r, x)
              end
        end
  end.

(** "If we finished this file without cancellation": the signals, and
    [done_duration] afterwards. *)
Definition complete (file out_path : string) (done_duration : spec_float)
    (target_dur total_duration : Z) : list signal * spec_float :=
  match F64.of_int target_dur with
  | Raise e => ([log_message (ErrorConverting file e) "red"], done_duration)
  | Ok target =>
      let done_duration' := F64.add done_duration target in
      match percent_of done_duration' total_duration with
      | Raise e => ([log_message (ErrorConverting file e) "red"], done_duration')
      | Ok overall =>
          ([progress_updated overall; log_message (Completed out_path) "green"],
           done_duration')
      end
  end.

(** The [try] block of the batch loop for one existing file: the signals
    (with the one of the [except] clause), [done_duration] and
    [_is_running] afterwards. *)
Definition convert (self : ConversionThread) (encoder mapped_preset : string)
    (idx : nat) (file : string) (pinfo : ProbeInfo) (durations : list Z)
    (total_duration : Z) (w : job_world) (done_duration : spec_float)
  : list signal * spec_float * bool :=
  let failed e := [log_message (ErrorConverting file e) "red"] in
  match durations !! idx with
  | None => (failed IndexError, done_duration, true)
  | Some target_dur =>
      match resolved_out_path w with
      | Raise e => (failed e, done_duration, true)
      | Ok out_path =>
          match build_cmd self file pinfo out_path encoder mapped_preset with
          | Raise e => (failed e, done_duration, true)
          | Ok cmd =>
              let start :=
                log_message
                  (Converting file out_path (codec self) (do_stream_copy self pinfo) encoder)
                  "black" in
              let '(sigs, running, exit) :=
                progress_loop idx (length (files self)) file done_duration target_dur
                  total_duration true (-1) (ffmpeg_items w) in
              match exit with
              | Raised e => (start :: sigs ++ failed e, done_duration, running)
              | Broke => (start :: sigs, done_duration, running)
              | Exhausted =>
                  match ffmpeg_raises w with
                  | Some e => (start :: sigs ++ failed e, done_duration, running)
                  | None =>
                      if running then
                        let '(csigs, done_duration') :=
                          complete file out_path done_duration target_dur total_duration in
                        (start :: sigs ++ csigs, done_duration', running)
                      else (start :: sigs, done_duration, running)
                  end
              end
          end
      end
  end.

(** [for idx, file in enumerate(self.files): ...] from index [idx] on. *)
Fixpoint run_files (self : ConversionThread) (encoder mapped_preset : string)
    (ffprobe : string -> result raw_info) (job : nat -> job_world)
    (durations : list Z) (total_duration : Z) (idx : nat) (fs : list string)
    (_probe_cache : gmap string ProbeInfo) (done_duration : spec_float)
  : list signal :=
  match fs with
  | [] => []
  | file :: rest =>
      let w := job idx in
      if stop_before w then []
      else if negb (file_exists w) then
        log_message (FileNotFound file) "red"
        :: run_files self encoder mapped_preset ffprobe job durations total_duration
             (S idx) rest _probe_cache done_duration
      else
        let p := probe ffprobe _probe_cache file in
        let '(sigs, done_duration', running) :=
          convert self encoder mapped_preset idx file (info p) durations
            total_duration w done_duration in
        emitted p ++ sigs ++
          (if running then
             run_files self encoder mapped_preset ffprobe job durations total_duration
               (S idx) rest (cache p) done_duration'
           else [])
  end.

(** [ConversionThread.run]: the signals it emits, in order. An exception
    of the first loop leaves [run] before the batch loop and [finished]. *)
Definition run (self : ConversionThread) (w : world) : list signal :=
  let encoders := available_encoders (encoder_listing w) in
  let encoder := choose_encoder (codec self) encoders in
  let mapped_preset := map_preset encoder (preset self) in
  let header :=
    [log_message (SelectedEncoder encoder) "black";
     log_message (UsingPreset mapped_preset (preset self)) "black"] in
  match build_totals self (ffprobe w) (files self) ∅ with
  | (sigs, Raise _, _) => header ++ sigs
  | (sigs, Ok durations, _probe_cache) =>
      header ++ sigs
      ++ run_files self encoder mapped_preset (ffprobe w) (job w) durations
           (total_of durations) 0 (files self) _probe_cache F64.zero
      ++ [finished]
  end.

(** The values [progress_updated] carried, in order. *)
Definition progress_values (sigs : list signal) : list Z :=
  omap (fun s => match s with progress_updated v => Some v | _ => None end) sigs.

(** ** Auxiliary notions of the statements *)

(** The cache after probing the paths [fs] one after the other. *)
Definition cache_after (ffprobe : string -> result raw_info)
    (c : gmap string ProbeInfo) (fs : list string) : gmap string ProbeInfo :=
  foldl (fun c f => cache (probe ffprobe c f)) c fs.

(** The option tokens the rate control and the preset use. *)
Definition rate_preset_flags : list string :=
  ["-preset"; "-b:v"; "-maxrate"; "-bufsize"; "-cq:v"; "-crf"; "-rc:v"].

(** A dash followed by something that is no digit. *)
Definition flag_like (s : string) : bool :=
  match s with
  | String c1 (String c2 _) =>
      (code c1 =? 45) && negb (bool_decide (is_Some (digit_of c2)))
  | _ => false
  end.

(** ** The progress arithmetic on rationals, and sample batches *)

(** [float(pct)], or [0.0] when that raises. *)
Definition pct_float (pct : py_value) : spec_float := try_except (py_float pct) F64.zero.

(** A progress value within 0..100. *)
Definition in_range (pct : py_value) : Prop :=
  nonneg (pct_float pct) /\ (F2Q (pct_float pct) <= 100)%Q.

(** The progress values among the items of the generator. *)
Definition samples (items : list ff_item) : list py_value :=
  omap (fun it => match it with Yields pct => Some pct | StopCalled => None end) items.

(** Progress values within 0..100 that do not decrease, from [lo] on. *)
Fixpoint nondecreasing_from (lo : Q) (ps : list py_value) : Prop :=
  match ps with
  | [] => True
  | p :: rest =>
      in_range p /\ (lo <= F2Q (pct_float p))%Q /\ nondecreasing_from (F2Q (pct_float p)) rest
  end.

(** The percentage of a completed duration [c] of [total]. *)
Definition percent_model (c : Q) (total : Z) : Z :=
  Z.max 0 (Z.min 100 (Qfloor (rnd (rnd (c / inject_Z total) * 100)))).

(** The weighted duration during a file: [done + (pct / 100) * target]. *)
Definition during_model (done : Z) (pct : Q) (target : Z) : Q :=
  rnd (inject_Z done + rnd (rnd (pct / 100) * inject_Z target)).

(** The target durations, from index [idx] on, of the files that exist at
    their turn. *)
Fixpoint present_total (job : nat -> job_world) (idx : nat) (ds : list Z) : Z :=
  match ds with
  | [] => 0
  | t :: rest => (if file_exists (job idx) then t else 0) + present_total job (S idx) rest
  end.

(** [lo <= v1 <= v2 <= ...] *)
Fixpoint rising (lo : Z) (l : list Z) : Prop :=
  match l with
  | [] => True
  | v :: rest => lo <= v /\ rising v rest
  end.

(** [max(0, min(100, int(x / total_duration * 100.0)))] on the values of
    the two floats. *)
Definition percent_q (c qT : Q) : Z :=
  Z.max 0 (Z.min 100 (Qfloor (rnd (rnd (c / qT) * 100)))).

(** [done_duration + (pct_float / 100.0) * target_dur] on the values of
    the floats. *)
Definition during_q (qd P qt : Q) : Q := rnd (qd + rnd (rnd (P / 100) * qt)).

(** An "Error converting" line. *)
Definition is_error (s : signal) : bool :=
  match s with
  | log_message (ErrorConverting _ _) _ => true
  | _ => false
  end.

(** The last value emitted, when no error line came after it. *)
Fixpoint after (lo : option Z) (sigs : list signal) : option Z :=
  match sigs with
  | [] => lo
  | progress_updated v :: rest => after (Some v) rest
  | s :: rest => after (if is_error s then None else lo) rest
  end.

Definition le_value (lo : option Z) (v : Z) : Prop :=
  match lo with
  | Some l => l <= v
  | None => True
  end.

(** Every value is at least the one emitted before it, unless an error
    line stands between the two; [lo] is the value emitted before the
    signals. *)
Fixpoint rises (lo : option Z) (sigs : list signal) : Prop :=
  match sigs with
  | [] => True
  | progress_updated v :: rest => le_value lo v /\ rises (Some v) rest
  | s :: rest => rises (if is_error s then None else lo) rest
  end.

(** A batch of two files of 100 and 50 seconds, converted into the
    directory [out]. *)
Definition two_files : ConversionThread :=
  {| files := ["a.mp4"; "b.mp4"]; codec := "AV1"; container := "MP4";
     rate_mode := "bitrate"; bitrate_kbps := Some 2000; crf_cq_value := None;
     preset := "medium"; custom_output_dir := Some "out"; crop_settings := ∅;
     audio_copy := true; audio_codec := "AAC"; audio_bitrate := 128;
     smart_copy_when_same_codec := false |}.

Definition h264_of (seconds : Z) : raw_info :=
  {| format_duration := Some (Some (PyInt seconds));
     streams := Some [ {| codec_type := Some "video"; codec_name := Some "h264";
                          bit_rate := None |} ] |}.

Definition two_probes (f : string) : result raw_info :=
  if decide (f = "a.mp4") then Ok (h264_of 100)
  else if decide (f = "b.mp4") then Ok (h264_of 50)
  else Raise ExternalError.

(** The output paths of the batch, by index. *)
Definition out_of (i : nat) : string :=
  match i with
  | O => "out/a_converted.mp4"
  | S O => "out/b_converted.mp4"
  | _ => "out/c_converted.mp4"
  end.

(** Both files convert; the generator yields 0, 50 and 100. *)
Definition clean_world : world :=
  {| encoder_listing := None;
     ffprobe := two_probes;
     job := fun i =>
       {| stop_before := false; file_exists := true;
          resolved_out_path := Ok (out_of i);
          ffmpeg_items := [Yields (PyInt 0); Yields (PyInt 50); Yields (PyInt 100)];
          ffmpeg_raises := None |} |}.

(** The first conversion fails after half of the file. *)
Definition failing_world : world :=
  {| encoder_listing := None;
     ffprobe := two_probes;
     job := fun i =>
       {| stop_before := false; file_exists := true;
          resolved_out_path := Ok (out_of i);
          ffmpeg_items :=
            match i with
            | O => [Yields (PyInt 0); Yields (PyInt 50)]
            | _ => [Yields (PyInt 0); Yields (PyInt 50); Yields (PyInt 100)]
            end;
          ffmpeg_raises := match i with O => Some ExternalError | _ => None end |} |}.

(** The second file is gone when its turn comes. *)
Definition missing_world : world :=
  {| encoder_listing := None;
     ffprobe := two_probes;
     job := fun i =>
       {| stop_before := false;
          file_exists := match i with O => true | _ => false end;
          resolved_out_path := Ok (out_of i);
          ffmpeg_items := [Yields (PyInt 0); Yields (PyInt 50); Yields (PyInt 100)];
          ffmpeg_raises := None |} |}.

(** A batch world in which no [stop] is called and every output path is
    found: the probes, which files exist at their turn, what each
    generator yields and how it ends. *)
Definition batch_world (probes : string -> result raw_info) (present : nat -> bool)
    (items : nat -> list ff_item) (raises : nat -> option exn) : world :=
  {| encoder_listing := None;
     ffprobe := probes;
     job := fun i =>
       {| stop_before := false; file_exists := present i;
          resolved_out_path := Ok (out_of i);
          ffmpeg_items := items i;
          ffmpeg_raises := raises i |} |}.

(** The generator yields 0, 50 and 100. *)
Definition steady_items : list ff_item :=
  [Yields (PyInt 0); Yields (PyInt 50); Yields (PyInt 100)].

(** The first generator yields 50 and then 0. *)
Definition falling_world : world :=
  batch_world two_probes (fun _ => true)
    (fun i => match i with O => [Yields (PyInt 50); Yields (PyInt 0)] | _ => steady_items end)
    (fun _ => None).

(** The first generator yields 200. *)
Definition overshooting_world : world :=
  batch_world two_probes (fun _ => true)
    (fun i => match i with O => [Yields (PyInt 200)] | _ => steady_items end)
    (fun _ => None).

(** The second generator starts with -50. *)
Definition undershooting_world : world :=
  batch_world two_probes (fun _ => true)
    (fun i => match i with
              | O => steady_items
              | _ => [Yields (PyInt (-50)); Yields (PyInt 100)]
              end)
    (fun _ => None).

(** A batch of three files. *)
Definition three_files : ConversionThread :=
  {| files := ["a.mp4"; "b.mp4"; "c.mp4"]; codec := "AV1"; container := "MP4";
     rate_mode := "bitrate"; bitrate_kbps := Some 2000; crf_cq_value := None;
     preset := "medium"; custom_output_dir := Some "out"; crop_settings := ∅;
     audio_copy := true; audio_codec := "AAC"; audio_bitrate := 128;
     smart_copy_when_same_codec := false |}.

(** The second of three files is reported with the duration -50. *)
Definition shrinking_world : world :=
  batch_world
    (fun f => if decide (f = "b.mp4") then Ok (h264_of (-50)) else Ok (h264_of 100))
    (fun _ => true) (fun _ => steady_items) (fun _ => None).

(** Only the first file exists at its turn. *)
Definition only_first (i : nat) : bool :=
  match i with
  | O => true
  | _ => false
  end.

(** The first file is reported with the duration -100; the second file
    is gone. *)
Definition negative_total_world : world :=
  batch_world
    (fun f => if decide (f = "a.mp4") then Ok (h264_of (-100)) else Ok (h264_of 50))
    only_first (fun _ => steady_items) (fun _ => None).

(** The first file is reported with a duration of 2^53 seconds, the
    second, which is gone, with one second. *)
Definition beyond_exact_world : world :=
  batch_world
    (fun f => if decide (f = "a.mp4") then Ok (h264_of (2 ^ 53)) else Ok (h264_of 1))
    only_first (fun _ => steady_items) (fun _ => None).

(** The generator of the first file yields 200 and fails; the second
    file is gone. *)
Definition overshoot_failing_world : world :=
  batch_world two_probes only_first (fun _ => [Yields (PyInt 200)])
    (fun _ => Some ExternalError).

(** A thread in bitrate mode with smart copy, for H.265. *)
Definition nvenc_thread : ConversionThread :=
  {| files := ["/v/a.mkv"]; codec := "H.265"; container := "MP4";
     rate_mode := "bitrate"; bitrate_kbps := Some 50; crf_cq_value := None;
     preset := "fast"; custom_output_dir := None; crop_settings := ∅;
     audio_copy := false; audio_codec := "AAC"; audio_bitrate := 128;
     smart_copy_when_same_codec := true |}.

(** What [probe] answers for a file of 90 seconds with the video codec
    [vcodec] and no audio. *)
Definition probed_as (vcodec : string) : ProbeInfo :=
  {| duration := F64.of_Z 90; vcodec := Some vcodec; acodec := None;
     audio_bitrate_kbps := None |}.

(** The encoder and the preset token a run uses. *)
Definition run_encoder (self : ConversionThread) (w : world) : string :=
  choose_encoder (codec self) (available_encoders (encoder_listing w)).

Definition run_preset (self : ConversionThread) (w : world) : string :=
  map_preset (run_encoder self w) (preset self).

(** The target durations of a run, when its first loop raises nothing. *)
Definition run_durations (self : ConversionThread) (w : world) : result (list Z) :=
  (build_totals self (ffprobe w) (files self) ∅).1.2.

(** ** Time helpers *)

(** [f"{n:02d}"]: the decimal digits of [n], with a zero in front when
    they are fewer than two characters. *)
Definition format_02d (n : Z) : string :=
  let s := str_of_int n in
  if (String.length s <? 2)%nat then "0" +:+ s else s.

Definition seconds_to_hhmmss (sec : Z) : string :=
  let sec := Z.max 0 sec in
  let h := sec / 3600 in
  let m := (sec mod 3600) / 60 in
  let s := sec mod 60 in
  format_02d h +:+ ":" +:+ format_02d m +:+ ":" +:+ format_02d s.

(** [s.split(sep)] for a separator of one character: [cur] is the part
    being read, reversed. *)
Fixpoint split_sep_aux (sep : ascii) (cur : list ascii) (cs : list ascii) : list string :=
  match cs with
  | [] => [string_of_list_ascii (rev cur)]
  | c :: r =>
      if Ascii.eqb c sep then string_of_list_ascii (rev cur) :: split_sep_aux sep [] r
      else split_sep_aux sep (c :: cur) r
  end.

Definition split_sep (sep : ascii) (s : string) : list string :=
  split_sep_aux sep [] (list_ascii_of_string s).

(** The last test of [parse_hhmmss] and its result. *)
Definition hhmmss_value (h m s : Z) : option Z :=
  if (60 <=? m) || (60 <=? s) || (Z.min h (Z.min m s) <? 0) then None
  else Some (h * 3600 + m * 60 + s).

(** [parse_hhmmss]: [None] also when [int] raises. *)
Definition parse_hhmmss (time_str : string) : option Z :=
  if decide (time_str = "") then None
  else
    match strip <$> split_sep ":" (strip time_str) with
    | [a; b; c] =>
        h ← int_of_str a; m ← int_of_str b; s ← int_of_str c; hhmmss_value h m s
    | [a; b] => m ← int_of_str a; s ← int_of_str b; hhmmss_value 0 m s
    | [a] => s ← int_of_str a; hhmmss_value 0 0 s
    | _ => None
    end.

(** The characters of a decimal number. *)
Definition chars_of (d : Decimal.uint) : list ascii :=
  list_ascii_of_string (NilEmpty.string_of_uint d).

(** The value of the quality mode: [crf_cq_value], or 23 when it is
    missing or negative. *)
Definition quality_of (self : ConversionThread) : Z :=
  match crf_cq_value self with
  | Some v => if 0 <=? v then v else 23
  | None => 23
  end.

(** A thread in quality mode with the value 30. *)
Definition quality_thread : ConversionThread :=
  {| files := ["a.mp4"]; codec := "AV1"; container := "MKV";
     rate_mode := "quality"; bitrate_kbps := None; crf_cq_value := Some 30;
     preset := "slow"; custom_output_dir := Some "out"; crop_settings := ∅;
     audio_copy := false; audio_codec := "Opus"; audio_bitrate := 160;
     smart_copy_when_same_codec := true |}.

(** ** Notions of the statements about whole runs *)

(** The output paths reported by "Completed" lines, in order. *)
Definition completions (sigs : list signal) : list string :=
  omap (fun s => match s with log_message (Completed p) _ => Some p | _ => None end) sigs.

(** A file's turn on which nothing goes wrong: no call of [stop], the
    file exists, the output path is found, the generator yields values
    within 0..100 and ends without exception. *)
Definition clean_job (jw : job_world) : Prop :=
  stop_before jw = false /\ file_exists jw = true
  /\ (exists out_path, resolved_out_path jw = Ok out_path)
  /\ (StopCalled ∉ ffmpeg_items jw)
  /\ Forall in_range (samples (ffmpeg_items jw))
  /\ ffmpeg_raises jw = None.

(** No two neighbours of the list are equal. *)
Fixpoint no_repeat (l : list Z) : Prop :=
  match l with
  | a :: (b :: _) as r => a <> b /\ no_repeat r
  | _ => True
  end.

(** What [probe] answers for a path that is not in the cache. *)
Definition first_probe (ffprobe : string -> result raw_info) (f : string) : ProbeInfo :=
  info (probe ffprobe ∅ f).

(** The values of a list of computations, or the first exception. *)
Fixpoint each_ok {A : Type} (l : list (result A)) : result (list A) :=
  match l with
  | [] => Ok []
  | Raise e :: _ => Raise e
  | Ok a :: rest => cons a <$> each_ok rest
  end.

(** The log lines that precede the batch loop. *)
Definition is_prelude (s : signal) : bool :=
  match s with
  | log_message (SelectedEncoder _) _ | log_message (UsingPreset _ _) _
  | log_message (FfprobeFailed _ _) _ => true
  | _ => false
  end.

(** No probe answers; both files convert. *)
Definition unprobed_world : world :=
  {| encoder_listing := None;
     ffprobe := fun _ => Raise ExternalError;
     job := job clean_world |}.

(** The first file is reported with an infinite duration. *)
Definition endless_world : world :=
  {| encoder_listing := None;
     ffprobe := fun f =>
       if decide (f = "a.mp4") then
         Ok {| format_duration := Some (Some (PyFloat (S754_infinity false)));
               streams := Some [] |}
       else two_probes f;
     job := job clean_world |}.

(** [stop] is called while the first file is converted. *)
Definition cancelled_world : world :=
  {| encoder_listing := None;
     ffprobe := two_probes;
     job := fun i =>
       {| stop_before := false; file_exists := true;
          resolved_out_path := Ok (out_of i);
          ffmpeg_items := [Yields (PyInt 0); Yields (PyInt 50); StopCalled;
                           Yields (PyInt 100)];
          ffmpeg_raises := None |} |}.

(** ** The list widget *)

(** [s.endswith(suffix)]: some tail of [s] is [suffix]. *)
Fixpoint endswith (s suffix : string) : bool :=
  if String.eqb s suffix then true
  else
    match s with
    | EmptyString => false
    | String _ r => endswith r suffix
    end.

Definition valid_extensions : list string := [".mp4"; ".mkv"; ".avi"; ".mov"].

(** A string of ASCII characters. *)
Definition is_ascii (s : string) : Prop :=
  Forall (fun c => code c < 128) (list_ascii_of_string s).

(** [DragDropListWidget.is_video_file] *)
Definition is_video_file (file_path : string) : bool :=
  existsb (endswith (lower file_path)) valid_extensions.

(** ** Comparing an [int] with a [float]

    Python compares the two numbers exactly; every comparison with a NaN
    is false. *)
Definition int_gt_float (n : Z) (x : spec_float) : bool :=
  match x with
  | S754_nan => false
  | S754_infinity s => s
  | S754_zero _ => 0 <? n
  | S754_finite s m e =>
      let v := cond_Zopp s (Z.pos m) in
      if 0 <=? e then v * 2 ^ e <? n else v <? n * 2 ^ (- e)
  end.

(** ** The main window *)

Module App.

Inductive status :=
| Ready
| ConvertingStatus.

(** The lines the window logs itself, by the f-string that builds them. *)
Inductive log_line :=
| AddedDropped (n : nat)
| ErrorGettingDuration (file : string) (e : exn).

(** The attributes and the widget contents the methods below read or
    write. *)
Record VideoConverterApp := {
  files : list string;
  crop_settings : gmap string (Z * Z);
  custom_output_dir : option string;
  conversion_thread : option ConversionThread;
  start_edit : string;
  end_edit : string;
  start_edit_enabled : bool;
  end_edit_enabled : bool;
  codec_av1 : bool;
  container_mp4 : bool;
  preset_combo : string;
  rate_mode_combo : Z;
  bitrate_edit : string;
  quality_edit : string;
  audio_copy_chk : bool;
  audio_codec_combo : string;
  audio_bitrate_edit : string;
  smart_copy_chk : bool;
  start_btn : bool;
  cancel_btn : bool;
  progress_bar : Z;
  current_file_label : string;
  status_bar : status;
}.

Definition set_files (v : list string) (self : VideoConverterApp) : VideoConverterApp :=
  {| files := v; crop_settings := crop_settings self;
     custom_output_dir := custom_output_dir self;
     conversion_thread := conversion_thread self;
     start_edit := start_edit self; end_edit := end_edit self;
     start_edit_enabled := start_edit_enabled self;
     end_edit_enabled := end_edit_enabled self;
     codec_av1 := codec_av1 self; container_mp4 := container_mp4 self;
     preset_combo := preset_combo self; rate_mode_combo := rate_mode_combo self;
     bitrate_edit := bitrate_edit self; quality_edit := quality_edit self;
     audio_copy_chk := audio_copy_chk self; audio_codec_combo := audio_codec_combo self;
     audio_bitrate_edit := audio_bitrate_edit self; smart_copy_chk := smart_copy_chk self;
     start_btn := start_btn self; cancel_btn := cancel_btn self;
     progress_bar := progress_bar self; current_file_label := current_file_label self;
     status_bar := status_bar self |}.

Definition set_crop_settings (v : gmap string (Z * Z)) (self : VideoConverterApp)
  : VideoConverterApp :=
  {| files := files self; crop_settings := v;
     custom_output_dir := custom_output_dir self;
     conversion_thread := conversion_thread self;
     start_edit := start_edit self; end_edit := end_edit self;
     start_edit_enabled := start_edit_enabled self;
     end_edit_enabled := end_edit_enabled self;
     codec_av1 := codec_av1 self; container_mp4 := container_mp4 self;
     preset_combo := preset_combo self; rate_mode_combo := rate_mode_combo self;
     bitrate_edit := bitrate_edit self; quality_edit := quality_edit self;
     audio_copy_chk := audio_copy_chk self; audio_codec_combo := audio_codec_combo self;
     audio_bitrate_edit := audio_bitrate_edit self; smart_copy_chk := smart_copy_chk self;
     start_btn := start_btn self; cancel_btn := cancel_btn self;
     progress_bar := progress_bar self; current_file_label := current_file_label self;
     status_bar := status_bar self |}.

(** [self.start_edit.setText(a)] and [self.end_edit.setText(b)] *)
Definition set_crop_edits (a b : string) (self : VideoConverterApp) : VideoConverterApp :=
  {| files := files self; crop_settings := crop_settings self;
     custom_output_dir := custom_output_dir self;
     conversion_thread := conversion_thread self;
     start_edit := a; end_edit := b;
     start_edit_enabled := start_edit_enabled self;
     end_edit_enabled := end_edit_enabled self;
     codec_av1 := codec_av1 self; container_mp4 := container_mp4 self;
     preset_combo := preset_combo self; rate_mode_combo := rate_mode_combo self;
     bitrate_edit := bitrate_edit self; quality_edit := quality_edit self;
     audio_copy_chk := audio_copy_chk self; audio_codec_combo := audio_codec_combo self;
     audio_bitrate_edit := audio_bitrate_edit self; smart_copy_chk := smart_copy_chk self;
     start_btn := start_btn self; cancel_btn := cancel_btn self;
     progress_bar := progress_bar self; current_file_label := current_file_label self;
     status_bar := status_bar self |}.

(** [self.start_edit.setEnabled(v)] and [self.end_edit.setEnabled(v)] *)
Definition set_crop_enabled (v : bool) (self : VideoConverterApp) : VideoConverterApp :=
  {| files := files self; crop_settings := crop_settings self;
     custom_output_dir := custom_output_dir self;
     conversion_thread := conversion_thread self;
     start_edit := start_edit self; end_edit := end_edit self;
     start_edit_enabled := v;
     end_edit_enabled := v;
     codec_av1 := codec_av1 self; container_mp4 := container_mp4 self;
     preset_combo := preset_combo self; rate_mode_combo := rate_mode_combo self;
     bitrate_edit := bitrate_edit self; quality_edit := quality_edit self;
     audio_copy_chk := audio_copy_chk self; audio_codec_combo := audio_codec_combo self;
     audio_bitrate_edit := audio_bitrate_edit self; smart_copy_chk := smart_copy_chk self;
     start_btn := start_btn self; cancel_btn := cancel_btn self;
     progress_bar := progress_bar self; current_file_label := current_file_label self;
     status_bar := status_bar self |}.

(** [self.bitrate_edit.setText(a)] and [self.quality_edit.setText(b)] *)
Definition set_rate_edits (a b : string) (self : VideoConverterApp) : VideoConverterApp :=
  {| files := files self; crop_settings := crop_settings self;
     custom_output_dir := custom_output_dir self;
     conversion_thread := conversion_thread self;
     start_edit := start_edit self; end_edit := end_edit self;
     start_edit_enabled := start_edit_enabled self;
     end_edit_enabled := end_edit_enabled self;
     codec_av1 := codec_av1 self; container_mp4 := container_mp4 self;
     preset_combo := preset_combo self; rate_mode_combo := rate_mode_combo self;
     bitrate_edit := a; quality_edit := b;
     audio_copy_chk := audio_copy_chk self; audio_codec_combo := audio_codec_combo self;
     audio_bitrate_edit := audio_bitrate_edit self; smart_copy_chk := smart_copy_chk self;
     start_btn := start_btn self; cancel_btn := cancel_btn self;
     progress_bar := progress_bar self; current_file_label := current_file_label self;
     status_bar := status_bar self |}.

(** The five statements of [start_conversion] before the thread is
    built. *)
Definition set_converting (self : VideoConverterApp) : VideoConverterApp :=
  {| files := files self; crop_settings := crop_settings self;
     custom_output_dir := custom_output_dir self;
     conversion_thread := conversion_thread self;
     start_edit := start_edit self; end_edit := end_edit self;
     start_edit_enabled := start_edit_enabled self;
     end_edit_enabled := end_edit_enabled self;
     codec_av1 := codec_av1 self; container_mp4 := container_mp4 self;
     preset_combo := preset_combo self; rate_mode_combo := rate_mode_combo self;
     bitrate_edit := bitrate_edit self; quality_edit := quality_edit self;
     audio_copy_chk := audio_copy_chk self; audio_codec_combo := audio_codec_combo self;
     audio_bitrate_edit := audio_bitrate_edit self; smart_copy_chk := smart_copy_chk self;
     start_btn := false; cancel_btn := true;
     progress_bar := 0; current_file_label := "";
     status_bar := ConvertingStatus |}.

Definition set_conversion_thread (t : option ConversionThread) (self : VideoConverterApp)
  : VideoConverterApp :=
  {| files := files self; crop_settings := crop_settings self;
     custom_output_dir := custom_output_dir self;
     conversion_thread := t;
     start_edit := start_edit self; end_edit := end_edit self;
     start_edit_enabled := start_edit_enabled self;
     end_edit_enabled := end_edit_enabled self;
     codec_av1 := codec_av1 self; container_mp4 := container_mp4 self;
     preset_combo := preset_combo self; rate_mode_combo := rate_mode_combo self;
     bitrate_edit := bitrate_edit self; quality_edit := quality_edit self;
     audio_copy_chk := audio_copy_chk self; audio_codec_combo := audio_codec_combo self;
     audio_bitrate_edit := audio_bitrate_edit self; smart_copy_chk := smart_copy_chk self;
     start_btn := start_btn self; cancel_btn := cancel_btn self;
     progress_bar := progress_bar self; current_file_label := current_file_label self;
     status_bar := status_bar self |}.

Definition get_codec (self : VideoConverterApp) : string :=
  if codec_av1 self then "AV1" else "H.265".

Definition get_container (self : VideoConverterApp) : string :=
  if container_mp4 self then "MP4" else "MKV".

(** [update_estimate], as far as the record goes: with files in the
    list, [get_bitrate] is called and may replace the bitrate text by
    its clamped value. The two estimate labels, and the lines logged for
    probes that fail, are not part of the record. *)
Definition update_estimate (self : VideoConverterApp) : VideoConverterApp :=
  match files self with
  | [] => self
  | _ :: _ =>
      set_rate_edits (edit_text (get_bitrate (bitrate_edit self))) (quality_edit self) self
  end.

(** [add_dropped_files]: the window afterwards and the line it logs. *)
Definition add_dropped_files (dropped : list string) (self : VideoConverterApp)
  : VideoConverterApp * list log_line :=
  let new_files := filter (fun f => f ∉ files self) dropped in
  (update_estimate (set_files (files self ++ new_files) self),
   match new_files with
   | [] => []
   | _ :: _ => [AddedDropped (length new_files)]
   end).

(** [select_files]: [chosen] is what the file dialog returns. *)
Definition select_files (chosen : list string) (self : VideoConverterApp)
  : VideoConverterApp :=
  let new_files := filter (fun f => f ∉ files self) chosen in
  update_estimate (set_files (files self ++ new_files) self).

Definition clear_list (self : VideoConverterApp) : VideoConverterApp :=
  update_estimate (set_crop_settings ∅ (set_files [] self)).

(** [l.remove(x)]: the first occurrence is taken out. *)
Fixpoint list_remove (x : string) (l : list string) : list string :=
  match l with
  | [] => []
  | y :: r => if decide (x = y) then r else y :: list_remove x r
  end.

(** One iteration of the loop over the selected items in
    [_file_list_menu]. *)
Definition remove_item (self : VideoConverterApp) (file : string) : VideoConverterApp :=
  let self :=
    if decide (file ∈ files self) then set_files (list_remove file (files self)) self
    else self in
  set_crop_settings (delete file (crop_settings self)) self.

Inductive menu_action :=
| RemoveSelected
| ClearAll
| NoAction.

(** [_file_list_menu]: [action] is what the user picks in the menu,
    [selected] the texts of the selected items. *)
Definition _file_list_menu (action : menu_action) (selected : list string)
    (self : VideoConverterApp) : VideoConverterApp :=
  match action with
  | RemoveSelected => update_estimate (foldl remove_item self selected)
  | ClearAll => clear_list self
  | NoAction => self
  end.

(** [float(info['format']['duration'])] *)
Definition strict_duration (info : raw_info) : result spec_float :=
  match format_duration info with
  | Some (Some v) => py_float v
  | _ => Raise KeyError
  end.

(** [update_crop_settings]: [selected] is the texts of the selected
    items. The window afterwards and the line logged. The two [setText]
    calls are written as updates of the fields: Qt runs this slot again
    at each of them, on the new texts, and these nested runs change
    nothing ([update_crop_settings_nested] below has them). *)
Definition update_crop_settings (ffprobe : string -> result raw_info)
    (selected : list string) (self : VideoConverterApp)
  : VideoConverterApp * list log_line :=
  if negb (start_edit_enabled self) then (self, [])
  else
    match selected with
    | [file] =>
        match parse_hhmmss (start_edit self), parse_hhmmss (end_edit self) with
        | Some start, Some end_ =>
            if end_ <=? start then (self, [])
            else
              match bind (ffprobe file) strict_duration with
              | Raise e => (self, [ErrorGettingDuration file e])
              | Ok duration =>
                  match
                    (if int_gt_float end_ duration then
                       bind (F64.to_int duration)
                         (fun e => Ok (e, seconds_to_hhmmss e))
                     else Ok (end_, end_edit self))
                  with
                  | Raise e => (self, [ErrorGettingDuration file e])
                  | Ok (end_, end_text) =>
                      let '(start, start_text) :=
                        if int_gt_float start duration then (0, "00:00:00")
                        else (start, start_edit self) in
                      let self := set_crop_edits start_text end_text self in
                      if end_ <=? start then (self, [])
                      else
                        (update_estimate
                           (set_crop_settings
                              (<[file := (start, end_)]> (crop_settings self)) self),
                         [])
                  end
              end
        | _, _ => (self, [])
        end
    | _ => (self, [])
    end.

(** [update_crop_settings] with its own [setText] calls as Qt runs
    them: a call that changes the text emits [textChanged], and [slot],
    the method connected to the signal, runs on the window as it is
    then, before the next statement. *)
Definition update_crop_settings_with
    (slot : VideoConverterApp -> VideoConverterApp * list log_line)
    (ffprobe : string -> result raw_info)
    (selected : list string) (self : VideoConverterApp)
  : VideoConverterApp * list log_line :=
  if negb (start_edit_enabled self) then (self, [])
  else
    match selected with
    | [file] =>
        match parse_hhmmss (start_edit self), parse_hhmmss (end_edit self) with
        | Some start, Some end_ =>
            if end_ <=? start then (self, [])
            else
              match bind (ffprobe file) strict_duration with
              | Raise e => (self, [ErrorGettingDuration file e])
              | Ok duration =>
                  match
                    (if int_gt_float end_ duration then
                       bind (F64.to_int duration)
                         (fun e =>
                            Ok (e,
                                if decide (end_edit self = seconds_to_hhmmss e)
                                then (self, [])
                                else slot (set_crop_edits (start_edit self)
                                             (seconds_to_hhmmss e) self)))
                     else Ok (end_, (self, [])))
                  with
                  | Raise e => (self, [ErrorGettingDuration file e])
                  | Ok (end_, (self, log1)) =>
                      let '(start, (self, log2)) :=
                        if int_gt_float start duration then
                          (0,
                           if decide (start_edit self = "00:00:00") then (self, [])
                           else slot (set_crop_edits "00:00:00" (end_edit self) self))
                        else (start, (self, [])) in
                      if end_ <=? start then (self, log1 ++ log2)
                      else
                        (update_estimate
                           (set_crop_settings
                              (<[file := (start, end_)]> (crop_settings self)) self),
                         log1 ++ log2)
                  end
              end
        | _, _ => (self, [])
        end
    | _ => (self, [])
    end.

(** The slot connected to itself, [depth] nested runs deep. *)
Fixpoint update_crop_settings_nested (depth : nat)
    (ffprobe : string -> result raw_info)
    (selected : list string) (self : VideoConverterApp)
  : VideoConverterApp * list log_line :=
  match depth with
  | O => (self, [])
  | S depth =>
      update_crop_settings_with (update_crop_settings_nested depth ffprobe selected)
        ffprobe selected self
  end.

(** [self.start_edit.setText(text)]: when the text changes, Qt emits
    [textChanged] and the slot [update_crop_settings] runs at once, on
    the window as it is then; [selected] is the selection at that
    moment. *)
Definition set_start_edit (ffprobe : string -> result raw_info)
    (selected : list string) (text : string) (self : VideoConverterApp)
  : VideoConverterApp * list log_line :=
  if decide (start_edit self = text) then (self, [])
  else update_crop_settings ffprobe selected (set_crop_edits text (end_edit self) self).

(** [self.end_edit.setText(text)], likewise. *)
Definition set_end_edit (ffprobe : string -> result raw_info)
    (selected : list string) (text : string) (self : VideoConverterApp)
  : VideoConverterApp * list log_line :=
  if decide (end_edit self = text) then (self, [])
  else update_crop_settings ffprobe selected (set_crop_edits (start_edit self) text self).

(** [update_crop_inputs]: [selected] is the texts of the selected items.
    The window afterwards and the lines logged. The two texts are set
    while the fields are still enabled or disabled as the previous
    selection left them, so that [update_crop_settings] may store a range
    on the way; with no single selection the fields are disabled first
    and the slot does nothing. *)
Definition update_crop_inputs (ffprobe : string -> result raw_info)
    (selected : list string) (self : VideoConverterApp)
  : VideoConverterApp * list log_line :=
  match selected with
  | [file] =>
      if decide (file ∈ files self) then
        match bind (ffprobe file) strict_duration with
        | Raise e => (set_crop_enabled false self, [ErrorGettingDuration file e])
        | Ok duration =>
            match
              match crop_settings self !! file with
              | Some (start, end_) =>
                  Ok (seconds_to_hhmmss start, seconds_to_hhmmss end_)
              | None =>
                  bind (F64.to_int duration)
                    (fun d => Ok ("00:00:00", seconds_to_hhmmss d))
              end
            with
            | Raise e => (set_crop_enabled false self, [ErrorGettingDuration file e])
            | Ok (start_str, end_str) =>
                let '(self, log1) := set_start_edit ffprobe selected start_str self in
                let '(self, log2) := set_end_edit ffprobe selected end_str self in
                (set_crop_enabled true self, log1 ++ log2)
            end
        end
      else (self, [])
  | _ => (set_crop_edits "00:00:00" "00:00:00" (set_crop_enabled false self), [])
  end.

(** [dropEvent] of the list widget: [has_urls] is
    [event.mimeData().hasUrls()], [local_files] the local paths of the
    URLs. *)
Definition dropEvent (has_urls : bool) (local_files : list string)
    (self : VideoConverterApp) : VideoConverterApp * list log_line :=
  if has_urls then
    match filter (fun f => is_video_file f = true) local_files with
    | [] => (self, [])
    | added_files => add_dropped_files added_files self
    end
  else (self, []).

(** How [start_conversion] ends. *)
Inductive started :=
| AlreadyRunning
| NoFiles
| NoRate
| Failed (e : exn)
| Started (thread : ConversionThread).

(** [start_conversion]: [is_running] is [conversion_thread.isRunning()].
    The window afterwards, whether a getter showed its warning box, and
    how the method ends. *)
Definition start_conversion (is_running : bool) (self : VideoConverterApp)
  : VideoConverterApp * bool * started :=
  if bool_decide (is_Some (conversion_thread self)) && is_running
  then (self, false, AlreadyRunning)
  else
    match files self with
    | [] => (self, false, NoFiles)
    | _ :: _ =>
        let rate_mode := if rate_mode_combo self =? 0 then "bitrate" else "quality" in
        let b := get_bitrate (bitrate_edit self) in
        let q := get_quality_value (quality_edit self) (codec_av1 self) in
        let '(self, warn, bitrate, crf_cq) :=
          if rate_mode_combo self =? 0
          then (set_rate_edits (edit_text b) (quality_edit self) self, warned b,
                value b, None)
          else (set_rate_edits (bitrate_edit self) (edit_text q) self, warned q,
                None, value q) in
        match (if rate_mode_combo self =? 0 then bitrate else crf_cq) with
        | None => (self, warn, NoRate)
        | Some _ =>
            let self := set_converting self in
            match int_of_str (audio_bitrate_edit self) with
            | None => (self, warn, Failed ValueError)
            | Some audio_kbps =>
                let thread :=
                  Build_ConversionThread (files self) (get_codec self)
                    (get_container self) rate_mode bitrate crf_cq (preset_combo self)
                    (custom_output_dir self) (crop_settings self)
                    (audio_copy_chk self) (audio_codec_combo self) audio_kbps
                    (smart_copy_chk self) in
                (set_conversion_thread (Some thread) self, warn, Started thread)
            end
        end
    end.

(** The states of the file list and the crop ranges the methods can
    lead to from the empty window, whatever the user does. *)
Inductive reachable : list string -> gmap string (Z * Z) -> Prop :=
| reach_init : reachable [] ∅
| reach_add dropped self :
    reachable (files self) (crop_settings self) ->
    reachable (files (add_dropped_files dropped self).1)
      (crop_settings (add_dropped_files dropped self).1)
| reach_select chosen self :
    reachable (files self) (crop_settings self) ->
    reachable (files (select_files chosen self)) (crop_settings (select_files chosen self))
| reach_menu action selected self :
    reachable (files self) (crop_settings self) ->
    reachable (files (_file_list_menu action selected self))
      (crop_settings (_file_list_menu action selected self))
| reach_clear self :
    reachable (files self) (crop_settings self) ->
    reachable (files (clear_list self)) (crop_settings (clear_list self))
| reach_crop ffprobe selected self :
    reachable (files self) (crop_settings self) ->
    reachable (files (update_crop_settings ffprobe selected self).1)
      (crop_settings (update_crop_settings ffprobe selected self).1)
| reach_drop has_urls local_files self :
    reachable (files self) (crop_settings self) ->
    reachable (files (dropEvent has_urls local_files self).1)
      (crop_settings (dropEvent has_urls local_files self).1).

(** [__init__]: the window as it opens (a progress bar of Qt starts
    at -1, below its range). *)
Definition initial : VideoConverterApp :=
  {| files := []; crop_settings := ∅; custom_output_dir := None;
     conversion_thread := None;
     start_edit := "00:00:00"; end_edit := "00:00:00";
     start_edit_enabled := false; end_edit_enabled := false;
     codec_av1 := false; container_mp4 := true;
     preset_combo := "medium"; rate_mode_combo := 0;
     bitrate_edit := "2000"; quality_edit := "23";
     audio_copy_chk := true; audio_codec_combo := "AAC";
     audio_bitrate_edit := "160"; smart_copy_chk := true;
     start_btn := true; cancel_btn := false;
     progress_bar := -1; current_file_label := "";
     status_bar := Ready |}.

End App.

(** The window after a file was added and the end of its crop range was
    typed beyond the duration of the file. *)
Definition cropping_window : App.VideoConverterApp :=
  App.set_crop_edits "00:00:10" "00:05:00"
    (App.set_crop_enabled true (App.add_dropped_files ["a.mp4"] App.initial).1).

(** The window with one file and an empty audio bitrate field. *)
Definition blank_audio_window : App.VideoConverterApp :=
  {| App.files := ["a.mp4"]; App.crop_settings := ∅; App.custom_output_dir := None;
     App.conversion_thread := None;
     App.start_edit := "00:00:00"; App.end_edit := "00:00:00";
     App.start_edit_enabled := false; App.end_edit_enabled := false;
     App.codec_av1 := false; App.container_mp4 := true;
     App.preset_combo := "medium"; App.rate_mode_combo := 0;
     App.bitrate_edit := "2000"; App.quality_edit := "23";
     App.audio_copy_chk := false; App.audio_codec_combo := "AAC";
     App.audio_bitrate_edit := ""; App.smart_copy_chk := true;
     App.start_btn := true; App.cancel_btn := false;
     App.progress_bar := -1; App.current_file_label := "";
     App.status_bar := App.Ready |}.

(** The window with one file, as it opens otherwise. *)
Definition one_file_window : App.VideoConverterApp :=
  (App.add_dropped_files ["a.mp4"] App.initial).1.

(** The thread [start_conversion] builds from it. *)
Definition one_file_thread : ConversionThread :=
  {| files := ["a.mp4"]; codec := "H.265"; container := "MP4";
     rate_mode := "bitrate"; bitrate_kbps := Some 2000; crf_cq_value := None;
     preset := "medium"; custom_output_dir := None; crop_settings := ∅;
     audio_copy := true; audio_codec := "AAC"; audio_bitrate := 160;
     smart_copy_when_same_codec := true |}.

(** The window after the crop range of the example was stored. *)
Definition cropped_window : App.VideoConverterApp :=
  (App.update_crop_settings two_probes ["a.mp4"] cropping_window).1.

(** Two files are added, the first is selected and its start is typed
    as ten seconds. *)
Definition first_cropped_window : App.VideoConverterApp :=
  let w := (App.add_dropped_files ["a.mp4"; "b.mp4"] App.initial).1 in
  let w := (App.update_crop_inputs two_probes ["a.mp4"] w).1 in
  (App.set_start_edit two_probes ["a.mp4"] "00:00:10" w).1.

(** A video (audio, ...) stream with a codec name that is not empty. *)
Definition names_codec (kind : string) (stream : raw_stream) : bool :=
  bool_decide (codec_type stream = Some kind) && negb (falsy (codec_name stream)).

(** A word: not empty and without blank. *)
Definition word (s : string) : Prop :=
  s <> "" /\ Forall (fun c => is_space c = false) (list_ascii_of_string s).

(** The line feed. *)
Definition LF : string := String (ascii_of_nat 10) "".

(** * Properties *)

(** ** Encoder selection *)

Example choose_av1_demo :
  choose_encoder "AV1" (available_encoders (Some " V..... libx265 x
 V..... libsvtav1 y
Encoders:
 V")) = "libsvtav1".
Proof. vm_compute. reflexivity. Qed.

Lemma choose_encoder_known codec encoders :
  choose_encoder codec encoders
    ∈ ["hevc_nvenc"; "libx265"; "av1_nvenc"; "libsvtav1"; "libaom-av1"].
Proof.
  unfold choose_encoder; repeat case_decide; in_list.
Qed.

(** C8. For the family "AV1", [choose_encoder] returns av1_nvenc when it
    is listed, else libsvtav1 when that is listed, else libaom-av1; for
    "H.265" it returns hevc_nvenc when listed and else libx265. When the
    enumeration of the encoders fails the list is empty and the last
    fallback of the family is chosen. Some encoder is always returned. *)
Theorem choose_encoder_policy (encoders : list string) :
  ("av1_nvenc" ∈ encoders -> choose_encoder "AV1" encoders = "av1_nvenc")
  /\ ("av1_nvenc" ∉ encoders -> "libsvtav1" ∈ encoders ->
      choose_encoder "AV1" encoders = "libsvtav1")
  /\ ("av1_nvenc" ∉ encoders -> "libsvtav1" ∉ encoders ->
      choose_encoder "AV1" encoders = "libaom-av1")
  /\ ("hevc_nvenc" ∈ encoders -> choose_encoder "H.265" encoders = "hevc_nvenc")
  /\ ("hevc_nvenc" ∉ encoders -> choose_encoder "H.265" encoders = "libx265")
  /\ available_encoders None = []
  /\ choose_encoder "AV1" (available_encoders None) = "libaom-av1"
  /\ choose_encoder "H.265" (available_encoders None) = "libx265"
  /\ (forall codec,
        choose_encoder codec encoders
          ∈ ["hevc_nvenc"; "libx265"; "av1_nvenc"; "libsvtav1"; "libaom-av1"]).
Proof.
  unfold choose_encoder.
  repeat split; intros; repeat case_decide;
    first [ done | by apply choose_encoder_known | in_list ].
Qed.

(** ** Preset mapping *)

Lemma nvenc_map_unknown (p : string) : p ∉ ui_presets -> nvenc_map !! p = None.
Proof.
  intros H. apply not_elem_of_list_to_map_1. simpl. exact H.
Qed.

Lemma svt_map_unknown (p : string) : p ∉ ui_presets -> svt_map !! p = None.
Proof.
  intros H. apply not_elem_of_list_to_map_1. simpl. exact H.
Qed.

(** C6, as the code has it. For hevc_nvenc, av1_nvenc and libsvtav1 a
    preset outside the nine levels maps to the token of "medium"; for any
    other encoder it is returned unchanged. [map_preset] is total: it
    raises nothing. *)
Theorem map_preset_unknown (encoder p : string) :
  p ∉ ui_presets ->
  (encoder ∈ ["hevc_nvenc"; "av1_nvenc"; "libsvtav1"] ->
   map_preset encoder p = map_preset encoder "medium")
  /\ (encoder ∉ ["hevc_nvenc"; "av1_nvenc"; "libsvtav1"] ->
      map_preset encoder p = p).
Proof.
  intros Hp. unfold map_preset, is_nvenc. split; intros He.
  - case_bool_decide as Hn.
    + rewrite (nvenc_map_unknown p Hp). reflexivity.
    + case_decide as Hs.
      * rewrite (svt_map_unknown p Hp). subst encoder. reflexivity.
      * in_list.
  - case_bool_decide as Hn; [in_list|].
    case_decide as Hs; [in_list|]. reflexivity.
Qed.

Lemma map_preset_unknown_witness :
  map_preset "hevc_nvenc" "placebo" = map_preset "hevc_nvenc" "medium"
  /\ map_preset "libx265" "placebo" = "placebo".
Proof.
  assert (Hp : "placebo" ∉ ui_presets) by (unfold ui_presets; in_list).
  split.
  - apply (map_preset_unknown "hevc_nvenc" "placebo" Hp). in_list.
  - apply (map_preset_unknown "libx265" "placebo" Hp). in_list.
Defined.

(** C6 fails as stated: libx265 passes an unknown preset through, which
    is not the token "medium" maps to. *)
Lemma map_preset_unknown_passthrough :
  ("placebo" ∉ ui_presets)
  /\ map_preset "libx265" "placebo" = "placebo"
  /\ map_preset "libx265" "medium" = "medium"
  /\ map_preset "libx265" "placebo" <> map_preset "libx265" "medium".
Proof.
  repeat split; try (vm_compute; reflexivity).
  - unfold ui_presets. in_list.
  - vm_compute. discriminate.
Qed.

(** C7. On libsvtav1 the nine levels map to numbers that strictly
    decrease from "ultrafast" to "veryslow": a faster preset has the
    higher number. *)
Theorem svt_preset_monotone (i j : nat) (a b : string) :
  ui_presets !! i = Some a ->
  ui_presets !! j = Some b ->
  (i < j)%nat ->
  exists x y : Z,
    int_of_str (map_preset "libsvtav1" a) = Some x
    /\ int_of_str (map_preset "libsvtav1" b) = Some y
    /\ y < x.
Proof.
  intros Ha Hb Hij.
  assert (Hj : (j < 9)%nat) by (apply lookup_lt_Some in Hb; exact Hb).
  destruct i as [|[|[|[|[|[|[|[|[|i]]]]]]]]]; try lia;
    destruct j as [|[|[|[|[|[|[|[|[|j]]]]]]]]]; try lia;
    simpl in Ha, Hb; injection Ha as <-; injection Hb as <-;
    eexists _, _;
    (split; [ vm_compute; reflexivity | split; [ vm_compute; reflexivity | lia ] ]).
Qed.

Lemma svt_preset_monotone_witness :
  exists x y : Z,
    int_of_str (map_preset "libsvtav1" "veryfast") = Some x
    /\ int_of_str (map_preset "libsvtav1" "slow") = Some y
    /\ y < x.
Proof.
  apply (svt_preset_monotone 2 6); [ reflexivity | reflexivity | lia ].
Defined.

(** ** Clamping getters *)

Lemma clamp_bounds (v lo hi : Z) : lo <= hi -> lo <= _clamp v lo hi <= hi.
Proof. unfold _clamp. lia. Qed.

Lemma get_clamped_value (text : string) (bounds : Z * Z) (v : Z) :
  int_of_str (strip text) = Some v ->
  get_clamped text bounds =
    {| value := Some (_clamp v bounds.1 bounds.2);
       edit_text :=
         if decide (v = _clamp v bounds.1 bounds.2) then text
         else str_of_int (_clamp v bounds.1 bounds.2);
       warned := false |}.
Proof.
  intros Hv. unfold get_clamped. destruct bounds as [lo hi]. simpl.
  case_decide as He.
  - rewrite He in Hv. discriminate Hv.
  - rewrite Hv. reflexivity.
Qed.

Lemma get_clamped_some (text : string) (bounds : Z * Z) (r : Z) :
  value (get_clamped text bounds) = Some r ->
  exists v, int_of_str (strip text) = Some v /\ r = _clamp v bounds.1 bounds.2.
Proof.
  unfold get_clamped. destruct bounds as [lo hi]. simpl.
  case_decide as He; [ discriminate | ].
  destruct (int_of_str (strip text)) as [v|]; [ | discriminate ].
  simpl. intros [= <-]. exists v. split; reflexivity.
Qed.

(** C4. The getters clamp and never reject an integer: 100 resolves to
    51 under HEVC and a bitrate of 10 to 50; every resolved value lies
    within the bounds; an integer input always resolves, to its clamped
    value, and when clamping changed it the line edit is set to the
    clamped value that is returned. *)
Theorem getters_clamp :
  value (get_quality_value "100" false) = Some 51
  /\ edit_text (get_quality_value "100" false) = "51"
  /\ value (get_bitrate "10") = Some 50
  /\ edit_text (get_bitrate "10") = "50"
  /\ (forall text r, value (get_bitrate text) = Some r ->
        BITRATE_MIN_KBPS <= r <= BITRATE_MAX_KBPS)
  /\ (forall (text : string) (av1 : bool) (r : Z), value (get_quality_value text av1) = Some r ->
        CRF_MIN <= r <= (if av1 then CRF_MAX_AV1 else CRF_MAX_HEVC))
  /\ (forall text v, int_of_str (strip text) = Some v ->
        let r := _clamp v BITRATE_MIN_KBPS BITRATE_MAX_KBPS in
        value (get_bitrate text) = Some r
        /\ warned (get_bitrate text) = false
        /\ (v <> r -> edit_text (get_bitrate text) = str_of_int r)
        /\ (v = r -> edit_text (get_bitrate text) = text))
  /\ (forall (text : string) (av1 : bool) (v : Z), int_of_str (strip text) = Some v ->
        let r := _clamp v CRF_MIN (if av1 then CRF_MAX_AV1 else CRF_MAX_HEVC) in
        value (get_quality_value text av1) = Some r
        /\ warned (get_quality_value text av1) = false
        /\ (v <> r -> edit_text (get_quality_value text av1) = str_of_int r)
        /\ (v = r -> edit_text (get_quality_value text av1) = text)).
Proof.
  split; [ vm_compute; reflexivity | ].
  split; [ vm_compute; reflexivity | ].
  split; [ vm_compute; reflexivity | ].
  split; [ vm_compute; reflexivity | ].
  split; [ | split; [ | split ] ].
  - intros text r Hr. apply get_clamped_some in Hr as (v & _ & ->).
    apply clamp_bounds. vm_compute. discriminate.
  - intros text av1 r Hr. apply get_clamped_some in Hr as (v & _ & ->).
    apply clamp_bounds. destruct av1; vm_compute; discriminate.
  - intros text v Hv r. unfold get_bitrate.
    rewrite (get_clamped_value _ _ _ Hv). simpl. fold r.
    repeat split; intros; case_decide; congruence.
  - intros text av1 v Hv r. unfold get_quality_value.
    rewrite (get_clamped_value _ _ _ Hv). simpl. fold r.
    repeat split; intros; case_decide; congruence.
Qed.

(** ** Probing and its cache *)

Lemma probe_cached ffprobe (c : gmap string ProbeInfo) (file : string) (pi : ProbeInfo) :
  c !! file = Some pi ->
  probe ffprobe c file = {| info := pi; cache := c; emitted := []; invoked := [] |}.
Proof. intros H. unfold probe. rewrite H. reflexivity. Qed.

Lemma probe_stores ffprobe (c : gmap string ProbeInfo) (file : string) :
  cache (probe ffprobe c file) !! file = Some (info (probe ffprobe c file)).
Proof.
  unfold probe. destruct (c !! file) as [pi|] eqn:Hc; simpl.
  - exact Hc.
  - destruct (bind (ffprobe file) read_info); simpl; apply lookup_insert_eq.
Qed.

Lemma probe_keeps ffprobe (c : gmap string ProbeInfo) (f file : string) (pi : ProbeInfo) :
  c !! file = Some pi -> cache (probe ffprobe c f) !! file = Some pi.
Proof.
  intros H. unfold probe. destruct (c !! f) as [pf|] eqn:Hc; simpl.
  - exact H.
  - assert (f <> file) by congruence.
    destruct (bind (ffprobe f) read_info); simpl;
      rewrite lookup_insert_ne by assumption; exact H.
Qed.

Lemma cache_after_keeps ffprobe (fs : list string) (c : gmap string ProbeInfo)
    (file : string) (pi : ProbeInfo) :
  c !! file = Some pi -> cache_after ffprobe c fs !! file = Some pi.
Proof.
  revert c. induction fs as [|f fs IH]; intros c H; simpl.
  - exact H.
  - apply IH. apply probe_keeps. exact H.
Qed.

(** C9. When probing fails ([ffmpeg.probe] or the reading of its answer
    raises), [probe] returns the sentinel (duration 0.0, the codec and
    bitrate fields [None]) and emits one red log line; being a total
    function it hands no exception to its caller. Once [probe] has
    answered for a path, any later call for that path, whatever was
    probed in between and whatever the tool would answer now, returns
    the same [ProbeInfo] from the cache, emits nothing and does not
    invoke [ffmpeg.probe]. *)
Theorem probe_contract (ffprobe ffprobe' : string -> result raw_info)
    (c : gmap string ProbeInfo) (file : string) (between : list string) :
  let p := probe ffprobe c file in
  (forall e, c !! file = None -> bind (ffprobe file) read_info = Raise e ->
     info p = sentinel
     /\ emitted p = [log_message (FfprobeFailed file e) "red"]
     /\ cache p !! file = Some sentinel)
  /\ duration sentinel = S754_zero false
  /\ vcodec sentinel = None
  /\ acodec sentinel = None
  /\ audio_bitrate_kbps sentinel = None
  /\ (let c' := cache_after ffprobe' (cache p) between in
      probe ffprobe' c' file =
        {| info := info p; cache := c'; emitted := []; invoked := [] |}).
Proof.
  intros p. split; [ | repeat split ].
  - intros e Hc He. subst p. unfold probe. rewrite Hc, He. simpl.
    repeat split. apply lookup_insert_eq.
  - intros c'. apply probe_cached. subst c'.
    apply cache_after_keeps. apply probe_stores.
Qed.

(** ** Command construction *)

Lemma string_of_uint_head (d : Decimal.uint) :
  d <> Decimal.Nil ->
  exists c r, NilZero.string_of_uint d = String c r /\ is_Some (digit_of c).
Proof.
  intros Hd. destruct d; [ congruence | .. ];
    simpl; eexists _, _; (split; [ reflexivity | vm_compute; eauto ]).
Qed.

Lemma str_of_int_shape (z : Z) :
  exists c r, str_of_int z = String c r
    /\ (is_Some (digit_of c)
        \/ (code c = 45 /\ exists c2 r2, r = String c2 r2 /\ is_Some (digit_of c2))).
Proof.
  unfold str_of_int. destruct z as [|p|p]; simpl.
  - eexists _, _. split; [ reflexivity | left; vm_compute; eauto ].
  - destruct (string_of_uint_head (Pos.to_uint p)) as (c & r & E & Hc).
    { apply Stdlib.Numbers.DecimalPos.Unsigned.to_uint_nonnil. }
    exists c, r. split; [ exact E | left; exact Hc ].
  - destruct (string_of_uint_head (Pos.to_uint p)) as (c & r & E & Hc).
    { apply Stdlib.Numbers.DecimalPos.Unsigned.to_uint_nonnil. }
    eexists _, _. split; [ reflexivity | right ].
    split; [ reflexivity | ]. exists c, r. split; [ exact E | exact Hc ].
Qed.

Lemma digit_not_dash (c : ascii) : is_Some (digit_of c) -> code c <> 45.
Proof.
  unfold digit_of. intros [d Hd] Hc. rewrite Hc in Hd. discriminate Hd.
Qed.

Lemma str_of_int_not_flag (z : Z) (suffix : string) :
  flag_like (str_of_int z +:+ suffix) = false.
Proof.
  destruct (str_of_int_shape z) as (c & r & -> & [Hc | (Hc & c2 & r2 & -> & Hc2)]).
  - simpl. destruct (r +:+ suffix); [ reflexivity | ].
    apply digit_not_dash in Hc. apply Z.eqb_neq in Hc. rewrite Hc. reflexivity.
  - simpl. rewrite bool_decide_eq_true_2 by exact Hc2.
    rewrite andb_false_r. reflexivity.
Qed.

Lemma str_of_int_no_flag (z : Z) (suffix flag : string) :
  flag_like flag = true -> flag <> str_of_int z +:+ suffix.
Proof.
  intros Hf ->. rewrite str_of_int_not_flag in Hf. discriminate Hf.
Qed.

Lemma append_empty (s : string) : s +:+ "" = s.
Proof.
  induction s as [|c r IH]; [ reflexivity | ].
  change (String c (r +:+ "") = String c r). rewrite IH. reflexivity.
Qed.

Lemma str_of_int_no_flag' (z : Z) (flag : string) :
  flag_like flag = true -> flag <> str_of_int z.
Proof.
  intros Hf E. apply (str_of_int_no_flag z "" flag Hf).
  rewrite append_empty. exact E.
Qed.

(** Case analysis on the membership of a token in an explicit argument
    list. *)
Ltac in_cmd H :=
  repeat first
    [ apply elem_of_app in H as [H | H]
    | apply elem_of_cons in H as [H | H]
    | apply elem_of_nil in H; destruct H ].

Ltac not_a_flag :=
  first
    [ discriminate
    | exfalso; eapply str_of_int_no_flag'; [ | eassumption ]; reflexivity
    | exfalso; eapply str_of_int_no_flag; [ | eassumption ]; reflexivity ].

Lemma build_cmd_copy self file pinfo out_path encoder mapped_preset :
  do_stream_copy self pinfo = true ->
  build_cmd self file pinfo out_path encoder mapped_preset =
    Ok ((["ffmpeg"; "-hide_banner"; "-nostats"]
         ++ match crop_settings self !! file with
            | Some (start, _) => ["-ss"; str_of_int start]
            | None => []
            end
         ++ ["-i"; file]
         ++ match crop_settings self !! file with
            | Some (_, end_) => ["-to"; str_of_int end_]
            | None => []
            end
         ++ ["-map"; "0"]
         ++ (if decide (upper (container self) = "MP4")
             then ["-movflags"; "+faststart"] else []))
        ++ ["-c"; "copy"] ++ ["-progress"; "pipe:2"; out_path]).
Proof.
  intros H. unfold build_cmd. rewrite H.
  destruct (crop_settings self !! file) as [[start end_]|];
    destruct (decide (upper (container self) = "MP4")); reflexivity.
Qed.

(** C3. With smart copy enabled and a probed video codec that equals
    the desired one, the argument list is built, contains the directive
    [-c copy], and contains none of the preset and rate-control options:
    such a token can only occur as the input or the output path itself.
    Nothing is assumed about the crop range of the file. *)
Theorem stream_copy_fast_path (self : ConversionThread) (file : string)
    (pinfo : ProbeInfo) (out_path encoder mapped_preset : string) :
  smart_copy_when_same_codec self = true ->
  lower (default "" (vcodec pinfo)) = desired_vcodec self ->
  exists cmd,
    build_cmd self file pinfo out_path encoder mapped_preset = Ok cmd
    /\ (exists pre post, cmd = pre ++ ["-c"; "copy"] ++ post)
    /\ (forall flag, flag ∈ rate_preset_flags -> flag ∈ cmd ->
          flag = file \/ flag = out_path).
Proof.
  intros Hsmart Hcodec.
  assert (Hcopy : do_stream_copy self pinfo = true).
  { unfold do_stream_copy. rewrite Hsmart. simpl.
    apply bool_decide_eq_true_2. exact Hcodec. }
  eexists. split; [ apply build_cmd_copy; exact Hcopy | ].
  split; [ eexists _, _; reflexivity | ].
  intros flag Hflag Hin. unfold rate_preset_flags in Hflag.
  destruct (crop_settings self !! file) as [[start end_]|];
    destruct (decide (upper (container self) = "MP4"));
    in_cmd Hflag; subst flag; in_cmd Hin;
    first [ left; assumption | right; assumption | not_a_flag ].
Qed.

Lemma stream_copy_fast_path_witness :
  exists cmd,
    build_cmd
      {| files := ["/v/a.mkv"]; codec := "H.265"; container := "MKV";
         rate_mode := "bitrate"; bitrate_kbps := Some 2000; crf_cq_value := None;
         preset := "medium"; custom_output_dir := None;
         crop_settings := {[ "/v/a.mkv" := (10, 70) ]};
         audio_copy := true; audio_codec := "AAC"; audio_bitrate := 128;
         smart_copy_when_same_codec := true |}
      "/v/a.mkv"
      {| duration := F64.of_Z 90; vcodec := Some "HEVC"; acodec := None;
         audio_bitrate_kbps := None |}
      "/v/a_converted.mkv" "libx265" "medium" = Ok cmd
    /\ (exists pre post, cmd = pre ++ ["-c"; "copy"] ++ post)
    /\ (forall flag, flag ∈ rate_preset_flags -> flag ∈ cmd ->
          flag = "/v/a.mkv" \/ flag = "/v/a_converted.mkv").
Proof.
  apply stream_copy_fast_path; vm_compute; reflexivity.
Defined.

Example stream_copy_cropped :
  build_cmd
    {| files := ["/v/a.mkv"]; codec := "H.265"; container := "MKV";
       rate_mode := "bitrate"; bitrate_kbps := Some 2000; crf_cq_value := None;
       preset := "medium"; custom_output_dir := None;
       crop_settings := {[ "/v/a.mkv" := (10, 70) ]};
       audio_copy := true; audio_codec := "AAC"; audio_bitrate := 128;
       smart_copy_when_same_codec := true |}
    "/v/a.mkv"
    {| duration := F64.of_Z 90; vcodec := Some "HEVC"; acodec := None;
       audio_bitrate_kbps := None |}
    "/v/a_converted.mkv" "libx265" "medium"
  = Ok ["ffmpeg"; "-hide_banner"; "-nostats"; "-ss"; "10"; "-i"; "/v/a.mkv";
        "-to"; "70"; "-map"; "0"; "-c"; "copy"; "-progress"; "pipe:2";
        "/v/a_converted.mkv"].
Proof. vm_compute. reflexivity. Qed.

Lemma svt_token (p : string) :
  default "6" (svt_map !! p) ∈ ["13"; "12"; "10"; "9"; "8"; "6"; "4"; "3"; "2"].
Proof.
  destruct (svt_map !! p) as [v|] eqn:E; simpl; [ | in_list ].
  apply elem_of_list_to_map_2 in E. simpl in E.
  in_cmd E; injection E as _ <-; in_list.
Qed.

Lemma build_cmd_encode self file pinfo out_path encoder mapped_preset rate :
  do_stream_copy self pinfo = false ->
  rate_flags self encoder = Ok rate ->
  build_cmd self file pinfo out_path encoder mapped_preset =
    Ok ((["ffmpeg"; "-hide_banner"; "-nostats"]
         ++ match crop_settings self !! file with
            | Some (start, _) => ["-ss"; str_of_int start]
            | None => []
            end
         ++ ["-i"; file]
         ++ match crop_settings self !! file with
            | Some (_, end_) => ["-to"; str_of_int end_]
            | None => []
            end
         ++ ["-map"; "0"]
         ++ (if decide (upper (container self) = "MP4")
             then ["-movflags"; "+faststart"] else [])
         ++ ["-c:v"; encoder; "-preset"; mapped_preset])
        ++ rate
        ++ (audio_flags self ++ ["-c:s"; "copy"; "-progress"; "pipe:2"; out_path])).
Proof.
  intros H Hr. unfold build_cmd. rewrite H, Hr.
  destruct (crop_settings self !! file) as [[start end_]|];
    destruct (decide (upper (container self) = "MP4")); simpl;
    repeat rewrite <- app_assoc; reflexivity.
Qed.

(** C5, as the code has it. In bitrate mode, with the clamped value of
    [get_bitrate] as the bitrate, the command is always built. For a file
    that is not stream-copied the command of an NVENC encoder carries
    [-rc:v vbr], the target bitrate, a max-rate equal to the target and a
    buffer size of twice the target; the command of a software encoder
    carries the plain [-b:v] target and no max-rate, buffer-size or
    rate-control option (such a token can only be the input path, the
    output path or the preset string handed through). For a file that is
    stream-copied (smart copy with a source of the target codec family)
    the command carries [-c copy] and no bitrate option at all, whatever
    the encoder. *)
Theorem bitrate_mode_flags (self : ConversionThread) (file : string)
    (pinfo : ProbeInfo) (out_path : string) (encoders : list string)
    (bitrate_edit : string) (kbps : Z) :
  rate_mode self = "bitrate" ->
  value (get_bitrate bitrate_edit) = Some kbps ->
  bitrate_kbps self = Some kbps ->
  let encoder := choose_encoder (codec self) encoders in
  let mapped_preset := map_preset encoder (preset self) in
  let b := str_of_int kbps +:+ "k" in
  exists cmd,
    build_cmd self file pinfo out_path encoder mapped_preset = Ok cmd
    /\ (do_stream_copy self pinfo = false ->
        (encoder ∈ ["hevc_nvenc"; "av1_nvenc"] ->
         exists pre post,
           cmd = pre
                 ++ ["-rc:v"; "vbr"; "-b:v"; b; "-maxrate"; b;
                     "-bufsize"; str_of_int (2 * kbps) +:+ "k"]
                 ++ post)
        /\ (encoder ∉ ["hevc_nvenc"; "av1_nvenc"] ->
            (exists pre post, cmd = pre ++ ["-b:v"; b] ++ post)
            /\ (forall flag, flag ∈ ["-maxrate"; "-bufsize"; "-rc:v"] -> flag ∈ cmd ->
                  flag = file \/ flag = out_path \/ flag = preset self)))
    /\ (do_stream_copy self pinfo = true ->
        (exists pre post, cmd = pre ++ ["-c"; "copy"] ++ post)
        /\ (forall flag, flag ∈ ["-b:v"; "-maxrate"; "-bufsize"; "-rc:v"] -> flag ∈ cmd ->
              flag = file \/ flag = out_path)).
Proof.
  intros Hmode Hget Hkbps encoder mapped_preset b.
  assert (Hpos : (kbps <=? 0) = false).
  { apply get_clamped_some in Hget as (v & _ & ->).
    pose proof (clamp_bounds v BITRATE_MIN_KBPS BITRATE_MAX_KBPS) as Hb.
    unfold bitrate_bounds, BITRATE_MIN_KBPS, BITRATE_MAX_KBPS in *. simpl. lia. }
  destruct (do_stream_copy self pinfo) eqn:Hcopy.
  { eexists. split; [ apply build_cmd_copy; exact Hcopy | ].
    split; [ discriminate | ]. intros _.
    split; [ eexists _, _; reflexivity | ].
    intros flag Hflag Hin.
    destruct (crop_settings self !! file) as [[start end_]|];
      destruct (decide (upper (container self) = "MP4"));
      in_cmd Hflag; subst flag; in_cmd Hin;
      first [ left; assumption | right; assumption | not_a_flag ]. }
  destruct (is_nvenc encoder) eqn:Hnv.
  - assert (Hr : rate_flags self encoder =
                 Ok ["-rc:v"; "vbr"; "-b:v"; b; "-maxrate"; b;
                     "-bufsize"; str_of_int (2 * kbps) +:+ "k"]).
    { unfold rate_flags. rewrite Hmode, Hkbps, Hpos, Hnv.
      rewrite (Z.mul_comm kbps 2). reflexivity. }
    eexists. split; [ apply (build_cmd_encode _ _ _ _ _ _ _ Hcopy Hr) | ].
    split; [ intros _ | discriminate ].
    split.
    + intros _. eexists _, _. reflexivity.
    + intros Hn. exfalso. apply Hn.
      unfold is_nvenc in Hnv. apply bool_decide_eq_true_1 in Hnv. exact Hnv.
  - assert (Hr : rate_flags self encoder = Ok ["-b:v"; b]).
    { unfold rate_flags. rewrite Hmode, Hkbps, Hpos, Hnv. reflexivity. }
    eexists. split; [ apply (build_cmd_encode _ _ _ _ _ _ _ Hcopy Hr) | ].
    split; [ intros _ | discriminate ].
    split.
    + intros Hn. exfalso.
      unfold is_nvenc in Hnv. apply bool_decide_eq_false_1 in Hnv. exact (Hnv Hn).
    + intros _. split; [ eexists _, _; reflexivity | ].
      intros flag Hflag Hin.
      assert (Henc : flag <> encoder).
      { intros ->. pose proof (choose_encoder_known (codec self) encoders) as Hk.
        fold encoder in Hk. in_cmd Hflag; rewrite Hflag in Hk;
          in_cmd Hk; discriminate. }
      assert (Hmap : flag = mapped_preset -> flag = preset self).
      { subst mapped_preset. unfold map_preset. rewrite Hnv.
        destruct (decide (encoder = "libsvtav1")) as [Hs|Hs]; [ | trivial ].
        intros E. exfalso. pose proof (svt_token (preset self)) as Ht.
        rewrite <- E in Ht. in_cmd Hflag; subst flag; in_cmd Ht; discriminate. }
      unfold audio_flags in Hin.
      destruct (crop_settings self !! file) as [[start end_]|];
        destruct (decide (upper (container self) = "MP4"));
        destruct (audio_copy self);
        destruct (decide (audio_codec self = "AAC"));
        destruct (decide (audio_codec self = "Opus"));
        in_cmd Hin;
        first
          [ left; assumption
          | right; left; assumption
          | right; right; apply Hmap; assumption
          | exfalso; apply Henc; assumption
          | in_cmd Hflag; subst flag; not_a_flag ].
Qed.

Lemma bitrate_mode_flags_witness :
  exists cmd,
    build_cmd nvenc_thread "/v/a.mkv" (probed_as "h264") "/v/a_converted.mp4"
      "hevc_nvenc" "p5" = Ok cmd
    /\ (do_stream_copy nvenc_thread (probed_as "h264") = false ->
        ("hevc_nvenc" ∈ ["hevc_nvenc"; "av1_nvenc"] ->
         exists pre post,
           cmd = pre
                 ++ ["-rc:v"; "vbr"; "-b:v"; "50k"; "-maxrate"; "50k"; "-bufsize"; "100k"]
                 ++ post)
        /\ ("hevc_nvenc" ∉ ["hevc_nvenc"; "av1_nvenc"] ->
            (exists pre post, cmd = pre ++ ["-b:v"; "50k"] ++ post)
            /\ (forall flag, flag ∈ ["-maxrate"; "-bufsize"; "-rc:v"] -> flag ∈ cmd ->
                  flag = "/v/a.mkv" \/ flag = "/v/a_converted.mp4" \/ flag = "fast")))
    /\ (do_stream_copy nvenc_thread (probed_as "h264") = true ->
        (exists pre post, cmd = pre ++ ["-c"; "copy"] ++ post)
        /\ (forall flag, flag ∈ ["-b:v"; "-maxrate"; "-bufsize"; "-rc:v"] -> flag ∈ cmd ->
              flag = "/v/a.mkv" \/ flag = "/v/a_converted.mp4")).
Proof.
  apply (bitrate_mode_flags nvenc_thread "/v/a.mkv" (probed_as "h264")
           "/v/a_converted.mp4" ["libx265"; "hevc_nvenc"] "10" 50);
    vm_compute; reflexivity.
Defined.

(** C5 fails as stated: with smart copy and a source that is HEVC already,
    the command built in bitrate mode for the NVENC encoder is a stream
    copy and carries no bitrate, max-rate or buffer-size option. *)
Lemma bitrate_mode_stream_copy :
  rate_mode nvenc_thread = "bitrate"
  /\ choose_encoder (codec nvenc_thread) ["libx265"; "hevc_nvenc"] = "hevc_nvenc"
  /\ build_cmd nvenc_thread "/v/a.mkv" (probed_as "hevc") "/v/a_converted.mp4"
       "hevc_nvenc" "p5"
     = Ok ["ffmpeg"; "-hide_banner"; "-nostats"; "-i"; "/v/a.mkv"; "-map"; "0";
           "-movflags"; "+faststart"; "-c"; "copy"; "-progress"; "pipe:2";
           "/v/a_converted.mp4"]
  /\ Forall (fun flag =>
               flag ∉ ["ffmpeg"; "-hide_banner"; "-nostats"; "-i"; "/v/a.mkv"; "-map"; "0";
                       "-movflags"; "+faststart"; "-c"; "copy"; "-progress"; "pipe:2";
                       "/v/a_converted.mp4"])
       ["-rc:v"; "-b:v"; "-maxrate"; "-bufsize"].
Proof.
  split; [ reflexivity | ]. split; [ vm_compute; reflexivity | ].
  split; [ vm_compute; reflexivity | ].
  repeat constructor; intros H; in_cmd H; discriminate H.
Qed.

Example bitrate_cmd_nvenc :
  build_cmd
    {| files := ["/v/a.mkv"]; codec := "H.265"; container := "MP4";
       rate_mode := "bitrate"; bitrate_kbps := Some 50; crf_cq_value := None;
       preset := "fast"; custom_output_dir := None; crop_settings := ∅;
       audio_copy := false; audio_codec := "AAC"; audio_bitrate := 128;
       smart_copy_when_same_codec := true |}
    "/v/a.mkv"
    {| duration := F64.of_Z 90; vcodec := Some "h264"; acodec := None;
       audio_bitrate_kbps := None |}
    "/v/a_converted.mp4" "hevc_nvenc" "p5"
  = Ok ["ffmpeg"; "-hide_banner"; "-nostats"; "-i"; "/v/a.mkv"; "-map"; "0";
        "-movflags"; "+faststart"; "-c:v"; "hevc_nvenc"; "-preset"; "p5";
        "-rc:v"; "vbr"; "-b:v"; "50k"; "-maxrate"; "50k"; "-bufsize"; "100k";
        "-c:a"; "aac"; "-b:a"; "128k"; "-c:s"; "copy"; "-progress"; "pipe:2";
        "/v/a_converted.mp4"].
Proof. vm_compute. reflexivity. Qed.

(** ** Rounding to binary64 *)

Module RoundingFacts.
#[local] Open Scope Q_scope.

(** *** The nearest integer, ties to even *)

Lemma inject_Z_succ (n : Z) : inject_Z (n + 1) == inject_Z n + 1.
Proof. rewrite inject_Z_plus. reflexivity. Qed.

Lemma floor_bounds (s : Q) : inject_Z (Qfloor s) <= s < inject_Z (Qfloor s) + 1.
Proof.
  split; [ apply Qfloor_le | ].
  rewrite <- inject_Z_succ. apply Qlt_floor.
Qed.

Lemma floor_unique (s : Q) (n : Z) : inject_Z n <= s < inject_Z n + 1 -> Qfloor s = n.
Proof.
  intros [H1 H2]. destruct (floor_bounds s) as [H3 H4].
  assert (inject_Z n < inject_Z (Qfloor s) + 1) by lra.
  assert (inject_Z (Qfloor s) < inject_Z n + 1) by lra.
  rewrite <- inject_Z_succ in *. rewrite <- Zlt_Qlt in *. lia.
Qed.

#[global] Instance rne_proper : Proper (Qeq ==> eq) rne.
Proof.
  intros s t E. unfold rne. rewrite (Qfloor_comp _ _ E).
  assert (E' : s - inject_Z (Qfloor t) == t - inject_Z (Qfloor t)) by (rewrite E; reflexivity).
  rewrite (Qcompare_comp _ _ E' _ _ (Qeq_refl _)). reflexivity.
Qed.

Lemma rne_Z (n : Z) : rne (inject_Z n) = n.
Proof.
  unfold rne. rewrite Qfloor_Z.
  destruct (Qcompare_spec (inject_Z n - inject_Z n) (1 # 2)) as [H|H|H]; lra || reflexivity.
Qed.

Lemma rne_range (s : Q) : (Qfloor s <= rne s <= Qfloor s + 1)%Z.
Proof.
  unfold rne. destruct (Qcompare (s - inject_Z (Qfloor s)) (1 # 2)); [ destruct (Z.even _) | | ]; lia.
Qed.

Lemma rne_mono (s t : Q) : s <= t -> (rne s <= rne t)%Z.
Proof.
  intros Hst. pose proof (Qfloor_resp_le _ _ Hst) as Hf.
  destruct (Z.eq_dec (Qfloor s) (Qfloor t)) as [E|NE].
  - unfold rne. rewrite <- E.
    destruct (Qcompare_spec (s - inject_Z (Qfloor s)) (1 # 2)) as [H|H|H];
      destruct (Qcompare_spec (t - inject_Z (Qfloor s)) (1 # 2)) as [H'|H'|H'];
      try destruct (Z.even (Qfloor s)); try lia; lra.
  - pose proof (rne_range s). pose proof (rne_range t). lia.
Qed.

Lemma rne_ge (s : Q) (n : Z) : inject_Z n <= s -> (n <= rne s)%Z.
Proof. intros H. rewrite <- (rne_Z n). apply rne_mono. exact H. Qed.

Lemma rne_le (s : Q) (n : Z) : s <= inject_Z n -> (rne s <= n)%Z.
Proof. intros H. rewrite <- (rne_Z n). apply rne_mono. exact H. Qed.

(** *** Powers of two *)

Lemma pow2_pos (e : Z) : 0 < pow2 e.
Proof. apply Qpower_0_lt. reflexivity. Qed.

Lemma pow2_add (a b : Z) : pow2 (a + b) == pow2 a * pow2 b.
Proof. apply Qpower_plus. discriminate. Qed.

Lemma pow2_opp (e : Z) : pow2 (- e) == / pow2 e.
Proof. apply Qpower_opp. Qed.

Lemma pow2_sub (a b : Z) : pow2 (a - b) == pow2 a / pow2 b.
Proof.
  unfold Z.sub. rewrite pow2_add, pow2_opp. reflexivity.
Qed.

Lemma pow2_le (a b : Z) : (a <= b)%Z -> pow2 a <= pow2 b.
Proof. intros H. apply Qpower_le_compat_l; [ exact H | discriminate ]. Qed.

Lemma pow2_lt (a b : Z) : (a < b)%Z -> pow2 a < pow2 b.
Proof. intros H. apply Qpower_lt_compat_l; [ exact H | reflexivity ]. Qed.

Lemma pow2_lt_inv (a b : Z) : pow2 a < pow2 b -> (a < b)%Z.
Proof. intros H. apply (Qpower_lt_compat_l_inv 2); [ exact H | reflexivity ]. Qed.

Lemma pow2_le_inv (a b : Z) : pow2 a <= pow2 b -> (a <= b)%Z.
Proof. intros H. apply (Qpower_le_compat_l_inv 2); [ exact H | reflexivity ]. Qed.

Lemma pow2_Z (e : Z) : (0 <= e)%Z -> pow2 e == inject_Z (2 ^ e).
Proof. intros H. unfold pow2. rewrite Zpower_Qpower by exact H. reflexivity. Qed.

Lemma pow2_succ (e : Z) : pow2 (e + 1) == 2 * pow2 e.
Proof. rewrite pow2_add. change (pow2 1) with 2. ring. Qed.

Lemma div_pow2 (x : Q) (a b : Z) : x * pow2 a / pow2 b == x * pow2 (a - b).
Proof. rewrite pow2_sub. field. pose proof (pow2_pos b). lra. Qed.

(** *** The binade of a positive rational *)

Lemma log2_bounds (n : Z) :
  (0 < n)%Z -> pow2 (Z.log2 n) <= inject_Z n < pow2 (Z.log2 n + 1).
Proof.
  intros Hn. destruct (Z.log2_spec n Hn) as [H1 H2].
  pose proof (Z.log2_nonneg n) as H0.
  rewrite !pow2_Z by lia. rewrite <- Zle_Qle, <- Zlt_Qlt.
  replace (Z.log2 n + 1)%Z with (Z.succ (Z.log2 n)) by lia. split; assumption.
Qed.

Lemma mag_spec (x : Q) : 0 < x -> pow2 (mag x - 1) <= x < pow2 (mag x).
Proof.
  intros Hx. destruct x as [n d]. unfold mag. simpl Qnum. simpl Qden.
  assert (Hn : (0 < n)%Z).
  { unfold Qlt in Hx. simpl in Hx. lia. }
  set (k := (Z.log2 n - Z.log2 (Z.pos d))%Z).
  destruct (log2_bounds n Hn) as [N1 N2].
  destruct (log2_bounds (Z.pos d) eq_refl) as [D1 D2].
  assert (E : n # d == inject_Z n / inject_Z (Z.pos d)) by apply Qmake_Qdiv.
  set (N := inject_Z n) in *. set (D := inject_Z (Z.pos d)) in *.
  set (x := n # d) in *.
  assert (HD : 0 < D) by (pose proof (pow2_pos (Z.log2 (Z.pos d))); lra).
  assert (EN : x * D == N) by (rewrite E; field; lra).
  assert (U : x < pow2 (k + 1)).
  { pose proof (pow2_add (k + 1) (Z.log2 (Z.pos d))) as P.
    replace (k + 1 + Z.log2 (Z.pos d))%Z with (Z.log2 n + 1)%Z in P by (unfold k; lia).
    pose proof (pow2_pos (k + 1)) as A.
    apply (Qmult_lt_r _ _ D HD). rewrite EN.
    assert (pow2 (k + 1) * pow2 (Z.log2 (Z.pos d)) <= pow2 (k + 1) * D)
      by (apply Qmult_le_l; assumption).
    lra. }
  assert (L : pow2 (k - 1) <= x).
  { pose proof (pow2_add (k - 1) (Z.log2 (Z.pos d) + 1)) as P.
    replace (k - 1 + (Z.log2 (Z.pos d) + 1))%Z with (Z.log2 n) in P by (unfold k; lia).
    pose proof (pow2_pos (k - 1)) as A.
    apply (Qmult_le_r _ _ D HD). rewrite EN.
    assert (pow2 (k - 1) * D <= pow2 (k - 1) * pow2 (Z.log2 (Z.pos d) + 1))
      by (apply Qmult_le_l; [ assumption | apply Qlt_le_weak; assumption ]).
    lra. }
  destruct (Qle_bool (pow2 k) x) eqn:B.
  - apply Qle_bool_iff in B. replace (k + 1 - 1)%Z with k by lia. split; assumption.
  - split; [ exact L | ]. apply Qnot_le_lt. intros C. apply Qle_bool_iff in C. congruence.
Qed.

Lemma mag_unique (x : Q) (k : Z) : pow2 (k - 1) <= x < pow2 k -> mag x = k.
Proof.
  intros [H1 H2].
  assert (Hx : 0 < x) by (pose proof (pow2_pos (k - 1)); lra).
  destruct (mag_spec x Hx) as [M1 M2].
  assert (pow2 (k - 1) < pow2 (mag x)) by lra.
  assert (pow2 (mag x - 1) < pow2 k) by lra.
  apply pow2_lt_inv in H, H0. lia.
Qed.

Lemma mag_eq (x y : Q) : 0 < x -> x == y -> mag x = mag y.
Proof.
  intros Hx E. symmetry. apply mag_unique. rewrite <- E. apply mag_spec. exact Hx.
Qed.

Lemma mag_mono (x y : Q) : 0 < x -> x <= y -> (mag x <= mag y)%Z.
Proof.
  intros Hx Hxy.
  destruct (mag_spec x Hx) as [X1 X2].
  destruct (mag_spec y) as [Y1 Y2]; [ lra | ].
  assert (pow2 (mag x - 1) < pow2 (mag y)) by lra.
  apply pow2_lt_inv in H. lia.
Qed.

Lemma mag_pow2_mul (m e : Z) :
  (0 < m)%Z -> mag (inject_Z m * pow2 e) = (Z.log2 m + 1 + e)%Z.
Proof.
  intros Hm. apply mag_unique. destruct (log2_bounds m Hm) as [H1 H2].
  replace (Z.log2 m + 1 + e - 1)%Z with (Z.log2 m + e)%Z by lia.
  rewrite !pow2_add. pose proof (pow2_pos e).
  split.
  - apply Qmult_le_r; assumption.
  - rewrite <- pow2_add. apply Qmult_lt_r; assumption.
Qed.

(** *** Rounding a non-negative rational *)

Lemma fexp_eq (e : Z) : fexp e = Z.max (e - 53) (-1074).
Proof. reflexivity. Qed.

Lemma div_pow2_le (x y : Q) (e : Z) : x <= y -> x / pow2 e <= y / pow2 e.
Proof.
  intros H. unfold Qdiv. apply Qmult_le_r; [ | exact H ].
  apply Qinv_lt_0_compat. apply pow2_pos.
Qed.

Lemma round_at_mono (e : Z) (x y : Q) : x <= y -> round_at e x <= round_at e y.
Proof.
  intros H. unfold round_at. apply Qmult_le_r; [ apply pow2_pos | ].
  rewrite <- Zle_Qle. apply rne_mono. apply div_pow2_le. exact H.
Qed.

Lemma round_at_multiple (e : Z) (n : Z) : round_at e (inject_Z n * pow2 e) == inject_Z n * pow2 e.
Proof.
  unfold round_at.
  assert (E : inject_Z n * pow2 e / pow2 e == inject_Z n).
  { field. pose proof (pow2_pos e). lra. }
  rewrite E, rne_Z. reflexivity.
Qed.

Lemma round_at_pow2 (e b : Z) : (e <= b)%Z -> round_at e (pow2 b) == pow2 b.
Proof.
  intros H.
  assert (E : pow2 b == inject_Z (2 ^ (b - e)) * pow2 e).
  { rewrite <- pow2_Z by lia. rewrite <- pow2_add. replace (b - e + e)%Z with b by lia.
    reflexivity. }
  unfold round_at at 1.
  assert (E' : pow2 b / pow2 e == inject_Z (2 ^ (b - e)) * pow2 e / pow2 e)
    by (rewrite <- E; reflexivity).
  rewrite E'. fold (round_at e (inject_Z (2 ^ (b - e)) * pow2 e)).
  rewrite round_at_multiple. symmetry. exact E.
Qed.

Lemma round_at_nonneg (e : Z) (x : Q) : 0 <= x -> 0 <= round_at e x.
Proof.
  intros H. unfold round_at. apply Qmult_le_0_compat.
  - change 0 with (inject_Z 0). rewrite <- Zle_Qle. apply rne_ge.
    change (inject_Z 0) with 0. apply Qle_shift_div_l; [ apply pow2_pos | lra ].
  - apply Qlt_le_weak, pow2_pos.
Qed.

Lemma rnd_pos (x : Q) : 0 < x -> rnd x = round_at (fexp (mag x)) x.
Proof.
  intros H. unfold rnd. destruct (Qle_bool x 0) eqn:B; [ | reflexivity ].
  apply Qle_bool_iff in B. lra.
Qed.

Lemma rnd_nonpos (x : Q) : x <= 0 -> rnd x = 0.
Proof.
  intros H. unfold rnd. destruct (Qle_bool x 0) eqn:B; [ reflexivity | ].
  apply Qle_bool_iff in H. congruence.
Qed.

Lemma rnd_nonneg (x : Q) : 0 <= rnd x.
Proof.
  destruct (Qlt_le_dec 0 x) as [H|H].
  - rewrite rnd_pos by exact H. apply round_at_nonneg. lra.
  - rewrite rnd_nonpos by exact H. lra.
Qed.

#[global] Instance round_at_proper (e : Z) : Proper (Qeq ==> Qeq) (round_at e).
Proof.
  intros x y E. unfold round_at.
  assert (E' : x / pow2 e == y / pow2 e) by (rewrite E; reflexivity).
  rewrite (rne_proper _ _ E'). reflexivity.
Qed.

#[global] Instance rnd_proper : Proper (Qeq ==> Qeq) rnd.
Proof.
  intros x y E. destruct (Qlt_le_dec 0 x) as [H|H].
  - rewrite (rnd_pos x H), (rnd_pos y) by (rewrite <- E; exact H).
    rewrite (mag_eq x y H E). apply round_at_proper. exact E.
  - rewrite (rnd_nonpos x H), (rnd_nonpos y) by (rewrite <- E; exact H). reflexivity.
Qed.

Lemma fexp_mono (a b : Z) : (a <= b)%Z -> (fexp a <= fexp b)%Z.
Proof. rewrite !fexp_eq. lia. Qed.

(** Rounding is monotone. *)
Theorem rnd_mono (x y : Q) : x <= y -> rnd x <= rnd y.
Proof.
  intros Hxy. destruct (Qlt_le_dec 0 x) as [Hx|Hx].
  2:{ rewrite (rnd_nonpos x Hx). apply rnd_nonneg. }
  assert (Hy : 0 < y) by lra.
  rewrite (rnd_pos x Hx), (rnd_pos y Hy).
  pose proof (mag_mono x y Hx Hxy) as Hm.
  pose proof (fexp_mono _ _ Hm) as He.
  destruct (Z.eq_dec (fexp (mag x)) (fexp (mag y))) as [E|NE].
  - rewrite E. apply round_at_mono. exact Hxy.
  - (* different binades: the power of two in between is kept by both *)
    set (b := (mag y - 1)%Z).
    assert (Hb : (fexp (mag y) <= b)%Z /\ (fexp (mag x) <= b)%Z /\ (mag x <= b)%Z).
    { unfold b. rewrite !fexp_eq in *. lia. }
    destruct Hb as (B1 & B2 & B3).
    destruct (mag_spec x Hx) as [_ X2]. destruct (mag_spec y Hy) as [Y1 _].
    fold b in Y1. pose proof (pow2_le _ _ B3) as P.
    apply Qle_trans with (pow2 b).
    + rewrite <- (round_at_pow2 (fexp (mag x)) b B2). apply round_at_mono. lra.
    + rewrite <- (round_at_pow2 (fexp (mag y)) b B1). apply round_at_mono. exact Y1.
Qed.

(** A value with a mantissa of at most 53 bits at an exponent of at least
    [-1074] is kept. *)
Theorem rnd_exact (m e : Z) :
  (0 <= m < 2 ^ 53)%Z -> (-1074 <= e)%Z -> rnd (inject_Z m * pow2 e) == inject_Z m * pow2 e.
Proof.
  intros Hm He. destruct (Z.eq_dec m 0%Z) as [->|Hm0].
  - rewrite rnd_nonpos; [ ring | ]. change (inject_Z 0) with 0. lra.
  - assert (Hx : 0 < inject_Z m * pow2 e).
    { apply Qmult_lt_0_compat; [ | apply pow2_pos ].
      change 0 with (inject_Z 0). rewrite <- Zlt_Qlt. lia. }
    rewrite (rnd_pos _ Hx). rewrite mag_pow2_mul by lia.
    set (e' := fexp (Z.log2 m + 1 + e)).
    assert (He' : (e' <= e)%Z).
    { unfold e'. rewrite fexp_eq. assert (Z.log2 m < 53)%Z by (apply Z.log2_lt_pow2; lia). lia. }
    assert (E : inject_Z m * pow2 e == inject_Z (m * 2 ^ (e - e')) * pow2 e').
    { rewrite inject_Z_mult, <- pow2_Z by lia. rewrite <- Qmult_assoc, <- pow2_add.
      replace (e - e' + e')%Z with e by lia. reflexivity. }
    rewrite E. apply round_at_multiple.
Qed.

Lemma rnd_Z (n : Z) : (0 <= n < 2 ^ 53)%Z -> rnd (inject_Z n) == inject_Z n.
Proof.
  intros H. pose proof (rnd_exact n 0 H ltac:(lia)) as E.
  change (pow2 0) with 1 in E. rewrite Qmult_1_r in E. exact E.
Qed.

(** *** Digits and shifts of [SpecFloat] *)

Lemma digits2_size (p : positive) : digits2_pos p = Pos.size p.
Proof. induction p as [p IH|p IH|]; simpl; congruence. Qed.

Lemma Zdigits2_log2 (m : Z) : (0 < m)%Z -> Zdigits2 m = (Z.log2 m + 1)%Z.
Proof.
  destruct m as [|p|p]; try lia. intros _. simpl Zdigits2.
  rewrite digits2_size. destruct p; simpl; lia.
Qed.

Lemma mag_float (m e : Z) :
  (0 < m)%Z -> mag (inject_Z m * pow2 e) = (Zdigits2 m + e)%Z.
Proof. intros H. rewrite mag_pow2_mul, Zdigits2_log2 by exact H. reflexivity. Qed.

Lemma located_proper (m : Z) (l : location) (q q' : Q) :
  q == q' -> located m l q -> located m l q'.
Proof.
  intros E. destruct l as [|[| |]]; simpl; rewrite E; trivial.
Qed.

Lemma located_floor (m : Z) (l : location) (q : Q) : located m l q -> Qfloor q = m.
Proof.
  intros H. apply floor_unique. destruct l as [|[| |]]; simpl in H; lra.
Qed.

Lemma located_rne (m : Z) (l : location) (q : Q) :
  located m l q -> round_nearest_even m l = rne q.
Proof.
  intros H. unfold rne. rewrite (located_floor m l q H).
  destruct l as [|[| |]]; simpl in H; simpl;
    destruct (Qcompare_spec (q - inject_Z m) (1 # 2)) as [C|C|C];
    try reflexivity; try lra.
Qed.

Lemma inject_xO (p : positive) : inject_Z (Z.pos p~0) == 2 * inject_Z (Z.pos p).
Proof. rewrite Pos2Z.inj_xO, inject_Z_mult. reflexivity. Qed.

Lemma inject_xI (p : positive) : inject_Z (Z.pos p~1) == 2 * inject_Z (Z.pos p) + 1.
Proof. rewrite Pos2Z.inj_xI, inject_Z_plus, inject_Z_mult. reflexivity. Qed.

Lemma shr_1_located (mrs : shr_record) (q : Q) :
  (0 <= shr_m mrs)%Z ->
  located (shr_m mrs) (loc_of_shr_record mrs) q ->
  (0 <= shr_m (shr_1 mrs))%Z
  /\ located (shr_m (shr_1 mrs)) (loc_of_shr_record (shr_1 mrs)) (q / 2).
Proof.
  destruct mrs as [m r s]. simpl shr_m. intros Hm H.
  destruct m as [|[p|p|]|p]; try lia;
    [ | pose proof (inject_xI p) | pose proof (inject_xO p) | ];
    destruct r, s; simpl in *; (split; [ lia | ]);
    change (inject_Z 0) with 0 in *; change (inject_Z 1) with 1 in *;
    unfold Qdiv; change (/ 2) with (1 # 2); lra.
Qed.

Lemma pow2_xI (p : positive) : pow2 (Z.pos p~1) == 2 * (pow2 (Z.pos p) * pow2 (Z.pos p)).
Proof.
  rewrite Pos2Z.inj_xI. replace (2 * Z.pos p + 1)%Z with (Z.pos p + Z.pos p + 1)%Z by lia.
  rewrite pow2_succ, pow2_add. reflexivity.
Qed.

Lemma pow2_xO (p : positive) : pow2 (Z.pos p~0) == pow2 (Z.pos p) * pow2 (Z.pos p).
Proof.
  rewrite Pos2Z.inj_xO. replace (2 * Z.pos p)%Z with (Z.pos p + Z.pos p)%Z by lia.
  apply pow2_add.
Qed.

Lemma iter_shr_located (p : positive) : forall (mrs : shr_record) (q : Q),
  (0 <= shr_m mrs)%Z ->
  located (shr_m mrs) (loc_of_shr_record mrs) q ->
  (0 <= shr_m (SpecFloat.iter_pos shr_1 p mrs))%Z
  /\ located (shr_m (SpecFloat.iter_pos shr_1 p mrs)) (loc_of_shr_record (SpecFloat.iter_pos shr_1 p mrs))
       (q / pow2 (Z.pos p)).
Proof.
  induction p as [p IH|p IH|]; intros mrs q Hm H; simpl SpecFloat.iter_pos.
  - destruct (shr_1_located mrs q Hm H) as [Hm1 H1].
    destruct (IH _ _ Hm1 H1) as [Hm2 H2].
    destruct (IH _ _ Hm2 H2) as [Hm3 H3].
    split; [ exact Hm3 | ]. eapply located_proper; [ | exact H3 ].
    rewrite pow2_xI. pose proof (pow2_pos (Z.pos p)). field. lra.
  - destruct (IH _ _ Hm H) as [Hm2 H2].
    destruct (IH _ _ Hm2 H2) as [Hm3 H3].
    split; [ exact Hm3 | ]. eapply located_proper; [ | exact H3 ].
    rewrite pow2_xO. pose proof (pow2_pos (Z.pos p)). field. lra.
  - apply shr_1_located; assumption.
Qed.

Lemma shr_record_of_loc_m (m : Z) (l : location) : shr_m (shr_record_of_loc m l) = m.
Proof. destruct l as [|[| |]]; reflexivity. Qed.

Lemma shr_record_of_loc_loc (m : Z) (l : location) :
  loc_of_shr_record (shr_record_of_loc m l) = l.
Proof. destruct l as [|[| |]]; reflexivity. Qed.

Lemma shr_fexp_located (m e : Z) (l : location) (x : Q) :
  (0 <= m)%Z ->
  located m l (x / pow2 e) ->
  (e <= fexp (Zdigits2 m + e))%Z ->
  exists mrs,
    shr_fexp 53 1024 m e l = (mrs, fexp (Zdigits2 m + e))
    /\ (0 <= shr_m mrs)%Z
    /\ located (shr_m mrs) (loc_of_shr_record mrs) (x / pow2 (fexp (Zdigits2 m + e))).
Proof.
  intros Hm H He. unfold shr_fexp, shr. fold (fexp (Zdigits2 m + e)).
  set (e' := fexp (Zdigits2 m + e)) in *.
  destruct (e' - e)%Z as [|p|p] eqn:En; try lia.
  - exists (shr_record_of_loc m l). replace e' with e by lia.
    rewrite shr_record_of_loc_m, shr_record_of_loc_loc. repeat split; assumption.
  - eexists. split; [ f_equal; lia | ].
    destruct (iter_shr_located p (shr_record_of_loc m l) (x / pow2 e)) as [H1 H2].
    + rewrite shr_record_of_loc_m. exact Hm.
    + rewrite shr_record_of_loc_m, shr_record_of_loc_loc. exact H.
    + split; [ exact H1 | ]. eapply located_proper; [ | exact H2 ].
      replace e' with (e + Z.pos p)%Z by lia. rewrite pow2_add.
      pose proof (pow2_pos e). pose proof (pow2_pos (Z.pos p)). field. lra.
Qed.

Lemma Zdigits2_le (m k : Z) : (0 < m < 2 ^ k)%Z -> (Zdigits2 m <= k)%Z.
Proof.
  intros [H1 H2]. rewrite Zdigits2_log2 by exact H1.
  assert (0 <= k)%Z.
  { destruct (Z.le_gt_cases 0 k); [ assumption | ]. rewrite Z.pow_neg_r in H2; lia. }
  assert (Z.log2 m < k)%Z by (apply Z.log2_lt_pow2; lia). lia.
Qed.

Lemma Zdigits2_ge (m k : Z) : (0 < k)%Z -> (2 ^ (k - 1) <= m)%Z -> (k <= Zdigits2 m)%Z.
Proof.
  intros Hk H. assert (0 < m)%Z by (pose proof (Z.pow_pos_nonneg 2 (k - 1)); lia).
  rewrite Zdigits2_log2 by assumption.
  assert (k - 1 <= Z.log2 m)%Z by (apply Z.log2_le_pow2; lia). lia.
Qed.

(** The second half of [binary_round_aux]: the rounded mantissa is
    renormalised when it reached [2^53]. *)
Lemma finish_round (m1 e1 : Z) :
  (0 <= m1 <= 2 ^ 53)%Z ->
  (-1074 <= e1 <= 970)%Z ->
  (-1074 < e1 -> 2 ^ 52 <= m1)%Z ->
  let f :=
    let '(mrs, e2) := shr_fexp 53 1024 m1 e1 loc_Exact in
    match shr_m mrs with
    | Z0 => S754_zero false
    | Z.pos m => if (e2 <=? 1024 - 53)%Z then S754_finite false m e2 else S754_infinity false
    | _ => S754_nan
    end in
  nonneg f /\ F2Q f == inject_Z m1 * pow2 e1.
Proof.
  intros Hm He Hn.
  change (1024 - 53)%Z with 971%Z.
  destruct (Z.eq_dec m1 (2 ^ 53)%Z) as [->|Hlt].
  - assert (Hs : shr_fexp 53 1024 (2 ^ 53) e1 loc_Exact
                 = ({| shr_m := 4503599627370496; shr_r := false; shr_s := false |},
                    (e1 + 1)%Z)).
    { unfold shr_fexp, shr.
      replace (SpecFloat.fexp 53 1024 (Zdigits2 (2 ^ 53) + e1) - e1)%Z with 1%Z.
      - reflexivity.
      - unfold SpecFloat.fexp, emin. change (Zdigits2 (2 ^ 53)%Z) with 54%Z. lia. }
    rewrite Hs. cbv zeta beta iota. simpl shr_m. cbv iota.
    destruct (Z.leb_spec (e1 + 1)%Z 971%Z) as [L|L]; [ | lia ].
    split.
    + unfold nonneg, bounded, canonical_mantissa.
      change (Z.pos (digits2_pos 4503599627370496)) with 53%Z.
      unfold SpecFloat.fexp, emin.
      apply andb_true_intro. split; [ apply Z.eqb_eq | apply Z.leb_le ]; lia.
    + unfold F2Q, cond_Zopp. rewrite pow2_succ.
      change (inject_Z (2 ^ 53)%Z) with (2 * inject_Z 4503599627370496).
      ring.
  - destruct (Z.eq_dec m1 0%Z) as [->|Hpos].
    + assert (Hs : shr_fexp 53 1024 0 e1 loc_Exact
                   = ({| shr_m := 0; shr_r := false; shr_s := false |}, e1)).
      { unfold shr_fexp, shr. simpl Zdigits2.
        destruct (SpecFloat.fexp 53 1024 (0 + e1) - e1)%Z eqn:En; try reflexivity.
        unfold SpecFloat.fexp, emin in En. lia. }
      rewrite Hs. cbv zeta beta iota. simpl shr_m. cbv iota.
      split; [ exact I | ]. unfold F2Q. change (inject_Z 0) with 0. ring.
    + assert (Hd : (Zdigits2 m1 <= 53)%Z) by (apply Zdigits2_le; lia).
      assert (Hd' : (-1074 < e1 -> Zdigits2 m1 = 53)%Z).
      { intros H. apply Hn in H.
        assert (53 <= Zdigits2 m1)%Z by (apply Zdigits2_ge; lia). lia. }
      assert (Hf : SpecFloat.fexp 53 1024 (Zdigits2 m1 + e1)%Z = e1).
      { unfold SpecFloat.fexp, emin. lia. }
      assert (Hs : shr_fexp 53 1024 m1 e1 loc_Exact
                   = ({| shr_m := m1; shr_r := false; shr_s := false |}, e1)).
      { unfold shr_fexp, shr. rewrite Hf, Z.sub_diag. reflexivity. }
      rewrite Hs. cbv zeta beta iota. simpl shr_m.
      destruct m1 as [|p|p]; try lia.
      destruct (Z.leb_spec e1 971%Z) as [L|L]; [ | lia ].
      split; [ | reflexivity ].
      unfold nonneg, bounded, canonical_mantissa.
      change (Z.pos (digits2_pos p)) with (Zdigits2 (Z.pos p)). rewrite Hf.
      apply andb_true_intro. split; [ apply Z.eqb_eq | apply Z.leb_le ]; lia.
Qed.

Lemma located_range (m : Z) (l : location) (q : Q) :
  located m l q -> inject_Z m <= q < inject_Z m + 1.
Proof. destruct l as [|[| |]]; simpl; intros H; lra. Qed.

Lemma scaled_back (x : Q) (e : Z) : x == x / pow2 e * pow2 e.
Proof. pose proof (pow2_pos e). field. lra. Qed.

Lemma mag_located (m e : Z) (l : location) (x : Q) :
  (0 < m)%Z -> located m l (x / pow2 e) -> mag x = (Zdigits2 m + e)%Z.
Proof.
  intros Hm H. apply located_range in H. destruct H as [H1 H2].
  rewrite Zdigits2_log2 by exact Hm.
  destruct (log2_bounds m Hm) as [L1 _].
  assert (L2 : inject_Z m + 1 <= pow2 (Z.log2 m + 1)).
  { pose proof (Z.log2_nonneg m). rewrite pow2_Z by lia. rewrite <- inject_Z_succ, <- Zle_Qle.
    destruct (Z.log2_spec m Hm) as [_ S2].
    replace (Z.log2 m + 1)%Z with (Z.succ (Z.log2 m)) by lia. lia. }
  pose proof (pow2_pos e) as Pe. pose proof (scaled_back x e) as Ex.
  apply mag_unique.
  replace (Z.log2 m + 1 + e - 1)%Z with (Z.log2 m + e)%Z by lia.
  rewrite !pow2_add. split.
  - rewrite Ex. apply Qmult_le_r; [ exact Pe | lra ].
  - rewrite Ex at 1. apply Qmult_lt_r; [ exact Pe | ]. rewrite pow2_add in L2. lra.
Qed.

Lemma mag_below (x : Q) (k : Z) : 0 < x -> x < pow2 k -> (mag x <= k)%Z.
Proof.
  intros Hx H. destruct (mag_spec x Hx) as [M _].
  assert (pow2 (mag x - 1) < pow2 k) by lra. apply pow2_lt_inv in H0. lia.
Qed.

Lemma div_pow2_lower (x : Q) (e k : Z) : pow2 (e + k) <= x -> pow2 k <= x / pow2 e.
Proof.
  intros H. apply Qle_shift_div_l; [ apply pow2_pos | ].
  rewrite <- pow2_add. replace (k + e)%Z with (e + k)%Z by lia. exact H.
Qed.

Lemma div_pow2_upper (x : Q) (e k : Z) : x < pow2 (e + k) -> x / pow2 e < pow2 k.
Proof.
  intros H. apply Qlt_shift_div_r; [ apply pow2_pos | ].
  rewrite <- pow2_add. replace (k + e)%Z with (e + k)%Z by lia. exact H.
Qed.

(** [binary_round_aux] rounds the located value to nearest, ties to even. *)
Theorem binary_round_aux_correct (mx ex : Z) (lx : location) (x : Q) :
  (0 <= mx)%Z ->
  0 < x -> x < pow2 1023 ->
  located mx lx (x / pow2 ex) ->
  (ex <= fexp (mag x))%Z ->
  nonneg (binary_round_aux 53 1024 false mx ex lx)
  /\ F2Q (binary_round_aux 53 1024 false mx ex lx) == rnd x.
Proof.
  intros Hmx Hx Hbig Hloc Hex.
  assert (Hd : fexp (Zdigits2 mx + ex) = fexp (mag x)).
  { destruct (Z.eq_dec mx 0%Z) as [->|Hpos].
    - apply located_range in Hloc. change (inject_Z 0) with 0 in Hloc.
      assert (x < pow2 ex).
      { pose proof (scaled_back x ex) as E. pose proof (pow2_pos ex).
        assert (x / pow2 ex * pow2 ex < 1 * pow2 ex) by (apply Qmult_lt_r; lra).
        lra. }
      pose proof (mag_below x ex Hx H). simpl Zdigits2.
      rewrite !fexp_eq in *. lia.
    - rewrite (mag_located mx ex lx x) by (assumption || lia). reflexivity. }
  destruct (shr_fexp_located mx ex lx x Hmx Hloc) as (mrs & Hs & Hm' & Hloc').
  { rewrite Hd. exact Hex. }
  rewrite Hd in Hs, Hloc'. set (e1 := fexp (mag x)) in *.
  unfold binary_round_aux. rewrite Hs.
  rewrite (located_rne _ _ _ Hloc'). set (m1 := rne (x / pow2 e1)).
  assert (Hmag : (mag x <= 1023)%Z) by (apply mag_below; assumption).
  destruct (mag_spec x Hx) as [M1 M2].
  assert (He1 : (-1074 <= e1 <= 970)%Z) by (unfold e1; rewrite fexp_eq; lia).
  assert (Hm1 : (0 <= m1 <= 2 ^ 53)%Z).
  { split.
    - apply rne_ge. change (inject_Z 0) with 0.
      apply Qle_shift_div_l; [ apply pow2_pos | lra ].
    - apply rne_le. rewrite <- pow2_Z by lia. apply Qlt_le_weak.
      apply div_pow2_upper. apply Qlt_le_trans with (1 := M2).
      apply pow2_le. unfold e1. rewrite fexp_eq. lia. }
  assert (Hn : (-1074 < e1 -> 2 ^ 52 <= m1)%Z).
  { intros H. apply rne_ge. rewrite <- pow2_Z by lia.
    apply div_pow2_lower. apply Qle_trans with (2 := M1).
    apply pow2_le. unfold e1 in *. rewrite fexp_eq in *. lia. }
  destruct (finish_round m1 e1 Hm1 He1 Hn) as [F1 F2].
  split; [ exact F1 | ]. rewrite F2. rewrite (rnd_pos x Hx). reflexivity.
Qed.

(** *** The operations on non-negative floats *)

Lemma bounded_spec (m : positive) (e : Z) :
  bounded 53 1024 m e = true ->
  (-1074 <= e <= 971)%Z
  /\ (Zdigits2 (Z.pos m) <= 53)%Z
  /\ (-1074 < e -> Zdigits2 (Z.pos m) = 53)%Z.
Proof.
  unfold bounded, canonical_mantissa. intros H. apply andb_prop in H as [H1 H2].
  apply Z.eqb_eq in H1. apply Z.leb_le in H2.
  change (Z.pos (digits2_pos m)) with (Zdigits2 (Z.pos m)) in H1.
  unfold SpecFloat.fexp, emin in H1. lia.
Qed.

Lemma Zdigits2_lower (m : Z) : (0 < m)%Z -> (2 ^ (Zdigits2 m - 1) <= m)%Z.
Proof.
  intros H. rewrite Zdigits2_log2 by exact H.
  replace (Z.log2 m + 1 - 1)%Z with (Z.log2 m) by lia. apply Z.log2_spec. exact H.
Qed.

Lemma Zdigits2_upper (m : Z) : (0 < m)%Z -> (m < 2 ^ Zdigits2 m)%Z.
Proof.
  intros H. rewrite Zdigits2_log2 by exact H.
  replace (Z.log2 m + 1)%Z with (Z.succ (Z.log2 m)) by lia. apply Z.log2_spec. exact H.
Qed.

Lemma Zdigits2_pos (m : Z) : (0 < m)%Z -> (0 < Zdigits2 m)%Z.
Proof.
  intros H. rewrite Zdigits2_log2 by exact H. pose proof (Z.log2_nonneg m). lia.
Qed.

Lemma inject_pos (p : positive) : 0 < inject_Z (Z.pos p).
Proof. change 0 with (inject_Z 0). rewrite <- Zlt_Qlt. lia. Qed.

Lemma F2Q_finite_pos (m : positive) (e : Z) : 0 < F2Q (S754_finite false m e).
Proof.
  simpl. apply Qmult_lt_0_compat; [ apply inject_pos | apply pow2_pos ].
Qed.

Lemma F2Q_nonneg (f : spec_float) : nonneg f -> 0 <= F2Q f.
Proof.
  destruct f as [s|s| |[|] m e]; simpl nonneg; intros H; try contradiction.
  - simpl. lra.
  - apply Qlt_le_weak, F2Q_finite_pos.
Qed.

(** A float is its own rounding. *)
Lemma rnd_F2Q (f : spec_float) : nonneg f -> rnd (F2Q f) == F2Q f.
Proof.
  destruct f as [s|s| |[|] m e]; simpl nonneg; intros H; try contradiction.
  - simpl. rewrite rnd_nonpos by lra. reflexivity.
  - apply bounded_spec in H as (He & Hd & _). simpl. apply rnd_exact; [ | lia ].
    pose proof (Zdigits2_upper (Z.pos m) eq_refl).
    assert (2 ^ Zdigits2 (Z.pos m) <= 2 ^ 53)%Z by (apply Z.pow_le_mono_r; lia). lia.
Qed.

Lemma located_exact (m e : Z) (x : Q) :
  x == inject_Z m * pow2 e -> located m loc_Exact (x / pow2 e).
Proof.
  intros E. simpl. rewrite E. pose proof (pow2_pos e). field. lra.
Qed.

Lemma mul_correct (x y : spec_float) :
  nonneg x -> nonneg y -> F2Q x * F2Q y < pow2 1023 ->
  nonneg (SFmul 53 1024 x y) /\ F2Q (SFmul 53 1024 x y) == rnd (F2Q x * F2Q y).
Proof.
  intros Hx Hy Hbig.
  destruct x as [sx|sx| |[|] mx ex]; simpl in Hx; try contradiction;
    destruct y as [sy|sy| |[|] my ey]; simpl in Hy; try contradiction;
    try (simpl SFmul; split; [ exact I | ];
         rewrite rnd_nonpos; [ reflexivity | simpl F2Q; lra ]).
  simpl SFmul.
  set (X := F2Q (S754_finite false mx ex) * F2Q (S754_finite false my ey)) in *.
  assert (EX : X == inject_Z (Z.pos (mx * my)) * pow2 (ex + ey)).
  { unfold X. simpl. rewrite Pos2Z.inj_mul, inject_Z_mult, pow2_add. ring. }
  assert (PX : 0 < X).
  { unfold X. apply Qmult_lt_0_compat; apply F2Q_finite_pos. }
  apply binary_round_aux_correct; try assumption; try lia.
  - apply located_exact. exact EX.
  - rewrite (mag_eq _ _ PX EX). rewrite mag_float by lia.
    apply bounded_spec in Hx as (Hex & Hdx & Hnx).
    apply bounded_spec in Hy as (Hey & Hdy & Hny).
    pose proof (Zdigits2_lower (Z.pos mx) eq_refl) as Lx.
    pose proof (Zdigits2_lower (Z.pos my) eq_refl) as Ly.
    pose proof (Zdigits2_pos (Z.pos mx) eq_refl) as Px.
    pose proof (Zdigits2_pos (Z.pos my) eq_refl) as Py.
    assert (Hd : (Zdigits2 (Z.pos mx) + Zdigits2 (Z.pos my) - 1
                  <= Zdigits2 (Z.pos (mx * my)))%Z).
    { apply Zdigits2_ge; [ lia | ].
      replace (Zdigits2 (Z.pos mx) + Zdigits2 (Z.pos my) - 1 - 1)%Z
        with ((Zdigits2 (Z.pos mx) - 1) + (Zdigits2 (Z.pos my) - 1))%Z by lia.
      rewrite Z.pow_add_r by lia. rewrite Pos2Z.inj_mul.
      apply Z.mul_le_mono_nonneg; lia. }
    rewrite fexp_eq. lia.
Qed.

Lemma new_location_located (q r m2 : Z) :
  (0 <= r < m2)%Z ->
  located q (new_location m2 r) (inject_Z q + inject_Z r / inject_Z m2).
Proof.
  intros Hr.
  assert (HM : 0 < inject_Z m2) by (change 0 with (inject_Z 0); rewrite <- Zlt_Qlt; lia).
  set (rho := inject_Z r / inject_Z m2).
  assert (E : rho * inject_Z m2 == inject_Z r) by (unfold rho; field; lra).
  assert (Hlt : forall a b : Z, (a < b)%Z -> inject_Z a < inject_Z b)
    by (intros a b Hab; rewrite <- Zlt_Qlt; exact Hab).
  assert (H2 : inject_Z (2 * r) == 2 * inject_Z r) by (rewrite inject_Z_mult; reflexivity).
  assert (Half : forall h : Q, h * inject_Z m2 == inject_Z r ->
            (2 * inject_Z r < inject_Z m2 -> h < 1 # 2)
            /\ (inject_Z m2 < 2 * inject_Z r -> (1 # 2) < h)
            /\ (2 * inject_Z r == inject_Z m2 -> h == 1 # 2)
            /\ (0 < inject_Z r -> 0 < h)
            /\ h < 1).
  { intros h Eh. pose proof (Hlt r m2 ltac:(lia)) as Hrm.
    repeat split; intros; nra. }
  destruct (Half rho E) as (A1 & A2 & A3 & A4 & A5).
  unfold new_location.
  destruct (Z.eq_dec r 0%Z) as [->|Hr0].
  - assert (rho == 0) by (unfold rho; change (inject_Z 0) with 0; field; lra).
    destruct (Z.even m2); unfold new_location_even, new_location_odd, located;
      simpl Z.eqb; cbv iota; lra.
  - assert (P : 0 < inject_Z r) by (apply (Hlt 0%Z r); lia).
    assert (B : (r =? 0)%Z = false) by (apply Z.eqb_neq; exact Hr0).
    destruct (Z.even m2) eqn:Ev; unfold new_location_even, new_location_odd; rewrite B.
    + destruct (Z.compare_spec (2 * r) m2) as [C|C|C]; unfold located.
      * assert (HE : 2 * inject_Z r == inject_Z m2) by (rewrite <- H2, C; reflexivity).
        specialize (A3 HE). lra.
      * apply Hlt in C. rewrite H2 in C. lra.
      * apply Hlt in C. rewrite H2 in C. lra.
    + assert (Hodd : (2 * r <> m2)%Z).
      { intros <-. rewrite Z.even_mul in Ev. discriminate Ev. }
      destruct (Z.compare_spec (2 * r + 1) m2) as [C|C|C]; unfold located.
      * assert (C' : (2 * r < m2)%Z) by lia. apply Hlt in C'. rewrite H2 in C'. lra.
      * assert (C' : (2 * r < m2)%Z) by lia. apply Hlt in C'. rewrite H2 in C'. lra.
      * assert (C' : (m2 < 2 * r)%Z) by lia. apply Hlt in C'. rewrite H2 in C'. lra.
Qed.

Lemma div_correct (x y : spec_float) :
  nonneg x -> nonneg y -> 0 < F2Q y -> F2Q x / F2Q y < pow2 1023 ->
  nonneg (SFdiv 53 1024 x y) /\ F2Q (SFdiv 53 1024 x y) == rnd (F2Q x / F2Q y).
Proof.
  intros Hx Hy Py Hbig.
  destruct y as [sy|sy| |[|] my ey]; simpl in Hy; try contradiction;
    [ simpl in Py; lra | ].
  destruct x as [sx|sx| |[|] mx ex]; simpl in Hx; try contradiction.
  { simpl SFdiv. split; [ exact I | ]. rewrite rnd_nonpos; [ reflexivity | ].
    simpl F2Q at 1. unfold Qdiv. lra. }
  set (X := F2Q (S754_finite false mx ex)) in *.
  set (Y := F2Q (S754_finite false my ey)) in *.
  assert (PX : 0 < X) by apply F2Q_finite_pos.
  assert (PQ : 0 < X / Y) by (apply Qlt_shift_div_l; lra).
  apply bounded_spec in Hx as (Hex & Hdx & Hnx).
  apply bounded_spec in Hy as (Hey & Hdy & Hny).
  simpl SFdiv. unfold SFdiv_core_binary.
  set (d1 := Zdigits2 (Z.pos mx)) in *. set (d2 := Zdigits2 (Z.pos my)) in *.
  set (e' := Z.min (SpecFloat.fexp 53 1024 (d1 + ex - (d2 + ey))) (ex - ey)).
  set (s := (ex - ey - e')%Z).
  assert (Hs : (0 <= s)%Z) by (unfold s, e'; lia).
  set (m' := match s with
             | 0%Z => Z.pos mx
             | Z.pos _ => Z.shiftl (Z.pos mx) s
             | Z.neg _ => 0%Z
             end).
  assert (Em' : m' = (Z.pos mx * 2 ^ s)%Z).
  { unfold m'. destruct s as [|p|p] eqn:Es; try lia.
    apply Z.shiftl_mul_pow2. lia. }
  clearbody m'.
  pose proof (Z_div_mod m' (Z.pos my) ltac:(lia)) as Hdiv.
  destruct (Z.div_eucl m' (Z.pos my)) as [q r]. destruct Hdiv as [Eq Hr].
  assert (Hq : (0 <= q)%Z).
  { assert (0 <= m')%Z by (rewrite Em'; apply Z.mul_nonneg_nonneg; [ lia | apply Z.pow_nonneg; lia ]).
    nia. }
  assert (EQ : X / Y / pow2 e' == inject_Z q + inject_Z r / inject_Z (Z.pos my)).
  { assert (Em : inject_Z m' == inject_Z (Z.pos mx) * pow2 s).
    { rewrite Em', inject_Z_mult, pow2_Z by lia. reflexivity. }
    assert (Em2 : inject_Z m' == inject_Z (Z.pos my) * inject_Z q + inject_Z r).
    { rewrite Eq, inject_Z_plus, inject_Z_mult. reflexivity. }
    assert (Es : pow2 ex == pow2 s * pow2 ey * pow2 e').
    { rewrite <- !pow2_add. replace (s + ey + e')%Z with ex by (unfold s; lia). reflexivity. }
    unfold X, Y. simpl F2Q.
    pose proof (inject_pos my). pose proof (pow2_pos ey). pose proof (pow2_pos e').
    apply Qeq_trans with (inject_Z m' / inject_Z (Z.pos my)).
    - rewrite Em, Es. field. lra.
    - rewrite Em2. field. lra. }
  apply binary_round_aux_correct; try assumption.
  - eapply located_proper; [ symmetry; exact EQ | ].
    apply new_location_located. exact Hr.
  - assert (Hm : (d1 + ex - (d2 + ey) <= mag (X / Y))%Z).
    { destruct (mag_spec (X / Y) PQ) as [_ M2].
      assert (LX : pow2 (d1 + ex - 1) <= X).
      { unfold X. simpl F2Q. replace (d1 + ex - 1)%Z with ((d1 - 1) + ex)%Z by lia.
        rewrite pow2_add. apply Qmult_le_r; [ apply pow2_pos | ].
        pose proof (Zdigits2_pos (Z.pos mx) eq_refl). fold d1 in H.
        rewrite pow2_Z by lia. rewrite <- Zle_Qle. apply Zdigits2_lower. lia. }
      assert (UY : Y < pow2 (d2 + ey)).
      { unfold Y. simpl F2Q. rewrite pow2_add. apply Qmult_lt_r; [ apply pow2_pos | ].
        pose proof (Zdigits2_pos (Z.pos my) eq_refl). fold d2 in H.
        rewrite pow2_Z by lia. rewrite <- Zlt_Qlt. apply Zdigits2_upper. lia. }
      assert (pow2 (d1 + ex - 1 - (d2 + ey)) < X / Y).
      { rewrite pow2_sub. pose proof (pow2_pos (d2 + ey)) as PB.
        pose proof (pow2_pos (d1 + ex - 1)) as PA.
        set (A := pow2 (d1 + ex - 1)) in *. set (B := pow2 (d2 + ey)) in *.
        assert (PAB : 0 < A / B) by (apply Qlt_shift_div_l; lra).
        apply Qlt_shift_div_l; [ lra | ].
        assert (A / B * Y < A / B * B) by (apply Qmult_lt_l; assumption).
        assert (A / B * B == A) by (field; lra).
        lra. }
      assert (pow2 (d1 + ex - 1 - (d2 + ey)) < pow2 (mag (X / Y))) by lra.
      apply pow2_lt_inv in H0. lia. }
    apply fexp_mono in Hm. unfold e'. fold (fexp (d1 + ex - (d2 + ey))). lia.
Qed.

Lemma iter_xO (d : positive) (m : positive) :
  Z.pos (Pos.iter xO m d) = (Z.pos m * 2 ^ Z.pos d)%Z.
Proof.
  induction d as [|d IH] using Pos.peano_ind.
  - simpl. lia.
  - rewrite Pos.iter_succ, Pos2Z.inj_xO, IH, Pos2Z.inj_succ, Z.pow_succ_r by lia. lia.
Qed.

Lemma shl_align_spec (m : positive) (e e' : Z) :
  let '(m', e'') := shl_align m e e' in
  e'' = Z.min e e'
  /\ inject_Z (Z.pos m') * pow2 e'' == inject_Z (Z.pos m) * pow2 e.
Proof.
  unfold shl_align. destruct (e' - e)%Z as [|d|d] eqn:E.
  - split; [ lia | reflexivity ].
  - split; [ lia | reflexivity ].
  - split; [ lia | ]. rewrite iter_xO, inject_Z_mult. rewrite <- pow2_Z by lia.
    rewrite <- Qmult_assoc, <- pow2_add. replace (Z.pos d + e')%Z with e by lia. reflexivity.
Qed.

Lemma binary_round_correct (m : positive) (e : Z) :
  inject_Z (Z.pos m) * pow2 e < pow2 1023 ->
  nonneg (binary_round 53 1024 false m e)
  /\ F2Q (binary_round 53 1024 false m e) == rnd (inject_Z (Z.pos m) * pow2 e).
Proof.
  intros Hbig. unfold binary_round.
  set (X := inject_Z (Z.pos m) * pow2 e) in *.
  assert (PX : 0 < X) by (apply Qmult_lt_0_compat; [ apply inject_pos | apply pow2_pos ]).
  pose proof (shl_align_spec m e (SpecFloat.fexp 53 1024 (Z.pos (digits2_pos m) + e))) as Hs.
  destruct (shl_align m e _) as [mz ez]. destruct Hs as [Ez EX]. fold X in EX.
  apply binary_round_aux_correct; try assumption; try lia.
  - apply located_exact. symmetry. exact EX.
  - unfold X. rewrite mag_float by lia. subst ez.
    change (Z.pos (digits2_pos m)) with (Zdigits2 (Z.pos m)).
    fold (fexp (Zdigits2 (Z.pos m) + e)). lia.
Qed.

Lemma add_correct (x y : spec_float) :
  nonneg x -> nonneg y -> F2Q x + F2Q y < pow2 1023 ->
  nonneg (SFadd 53 1024 x y) /\ F2Q (SFadd 53 1024 x y) == rnd (F2Q x + F2Q y).
Proof.
  intros Hx Hy Hbig.
  destruct x as [sx|sx| |[|] mx ex]; simpl in Hx; try contradiction;
    destruct y as [sy|sy| |[|] my ey]; simpl in Hy; try contradiction.
  - destruct sx, sy; simpl SFadd; (split; [ exact I | ]);
      (rewrite rnd_nonpos; [ reflexivity | simpl; lra ]).
  - simpl SFadd. split; [ exact Hy | ].
    assert (E : F2Q (S754_zero sx) + F2Q (S754_finite false my ey)
                == F2Q (S754_finite false my ey)) by (simpl; ring).
    rewrite E. symmetry. apply rnd_F2Q. exact Hy.
  - simpl SFadd. split; [ exact Hx | ].
    assert (E : F2Q (S754_finite false mx ex) + F2Q (S754_zero sy)
                == F2Q (S754_finite false mx ex)) by (simpl; ring).
    rewrite E. symmetry. apply rnd_F2Q. exact Hx.
  - unfold SFadd. set (ez := Z.min ex ey).
    pose proof (shl_align_spec mx ex ez) as Sx. pose proof (shl_align_spec my ey ez) as Sy.
    destruct (shl_align mx ex ez) as [mx' ex']. destruct (shl_align my ey ez) as [my' ey'].
    destruct Sx as [Ex' Vx]. destruct Sy as [Ey' Vy].
    assert (Hx' : ex' = ez) by (unfold ez in *; lia).
    assert (Hy' : ey' = ez) by (unfold ez in *; lia).
    clear Ex' Ey'. subst ex' ey'. simpl fst. simpl cond_Zopp.
    change (Z.pos mx' + Z.pos my')%Z with (Z.pos (mx' + my')). unfold binary_normalize.
    assert (E : F2Q (S754_finite false mx ex) + F2Q (S754_finite false my ey)
                == inject_Z (Z.pos (mx' + my')) * pow2 ez).
    { simpl F2Q. rewrite Pos2Z.inj_add, inject_Z_plus. rewrite <- Vx, <- Vy. ring. }
    rewrite E in Hbig |- *. apply binary_round_correct. exact Hbig.
Qed.

Lemma of_Z_correct (n : Z) :
  (0 <= n < 2 ^ 53)%Z ->
  nonneg (binary_normalize 53 1024 n 0 false)
  /\ F2Q (binary_normalize 53 1024 n 0 false) == inject_Z n.
Proof.
  intros Hn. destruct n as [|p|p]; try lia.
  - simpl. split; [ exact I | reflexivity ].
  - unfold binary_normalize.
    assert (E : inject_Z (Z.pos p) * pow2 0 == inject_Z (Z.pos p)).
    { change (pow2 0) with 1. ring. }
    destruct (binary_round_correct p 0) as [H1 H2].
    + rewrite E. apply Qlt_trans with (pow2 53); [ | apply pow2_lt; lia ].
      rewrite pow2_Z by lia. rewrite <- Zlt_Qlt. lia.
    + split; [ exact H1 | ]. rewrite H2, E. apply rnd_Z. lia.
Qed.

Lemma to_int_correct (f : spec_float) :
  nonneg f ->
  match f with
  | S754_zero _ => 0%Z
  | S754_finite s m e => cond_Zopp s (Z.shiftl (Z.pos m) e)
  | _ => 0%Z
  end = Qfloor (F2Q f).
Proof.
  destruct f as [s|s| |[|] m e]; simpl nonneg; intros H; try contradiction.
  - reflexivity.
  - simpl cond_Zopp. simpl F2Q. destruct (Z.le_gt_cases 0 e) as [He|He].
    + rewrite Z.shiftl_mul_pow2 by exact He.
      assert (E : inject_Z (Z.pos m) * pow2 e == inject_Z (Z.pos m * 2 ^ e)).
      { rewrite inject_Z_mult, pow2_Z by exact He. reflexivity. }
      rewrite (Qfloor_comp _ _ E), Qfloor_Z. reflexivity.
    + rewrite Z.shiftl_div_pow2 by lia. rewrite Zdiv_Qdiv.
      apply Qfloor_comp. rewrite <- pow2_Z by lia. rewrite pow2_opp.
      pose proof (pow2_pos e). unfold Qdiv. rewrite Qinv_involutive. reflexivity.
Qed.

End RoundingFacts.

Import RoundingFacts.

(** ** Rounding without a bound: the result or an overflow *)

Section Overflow.
#[local] Open Scope Q_scope.

Lemma finish_round_total (m1 e1 : Z) :
  (0 <= m1 <= 2 ^ 53)%Z ->
  (-1074 <= e1)%Z ->
  (-1074 < e1 -> 2 ^ 52 <= m1)%Z ->
  let f :=
    let '(mrs, e2) := shr_fexp 53 1024 m1 e1 loc_Exact in
    match shr_m mrs with
    | Z0 => S754_zero false
    | Z.pos m => if (e2 <=? 1024 - 53)%Z then S754_finite false m e2 else S754_infinity false
    | _ => S754_nan
    end in
  (nonneg f /\ F2Q f == inject_Z m1 * pow2 e1) \/ f = S754_infinity false.
Proof.
  intros Hm He Hn.
  change (1024 - 53)%Z with 971%Z.
  destruct (Z.eq_dec m1 (2 ^ 53)%Z) as [->|Hlt].
  - assert (Hs : shr_fexp 53 1024 (2 ^ 53) e1 loc_Exact
                 = ({| shr_m := 4503599627370496; shr_r := false; shr_s := false |},
                    (e1 + 1)%Z)).
    { unfold shr_fexp, shr.
      replace (SpecFloat.fexp 53 1024 (Zdigits2 (2 ^ 53) + e1) - e1)%Z with 1%Z.
      - reflexivity.
      - unfold SpecFloat.fexp, emin. change (Zdigits2 (2 ^ 53)%Z) with 54%Z. lia. }
    rewrite Hs. cbv zeta beta iota. simpl shr_m. cbv iota.
    destruct (Z.leb_spec (e1 + 1)%Z 971%Z) as [L|L]; [ left | right; reflexivity ].
    split.
    + unfold nonneg, bounded, canonical_mantissa.
      change (Z.pos (digits2_pos 4503599627370496)) with 53%Z.
      unfold SpecFloat.fexp, emin.
      apply andb_true_intro. split; [ apply Z.eqb_eq | apply Z.leb_le ]; lia.
    + unfold F2Q, cond_Zopp. rewrite pow2_succ.
      change (inject_Z (2 ^ 53)%Z) with (2 * inject_Z 4503599627370496).
      ring.
  - destruct (Z.eq_dec m1 0%Z) as [->|Hpos].
    + assert (Hs : shr_fexp 53 1024 0 e1 loc_Exact
                   = ({| shr_m := 0; shr_r := false; shr_s := false |}, e1)).
      { unfold shr_fexp, shr. simpl Zdigits2.
        destruct (SpecFloat.fexp 53 1024 (0 + e1) - e1)%Z eqn:En; try reflexivity.
        unfold SpecFloat.fexp, emin in En. lia. }
      rewrite Hs. cbv zeta beta iota. simpl shr_m. cbv iota. left.
      split; [ exact I | ]. unfold F2Q. change (inject_Z 0) with 0. ring.
    + assert (Hd : (Zdigits2 m1 <= 53)%Z) by (apply Zdigits2_le; lia).
      assert (Hd' : (-1074 < e1 -> Zdigits2 m1 = 53)%Z).
      { intros H. apply Hn in H.
        assert (53 <= Zdigits2 m1)%Z by (apply Zdigits2_ge; lia). lia. }
      assert (Hf : SpecFloat.fexp 53 1024 (Zdigits2 m1 + e1)%Z = e1).
      { unfold SpecFloat.fexp, emin. lia. }
      assert (Hs : shr_fexp 53 1024 m1 e1 loc_Exact
                   = ({| shr_m := m1; shr_r := false; shr_s := false |}, e1)).
      { unfold shr_fexp, shr. rewrite Hf, Z.sub_diag. reflexivity. }
      rewrite Hs. cbv zeta beta iota. simpl shr_m.
      destruct m1 as [|p|p]; try lia.
      destruct (Z.leb_spec e1 971%Z) as [L|L]; [ left | right; reflexivity ].
      split; [ | reflexivity ].
      unfold nonneg, bounded, canonical_mantissa.
      change (Z.pos (digits2_pos p)) with (Zdigits2 (Z.pos p)). rewrite Hf.
      apply andb_true_intro. split; [ apply Z.eqb_eq | apply Z.leb_le ]; lia.
Qed.

(** [binary_round_aux] rounds the located value to nearest, ties to
    even, or overflows to the infinity. *)
Lemma binary_round_aux_total (mx ex : Z) (lx : location) (x : Q) :
  (0 <= mx)%Z ->
  0 < x ->
  located mx lx (x / pow2 ex) ->
  (ex <= fexp (mag x))%Z ->
  (nonneg (binary_round_aux 53 1024 false mx ex lx)
   /\ F2Q (binary_round_aux 53 1024 false mx ex lx) == rnd x)
  \/ binary_round_aux 53 1024 false mx ex lx = S754_infinity false.
Proof.
  intros Hmx Hx Hloc Hex.
  assert (Hd : fexp (Zdigits2 mx + ex) = fexp (mag x)).
  { destruct (Z.eq_dec mx 0%Z) as [->|Hpos].
    - apply located_range in Hloc. change (inject_Z 0) with 0 in Hloc.
      assert (x < pow2 ex).
      { pose proof (scaled_back x ex) as E. pose proof (pow2_pos ex).
        assert (x / pow2 ex * pow2 ex < 1 * pow2 ex) by (apply Qmult_lt_r; lra).
        lra. }
      pose proof (mag_below x ex Hx H). simpl Zdigits2.
      rewrite !fexp_eq in *. lia.
    - rewrite (mag_located mx ex lx x) by (assumption || lia). reflexivity. }
  destruct (shr_fexp_located mx ex lx x Hmx Hloc) as (mrs & Hs & Hm' & Hloc').
  { rewrite Hd. exact Hex. }
  rewrite Hd in Hs, Hloc'. set (e1 := fexp (mag x)) in *.
  unfold binary_round_aux. rewrite Hs.
  rewrite (located_rne _ _ _ Hloc'). set (m1 := rne (x / pow2 e1)).
  destruct (mag_spec x Hx) as [M1 M2].
  assert (He1 : (-1074 <= e1)%Z) by (unfold e1; rewrite fexp_eq; lia).
  assert (Hm1 : (0 <= m1 <= 2 ^ 53)%Z).
  { split.
    - apply rne_ge. change (inject_Z 0) with 0.
      apply Qle_shift_div_l; [ apply pow2_pos | lra ].
    - apply rne_le. rewrite <- pow2_Z by lia. apply Qlt_le_weak.
      apply div_pow2_upper. apply Qlt_le_trans with (1 := M2).
      apply pow2_le. unfold e1. rewrite fexp_eq. lia. }
  assert (Hn : (-1074 < e1 -> 2 ^ 52 <= m1)%Z).
  { intros H. apply rne_ge. rewrite <- pow2_Z by lia.
    apply div_pow2_lower. apply Qle_trans with (2 := M1).
    apply pow2_le. unfold e1 in *. rewrite fexp_eq in *. lia. }
  destruct (finish_round_total m1 e1 Hm1 He1 Hn) as [[F1 F2]|F].
  - left. split; [ exact F1 | ]. rewrite F2. rewrite (rnd_pos x Hx). reflexivity.
  - right. exact F.
Qed.

Lemma value_or_infinity (f : spec_float) (q : Q) :
  (nonneg f /\ F2Q f == q) \/ f = S754_infinity false -> value_or_top f q.
Proof. intros [H| ->]; [ left; exact H | right; exact I ]. Qed.

Lemma value_or_top_proper (f : spec_float) (q q' : Q) :
  q == q' -> value_or_top f q -> value_or_top f q'.
Proof.
  intros E [[N V]|T]; [ left | right; exact T ].
  split; [ exact N | ]. rewrite V. exact E.
Qed.

Lemma mul_total (x y : spec_float) (qx : Q) :
  value_or_top x qx -> nonneg y ->
  value_or_top (SFmul 53 1024 x y) (rnd (qx * F2Q y)).
Proof.
  intros [[Hx Vx]|Tx] Hy.
  - apply value_or_top_proper with (rnd (F2Q x * F2Q y)); [ rewrite Vx; reflexivity | ].
    clear Vx qx.
    destruct x as [sx|sx| |[|] mx ex]; simpl in Hx; try contradiction;
      destruct y as [sy|sy| |[|] my ey]; simpl in Hy; try contradiction;
      try (left; simpl SFmul; split; [ exact I | ];
           rewrite rnd_nonpos; [ reflexivity | simpl F2Q; lra ]).
    simpl SFmul.
    set (X := F2Q (S754_finite false mx ex) * F2Q (S754_finite false my ey)) in *.
    assert (EX : X == inject_Z (Z.pos (mx * my)) * pow2 (ex + ey)).
    { unfold X. simpl. rewrite Pos2Z.inj_mul, inject_Z_mult, pow2_add. ring. }
    assert (PX : 0 < X).
    { unfold X. apply Qmult_lt_0_compat; apply F2Q_finite_pos. }
    apply value_or_infinity.
    apply binary_round_aux_total; try assumption; try lia.
    + apply located_exact. exact EX.
    + rewrite (mag_eq _ _ PX EX). rewrite mag_float by lia.
      apply bounded_spec in Hx as (Hex & Hdx & Hnx).
      apply bounded_spec in Hy as (Hey & Hdy & Hny).
      pose proof (Zdigits2_lower (Z.pos mx) eq_refl) as Lx.
      pose proof (Zdigits2_lower (Z.pos my) eq_refl) as Ly.
      pose proof (Zdigits2_pos (Z.pos mx) eq_refl) as Px.
      pose proof (Zdigits2_pos (Z.pos my) eq_refl) as Py.
      assert (Hd : (Zdigits2 (Z.pos mx) + Zdigits2 (Z.pos my) - 1
                    <= Zdigits2 (Z.pos (mx * my)))%Z).
      { apply Zdigits2_ge; [ lia | ].
        replace (Zdigits2 (Z.pos mx) + Zdigits2 (Z.pos my) - 1 - 1)%Z
          with ((Zdigits2 (Z.pos mx) - 1) + (Zdigits2 (Z.pos my) - 1))%Z by lia.
        rewrite Z.pow_add_r by lia. rewrite Pos2Z.inj_mul.
        apply Z.mul_le_mono_nonneg; lia. }
      rewrite fexp_eq. lia.
  - right.
    destruct x as [sx|sx| |sx mx ex]; simpl in Tx; try contradiction;
      destruct y as [sy|sy| |[|] my ey]; simpl in Hy; try contradiction; exact I.
Qed.

Lemma div_total (x y : spec_float) (qx : Q) :
  value_or_top x qx -> nonneg y -> 0 < F2Q y ->
  value_or_top (SFdiv 53 1024 x y) (rnd (qx / F2Q y)).
Proof.
  intros [[Hx Vx]|Tx] Hy Py.
  - apply value_or_top_proper with (rnd (F2Q x / F2Q y)); [ rewrite Vx; reflexivity | ].
    clear Vx qx.
    destruct y as [sy|sy| |[|] my ey]; simpl in Hy; try contradiction;
      [ simpl in Py; lra | ].
    destruct x as [sx|sx| |[|] mx ex]; simpl in Hx; try contradiction.
    { left. simpl SFdiv. split; [ exact I | ]. rewrite rnd_nonpos; [ reflexivity | ].
      simpl F2Q at 1. unfold Qdiv. lra. }
    set (X := F2Q (S754_finite false mx ex)) in *.
    set (Y := F2Q (S754_finite false my ey)) in *.
    assert (PX : 0 < X) by apply F2Q_finite_pos.
    assert (PQ : 0 < X / Y) by (apply Qlt_shift_div_l; lra).
    apply bounded_spec in Hx as (Hex & Hdx & Hnx).
    apply bounded_spec in Hy as (Hey & Hdy & Hny).
    simpl SFdiv. unfold SFdiv_core_binary.
    set (d1 := Zdigits2 (Z.pos mx)) in *. set (d2 := Zdigits2 (Z.pos my)) in *.
    set (e' := Z.min (SpecFloat.fexp 53 1024 (d1 + ex - (d2 + ey))) (ex - ey)).
    set (s := (ex - ey - e')%Z).
    assert (Hs : (0 <= s)%Z) by (unfold s, e'; lia).
    set (m' := match s with
               | 0%Z => Z.pos mx
               | Z.pos _ => Z.shiftl (Z.pos mx) s
               | Z.neg _ => 0%Z
               end).
    assert (Em' : m' = (Z.pos mx * 2 ^ s)%Z).
    { unfold m'. destruct s as [|p|p] eqn:Es; try lia.
      apply Z.shiftl_mul_pow2. lia. }
    clearbody m'.
    pose proof (Z_div_mod m' (Z.pos my) ltac:(lia)) as Hdiv.
    destruct (Z.div_eucl m' (Z.pos my)) as [q r]. destruct Hdiv as [Eq Hr].
    assert (Hq : (0 <= q)%Z).
    { assert (0 <= m')%Z by (rewrite Em'; apply Z.mul_nonneg_nonneg; [ lia | apply Z.pow_nonneg; lia ]).
      nia. }
    assert (EQ : X / Y / pow2 e' == inject_Z q + inject_Z r / inject_Z (Z.pos my)).
    { assert (Em : inject_Z m' == inject_Z (Z.pos mx) * pow2 s).
      { rewrite Em', inject_Z_mult, pow2_Z by lia. reflexivity. }
      assert (Em2 : inject_Z m' == inject_Z (Z.pos my) * inject_Z q + inject_Z r).
      { rewrite Eq, inject_Z_plus, inject_Z_mult. reflexivity. }
      assert (Es : pow2 ex == pow2 s * pow2 ey * pow2 e').
      { rewrite <- !pow2_add. replace (s + ey + e')%Z with ex by (unfold s; lia). reflexivity. }
      unfold X, Y. simpl F2Q.
      pose proof (inject_pos my). pose proof (pow2_pos ey). pose proof (pow2_pos e').
      apply Qeq_trans with (inject_Z m' / inject_Z (Z.pos my)).
      - rewrite Em, Es. field. lra.
      - rewrite Em2. field. lra. }
    apply value_or_infinity.
    apply binary_round_aux_total; try assumption.
    + eapply located_proper; [ symmetry; exact EQ | ].
      apply new_location_located. exact Hr.
    + assert (Hm : (d1 + ex - (d2 + ey) <= mag (X / Y))%Z).
      { destruct (mag_spec (X / Y) PQ) as [_ M2].
        assert (LX : pow2 (d1 + ex - 1) <= X).
        { unfold X. simpl F2Q. replace (d1 + ex - 1)%Z with ((d1 - 1) + ex)%Z by lia.
          rewrite pow2_add. apply Qmult_le_r; [ apply pow2_pos | ].
          pose proof (Zdigits2_pos (Z.pos mx) eq_refl). fold d1 in H.
          rewrite pow2_Z by lia. rewrite <- Zle_Qle. apply Zdigits2_lower. lia. }
        assert (UY : Y < pow2 (d2 + ey)).
        { unfold Y. simpl F2Q. rewrite pow2_add. apply Qmult_lt_r; [ apply pow2_pos | ].
          pose proof (Zdigits2_pos (Z.pos my) eq_refl). fold d2 in H.
          rewrite pow2_Z by lia. rewrite <- Zlt_Qlt. apply Zdigits2_upper. lia. }
        assert (pow2 (d1 + ex - 1 - (d2 + ey)) < X / Y).
        { rewrite pow2_sub. pose proof (pow2_pos (d2 + ey)) as PB.
          pose proof (pow2_pos (d1 + ex - 1)) as PA.
          set (A := pow2 (d1 + ex - 1)) in *. set (B := pow2 (d2 + ey)) in *.
          assert (PAB : 0 < A / B) by (apply Qlt_shift_div_l; lra).
          apply Qlt_shift_div_l; [ lra | ].
          assert (A / B * Y < A / B * B) by (apply Qmult_lt_l; assumption).
          assert (A / B * B == A) by (field; lra).
          lra. }
        assert (pow2 (d1 + ex - 1 - (d2 + ey)) < pow2 (mag (X / Y))) by lra.
        apply pow2_lt_inv in H0. lia. }
      apply fexp_mono in Hm. unfold e'. fold (fexp (d1 + ex - (d2 + ey))). lia.
  - right.
    destruct x as [sx|sx| |sx mx ex]; simpl in Tx; try contradiction;
      destruct y as [sy|sy| |[|] my ey]; simpl in Hy; try contradiction;
      try exact I; simpl in Py; lra.
Qed.

Lemma binary_round_total (m : positive) (e : Z) :
  (nonneg (binary_round 53 1024 false m e)
   /\ F2Q (binary_round 53 1024 false m e) == rnd (inject_Z (Z.pos m) * pow2 e))
  \/ binary_round 53 1024 false m e = S754_infinity false.
Proof.
  unfold binary_round.
  set (X := inject_Z (Z.pos m) * pow2 e) in *.
  assert (PX : 0 < X) by (apply Qmult_lt_0_compat; [ apply inject_pos | apply pow2_pos ]).
  pose proof (shl_align_spec m e (SpecFloat.fexp 53 1024 (Z.pos (digits2_pos m) + e))) as Hs.
  destruct (shl_align m e _) as [mz ez]. destruct Hs as [Ez EX]. fold X in EX.
  apply binary_round_aux_total; try assumption; try lia.
  - apply located_exact. symmetry. exact EX.
  - unfold X. rewrite mag_float by lia. subst ez.
    change (Z.pos (digits2_pos m)) with (Zdigits2 (Z.pos m)).
    fold (fexp (Zdigits2 (Z.pos m) + e)). lia.
Qed.

Lemma add_total (x y : spec_float) (qx qy : Q) :
  value_or_top x qx -> value_or_top y qy ->
  value_or_top (SFadd 53 1024 x y) (rnd (qx + qy)).
Proof.
  intros [[Hx Vx]|Tx] [[Hy Vy]|Ty].
  - apply value_or_top_proper with (rnd (F2Q x + F2Q y));
      [ rewrite Vx, Vy; reflexivity | ].
    clear Vx Vy qx qy.
    destruct x as [sx|sx| |[|] mx ex]; simpl in Hx; try contradiction;
      destruct y as [sy|sy| |[|] my ey]; simpl in Hy; try contradiction.
    + left. destruct sx, sy; simpl SFadd; (split; [ exact I | ]);
        (rewrite rnd_nonpos; [ reflexivity | simpl; lra ]).
    + left. simpl SFadd. split; [ exact Hy | ].
      assert (E : F2Q (S754_zero sx) + F2Q (S754_finite false my ey)
                  == F2Q (S754_finite false my ey)) by (simpl; ring).
      rewrite E. symmetry. apply rnd_F2Q. exact Hy.
    + left. simpl SFadd. split; [ exact Hx | ].
      assert (E : F2Q (S754_finite false mx ex) + F2Q (S754_zero sy)
                  == F2Q (S754_finite false mx ex)) by (simpl; ring).
      rewrite E. symmetry. apply rnd_F2Q. exact Hx.
    + unfold SFadd. set (ez := Z.min ex ey).
      pose proof (shl_align_spec mx ex ez) as Sx. pose proof (shl_align_spec my ey ez) as Sy.
      destruct (shl_align mx ex ez) as [mx' ex']. destruct (shl_align my ey ez) as [my' ey'].
      destruct Sx as [Ex' Vx]. destruct Sy as [Ey' Vy].
      assert (Hx' : ex' = ez) by (unfold ez in *; lia).
      assert (Hy' : ey' = ez) by (unfold ez in *; lia).
      clear Ex' Ey'. subst ex' ey'. simpl fst. simpl cond_Zopp.
      change (Z.pos mx' + Z.pos my')%Z with (Z.pos (mx' + my')). unfold binary_normalize.
      assert (E : F2Q (S754_finite false mx ex) + F2Q (S754_finite false my ey)
                  == inject_Z (Z.pos (mx' + my')) * pow2 ez).
      { simpl F2Q. rewrite Pos2Z.inj_add, inject_Z_plus. rewrite <- Vx, <- Vy. ring. }
      apply value_or_top_proper with (rnd (inject_Z (Z.pos (mx' + my')) * pow2 ez));
        [ rewrite E; reflexivity | ].
      apply value_or_infinity, binary_round_total.
  - right.
    destruct x as [sx|sx| |[|] mx ex]; simpl in Hx; try contradiction;
      destruct y as [sy|[|]| |sy my ey]; simpl in Ty; try contradiction; exact I.
  - right.
    destruct y as [sy|sy| |[|] my ey]; simpl in Hy; try contradiction;
      destruct x as [sx|[|]| |sx mx ex]; simpl in Tx; try contradiction; exact I.
  - right.
    destruct x as [sx|[|]| |sx mx ex]; simpl in Tx; try contradiction;
      destruct y as [sy|[|]| |sy my ey]; simpl in Ty; try contradiction; exact I.
Qed.

(** [float(n)] for an integer that is not negative: the nearest float,
    or [OverflowError]. *)
Lemma of_int_total (n : Z) (f : spec_float) :
  (0 <= n)%Z -> F64.of_int n = Ok f -> nonneg f /\ F2Q f == rnd (inject_Z n).
Proof.
  intros Hn. unfold F64.of_int. destruct n as [|p|p]; try lia.
  - simpl. intros [= <-]. split; [ exact I | ]. rewrite rnd_nonpos; [ reflexivity | ].
    change (inject_Z 0) with 0. lra.
  - change (F64.of_Z (Z.pos p)) with (binary_round 53 1024 false p 0).
    assert (E : inject_Z (Z.pos p) * pow2 0 == inject_Z (Z.pos p)).
    { change (pow2 0) with 1. ring. }
    destruct (binary_round_total p 0) as [[N V]| ->]; [ | discriminate ].
    rewrite E in V.
    destruct (binary_round 53 1024 false p 0); intros [= <-];
      simpl in N; try contradiction; split; assumption.
Qed.

Lemma rnd_idem (x : Q) : rnd (rnd x) == rnd x.
Proof.
  destruct (Qlt_le_dec 0 x) as [Hx|Hx];
    [ | rewrite (rnd_nonpos x Hx); rewrite rnd_nonpos by lra; reflexivity ].
  rewrite (rnd_pos x Hx). set (e1 := fexp (mag x)). unfold round_at.
  set (m1 := rne (x / pow2 e1)).
  destruct (mag_spec x Hx) as [M1 M2].
  assert (He1 : (-1074 <= e1)%Z) by (unfold e1; rewrite fexp_eq; lia).
  assert (Hm1 : (0 <= m1 <= 2 ^ 53)%Z).
  { split.
    - apply rne_ge. change (inject_Z 0) with 0.
      apply Qle_shift_div_l; [ apply pow2_pos | lra ].
    - apply rne_le. rewrite <- pow2_Z by lia. apply Qlt_le_weak.
      apply div_pow2_upper. apply Qlt_le_trans with (1 := M2).
      apply pow2_le. unfold e1. rewrite fexp_eq. lia. }
  destruct (Z.eq_dec m1 (2 ^ 53)%Z) as [E|E].
  - rewrite E.
    assert (E2 : inject_Z (2 ^ 53) * pow2 e1 == inject_Z (2 ^ 52) * pow2 (e1 + 1)).
    { rewrite pow2_succ. change (inject_Z (2 ^ 53)) with (2 * inject_Z (2 ^ 52)). ring. }
    rewrite E2. apply rnd_exact; lia.
  - apply rnd_exact; lia.
Qed.

End Overflow.

(** ** Weighted progress of the batch *)

Section Arithmetic.
#[local] Open Scope Q_scope.

Lemma of_Z_ok (n : Z) :
  (0 <= n < 2 ^ 53)%Z ->
  F64.of_int n = Ok (F64.of_Z n) /\ nonneg (F64.of_Z n) /\ F2Q (F64.of_Z n) == inject_Z n.
Proof.
  intros H. destruct (of_Z_correct n H) as [H1 H2].
  change (binary_normalize 53 1024 n 0 false) with (F64.of_Z n) in *.
  repeat split; try assumption.
  unfold F64.of_int. destruct (F64.of_Z n) as [| |  |]; simpl in H1; try contradiction; reflexivity.
Qed.

Lemma truediv_ok (x y : spec_float) :
  nonneg x -> nonneg y -> 0 < F2Q y -> F2Q x / F2Q y < pow2 1023 ->
  exists r, F64.truediv x y = Ok r /\ nonneg r /\ F2Q r == rnd (F2Q x / F2Q y).
Proof.
  intros Hx Hy Py Hb. destruct (div_correct x y Hx Hy Py Hb) as [H1 H2].
  exists (SFdiv 53 1024 x y). repeat split; try assumption.
  unfold F64.truediv. destruct y; simpl in *; try reflexivity; lra.
Qed.

Lemma to_int_ok (f : spec_float) : nonneg f -> F64.to_int f = Ok (Qfloor (F2Q f)).
Proof.
  intros H. rewrite <- (to_int_correct f H).
  destruct f as [s|s| |[|] m e]; simpl in H; try contradiction; reflexivity.
Qed.

Lemma hundred : nonneg (F64.of_Z 100) /\ F2Q (F64.of_Z 100) == 100.
Proof. split; [ vm_compute; reflexivity | vm_compute; reflexivity ]. Qed.

Lemma bind_ok {A B : Type} (a : A) (k : A -> result B) : (Ok a ≫= k) = k a.
Proof. reflexivity. Qed.

#[global] Instance percent_model_proper : Proper (Qeq ==> eq ==> eq) percent_model.
Proof.
  intros c c' E T T' <-. unfold percent_model.
  assert (E1 : rnd (rnd (c / inject_Z T) * 100) == rnd (rnd (c' / inject_Z T) * 100)).
  { rewrite E. reflexivity. }
  rewrite (Qfloor_comp _ _ E1). reflexivity.
Qed.

Lemma percent_model_mono (c c' : Q) (T : Z) :
  (0 < T)%Z -> c <= c' -> (percent_model c T <= percent_model c' T)%Z.
Proof.
  intros HT H. unfold percent_model.
  assert (PT : 0 < inject_Z T) by (change 0 with (inject_Z 0); rewrite <- Zlt_Qlt; exact HT).
  assert (H1 : rnd (c / inject_Z T) <= rnd (c' / inject_Z T)).
  { apply rnd_mono. unfold Qdiv. apply Qmult_le_r; [ apply Qinv_lt_0_compat; exact PT | exact H ]. }
  assert (H2 : rnd (rnd (c / inject_Z T) * 100) <= rnd (rnd (c' / inject_Z T) * 100)).
  { apply rnd_mono. lra. }
  apply Qfloor_resp_le in H2. lia.
Qed.

Lemma percent_model_range (c : Q) (T : Z) : (0 <= percent_model c T <= 100)%Z.
Proof. unfold percent_model. lia. Qed.

Lemma pow2_53 : pow2 53 == inject_Z (2 ^ 53).
Proof. apply pow2_Z. lia. Qed.

Lemma below_2_53 (n : Z) : (n < 2 ^ 53)%Z -> inject_Z n < pow2 53.
Proof. intros H. rewrite pow2_53, <- Zlt_Qlt. exact H. Qed.

Lemma pow2_53_1023 : pow2 53 * 100 < pow2 1023.
Proof. vm_compute. reflexivity. Qed.

Lemma pow2_54_1023 : 2 * pow2 53 < pow2 1023 /\ 100 < pow2 53.
Proof. split; vm_compute; reflexivity. Qed.

Lemma rnd_pow2_53 : rnd (pow2 53) == pow2 53.
Proof.
  pose proof (rnd_exact 1 53 ltac:(lia) ltac:(lia)) as E.
  assert (E' : inject_Z 1 * pow2 53 == pow2 53) by (change (inject_Z 1) with 1; ring).
  rewrite E' in E. exact E.
Qed.

(** [percent_of] computes the model percentage. *)
Lemma percent_of_correct (c : spec_float) (T : Z) :
  nonneg c -> F2Q c <= pow2 53 -> (1 <= T < 2 ^ 53)%Z ->
  percent_of c T = Ok (percent_model (F2Q c) T).
Proof.
  intros Hc Hb HT. unfold percent_of.
  destruct (of_Z_ok T ltac:(lia)) as (E1 & N1 & V1). rewrite E1, bind_ok.
  assert (PT : 1 <= inject_Z T) by (change 1 with (inject_Z 1); rewrite <- Zle_Qle; lia).
  pose proof (F2Q_nonneg c Hc) as Pc.
  assert (Hq : F2Q c / F2Q (F64.of_Z T) <= pow2 53).
  { rewrite V1. apply Qle_shift_div_r; [ lra | ]. pose proof (pow2_pos 53). nra. }
  destruct (truediv_ok c (F64.of_Z T) Hc N1) as (r & E2 & N2 & V2).
  { rewrite V1. lra. }
  { destruct pow2_54_1023. pose proof (pow2_pos 53). lra. }
  rewrite E2, bind_ok.
  destruct hundred as [N3 V3].
  assert (Hr : F2Q r <= pow2 53).
  { rewrite V2, <- rnd_pow2_53. apply rnd_mono. exact Hq. }
  destruct (mul_correct r (F64.of_Z 100) N2 N3) as [N4 V4].
  { rewrite V3. pose proof pow2_53_1023. lra. }
  change (SFmul 53 1024 r (F64.of_Z 100)) with (F64.mul r (F64.of_Z 100)) in *.
  rewrite (to_int_ok _ N4), bind_ok. f_equal. unfold percent_model.
  assert (E : F2Q (F64.mul r (F64.of_Z 100)) == rnd (rnd (F2Q c / inject_Z T) * 100)).
  { rewrite V4, V3, V2, V1. reflexivity. }
  rewrite (Qfloor_comp _ _ E). reflexivity.
Qed.

Lemma rnd_1 : rnd 1 == 1.
Proof. apply (rnd_Z 1). lia. Qed.

Lemma inject_nonneg (n : Z) : (0 <= n)%Z -> 0 <= inject_Z n.
Proof. intros H. change 0 with (inject_Z 0). rewrite <- Zle_Qle. exact H. Qed.

Lemma weight_bounds (P : Q) (t : Z) :
  (0 <= t < 2 ^ 53)%Z -> P <= 100 ->
  rnd (P / 100) <= 1 /\ rnd (rnd (P / 100) * inject_Z t) <= inject_Z t.
Proof.
  intros Ht HP. pose proof (inject_nonneg t ltac:(lia)) as Pt.
  assert (A : rnd (P / 100) <= 1).
  { rewrite <- rnd_1. apply rnd_mono. apply Qle_shift_div_r; lra. }
  split; [ exact A | ].
  rewrite <- (rnd_Z t) at 2 by lia. apply rnd_mono. nra.
Qed.

Lemma during_model_bounds (D : Z) (P : Q) (t : Z) :
  (0 <= D)%Z -> (0 <= t)%Z -> (D + t < 2 ^ 53)%Z -> P <= 100 ->
  inject_Z D <= during_model D P t <= inject_Z (D + t).
Proof.
  intros HD Ht HS HP. unfold during_model.
  destruct (weight_bounds P t ltac:(lia) HP) as [_ B].
  pose proof (rnd_nonneg (rnd (P / 100) * inject_Z t)) as B0.
  split.
  - rewrite <- (rnd_Z D) at 1 by lia. apply rnd_mono. lra.
  - rewrite <- (rnd_Z (D + t)) by lia. apply rnd_mono. rewrite inject_Z_plus. lra.
Qed.

(** [overall_int] computes the model percentage of the model duration. *)
Lemma overall_int_correct (d p : spec_float) (D t T : Z) :
  nonneg d -> F2Q d == inject_Z D ->
  nonneg p -> F2Q p <= 100 ->
  (0 <= D)%Z -> (0 <= t)%Z -> (D + t < 2 ^ 53)%Z -> (1 <= T < 2 ^ 53)%Z ->
  overall_int d p t T = Ok (percent_model (during_model D (F2Q p) t) T).
Proof.
  intros Nd Vd Np Vp HD Ht HS HT. unfold overall_int.
  destruct hundred as [N100 V100].
  pose proof (F2Q_nonneg p Np) as P0.
  pose proof (pow2_pos 53) as P53. destruct pow2_54_1023 as [Big Big'].
  destruct (weight_bounds (F2Q p) t ltac:(lia) Vp) as [A B].
  pose proof (inject_nonneg t Ht) as Pt. pose proof (inject_nonneg D HD) as PD.
  pose proof (below_2_53 t ltac:(lia)) as Bt.
  pose proof (below_2_53 (D + t) HS) as BS. rewrite inject_Z_plus in BS.
  destruct (truediv_ok p (F64.of_Z 100) Np N100) as (a & E1 & Na & Va).
  { rewrite V100. lra. }
  { rewrite V100. apply Qlt_shift_div_r; lra. }
  rewrite V100 in Va. rewrite E1, bind_ok.
  destruct (of_Z_ok t ltac:(lia)) as (E2 & Nt & Vt). rewrite E2, bind_ok.
  destruct (mul_correct a (F64.of_Z t) Na Nt) as [Nb Vb].
  { rewrite Va, Vt.
    assert (rnd (F2Q p / 100) * inject_Z t <= 1 * inject_Z t)
      by (apply Qmult_le_compat_r; assumption).
    lra. }
  rewrite Va, Vt in Vb.
  change (SFmul 53 1024 a (F64.of_Z t)) with (F64.mul a (F64.of_Z t)) in *.
  destruct (add_correct d (F64.mul a (F64.of_Z t)) Nd Nb) as [Nc Vc].
  { rewrite Vd, Vb. lra. }
  rewrite Vd, Vb in Vc.
  change (SFadd 53 1024 d (F64.mul a (F64.of_Z t))) with (F64.add d (F64.mul a (F64.of_Z t))) in *.
  fold (during_model D (F2Q p) t) in Vc.
  destruct (during_model_bounds D (F2Q p) t HD Ht HS Vp) as [_ Up].
  rewrite percent_of_correct; try assumption.
  - rewrite Vc. reflexivity.
  - rewrite Vc. rewrite inject_Z_plus in Up. lra.
Qed.

(** The completion of a file adds its whole target duration to the
    counter and emits the percentage of the new counter. *)
Lemma complete_correct (file out_path : string) (d : spec_float) (D t T : Z) :
  nonneg d -> F2Q d == inject_Z D ->
  (0 <= D)%Z -> (0 <= t)%Z -> (D + t < 2 ^ 53)%Z -> (1 <= T < 2 ^ 53)%Z ->
  exists d',
    complete file out_path d t T =
      ([progress_updated (percent_model (inject_Z (D + t)) T);
        log_message (Completed out_path) "green"], d')
    /\ nonneg d' /\ F2Q d' == inject_Z (D + t).
Proof.
  intros Nd Vd HD Ht HS HT. unfold complete.
  destruct (of_Z_ok t ltac:(lia)) as (E2 & Nt & Vt). rewrite E2.
  pose proof (below_2_53 (D + t) HS) as BS.
  pose proof (pow2_pos 53) as P53. destruct pow2_54_1023 as [Big Big'].
  destruct (add_correct d (F64.of_Z t) Nd Nt) as [Nc Vc].
  { rewrite Vd, Vt, <- inject_Z_plus. lra. }
  rewrite Vd, Vt, <- inject_Z_plus in Vc. rewrite rnd_Z in Vc by lia.
  change (SFadd 53 1024 d (F64.of_Z t)) with (F64.add d (F64.of_Z t)) in *.
  exists (F64.add d (F64.of_Z t)).
  rewrite percent_of_correct; try assumption.
  - rewrite Vc. repeat split; assumption.
  - rewrite Vc. lra.
Qed.

End Arithmetic.

Lemma rising_Sorted (lo : Z) (l : list Z) : rising lo l -> Sorted Z.le l.
Proof.
  revert lo. induction l as [|v r IH]; intros lo H; [ constructor | ].
  destruct H as [_ Hr]. constructor; [ exact (IH v Hr) | ].
  destruct r as [|w r']; constructor. destruct Hr as [Hw _]. exact Hw.
Qed.

Lemma progress_values_app (a b : list signal) :
  progress_values (a ++ b) = progress_values a ++ progress_values b.
Proof. unfold progress_values. apply omap_app. Qed.

Section Loop.

Variables (idx n : nat) (file : string) (d : spec_float) (D t T : Z).
Hypothesis Nd : nonneg d.
Hypothesis Vd : (F2Q d == inject_Z D)%Q.
Hypothesis HD : 0 <= D.
Hypothesis Ht : 0 <= t.
Hypothesis HS : D + t < 2 ^ 53.
Hypothesis HT : 1 <= T < 2 ^ 53.

Lemma yield_value (pct : py_value) :
  in_range pct ->
  overall_int d (pct_float pct) t T
    = Ok (percent_model (during_model D (F2Q (pct_float pct)) t) T)
  /\ F64.to_int (pct_float pct) = Ok (Qfloor (F2Q (pct_float pct))).
Proof.
  intros [Np Vp]. split.
  - apply overall_int_correct; assumption.
  - apply to_int_ok. exact Np.
Qed.

Lemma yield_between (pct : py_value) :
  in_range pct ->
  percent_model (inject_Z D) T
    <= percent_model (during_model D (F2Q (pct_float pct)) t) T
    <= percent_model (inject_Z (D + t)) T.
Proof.
  intros [Np Vp].
  destruct (during_model_bounds D (F2Q (pct_float pct)) t HD Ht HS Vp) as [L U].
  split; apply percent_model_mono; (lia || assumption).
Qed.

Lemma loop_range (items : list ff_item) : forall (running : bool) (last_pct : Z),
  Forall in_range (samples items) ->
  Forall (fun v => percent_model (inject_Z D) T <= v <= percent_model (inject_Z (D + t)) T)
    (progress_values (progress_loop idx n file d t T running last_pct items).1.1)
  /\ (forall e, (progress_loop idx n file d t T running last_pct items).2 <> Raised e).
Proof.
  induction items as [|[pct|] rest IH]; intros running last_pct Hs; simpl.
  - split; [ constructor | discriminate ].
  - simpl in Hs. inversion Hs as [|? ? Hp Hrest]; subst.
    destruct running; simpl; [ | split; [ constructor | discriminate ] ].
    destruct (yield_value pct Hp) as [E1 E2].
    fold (pct_float pct). rewrite E1.
    destruct (Z.eqb_spec (percent_model (during_model D (F2Q (pct_float pct)) t) T) last_pct).
    + apply IH. exact Hrest.
    + rewrite E2.
      specialize (IH true (percent_model (during_model D (F2Q (pct_float pct)) t) T) Hrest).
      destruct (progress_loop idx n file d t T true _ rest) as [[sigs r] x].
      simpl in *. destruct IH as [IH1 IH2]. split; [ | exact IH2 ].
      constructor; [ apply yield_between; exact Hp | exact IH1 ].
  - apply IH. exact Hs.
Qed.

End Loop.

Lemma probe_no_progress ffprobe (c : gmap string ProbeInfo) (f : string) :
  progress_values (emitted (probe ffprobe c f)) = [].
Proof.
  unfold probe. destruct (c !! f); [ reflexivity | ].
  destruct (bind (ffprobe f) read_info); reflexivity.
Qed.

Lemma present_total_nonneg (job : nat -> job_world) (ds : list Z) : forall idx,
  Forall (fun t => 0 <= t) ds -> 0 <= present_total job idx ds.
Proof.
  induction ds as [|t r IH]; intros idx H; simpl; [ lia | ].
  inversion H as [|? ? Ht Hr]; subst. specialize (IH (S idx) Hr).
  destruct (file_exists (job idx)); lia.
Qed.

Lemma present_total_le_sum (job : nat -> job_world) (ds : list Z) : forall idx,
  Forall (fun t => 0 <= t) ds -> present_total job idx ds <= foldr Z.add 0 ds.
Proof.
  induction ds as [|t r IH]; intros idx H; simpl; [ lia | ].
  inversion H as [|? ? Ht Hr]; subst. specialize (IH (S idx) Hr).
  destruct (file_exists (job idx)); lia.
Qed.

Lemma present_total_missing (job : nat -> job_world) (ds : list Z) : forall idx k target,
  Forall (fun t => 0 <= t) ds ->
  ds !! k = Some target -> file_exists (job (idx + k)%nat) = false ->
  present_total job idx ds + target <= foldr Z.add 0 ds.
Proof.
  induction ds as [|t r IH]; intros idx k target H Hk Hm; [ discriminate | ].
  inversion H as [|? ? Ht Hr]; subst. simpl.
  destruct k as [|k].
  - simpl in Hk. injection Hk as ->. rewrite Nat.add_0_r in Hm. rewrite Hm.
    pose proof (present_total_le_sum job r (S idx) Hr). lia.
  - simpl in Hk. specialize (IH (S idx) k target Hr Hk).
    replace (S idx + k)%nat with (idx + S k)%nat in IH by lia. specialize (IH Hm).
    destruct (file_exists (job idx)); lia.
Qed.

Lemma total_of_bounds (ds : list Z) :
  Forall (fun t => 0 <= t) ds -> 1 <= total_of ds /\ foldr Z.add 0 ds <= total_of ds.
Proof.
  intros H. unfold total_of.
  assert (0 <= foldr Z.add 0 ds).
  { induction H; simpl; lia. }
  destruct (Z.eqb_spec (foldr Z.add 0 ds) 0); lia.
Qed.

Section Batch.

Variables (self : ConversionThread) (encoder mapped_preset : string).
Variables (ffprobe : string -> result raw_info) (job : nat -> job_world).
Variables (durations : list Z) (T : Z).
Hypothesis Hdur : Forall (fun t => 0 <= t) durations.
Hypothesis HT : 1 <= T < 2 ^ 53.

(** What one file's turn leaves: every value emitted lies between the
    percentage of the counter before and the one of the counter plus the
    file's target duration, and the counter is kept or advanced by the
    target duration. *)
Lemma convert_range (idx : nat) (file : string) (pinfo : ProbeInfo)
    (d : spec_float) (D t : Z) :
  nonneg d -> (F2Q d == inject_Z D)%Q -> 0 <= D ->
  durations !! idx = Some t -> D + t < 2 ^ 53 ->
  Forall in_range (samples (ffmpeg_items (job idx))) ->
  let r := convert self encoder mapped_preset idx file pinfo durations T (job idx) d in
  Forall (fun v => percent_model (inject_Z D) T <= v <= percent_model (inject_Z (D + t)) T)
    (progress_values r.1.1)
  /\ nonneg r.1.2
  /\ ((F2Q r.1.2 == inject_Z D)%Q \/ (F2Q r.1.2 == inject_Z (D + t))%Q).
Proof.
  intros Nd Vd HD Hl HS Hin r. subst r. unfold convert. rewrite Hl.
  assert (Ht : 0 <= t).
  { exact (Forall_lookup_1 _ _ _ _ Hdur Hl). }
  destruct (resolved_out_path (job idx)) as [out_path|e]; simpl;
    [ | repeat split; [ constructor | exact Nd | left; exact Vd ] ].
  destruct (build_cmd self file pinfo out_path encoder mapped_preset) as [cmd|e]; simpl;
    [ | repeat split; [ constructor | exact Nd | left; exact Vd ] ].
  destruct (loop_range idx (length (files self)) file d D t T Nd Vd HD Ht HS HT
              (ffmpeg_items (job idx)) true (-1) Hin) as [L1 L2].
  destruct (progress_loop idx (length (files self)) file d t T true (-1)
              (ffmpeg_items (job idx))) as [[sigs running] exit].
  simpl in L1, L2.
  destruct exit as [| |e]; [ | | exfalso; exact (L2 e eq_refl) ].
  - destruct (ffmpeg_raises (job idx)) as [e|].
    + simpl. rewrite progress_values_app. repeat split; [ | exact Nd | left; exact Vd ].
      apply Forall_app. split; [ exact L1 | constructor ].
    + destruct running.
      * destruct (complete_correct file out_path d D t T Nd Vd HD Ht HS HT)
          as (d' & Ec & Nd' & Vd').
        rewrite Ec. simpl. rewrite progress_values_app. repeat split;
          [ | exact Nd' | right; exact Vd' ].
        apply Forall_app. split; [ exact L1 | ].
        constructor; [ | constructor ].
        split; [ | lia ]. apply percent_model_mono; [ lia | ].
        rewrite <- Zle_Qle. lia.
      * simpl. repeat split; [ exact L1 | exact Nd | left; exact Vd ].
  - simpl. repeat split; [ exact L1 | exact Nd | left; exact Vd ].
Qed.

Lemma loop_broke (idx n : nat) (file : string) (d : spec_float) (t : Z)
    (items : list ff_item) : forall (running : bool) (last_pct : Z),
  (progress_loop idx n file d t T running last_pct items).2 = Broke ->
  (progress_loop idx n file d t T running last_pct items).1.2 = false.
Proof.
  induction items as [|[pct|] rest IH]; intros running last_pct; simpl.
  - discriminate.
  - destruct running; simpl; [ | reflexivity ].
    destruct (overall_int d _ t T) as [overall|e]; simpl; [ | discriminate ].
    destruct (overall =? last_pct); [ apply IH | ].
    destruct (F64.to_int _) as [p|e]; simpl; [ | discriminate ].
    specialize (IH true overall).
    destruct (progress_loop idx n file d t T true overall rest) as [[sigs r] x].
    exact IH.
  - apply IH.
Qed.

Variable B : Z.
Hypothesis HB : B < 2 ^ 53.

(** The values of the batch loop stay below the percentage of any bound
    on what the files present at their turn can add to the counter. *)
Lemma run_files_range (fs : list string) : forall (idx : nat)
    (c : gmap string ProbeInfo) (d : spec_float) (D : Z),
  nonneg d -> (F2Q d == inject_Z D)%Q -> 0 <= D ->
  length durations = (idx + length fs)%nat ->
  D + present_total job idx (drop idx durations) <= B ->
  (forall i, (i < length durations)%nat -> file_exists (job i) = true ->
     Forall in_range (samples (ffmpeg_items (job i)))) ->
  Forall (fun v => v <= percent_model (inject_Z B) T)
    (progress_values
       (run_files self encoder mapped_preset ffprobe job durations T idx fs c d)).
Proof.
  induction fs as [|file rest IH]; intros idx c d D Nd Vd HD Hlen Hsum Hjobs; simpl.
  - constructor.
  - destruct (lookup_lt_is_Some_2 durations idx ltac:(simpl in Hlen; lia)) as [t Hl].
    pose proof (drop_S _ _ _ Hl) as Hdrop. rewrite Hdrop in Hsum. simpl in Hsum.
    assert (Ht : 0 <= t) by exact (Forall_lookup_1 _ _ _ _ Hdur Hl).
    assert (Hrest : 0 <= present_total job (S idx) (drop (S idx) durations)).
    { apply present_total_nonneg. apply Forall_drop. exact Hdur. }
    destruct (stop_before (job idx)); [ constructor | ].
    destruct (file_exists (job idx)) eqn:Hex; simpl.
    + pose proof (convert_range idx file (info (probe ffprobe c file)) d D t
                    Nd Vd HD Hl ltac:(lia)
                    (Hjobs idx ltac:(simpl in Hlen; lia) Hex)) as Hc.
      destruct (convert self encoder mapped_preset idx file _ durations T (job idx) d)
        as [[sigs d'] running].
      simpl in Hc. destruct Hc as (C1 & Nd' & Vd').
      rewrite !progress_values_app, probe_no_progress. simpl.
      apply Forall_app. split.
      * eapply Forall_impl; [ exact C1 | ]. simpl. intros v [_ Hv].
        etransitivity; [ exact Hv | ]. apply percent_model_mono; [ lia | ].
        rewrite <- Zle_Qle. lia.
      * destruct running; [ | constructor ].
        destruct Vd' as [Vd'|Vd'].
        -- apply (IH (S idx) _ d' D); try assumption; simpl in Hlen; lia.
        -- apply (IH (S idx) _ d' (D + t)); try assumption; simpl in Hlen; lia.
    + apply (IH (S idx) c d D); try assumption; simpl in Hlen; lia.
Qed.

Lemma in_range_of_nondecreasing (ps : list py_value) : forall lo : Q,
  nondecreasing_from lo ps -> Forall in_range ps.
Proof.
  induction ps as [|p r IH]; intros lo H; constructor.
  - apply H.
  - apply (IH (F2Q (pct_float p))). apply H.
Qed.

End Batch.

(** *** Bounds that need no assumption *)

Lemma percent_of_bounded (x : spec_float) (T v : Z) :
  percent_of x T = Ok v -> 0 <= v <= 100.
Proof.
  unfold percent_of. destruct (F64.of_int T) as [total|]; [ | discriminate ].
  rewrite bind_ok. destruct (F64.truediv x total) as [ratio|]; [ | discriminate ].
  rewrite bind_ok. destruct (F64.to_int _) as [o|]; [ | discriminate ].
  rewrite bind_ok. intros [= <-]. lia.
Qed.

Lemma overall_int_bounded (d p : spec_float) (t T v : Z) :
  overall_int d p t T = Ok v -> 0 <= v <= 100.
Proof.
  unfold overall_int. destruct (F64.truediv p _) as [fraction|]; [ | discriminate ].
  rewrite bind_ok. destruct (F64.of_int t) as [target|]; [ | discriminate ].
  rewrite bind_ok. apply percent_of_bounded.
Qed.

Lemma progress_loop_bounded (idx n : nat) (file : string) (d : spec_float) (t T : Z)
    (items : list ff_item) : forall (running : bool) (last_pct : Z),
  Forall (fun v => 0 <= v <= 100)
    (progress_values (progress_loop idx n file d t T running last_pct items).1.1).
Proof.
  induction items as [|[pct|] rest IH]; intros running last_pct; simpl.
  - constructor.
  - destruct running; simpl; [ | constructor ].
    destruct (overall_int d _ t T) as [overall|e] eqn:E; simpl; [ | constructor ].
    apply overall_int_bounded in E.
    destruct (overall =? last_pct); [ apply IH | ].
    destruct (F64.to_int _) as [p|e]; simpl; [ | constructor; [ exact E | constructor ] ].
    specialize (IH true overall).
    destruct (progress_loop idx n file d t T true overall rest) as [[sigs r] x].
    simpl in *. constructor; assumption.
  - apply IH.
Qed.

Lemma complete_bounded (file out_path : string) (d : spec_float) (t T : Z) :
  Forall (fun v => 0 <= v <= 100) (progress_values (complete file out_path d t T).1).
Proof.
  unfold complete. destruct (F64.of_int t) as [target|]; simpl; [ | constructor ].
  destruct (percent_of _ T) as [overall|] eqn:E; simpl; [ | constructor ].
  apply percent_of_bounded in E. constructor; [ exact E | constructor ].
Qed.

Lemma convert_bounded self encoder mapped_preset idx file pinfo durations T w d :
  Forall (fun v => 0 <= v <= 100)
    (progress_values
       (convert self encoder mapped_preset idx file pinfo durations T w d).1.1).
Proof.
  unfold convert. destruct (durations !! idx) as [t|]; simpl; [ | constructor ].
  destruct (resolved_out_path w) as [out_path|]; simpl; [ | constructor ].
  destruct (build_cmd _ _ _ _ _ _) as [cmd|]; simpl; [ | constructor ].
  pose proof (progress_loop_bounded idx (length (files self)) file d t T
                (ffmpeg_items w) true (-1)) as L.
  destruct (progress_loop _ _ _ _ _ _ _ _ _) as [[sigs running] exit]. simpl in L.
  destruct exit as [| |e]; simpl.
  - destruct (ffmpeg_raises w).
    + simpl. rewrite progress_values_app. apply Forall_app. split; [ exact L | constructor ].
    + destruct running; simpl; [ | exact L ].
      pose proof (complete_bounded file out_path d t T) as C.
      destruct (complete file out_path d t T) as [csigs d']. simpl in *.
      rewrite progress_values_app. apply Forall_app. split; assumption.
  - exact L.
  - rewrite progress_values_app. apply Forall_app. split; [ exact L | constructor ].
Qed.

Lemma run_files_bounded self encoder mapped_preset ffprobe job durations T
    (fs : list string) : forall idx c d,
  Forall (fun v => 0 <= v <= 100)
    (progress_values
       (run_files self encoder mapped_preset ffprobe job durations T idx fs c d)).
Proof.
  induction fs as [|file rest IH]; intros idx c d; simpl; [ constructor | ].
  destruct (stop_before (job idx)); [ constructor | ].
  destruct (file_exists (job idx)); simpl; [ | apply IH ].
  pose proof (convert_bounded self encoder mapped_preset idx file
                (info (probe ffprobe c file)) durations T (job idx) d) as C.
  destruct (convert _ _ _ _ _ _ _ _ _ _) as [[sigs d'] running]. simpl in C.
  rewrite !progress_values_app, probe_no_progress. simpl.
  apply Forall_app. split; [ exact C | ].
  destruct running; [ apply IH | constructor ].
Qed.

Lemma build_totals_spec self ffprobe (fs : list string) : forall c sigs durations c',
  build_totals self ffprobe fs c = (sigs, Ok durations, c') ->
  progress_values sigs = [] /\ length durations = length fs.
Proof.
  induction fs as [|f rest IH]; intros c sigs durations c' H; simpl in H.
  - injection H as <- <- <-. split; reflexivity.
  - destruct (target_duration self f _) as [dur|]; [ | discriminate ].
    destruct (build_totals self ffprobe rest _) as [[sigs' ds] c''] eqn:E.
    destruct ds as [ds|]; [ | discriminate ].
    injection H as <- <- <-. destruct (IH _ _ _ _ E) as [H1 H2].
    rewrite progress_values_app, probe_no_progress, H1. simpl. split; [ reflexivity | lia ].
Qed.

Lemma build_totals_no_progress self ffprobe (fs : list string) : forall c,
  progress_values (build_totals self ffprobe fs c).1.1 = [].
Proof.
  induction fs as [|f rest IH]; intros c; simpl; [ reflexivity | ].
  destruct (target_duration self f _) as [dur|]; simpl; [ | apply probe_no_progress ].
  specialize (IH (cache (probe ffprobe c f))).
  destruct (build_totals self ffprobe rest _) as [[sigs' ds] c'']. simpl in *.
  rewrite progress_values_app, probe_no_progress, IH. reflexivity.
Qed.

Example clean_run : progress_values (run two_files clean_world) = [0; 33; 66; 66; 66; 83; 100; 100].
Proof. vm_compute. reflexivity. Qed.

Example failing_run : progress_values (run two_files failing_world) = [0; 33; 0; 16; 33; 33].
Proof. vm_compute. reflexivity. Qed.

Lemma inject_sub (a b : Z) : (inject_Z (a - b) == inject_Z a - inject_Z b)%Q.
Proof. unfold Z.sub. rewrite inject_Z_plus, inject_Z_opp. reflexivity. Qed.

Lemma rnd_below_100 : (rnd ((1 - pow2 (-53)) * 100) < 100)%Q.
Proof. vm_compute. reflexivity. Qed.

Lemma percent_model_below (c : Q) (T : Z) :
  1 <= T < 2 ^ 53 -> (c <= inject_Z (T - 1))%Q -> percent_model c T <= 99.
Proof.
  intros HT Hc.
  assert (PT : (1 <= inject_Z T)%Q) by (change 1%Q with (inject_Z 1); rewrite <- Zle_Qle; lia).
  assert (BT : (inject_Z T < pow2 53)%Q) by (apply below_2_53; lia).
  assert (E53 : (pow2 (-53) * pow2 53 == 1)%Q).
  { rewrite <- pow2_add. reflexivity. }
  pose proof (pow2_pos (-53)) as P53.
  assert (Hq : (c / inject_Z T <= 1 - pow2 (-53))%Q).
  { apply Qle_shift_div_r; [ lra | ]. rewrite inject_sub in Hc.
    change (inject_Z 1) with 1%Q in Hc.
    assert (pow2 (-53) * inject_Z T <= pow2 (-53) * pow2 53)%Q
      by (apply Qmult_le_l; [ exact P53 | lra ]).
    lra. }
  assert (Hu : (rnd (1 - pow2 (-53)) == 1 - pow2 (-53))%Q).
  { pose proof (rnd_exact (2 ^ 53 - 1) (-53) ltac:(lia) ltac:(lia)) as E.
    assert (E' : (inject_Z (2 ^ 53 - 1) * pow2 (-53) == 1 - pow2 (-53))%Q).
    { rewrite inject_sub, <- pow2_Z by lia. change (inject_Z 1) with 1%Q.
      pose proof (pow2_pos 53). lra. }
    rewrite E' in E. exact E. }
  assert (Hr : (rnd (c / inject_Z T) <= 1 - pow2 (-53))%Q).
  { rewrite <- Hu. apply rnd_mono. exact Hq. }
  assert (Ho : (rnd (rnd (c / inject_Z T) * 100) < 100)%Q).
  { eapply Qle_lt_trans; [ | exact rnd_below_100 ]. apply rnd_mono. lra. }
  unfold percent_model.
  pose proof (Qfloor_le (rnd (rnd (c / inject_Z T) * 100))) as Hf.
  assert (inject_Z (Qfloor (rnd (rnd (c / inject_Z T) * 100))) < inject_Z 100)%Q
    by (change (inject_Z 100) with 100%Q; lra).
  rewrite <- Zlt_Qlt in H. lia.
Qed.

Lemma run_values (self : ConversionThread) (w : world) :
  progress_values (run self w) =
    match run_durations self w with
    | Ok durations =>
        progress_values
          (run_files self (run_encoder self w) (run_preset self w) (ffprobe w) (job w)
             durations (total_of durations) 0 (files self)
             (build_totals self (ffprobe w) (files self) ∅).2 F64.zero)
    | Raise _ => []
    end.
Proof.
  unfold run, run_durations, run_encoder, run_preset.
  pose proof (build_totals_no_progress self (ffprobe w) (files self) ∅) as Hs.
  destruct (build_totals self (ffprobe w) (files self) ∅) as [[sigs ds] c].
  simpl in Hs. simpl fst. simpl snd. destruct ds as [durations|e]; cbv zeta.
  - rewrite !progress_values_app, Hs. simpl. rewrite app_nil_r. reflexivity.
  - rewrite progress_values_app, Hs. reflexivity.
Qed.

Lemma run_durations_length (self : ConversionThread) (w : world) (durations : list Z) :
  run_durations self w = Ok durations -> length durations = length (files self).
Proof.
  unfold run_durations. intros H.
  destruct (build_totals self (ffprobe w) (files self) ∅) as [[sigs ds] c] eqn:E.
  simpl in H. subst ds. apply (build_totals_spec _ _ _ _ _ _ _ E).
Qed.

Lemma zero_done : nonneg F64.zero /\ (F2Q F64.zero == inject_Z 0)%Q.
Proof. split; [ exact I | reflexivity ]. Qed.

Section Values.
#[local] Open Scope Q_scope.

Lemma percent_q_mono (c c' qT : Q) :
  0 < qT -> c <= c' -> (percent_q c qT <= percent_q c' qT)%Z.
Proof.
  intros PT H. unfold percent_q.
  assert (H1 : rnd (c / qT) <= rnd (c' / qT)).
  { apply rnd_mono. unfold Qdiv. apply Qmult_le_r; [ apply Qinv_lt_0_compat; exact PT | exact H ]. }
  assert (H2 : rnd (rnd (c / qT) * 100) <= rnd (rnd (c' / qT) * 100)).
  { apply rnd_mono. lra. }
  apply Qfloor_resp_le in H2. lia.
Qed.

#[global] Instance percent_q_proper : Proper (Qeq ==> Qeq ==> eq) percent_q.
Proof.
  intros c c' E T T' E'. unfold percent_q.
  assert (E1 : rnd (rnd (c / T) * 100) == rnd (rnd (c' / T') * 100)).
  { rewrite E, E'. reflexivity. }
  rewrite (Qfloor_comp _ _ E1). reflexivity.
Qed.

Lemma to_int_value (f : spec_float) (q : Q) (v : Z) :
  value_or_top f q -> F64.to_int f = Ok v -> v = Qfloor q.
Proof.
  intros [[N V]|T] H.
  - rewrite (to_int_ok f N) in H. injection H as <-. apply Qfloor_comp. exact V.
  - destruct f; simpl in T; try contradiction; discriminate H.
Qed.

(** What [percent_of] returns, when it returns. *)
Lemma percent_of_value (x : spec_float) (c : Q) (T : Z) (fT : spec_float) (v : Z) :
  F64.of_int T = Ok fT -> nonneg fT -> 0 < F2Q fT ->
  value_or_top x c -> percent_of x T = Ok v -> v = percent_q c (F2Q fT).
Proof.
  intros IT NT PT Hx. unfold percent_of. rewrite IT, bind_ok.
  unfold F64.truediv. destruct (F64.is_zero fT) eqn:Z0.
  { destruct fT; try discriminate Z0. simpl in PT. lra. }
  rewrite bind_ok.
  pose proof (div_total x fT c Hx NT PT) as Hr.
  destruct hundred as [N100 V100].
  pose proof (mul_total _ (F64.of_Z 100) _ Hr N100) as Hm.
  change (SFmul 53 1024 ?a ?b) with (F64.mul a b) in Hm.
  change (SFdiv F64.prec F64.emax x fT) with (SFdiv 53 1024 x fT).
  destruct (F64.to_int _) as [o|e] eqn:Ho; [ | discriminate ].
  rewrite bind_ok. intros [= <-].
  rewrite (to_int_value _ _ _ Hm Ho). unfold percent_q.
  assert (E : rnd (rnd (c / F2Q fT) * F2Q (F64.of_Z 100)) == rnd (rnd (c / F2Q fT) * 100)).
  { rewrite V100. reflexivity. }
  rewrite (Qfloor_comp _ _ E). reflexivity.
Qed.

(** What [overall_int] returns, when it returns. *)
Lemma overall_int_value (d p : spec_float) (qd : Q) (t T : Z) (ft fT : spec_float)
    (v : Z) :
  F64.of_int t = Ok ft -> nonneg ft ->
  F64.of_int T = Ok fT -> nonneg fT -> 0 < F2Q fT ->
  value_or_top d qd -> nonneg p ->
  overall_int d p t T = Ok v ->
  v = percent_q (during_q qd (F2Q p) (F2Q ft)) (F2Q fT).
Proof.
  intros It Nt IT NT PT Hd Np. unfold overall_int.
  destruct hundred as [N100 V100].
  unfold F64.truediv at 1.
  change (F64.is_zero (F64.of_Z 100)) with false. cbv iota. rewrite bind_ok, It, bind_ok.
  assert (Ha : value_or_top (SFdiv 53 1024 p (F64.of_Z 100)) (rnd (F2Q p / 100))).
  { eapply value_or_top_proper; [ | apply (div_total p (F64.of_Z 100) (F2Q p)) ].
    - rewrite V100. reflexivity.
    - left. split; [ exact Np | reflexivity ].
    - exact N100.
    - rewrite V100. reflexivity. }
  pose proof (mul_total _ ft _ Ha Nt) as Hb.
  pose proof (add_total d _ qd _ Hd Hb) as Hc.
  apply (percent_of_value _ _ T fT v IT NT PT). exact Hc.
Qed.

Lemma during_q_mono (qd P P' qt : Q) :
  0 <= qt -> P <= P' -> during_q qd P qt <= during_q qd P' qt.
Proof.
  intros Ht H. unfold during_q.
  apply rnd_mono. apply Qplus_le_r. apply rnd_mono.
  apply Qmult_le_compat_r; [ | exact Ht ].
  apply rnd_mono. unfold Qdiv. apply Qmult_le_r; [ reflexivity | exact H ].
Qed.

Lemma during_q_lower (qd P qt : Q) : rnd qd == qd -> qd <= during_q qd P qt.
Proof.
  intros E. unfold during_q. rewrite <- E at 1. apply rnd_mono.
  pose proof (rnd_nonneg (rnd (P / 100) * qt)). lra.
Qed.

Lemma during_q_upper (qd P qt : Q) :
  0 <= qt -> rnd qt == qt -> P <= 100 -> during_q qd P qt <= rnd (qd + qt).
Proof.
  intros Ht E HP. unfold during_q. apply rnd_mono. apply Qplus_le_r.
  rewrite <- E at 2. apply rnd_mono.
  assert (A : rnd (P / 100) <= 1).
  { rewrite <- rnd_1. apply rnd_mono. apply Qle_shift_div_r; lra. }
  pose proof (rnd_nonneg (P / 100)). nra.
Qed.

End Values.

Lemma le_value_trans (lo : option Z) (u v : Z) : le_value lo u -> u <= v -> le_value lo v.
Proof. destruct lo as [l|]; simpl; [ lia | trivial ]. Qed.

Lemma after_app (a b : list signal) : forall lo, after lo (a ++ b) = after (after lo a) b.
Proof.
  induction a as [|s a IH]; intros lo; [ reflexivity | ].
  destruct s; simpl; apply IH.
Qed.

Lemma rises_app (a b : list signal) : forall lo,
  rises lo (a ++ b) <-> rises lo a /\ rises (after lo a) b.
Proof.
  induction a as [|s a IH]; intros lo; simpl.
  - tauto.
  - destruct s; simpl; rewrite IH; tauto.
Qed.

Lemma rises_no_values (sigs : list signal) : forall lo,
  progress_values sigs = [] -> rises lo sigs.
Proof.
  induction sigs as [|s r IH]; intros lo H; [ exact I | ].
  destruct s; simpl in *; try discriminate H; apply IH; exact H.
Qed.

Lemma after_no_values (sigs : list signal) : forall lo,
  progress_values sigs = [] -> after lo sigs = lo \/ after lo sigs = None.
Proof.
  induction sigs as [|s r IH]; intros lo H; [ left; reflexivity | ].
  destruct s as [v|m c|a b f p|]; simpl in *; try discriminate H;
    try (apply IH; exact H).
  destruct m; simpl; try (apply IH; exact H).
  right. destruct (IH None H) as [E|E]; exact E.
Qed.

Section RisingLoop.

Variables (idx n : nat) (file : string) (d : spec_float) (qd : Q) (t T : Z).
Variables (ft fT : spec_float).
Hypothesis Hd : value_or_top d qd.
Hypothesis Ift : F64.of_int t = Ok ft.
Hypothesis Nft : nonneg ft.
Hypothesis IfT : F64.of_int T = Ok fT.
Hypothesis NfT : nonneg fT.
Hypothesis PfT : (0 < F2Q fT)%Q.

(** Within one file the values rise, and stay below the value of the
    completion. *)
Lemma loop_rises (items : list ff_item) :
  forall (running : bool) (last_pct : Z) (lo : option Z) (P0 : Q),
  nondecreasing_from P0 (samples items) -> (P0 <= 100)%Q ->
  le_value lo (percent_q (during_q qd P0 (F2Q ft)) (F2Q fT)) ->
  rises lo (progress_loop idx n file d t T running last_pct items).1.1
  /\ le_value (after lo (progress_loop idx n file d t T running last_pct items).1.1)
       (percent_q (rnd (qd + F2Q ft)) (F2Q fT)).
Proof.
  assert (Up : forall P lo, (P <= 100)%Q ->
            le_value lo (percent_q (during_q qd P (F2Q ft)) (F2Q fT)) ->
            le_value lo (percent_q (rnd (qd + F2Q ft)) (F2Q fT))).
  { intros P lo HP H. eapply le_value_trans; [ exact H | ].
    apply percent_q_mono; [ exact PfT | ].
    apply during_q_upper; [ apply F2Q_nonneg; exact Nft | apply rnd_F2Q; exact Nft | exact HP ]. }
  induction items as [|[pct|] rest IH]; intros running last_pct lo P0 Hs HP Hlo; simpl.
  - split; [ exact I | exact (Up P0 lo HP Hlo) ].
  - simpl in Hs. destruct Hs as (Hp & Hle & Hrest). destruct Hp as [Np Vp].
    destruct running; simpl; [ | split; [ exact I | exact (Up P0 lo HP Hlo) ] ].
    fold (pct_float pct).
    destruct (overall_int d (pct_float pct) t T) as [overall|e] eqn:E; simpl;
      [ | split; [ exact I | exact (Up P0 lo HP Hlo) ] ].
    pose proof (overall_int_value d (pct_float pct) qd t T ft fT overall
                  Ift Nft IfT NfT PfT Hd Np E) as Ev.
    assert (Hm : le_value lo overall).
    { eapply le_value_trans; [ exact Hlo | ]. rewrite Ev.
      apply percent_q_mono; [ exact PfT | ].
      apply during_q_mono; [ apply F2Q_nonneg; exact Nft | exact Hle ]. }
    destruct (Z.eqb_spec overall last_pct).
    + apply (IH true last_pct lo (F2Q (pct_float pct)));
        [ exact Hrest | exact Vp | rewrite <- Ev; exact Hm ].
    + destruct (F64.to_int (pct_float pct)) as [p|e]; simpl.
      * specialize (IH true overall (Some overall) (F2Q (pct_float pct)) Hrest Vp).
        destruct (progress_loop idx n file d t T true overall rest) as [[sigs r] x].
        simpl in *. destruct IH as [IH1 IH2]; [ rewrite <- Ev; lia | ].
        split; [ split; assumption | exact IH2 ].
      * split; [ split; [ exact Hm | exact I ] | ].
        apply (Up (F2Q (pct_float pct)) (Some overall) Vp). simpl. rewrite <- Ev. lia.
  - apply (IH false last_pct lo P0); assumption.
Qed.

End RisingLoop.

(** When [overall_int] raises for every progress value the loop emits
    nothing. *)
Lemma loop_silent (idx n : nat) (file : string) (d : spec_float) (t T : Z)
    (items : list ff_item) : forall (running : bool) (last_pct : Z),
  (forall p, exists e, overall_int d p t T = Raise e) ->
  (progress_loop idx n file d t T running last_pct items).1.1 = [].
Proof.
  induction items as [|[pct|] rest IH]; intros running last_pct H; simpl.
  - reflexivity.
  - destruct running; simpl; [ | reflexivity ].
    destruct (H (try_except (py_float pct) F64.zero)) as [e ->]. reflexivity.
  - apply IH. exact H.
Qed.

Lemma overall_int_no_target (d p : spec_float) (t T : Z) (e : exn) :
  F64.of_int t = Raise e -> exists e', overall_int d p t T = Raise e'.
Proof.
  intros H. unfold overall_int, F64.truediv.
  change (F64.is_zero (F64.of_Z 100)) with false. cbv iota. rewrite bind_ok, H.
  eexists. reflexivity.
Qed.

Lemma overall_int_no_total (d p : spec_float) (t T : Z) (e : exn) :
  F64.of_int T = Raise e -> exists e', overall_int d p t T = Raise e'.
Proof.
  intros H. unfold overall_int, F64.truediv.
  change (F64.is_zero (F64.of_Z 100)) with false. cbv iota. rewrite bind_ok.
  destruct (F64.of_int t); [ | eexists; reflexivity ].
  rewrite bind_ok. unfold percent_of. rewrite H. eexists. reflexivity.
Qed.

Section RisingBatch.

Variables (self : ConversionThread) (encoder mapped_preset : string).
Variables (ffprobe : string -> result raw_info) (job : nat -> job_world).
Variables (durations : list Z) (T : Z) (fT : spec_float).
Hypothesis Hdur : Forall (fun t => 0 <= t) durations.
Hypothesis IfT : F64.of_int T = Ok fT.
Hypothesis NfT : nonneg fT.
Hypothesis PfT : (0 < F2Q fT)%Q.

(** The completion of a file emits a value that is not below the values
    of the file, or an error line. *)
Lemma complete_rises (file out_path : string) (d : spec_float) (qd : Q) (t : Z)
    (ft : spec_float) (lo : option Z) :
  value_or_top d qd -> F64.of_int t = Ok ft -> nonneg ft ->
  le_value lo (percent_q (rnd (qd + F2Q ft)) (F2Q fT)) ->
  rises lo (complete file out_path d t T).1
  /\ exists qd',
       value_or_top (complete file out_path d t T).2 qd' /\ (rnd qd' == qd')%Q
       /\ le_value (after lo (complete file out_path d t T).1) (percent_q qd' (F2Q fT)).
Proof.
  intros Hd It Nt Hlo. unfold complete. rewrite It.
  assert (Hd' : value_or_top (F64.add d ft) (rnd (qd + F2Q ft))).
  { apply (add_total d ft qd (F2Q ft) Hd). left. split; [ exact Nt | reflexivity ]. }
  destruct (percent_of (F64.add d ft) T) as [overall|e] eqn:E; simpl.
  - pose proof (percent_of_value _ _ T fT overall IfT NfT PfT Hd' E) as Ev.
    split; [ split; [ rewrite Ev; exact Hlo | exact I ] | ].
    exists (rnd (qd + F2Q ft)). split; [ exact Hd' | ]. split; [ apply rnd_idem | ].
    rewrite Ev. lia.
  - split; [ exact I | ].
    exists (rnd (qd + F2Q ft)). split; [ exact Hd' | ]. split; [ apply rnd_idem | exact I ].
Qed.

(** One file's turn: the values rise up to an error line, and when the
    batch goes on the counter is not below what the last value stands
    for. *)
Lemma convert_rises (idx : nat) (file : string) (pinfo : ProbeInfo)
    (d : spec_float) (qd : Q) (t : Z) (lo : option Z) :
  value_or_top d qd -> (rnd qd == qd)%Q ->
  durations !! idx = Some t ->
  nondecreasing_from 0 (samples (ffmpeg_items (job idx))) ->
  le_value lo (percent_q qd (F2Q fT)) ->
  let r := convert self encoder mapped_preset idx file pinfo durations T (job idx) d in
  rises lo r.1.1
  /\ (r.2 = true ->
      exists qd',
        value_or_top r.1.2 qd' /\ (rnd qd' == qd')%Q
        /\ le_value (after lo r.1.1) (percent_q qd' (F2Q fT))).
Proof.
  intros Hd Eqd Hl Hst Hlo r. subst r. unfold convert. rewrite Hl.
  assert (Ht : 0 <= t) by exact (Forall_lookup_1 _ _ _ _ Hdur Hl).
  assert (Keep : exists qd', value_or_top d qd' /\ (rnd qd' == qd')%Q
                             /\ le_value None (percent_q qd' (F2Q fT))).
  { exists qd. repeat split; assumption. }
  assert (Keep' : exists qd', value_or_top d qd' /\ (rnd qd' == qd')%Q
                              /\ le_value lo (percent_q qd' (F2Q fT))).
  { exists qd. repeat split; assumption. }
  destruct (resolved_out_path (job idx)) as [out_path|e]; cbn -[rises after];
    [ | split; [ exact I | intros _; exact Keep ] ].
  destruct (build_cmd self file pinfo out_path encoder mapped_preset) as [cmd|e];
    cbn -[rises after]; [ | split; [ exact I | intros _; exact Keep ] ].
  pose proof (loop_broke T idx (length (files self)) file d t
                (ffmpeg_items (job idx)) true (-1)) as L4.
  destruct (F64.of_int t) as [ft|e] eqn:It.
  - destruct (of_int_total t ft Ht It) as [Nt Vt].
    destruct (loop_rises idx (length (files self)) file d qd t T ft fT Hd It Nt IfT NfT PfT
                (ffmpeg_items (job idx)) true (-1) lo 0%Q Hst ltac:(discriminate)) as [L1 L2].
    { eapply le_value_trans; [ exact Hlo | ].
      apply percent_q_mono; [ exact PfT | ]. apply during_q_lower. exact Eqd. }
    destruct (progress_loop idx (length (files self)) file d t T true (-1)
                (ffmpeg_items (job idx))) as [[sigs running] exit].
    cbn [fst snd] in L1, L2, L4.
    destruct exit as [| |e].
    + destruct (ffmpeg_raises (job idx)) as [e|].
      * cbn [fst snd]. split.
        -- cbn [rises is_error]. apply rises_app. split; [ exact L1 | exact I ].
        -- intros _. cbn [after is_error]. rewrite after_app. exact Keep.
      * destruct running.
        -- destruct (complete_rises file out_path d qd t ft (after lo sigs) Hd It Nt L2)
             as (C1 & qd' & C2 & C3 & C4).
           destruct (complete file out_path d t T) as [csigs d'].
           cbn [fst snd] in *. split.
           ++ cbn [rises is_error]. apply rises_app. split; assumption.
           ++ intros _. exists qd'. cbn [after is_error]. rewrite after_app.
              repeat split; assumption.
        -- cbn [fst snd]. split; [ exact L1 | discriminate ].
    + cbn [fst snd]. rewrite (L4 eq_refl). split; [ exact L1 | discriminate ].
    + cbn [fst snd]. split.
      * cbn [rises is_error]. apply rises_app. split; [ exact L1 | exact I ].
      * intros _. cbn [after is_error]. rewrite after_app. exact Keep.
  - pose proof (loop_silent idx (length (files self)) file d t T (ffmpeg_items (job idx))
                  true (-1) (fun p => overall_int_no_target d p t T e It)) as Ls.
    destruct (progress_loop idx (length (files self)) file d t T true (-1)
                (ffmpeg_items (job idx))) as [[sigs running] exit].
    cbn [fst snd] in *. subst sigs.
    destruct exit as [| |e'].
    + destruct (ffmpeg_raises (job idx)) as [e'|].
      * cbn. split; [ exact I | intros _; exact Keep ].
      * destruct running.
        -- unfold complete. rewrite It. cbn. split; [ exact I | intros _; exact Keep ].
        -- cbn. split; [ exact I | discriminate ].
    + rewrite (L4 eq_refl). cbn. split; [ exact I | discriminate ].
    + cbn. split; [ exact I | intros _; exact Keep ].
Qed.

Lemma probe_emitted (c : gmap string ProbeInfo) (f : string) :
  emitted (probe ffprobe c f) = []
  \/ exists e, emitted (probe ffprobe c f) = [log_message (FfprobeFailed f e) "red"].
Proof.
  unfold probe. destruct (c !! f); [ left; reflexivity | ].
  destruct (bind (ffprobe f) read_info) as [pi|e]; [ left; reflexivity | right ].
  exists e. reflexivity.
Qed.

(** The values of the batch loop rise up to each error line. *)
Lemma run_files_rises (fs : list string) : forall (idx : nat)
    (c : gmap string ProbeInfo) (d : spec_float) (qd : Q) (lo : option Z),
  value_or_top d qd -> (rnd qd == qd)%Q ->
  le_value lo (percent_q qd (F2Q fT)) ->
  length durations = (idx + length fs)%nat ->
  (forall i, (i < length durations)%nat -> file_exists (job i) = true ->
     nondecreasing_from 0 (samples (ffmpeg_items (job i)))) ->
  rises lo (run_files self encoder mapped_preset ffprobe job durations T idx fs c d).
Proof.
  induction fs as [|file rest IH]; intros idx c d qd lo Hd Eqd Hlo Hlen Hjobs; simpl.
  - exact I.
  - destruct (lookup_lt_is_Some_2 durations idx ltac:(simpl in Hlen; lia)) as [t Hl].
    destruct (stop_before (job idx)); [ exact I | ].
    destruct (file_exists (job idx)) eqn:Hex; cbn [negb].
    + pose proof (convert_rises idx file (info (probe ffprobe c file)) d qd t lo Hd Eqd Hl
                    (Hjobs idx ltac:(simpl in Hlen; lia) Hex) Hlo) as Hc.
      destruct (convert self encoder mapped_preset idx file _ durations T (job idx) d)
        as [[sigs d'] running].
      cbn [fst snd] in Hc. destruct Hc as [R1 R2].
      assert (R : rises lo
                    (sigs ++ (if running
                              then run_files self encoder mapped_preset ffprobe job durations
                                     T (S idx) rest (cache (probe ffprobe c file)) d'
                              else []))).
      { apply rises_app. split; [ exact R1 | ].
        destruct running; [ | exact I ].
        destruct (R2 eq_refl) as (qd' & Hd' & Eqd' & Hlo').
        apply (IH (S idx) _ d' qd'); try assumption. simpl in Hlen. lia. }
      destruct (probe_emitted c file) as [->|[e ->]]; exact R.
    + cbn [rises is_error]. apply (IH (S idx) c d qd); try assumption.
      simpl in Hlen. lia.
Qed.

End RisingBatch.

Lemma percent_of_no_total (x : spec_float) (T : Z) (e : exn) :
  F64.of_int T = Raise e -> percent_of x T = Raise e.
Proof. intros H. unfold percent_of. rewrite H. reflexivity. Qed.

(** A total that [float] cannot hold: nothing is emitted. *)
Lemma convert_silent self encoder mapped_preset idx file pinfo durations T w d e :
  F64.of_int T = Raise e ->
  progress_values (convert self encoder mapped_preset idx file pinfo durations T w d).1.1
  = [].
Proof.
  intros H. unfold convert. destruct (durations !! idx) as [t|]; [ | reflexivity ].
  destruct (resolved_out_path w) as [out_path|]; [ | reflexivity ].
  destruct (build_cmd _ _ _ _ _ _) as [cmd|]; [ | reflexivity ].
  pose proof (loop_silent idx (length (files self)) file d t T (ffmpeg_items w)
                true (-1) (fun p => overall_int_no_total d p t T e H)) as Ls.
  destruct (progress_loop _ _ _ _ _ _ _ _ _) as [[sigs running] exit].
  cbn [fst snd] in Ls. subst sigs.
  destruct exit as [| |e']; [ | reflexivity | reflexivity ].
  destruct (ffmpeg_raises w); [ reflexivity | ].
  destruct running; [ | reflexivity ].
  unfold complete. destruct (F64.of_int t); [ | reflexivity ].
  rewrite (percent_of_no_total _ T e H). reflexivity.
Qed.

Lemma run_files_silent self encoder mapped_preset ffprobe job durations T e
    (fs : list string) : forall idx c d,
  F64.of_int T = Raise e ->
  progress_values
    (run_files self encoder mapped_preset ffprobe job durations T idx fs c d) = [].
Proof.
  induction fs as [|file rest IH]; intros idx c d H; simpl; [ reflexivity | ].
  destruct (stop_before (job idx)); [ reflexivity | ].
  destruct (file_exists (job idx)); simpl; [ | apply IH; exact H ].
  pose proof (convert_silent self encoder mapped_preset idx file
                (info (probe ffprobe c file)) durations T (job idx) d e H) as C.
  destruct (convert _ _ _ _ _ _ _ _ _ _) as [[sigs d'] running]. cbn [fst snd] in C.
  rewrite !progress_values_app, probe_no_progress, C. simpl.
  destruct running; [ apply IH; exact H | reflexivity ].
Qed.

(** The values of a run rise up to each error line, when the target
    durations are not negative and the progress values of each file lie
    in 0..100 and do not decrease. *)
Lemma run_rises (self : ConversionThread) (w : world) (durations : list Z) :
  run_durations self w = Ok durations ->
  Forall (fun t => 0 <= t) durations ->
  (forall i, (i < length (files self))%nat -> file_exists (job w i) = true ->
     nondecreasing_from 0 (samples (ffmpeg_items (job w i)))) ->
  rises None (run self w).
Proof.
  intros Hd Hpos Hjobs.
  pose proof (run_durations_length self w durations Hd) as Hlen.
  pose proof (build_totals_no_progress self (ffprobe w) (files self) ∅) as Hs.
  unfold run_durations in Hd. unfold run.
  destruct (build_totals self (ffprobe w) (files self) ∅) as [[sigs ds] c].
  cbn [fst snd] in Hd, Hs. subst ds. cbn [rises is_error app].
  apply rises_app. split; [ apply rises_no_values; exact Hs | ].
  assert (E : after None sigs = None).
  { destruct (after_no_values sigs None Hs) as [E|E]; exact E. }
  rewrite E. apply rises_app. split; [ | destruct (after _ _); exact I ].
  destruct (total_of_bounds durations Hpos) as [T1 _].
  destruct (F64.of_int (total_of durations)) as [fT|e] eqn:IT.
  - destruct (of_int_total (total_of durations) fT ltac:(lia) IT) as [NT VT].
    assert (PT : (0 < F2Q fT)%Q).
    { rewrite VT. apply Qlt_le_trans with 1%Q; [ reflexivity | ].
      rewrite <- rnd_1. apply rnd_mono.
      change 1%Q with (inject_Z 1). rewrite <- Zle_Qle. exact T1. }
    apply (run_files_rises self _ _ (ffprobe w) (job w) durations (total_of durations) fT
             Hpos IT NT PT (files self) 0%nat c F64.zero 0%Q None).
    + left. split; [ exact I | reflexivity ].
    + rewrite rnd_nonpos by apply Qle_refl. reflexivity.
    + exact I.
    + simpl. exact Hlen.
    + rewrite Hlen. exact Hjobs.
  - apply rises_no_values. apply run_files_silent with e. exact IT.
Qed.

Lemma no_error_lines (l : list signal) :
  (forall file e color, log_message (ErrorConverting file e) color ∉ l) ->
  Forall (fun s => is_error s = false) l.
Proof.
  intros H. apply Forall_forall. intros s Hs.
  destruct s as [v|m c|a b f p|]; try reflexivity.
  destruct m; try reflexivity. exfalso. exact (H _ _ _ Hs).
Qed.

Lemma rises_up_to (mid : list signal) : forall (l v : Z) (post : list signal),
  rises (Some l) (mid ++ progress_updated v :: post) ->
  Forall (fun s => is_error s = false) mid -> l <= v.
Proof.
  induction mid as [|s mid IH]; intros l v post H Hm; simpl in H.
  - destruct H as [H _]. exact H.
  - inversion Hm as [|? ? Hs Hm']; subst.
    destruct s as [u|m c|a b f p|].
    + destruct H as [H1 H2]. simpl in H1. specialize (IH u v post H2 Hm'). lia.
    + cbn [rises] in H. rewrite Hs in H. exact (IH l v post H Hm').
    + exact (IH l v post H Hm').
    + exact (IH l v post H Hm').
Qed.

(** Between two values with no error line in between, the values do not
    fall. *)
Lemma rises_between (pre mid post : list signal) (lo : option Z) (v1 v2 : Z) :
  rises lo (pre ++ progress_updated v1 :: mid ++ progress_updated v2 :: post) ->
  Forall (fun s => is_error s = false) mid -> v1 <= v2.
Proof.
  intros H Hm. apply rises_app in H as [_ H]. destruct H as [_ H].
  exact (rises_up_to mid v1 v2 post H Hm).
Qed.

Lemma rises_rising (sigs : list signal) : forall l,
  rises (Some l) sigs -> Forall (fun s => is_error s = false) sigs ->
  rising l (progress_values sigs).
Proof.
  induction sigs as [|s r IH]; intros l H Hm; [ exact I | ].
  inversion Hm as [|? ? Hs Hm']; subst.
  destruct s as [u|m c|a b f p|].
  - destruct H as [H1 H2]. simpl. split; [ exact H1 | exact (IH u H2 Hm') ].
  - cbn [rises] in H. rewrite Hs in H. exact (IH l H Hm').
  - exact (IH l H Hm').
  - exact (IH l H Hm').
Qed.

Lemma rises_sorted (sigs : list signal) :
  rises None sigs -> Forall (fun s => is_error s = false) sigs ->
  Sorted Z.le (progress_values sigs).
Proof.
  induction sigs as [|s r IH]; intros H Hm; [ constructor | ].
  inversion Hm as [|? ? Hs Hm']; subst.
  destruct s as [u|m c|a b f p|].
  - destruct H as [_ H2]. simpl.
    apply (rising_Sorted u (u :: progress_values r)). split; [ lia | ].
    exact (rises_rising r u H2 Hm').
  - cbn [rises] in H. rewrite Hs in H. exact (IH H Hm').
  - exact (IH H Hm').
  - exact (IH H Hm').
Qed.

Lemma loop_events (idx n : nat) (file : string) (d : spec_float) (t T : Z)
    (items : list ff_item) : forall (running : bool) (last_pct : Z) (m : message) (c : string),
  log_message m c ∉ (progress_loop idx n file d t T running last_pct items).1.1.
Proof.
  induction items as [|[pct|] rest IH]; intros running last_pct m c; simpl.
  - apply not_elem_of_nil.
  - destruct running; simpl; [ | apply not_elem_of_nil ].
    destruct (overall_int d _ t T) as [overall|e]; simpl; [ | apply not_elem_of_nil ].
    destruct (overall =? last_pct); [ apply IH | ].
    destruct (F64.to_int _) as [p|e]; simpl.
    + specialize (IH true overall m c).
      destruct (progress_loop idx n file d t T true overall rest) as [[sigs r] x].
      simpl in *. intros H. apply elem_of_cons in H as [H|H]; [ discriminate H | ].
      apply elem_of_cons in H as [H|H]; [ discriminate H | exact (IH H) ].
    + intros H. apply elem_of_cons in H as [H|H]; [ discriminate H | ].
      apply elem_of_nil in H. exact H.
  - apply IH.
Qed.

(** A "Completed" line is the end of a turn in which the counter was
    increased by the whole target duration and the percentage of the new
    counter was emitted. *)
Lemma convert_completed self encoder mapped_preset idx file pinfo durations T w d
    (out_path : string) :
  let r := convert self encoder mapped_preset idx file pinfo durations T w d in
  log_message (Completed out_path) "green" ∈ r.1.1 ->
  exists t target v pre,
    durations !! idx = Some t /\ F64.of_int t = Ok target
    /\ r.1.2 = F64.add d target
    /\ percent_of (F64.add d target) T = Ok v
    /\ r.1.1 = pre ++ [progress_updated v; log_message (Completed out_path) "green"].
Proof.
  intros r. subst r. unfold convert.
  destruct (durations !! idx) as [t|] eqn:Hl; cbn [fst snd];
    [ | intros H; in_cmd H; discriminate H ].
  destruct (resolved_out_path w) as [out|e]; cbn [fst snd];
    [ | intros H; in_cmd H; discriminate H ].
  destruct (build_cmd _ _ _ _ _ _) as [cmd|e]; cbn [fst snd];
    [ | intros H; in_cmd H; discriminate H ].
  pose proof (loop_events idx (length (files self)) file d t T (ffmpeg_items w) true (-1)
                (Completed out_path) "green") as Le.
  destruct (progress_loop _ _ _ _ _ _ _ _ _) as [[sigs running] exit].
  cbn [fst snd] in Le.
  assert (Hno : forall e, log_message (Completed out_path) "green"
                          ∈ log_message (Converting file out (codec self)
                                           (do_stream_copy self pinfo) encoder) "black"
                            :: sigs ++ [log_message (ErrorConverting file e) "red"] ->
                          False).
  { intros e H. in_cmd H; try discriminate H. exact (Le H). }
  assert (Hno' : log_message (Completed out_path) "green"
                 ∈ log_message (Converting file out (codec self)
                                  (do_stream_copy self pinfo) encoder) "black" :: sigs ->
                 False).
  { intros H. in_cmd H; try discriminate H. exact (Le H). }
  destruct exit as [| |e]; cbn [fst snd];
    [ | intros H; destruct (Hno' H) | intros H; destruct (Hno e H) ].
  destruct (ffmpeg_raises w) as [e|]; cbn [fst snd]; [ intros H; destruct (Hno e H) | ].
  destruct running; cbn [fst snd]; [ | intros H; destruct (Hno' H) ].
  unfold complete.
  destruct (F64.of_int t) as [target|e] eqn:It; cbn [fst snd];
    [ | intros H; destruct (Hno e H) ].
  destruct (percent_of (F64.add d target) T) as [v|e] eqn:Ep; cbn [fst snd];
    [ | intros H; destruct (Hno e H) ].
  intros H. exists t, target, v.
  exists (log_message (Converting file out (codec self) (do_stream_copy self pinfo) encoder)
            "black" :: sigs).
  split; [ reflexivity | ]. split; [ exact It | ]. split; [ reflexivity | ].
  split; [ exact Ep | ].
  assert (out_path = out) as ->; [ | reflexivity ].
  in_cmd H; try discriminate H; try (destruct (Le H)).
  injection H as ->. reflexivity.
Qed.

Lemma values_below (mid : list signal) : forall (pre post : list signal) (lo : option Z) (v : Z),
  rises lo (pre ++ mid ++ progress_updated v :: post) ->
  Forall (fun s => is_error s = false) mid ->
  Forall (fun u => u <= v) (progress_values mid).
Proof.
  intros pre post lo v H Hm. apply Forall_forall. intros u Hu.
  unfold progress_values in Hu. apply list_elem_of_omap in Hu as (s & Hs & E).
  destruct s as [u'| | |]; try discriminate E. injection E as ->.
  apply list_elem_of_split in Hs as (m1 & m2 & ->).
  apply Forall_app in Hm as [_ Hm]. inversion Hm as [|? ? _ Hm2]; subst.
  rewrite <- app_assoc, app_assoc in H. simpl in H.
  exact (rises_between (pre ++ m1) m2 post lo u v H Hm2).
Qed.



Lemma build_cmd_ok self file pinfo out_path encoder mapped_preset rate :
  rate_flags self encoder = Ok rate ->
  exists cmd, build_cmd self file pinfo out_path encoder mapped_preset = Ok cmd.
Proof.
  intros Hr. unfold build_cmd. rewrite Hr.
  destruct (do_stream_copy self pinfo); simpl; eexists; reflexivity.
Qed.

Lemma complete_first (file out_path : string) :
  complete file out_path F64.zero 100 150
  = ([progress_updated 66; log_message (Completed out_path) "green"], F64.of_Z 100).
Proof. vm_compute. reflexivity. Qed.

Lemma complete_second (file out_path : string) :
  complete file out_path (F64.of_Z 100) 50 150
  = ([progress_updated 100; log_message (Completed out_path) "green"], F64.of_Z 150).
Proof. vm_compute. reflexivity. Qed.

(** C2, as the code has it. In a batch of two files with target durations
    100 and 50 the total is 150; when both conversions end without
    exception or cancellation, the value emitted at the completion of the
    first file, after its progress events and before those of the second
    file, is 66 (the integer part of 100 * 100 / 150), and the last value
    of the batch is 100. *)
Theorem two_files_100_50 (self : ConversionThread) (w : world)
    (f1 f2 out1 out2 : string) (rate : list string) (sigs1 sigs2 : list signal) :
  files self = [f1; f2] ->
  run_durations self w = Ok [100; 50] ->
  rate_flags self (run_encoder self w) = Ok rate ->
  stop_before (job w 0) = false -> file_exists (job w 0) = true ->
  resolved_out_path (job w 0) = Ok out1 -> ffmpeg_raises (job w 0) = None ->
  progress_loop 0 2 f1 F64.zero 100 150 true (-1) (ffmpeg_items (job w 0))
    = (sigs1, true, Exhausted) ->
  stop_before (job w 1) = false -> file_exists (job w 1) = true ->
  resolved_out_path (job w 1) = Ok out2 -> ffmpeg_raises (job w 1) = None ->
  progress_loop 1 2 f2 (F64.of_Z 100) 50 150 true (-1) (ffmpeg_items (job w 1))
    = (sigs2, true, Exhausted) ->
  total_of [100; 50] = 150
  /\ complete f1 out1 F64.zero 100 150
     = ([progress_updated 66; log_message (Completed out1) "green"], F64.of_Z 100)
  /\ progress_values (run self w)
     = progress_values sigs1 ++ [66] ++ progress_values sigs2 ++ [100].
Proof.
  intros Hf Hd Hrate S0 X0 O0 R0 L0 S1 X1 O1 R1 L1.
  split; [ reflexivity | ]. split; [ apply complete_first | ].
  rewrite run_values, Hd, Hf. change (total_of [100; 50]) with 150.
  set (c0 := (build_totals self (ffprobe w) [f1; f2] ∅).2).
  simpl run_files. rewrite S0, X0. simpl negb. cbv iota.
  unfold convert at 1. simpl lookup. rewrite O0.
  destruct (build_cmd_ok self f1 (info (probe (ffprobe w) c0 f1)) out1
              (run_encoder self w) (run_preset self w) rate Hrate) as [cmd1 B1].
  rewrite B1, Hf. simpl length. rewrite L0, R0, complete_first.
  rewrite S1, X1. simpl negb. cbv iota.
  unfold convert at 1. simpl lookup. rewrite O1.
  destruct (build_cmd_ok self f2
              (info (probe (ffprobe w) (cache (probe (ffprobe w) c0 f1)) f2)) out2
              (run_encoder self w) (run_preset self w) rate Hrate) as [cmd2 B2].
  rewrite B2, Hf. simpl length. rewrite L1, R1, complete_second.
  rewrite !progress_values_app, !probe_no_progress. simpl.
  rewrite !progress_values_app. simpl. rewrite app_nil_r, <- app_assoc. reflexivity.
Qed.

Lemma samples_0_50_100 :
  nondecreasing_from 0 (samples [Yields (PyInt 0); Yields (PyInt 50); Yields (PyInt 100)]).
Proof.
  simpl. repeat split; try (vm_compute; reflexivity); vm_compute; discriminate.
Qed.

Lemma error_free (l : list signal) :
  forallb (fun s => negb (is_error s)) l = true ->
  forall file e color, log_message (ErrorConverting file e) color ∉ l.
Proof.
  intros H file e color Hin. rewrite forallb_forall in H.
  apply list_elem_of_In in Hin. specialize (H _ Hin). discriminate H.
Qed.


Lemma falls_unsorted (pre post : list Z) (a b : Z) :
  b < a -> ~ Sorted Z.le (pre ++ a :: b :: post).
Proof.
  intros Hab. induction pre as [|x pre IH]; simpl; intros H.
  - inversion H as [|? ? _ H1]; subst. inversion H1 as [|? ? H2]; subst. lia.
  - inversion H as [|? ? H1 _]; subst. exact (IH H1).
Qed.


(** C2 fails as stated: the value emitted at the completion of the first
    file is 66, not 67. *)
Lemma first_completion_emits_66 :
  run two_files clean_world =
    [log_message (SelectedEncoder "libaom-av1") "black";
     log_message (UsingPreset "medium" "medium") "black";
     log_message (Converting "a.mp4" "out/a_converted.mp4" "AV1" false "libaom-av1") "black";
     progress_updated 0; per_file_label 1 2 "a.mp4" 0;
     progress_updated 33; per_file_label 1 2 "a.mp4" 50;
     progress_updated 66; per_file_label 1 2 "a.mp4" 100;
     progress_updated 66; log_message (Completed "out/a_converted.mp4") "green";
     log_message (Converting "b.mp4" "out/b_converted.mp4" "AV1" false "libaom-av1") "black";
     progress_updated 66; per_file_label 2 2 "b.mp4" 0;
     progress_updated 83; per_file_label 2 2 "b.mp4" 50;
     progress_updated 100; per_file_label 2 2 "b.mp4" 100;
     progress_updated 100; log_message (Completed "out/b_converted.mp4") "green";
     finished]
  /\ run_durations two_files clean_world = Ok [100; 50]
  /\ progress_updated 67 ∉ run two_files clean_world.
Proof.
  assert (E : run two_files clean_world = _) by (vm_compute; reflexivity).
  split; [ exact E | ]. split; [ vm_compute; reflexivity | ].
  rewrite E. clear E. intros H. in_cmd H; discriminate.
Qed.

Lemma two_files_100_50_witness :
  total_of [100; 50] = 150
  /\ complete "a.mp4" "out/a_converted.mp4" F64.zero 100 150
     = ([progress_updated 66; log_message (Completed "out/a_converted.mp4") "green"],
        F64.of_Z 100)
  /\ progress_values (run two_files clean_world)
     = [0; 33; 66] ++ [66] ++ [66; 83; 100] ++ [100].
Proof.
  exact (two_files_100_50 two_files clean_world "a.mp4" "b.mp4"
           "out/a_converted.mp4" "out/b_converted.mp4" ["-b:v"; "2000k"]
           [progress_updated 0; per_file_label 1 2 "a.mp4" 0;
            progress_updated 33; per_file_label 1 2 "a.mp4" 50;
            progress_updated 66; per_file_label 1 2 "a.mp4" 100]
           [progress_updated 66; per_file_label 2 2 "b.mp4" 0;
            progress_updated 83; per_file_label 2 2 "b.mp4" 50;
            progress_updated 100; per_file_label 2 2 "b.mp4" 100]
           eq_refl ltac:(vm_compute; reflexivity) ltac:(vm_compute; reflexivity)
           eq_refl eq_refl eq_refl eq_refl ltac:(vm_compute; reflexivity)
           eq_refl eq_refl eq_refl eq_refl ltac:(vm_compute; reflexivity)).
Defined.



(** * Further properties *)

(** ** Time helpers *)


Lemma parse_digits_step (acc d : Z) (c : ascii) (r : list ascii) :
  digit_of c = Some d -> parse_digits acc (c :: r) = parse_digits (10 * acc + d) r.
Proof. intros H. simpl. rewrite H. reflexivity. Qed.

Lemma parse_digits_pos (d : Decimal.uint) : forall p : positive,
  parse_digits (Z.pos p) (chars_of d) = Some (Z.pos (Pos.of_uint_acc d p)).
Proof.
  induction d as [|d IH|d IH|d IH|d IH|d IH|d IH|d IH|d IH|d IH|d IH]; intros p;
    [ reflexivity | .. ];
    unfold chars_of; simpl NilEmpty.string_of_uint; simpl list_ascii_of_string;
    change (list_ascii_of_string (NilEmpty.string_of_uint d)) with (chars_of d);
    (erewrite parse_digits_step by (vm_compute; reflexivity));
    simpl Pos.of_uint_acc; rewrite <- IH; f_equal; lia.
Qed.

Lemma parse_digits_zero (d : Decimal.uint) :
  parse_digits 0 (chars_of d) = Some (Z.of_N (Pos.of_uint d)).
Proof.
  induction d as [|d IH|d IH|d IH|d IH|d IH|d IH|d IH|d IH|d IH|d IH];
    [ reflexivity | .. ];
    unfold chars_of; simpl NilEmpty.string_of_uint; simpl list_ascii_of_string;
    change (list_ascii_of_string (NilEmpty.string_of_uint d)) with (chars_of d);
    (erewrite parse_digits_step by (vm_compute; reflexivity));
    simpl Pos.of_uint; [ exact IH | .. ]; exact (parse_digits_pos d _).
Qed.

Lemma parse_unsigned_uint (d : Decimal.uint) :
  d <> Decimal.Nil -> parse_unsigned (chars_of d) = Some (Z.of_uint d).
Proof.
  intros Hd. unfold Z.of_uint. rewrite <- parse_digits_zero.
  destruct d; [ congruence | .. ]; reflexivity.
Qed.

Lemma chars_app (a b : string) :
  list_ascii_of_string (a +:+ b) = list_ascii_of_string a ++ list_ascii_of_string b.
Proof.
  induction a as [|c a IH]; [ reflexivity | ]. simpl. rewrite IH. reflexivity.
Qed.

Lemma digit_not_space (c : ascii) : is_Some (digit_of c) -> is_space c = false.
Proof.
  unfold digit_of, is_space. intros [d Hd].
  destruct ((48 <=? code c) && (code c <=? 57)) eqn:E; [ | discriminate Hd ].
  apply andb_true_iff in E as [E1 E2]. apply Z.leb_le in E1, E2.
  rewrite !orb_false_iff, !andb_false_iff, Z.eqb_neq, !Z.leb_gt. lia.
Qed.

Lemma digit_not_colon (c : ascii) : is_Some (digit_of c) -> Ascii.eqb c ":" = false.
Proof.
  intros [d Hd]. apply Ascii.eqb_neq. intros ->. discriminate Hd.
Qed.

Lemma chars_of_digits (d : Decimal.uint) :
  Forall (fun c => is_Some (digit_of c)) (chars_of d).
Proof.
  induction d as [|d IH|d IH|d IH|d IH|d IH|d IH|d IH|d IH|d IH|d IH];
    [ constructor | .. ]; (constructor; [ vm_compute; eauto | exact IH ]).
Qed.

Lemma lstrip_chars (s : string) :
  Forall (fun c => is_space c = false) (list_ascii_of_string s) -> lstrip s = s.
Proof.
  destruct s as [|c r]; [ reflexivity | ].
  intros H. inversion H as [|? ? Hc _]; subst. simpl. rewrite Hc. reflexivity.
Qed.

Lemma rstrip_chars (s : string) :
  Forall (fun c => is_space c = false) (list_ascii_of_string s) -> rstrip s = s.
Proof.
  induction s as [|c r IH]; [ reflexivity | ].
  intros H. inversion H as [|? ? Hc Hr]; subst. simpl. rewrite (IH Hr), Hc.
  destruct r; reflexivity.
Qed.

Lemma strip_chars (s : string) :
  Forall (fun c => is_space c = false) (list_ascii_of_string s) -> strip s = s.
Proof.
  intros H. unfold strip. rewrite (lstrip_chars s H). exact (rstrip_chars s H).
Qed.

(** A decimal number the characters of [str(n)] spell, for [n >= 0]. *)
Lemma str_of_int_nonneg (n : Z) :
  0 <= n ->
  exists d, d <> Decimal.Nil /\ str_of_int n = NilEmpty.string_of_uint d
            /\ Z.of_uint d = n.
Proof.
  intros Hn. pose proof (Stdlib.Numbers.DecimalZ.of_to n) as E.
  unfold str_of_int. destruct n as [|p|p]; [ | | lia ].
  - exists (Decimal.D0 Decimal.Nil). repeat split; congruence.
  - exists (Pos.to_uint p). simpl in *.
    pose proof (Stdlib.Numbers.DecimalPos.Unsigned.to_uint_nonnil p) as Hd.
    split; [ exact Hd | ]. split; [ | exact E ].
    destruct (Pos.to_uint p); [ congruence | .. ]; reflexivity.
Qed.

Lemma str_of_int_neg (p : positive) :
  str_of_int (Z.neg p) = String "-" (NilEmpty.string_of_uint (Pos.to_uint p))
  /\ Z.of_uint (Pos.to_uint p) = Z.pos p.
Proof.
  pose proof (Stdlib.Numbers.DecimalZ.of_to (Z.pos p)) as E.
  pose proof (Stdlib.Numbers.DecimalPos.Unsigned.to_uint_nonnil p) as Hd.
  unfold str_of_int. simpl in *. split; [ | exact E ].
  destruct (Pos.to_uint p); [ congruence | .. ]; reflexivity.
Qed.

Lemma int_of_digits (d : Decimal.uint) :
  d <> Decimal.Nil -> int_of_str (NilEmpty.string_of_uint d) = Some (Z.of_uint d).
Proof.
  intros Hd. unfold int_of_str. rewrite strip_chars.
  - fold (chars_of d). rewrite <- (parse_unsigned_uint d Hd).
    pose proof (chars_of_digits d) as Hall.
    destruct (chars_of d) as [|c r] eqn:E.
    { destruct d; [ congruence | .. ]; discriminate E. }
    inversion Hall as [|? ? [v Hc] _]; subst.
    assert (48 <= code c <= 57) as Hr.
    { unfold digit_of in Hc.
      destruct ((48 <=? code c) && (code c <=? 57)) eqn:E'; [ | discriminate Hc ].
      apply andb_true_iff in E' as [E1 E2]. apply Z.leb_le in E1, E2. lia. }
    destruct (code c =? 43) eqn:E1; [ apply Z.eqb_eq in E1; lia | ].
    destruct (code c =? 45) eqn:E2; [ apply Z.eqb_eq in E2; lia | ]. reflexivity.
  - eapply Forall_impl; [ apply chars_of_digits | ]. intros c. apply digit_not_space.
Qed.

(** [int(str(n))] is [n]. *)
Lemma int_of_str_of_int (n : Z) : int_of_str (str_of_int n) = Some n.
Proof.
  destruct (Z_lt_le_dec n 0) as [Hn|Hn].
  - destruct n as [|p|p]; try lia. destruct (str_of_int_neg p) as [-> E].
    pose proof (Stdlib.Numbers.DecimalPos.Unsigned.to_uint_nonnil p) as Hd.
    unfold int_of_str. rewrite strip_chars.
    + cbn [list_ascii_of_string]. fold (chars_of (Pos.to_uint p)).
      change (code "-" =? 43) with false. change (code "-" =? 45) with true.
      cbv iota. rewrite (parse_unsigned_uint _ Hd), E. reflexivity.
    + constructor; [ reflexivity | ].
      eapply Forall_impl; [ apply chars_of_digits | ]. intros c. apply digit_not_space.
  - destruct (str_of_int_nonneg n Hn) as (d & Hd & -> & <-). apply int_of_digits. exact Hd.
Qed.

Lemma format_02d_digits (x : Z) :
  0 <= x ->
  exists d, d <> Decimal.Nil /\ format_02d x = NilEmpty.string_of_uint d
            /\ Z.of_uint d = x.
Proof.
  intros Hx. destruct (str_of_int_nonneg x Hx) as (d & Hd & E & V).
  unfold format_02d. rewrite E. destruct (_ <? 2)%nat.
  - exists (Decimal.D0 d). repeat split; [ congruence | exact V ].
  - exists d. repeat split; assumption.
Qed.

Lemma split_sep_aux_nosep (sep : ascii) (cs : list ascii) : forall cur,
  Forall (fun c => Ascii.eqb c sep = false) cs ->
  split_sep_aux sep cur cs = [string_of_list_ascii (rev cur ++ cs)].
Proof.
  induction cs as [|c r IH]; intros cur H; simpl.
  - rewrite app_nil_r. reflexivity.
  - inversion H as [|? ? Hc Hr]; subst. rewrite Hc, (IH _ Hr). simpl.
    rewrite <- app_assoc. reflexivity.
Qed.

Lemma split_sep_aux_app (sep : ascii) (cs1 cs2 : list ascii) : forall cur,
  Forall (fun c => Ascii.eqb c sep = false) cs1 ->
  split_sep_aux sep cur (cs1 ++ sep :: cs2)
  = string_of_list_ascii (rev cur ++ cs1) :: split_sep_aux sep [] cs2.
Proof.
  induction cs1 as [|c r IH]; intros cur H; simpl.
  - rewrite Ascii.eqb_refl, app_nil_r. reflexivity.
  - inversion H as [|? ? Hc Hr]; subst. rewrite Hc, (IH _ Hr). simpl.
    rewrite <- app_assoc. reflexivity.
Qed.

Lemma digits_no_colon (d : Decimal.uint) :
  Forall (fun c => Ascii.eqb c ":" = false) (chars_of d).
Proof.
  eapply Forall_impl; [ apply chars_of_digits | ]. intros c. apply digit_not_colon.
Qed.

Lemma digits_no_space (d : Decimal.uint) :
  Forall (fun c => is_space c = false) (chars_of d).
Proof.
  eapply Forall_impl; [ apply chars_of_digits | ]. intros c. apply digit_not_space.
Qed.

Lemma digits_not_empty (d : Decimal.uint) :
  d <> Decimal.Nil -> NilEmpty.string_of_uint d <> "".
Proof. destruct d; [ congruence | .. ]; discriminate. Qed.

(** No blank and no colon. *)
Lemma plain_no_space (s : string) :
  Forall (fun c => is_space c = false /\ Ascii.eqb c ":" = false) (list_ascii_of_string s) ->
  Forall (fun c => is_space c = false) (list_ascii_of_string s).
Proof. intros H. eapply Forall_impl; [ exact H | ]. simpl. tauto. Qed.

Lemma plain_no_colon (s : string) :
  Forall (fun c => is_space c = false /\ Ascii.eqb c ":" = false) (list_ascii_of_string s) ->
  Forall (fun c => Ascii.eqb c ":" = false) (list_ascii_of_string s).
Proof. intros H. eapply Forall_impl; [ exact H | ]. simpl. tauto. Qed.

Lemma str_of_int_plain (n : Z) :
  Forall (fun c => is_space c = false /\ Ascii.eqb c ":" = false)
    (list_ascii_of_string (str_of_int n)).
Proof.
  assert (D : forall d, Forall (fun c => is_space c = false /\ Ascii.eqb c ":" = false)
                          (chars_of d)).
  { intros d. eapply Forall_impl; [ apply chars_of_digits | ].
    intros c Hc. split; [ apply digit_not_space | apply digit_not_colon ]; exact Hc. }
  destruct n as [|p|p].
  - repeat constructor.
  - destruct (str_of_int_nonneg (Z.pos p)) as (d & _ & -> & _); [ lia | apply D ].
  - destruct (str_of_int_neg p) as [-> _]. constructor; [ split; reflexivity | apply D ].
Qed.

Lemma str_of_int_not_empty (n : Z) : str_of_int n <> "".
Proof.
  destruct (str_of_int_shape n) as (c & r & -> & _). discriminate.
Qed.

Lemma format_02d_plain (n : Z) :
  Forall (fun c => is_space c = false /\ Ascii.eqb c ":" = false)
    (list_ascii_of_string (format_02d n)).
Proof.
  unfold format_02d. destruct (_ <? 2)%nat; [ | apply str_of_int_plain ].
  constructor; [ split; reflexivity | apply str_of_int_plain ].
Qed.

Lemma append_not_empty (a b : string) : b <> "" -> a +:+ b <> "".
Proof. destruct a; [ trivial | discriminate ]. Qed.

(** Texts without blank or colon, joined by colons, are read part by
    part. *)
Lemma parse_three (a b c : string) :
  Forall (fun c => is_space c = false /\ Ascii.eqb c ":" = false) (list_ascii_of_string a) ->
  Forall (fun c => is_space c = false /\ Ascii.eqb c ":" = false) (list_ascii_of_string b) ->
  Forall (fun c => is_space c = false /\ Ascii.eqb c ":" = false) (list_ascii_of_string c) ->
  parse_hhmmss (a +:+ ":" +:+ b +:+ ":" +:+ c)
  = (h ← int_of_str a; m ← int_of_str b; s ← int_of_str c; hhmmss_value h m s).
Proof.
  intros Ha Hb Hc. unfold parse_hhmmss.
  destruct (decide _) as [E|_].
  { exfalso. revert E. apply append_not_empty. discriminate. }
  rewrite strip_chars.
  2:{ rewrite !chars_app. repeat (apply Forall_app; split);
      first [ apply plain_no_space; assumption | repeat constructor ]. }
  unfold split_sep. rewrite !chars_app. simpl.
  rewrite (split_sep_aux_app ":" (list_ascii_of_string a)) by (apply plain_no_colon; assumption).
  rewrite (split_sep_aux_app ":" (list_ascii_of_string b)) by (apply plain_no_colon; assumption).
  rewrite (split_sep_aux_nosep ":" (list_ascii_of_string c)) by (apply plain_no_colon; assumption).
  simpl. rewrite !string_of_list_ascii_of_string.
  rewrite !strip_chars by (apply plain_no_space; assumption). reflexivity.
Qed.

Lemma parse_two (a b : string) :
  Forall (fun c => is_space c = false /\ Ascii.eqb c ":" = false) (list_ascii_of_string a) ->
  Forall (fun c => is_space c = false /\ Ascii.eqb c ":" = false) (list_ascii_of_string b) ->
  parse_hhmmss (a +:+ ":" +:+ b)
  = (m ← int_of_str a; s ← int_of_str b; hhmmss_value 0 m s).
Proof.
  intros Ha Hb. unfold parse_hhmmss.
  destruct (decide _) as [E|_].
  { exfalso. revert E. apply append_not_empty. discriminate. }
  rewrite strip_chars.
  2:{ rewrite !chars_app. repeat (apply Forall_app; split);
      first [ apply plain_no_space; assumption | repeat constructor ]. }
  unfold split_sep. rewrite !chars_app. simpl.
  rewrite (split_sep_aux_app ":" (list_ascii_of_string a)) by (apply plain_no_colon; assumption).
  rewrite (split_sep_aux_nosep ":" (list_ascii_of_string b)) by (apply plain_no_colon; assumption).
  simpl. rewrite !string_of_list_ascii_of_string.
  rewrite !strip_chars by (apply plain_no_space; assumption). reflexivity.
Qed.

Lemma parse_one (a : string) :
  a <> "" ->
  Forall (fun c => is_space c = false /\ Ascii.eqb c ":" = false) (list_ascii_of_string a) ->
  parse_hhmmss a = (s ← int_of_str a; hhmmss_value 0 0 s).
Proof.
  intros Ne Ha. unfold parse_hhmmss.
  destruct (decide _) as [E|_]; [ contradiction | ].
  rewrite strip_chars by (apply plain_no_space; assumption).
  unfold split_sep.
  rewrite (split_sep_aux_nosep ":" (list_ascii_of_string a)) by (apply plain_no_colon; assumption).
  simpl. rewrite !string_of_list_ascii_of_string.
  rewrite !strip_chars by (apply plain_no_space; assumption). reflexivity.
Qed.

Lemma int_of_format_02d (x : Z) : 0 <= x -> int_of_str (format_02d x) = Some x.
Proof.
  intros Hx. destruct (format_02d_digits x Hx) as (d & Hd & -> & <-).
  apply int_of_digits. exact Hd.
Qed.

Lemma parse_format_seconds (sec : Z) :
  parse_hhmmss (seconds_to_hhmmss sec) = Some (Z.max 0 sec).
Proof.
  unfold seconds_to_hhmmss. set (n := Z.max 0 sec).
  assert (Hn : 0 <= n) by lia.
  assert (Hh : 0 <= n / 3600) by (apply Z.div_pos; lia).
  pose proof (Z.mod_pos_bound n 3600 ltac:(lia)) as Hr.
  assert (Hm : 0 <= n mod 3600 / 60 < 60).
  { split; [ apply Z.div_pos; lia | apply Z.div_lt_upper_bound; lia ]. }
  pose proof (Z.mod_pos_bound n 60 ltac:(lia)) as Hs.
  rewrite parse_three by apply format_02d_plain.
  rewrite !int_of_format_02d by lia. simpl.
  unfold hhmmss_value.
  replace (60 <=? n mod 3600 / 60) with false by (symmetry; apply Z.leb_gt; lia).
  replace (60 <=? n mod 60) with false by (symmetry; apply Z.leb_gt; lia).
  replace (Z.min (n / 3600) (Z.min (n mod 3600 / 60) (n mod 60)) <? 0) with false
    by (symmetry; apply Z.ltb_ge; lia).
  simpl. f_equal.
  pose proof (Z.div_mod n 3600 ltac:(lia)) as E1.
  pose proof (Z.div_mod (n mod 3600) 60 ltac:(lia)) as E2.
  pose proof (Z.div_mod n 60 ltac:(lia)) as E3.
  pose proof (Z.mod_pos_bound (n mod 3600) 60 ltac:(lia)) as E4.
  lia.
Qed.

(** X1. Reading back what [seconds_to_hhmmss] wrote gives the number of
    seconds, and 0 for a negative number; so two numbers of seconds that
    are not negative and are written alike are equal. *)
Theorem parse_seconds_to_hhmmss (a b : Z) :
  parse_hhmmss (seconds_to_hhmmss a) = Some (Z.max 0 a)
  /\ (seconds_to_hhmmss a = seconds_to_hhmmss b -> Z.max 0 a = Z.max 0 b).
Proof.
  split; [ apply parse_format_seconds | ].
  intros E. pose proof (parse_format_seconds a) as Ha.
  rewrite E, parse_format_seconds in Ha. congruence.
Qed.

(** X2. Integers written in decimal and joined by colons are accepted
    when the minutes and the seconds are below 60 and nothing is
    negative, whatever the number of hours; a lone number is read as
    seconds, two as minutes and seconds. *)
Theorem parse_hhmmss_forms (h m s : Z) :
  parse_hhmmss (str_of_int h +:+ ":" +:+ str_of_int m +:+ ":" +:+ str_of_int s)
  = (if (0 <=? h) && (0 <=? m) && (m <? 60) && (0 <=? s) && (s <? 60)
     then Some (h * 3600 + m * 60 + s) else None)
  /\ parse_hhmmss (str_of_int m +:+ ":" +:+ str_of_int s)
     = (if (0 <=? m) && (m <? 60) && (0 <=? s) && (s <? 60)
        then Some (m * 60 + s) else None)
  /\ parse_hhmmss (str_of_int s)
     = (if (0 <=? s) && (s <? 60) then Some s else None).
Proof.
  rewrite parse_three, parse_two, parse_one
    by first [ apply str_of_int_plain | apply str_of_int_not_empty ].
  rewrite !int_of_str_of_int. simpl. unfold hhmmss_value.
  repeat split;
    repeat match goal with
           | |- context [?a <=? ?b] => destruct (Z.leb_spec a b)
           | |- context [?a <? ?b] => destruct (Z.ltb_spec a b)
           end; simpl; try reflexivity; try (f_equal; lia); lia.
Qed.

Lemma hhmmss_value_nonneg (h m s v : Z) : hhmmss_value h m s = Some v -> 0 <= v.
Proof.
  unfold hhmmss_value. destruct (Z.ltb_spec (Z.min h (Z.min m s)) 0) as [H|H].
  - rewrite orb_true_r. discriminate.
  - destruct (_ || _ || _); [ discriminate | ]. intros [= <-]. lia.
Qed.

(** What [parse_hhmmss] accepts is never negative. *)
Lemma parse_hhmmss_nonneg (time_str : string) (v : Z) :
  parse_hhmmss time_str = Some v -> 0 <= v.
Proof.
  unfold parse_hhmmss. destruct (decide _); [ discriminate | ].
  destruct (strip <$> _) as [|a [|b [|c [|x l]]]]; try discriminate.
  - destruct (int_of_str a) as [s|]; simpl; [ | discriminate ].
    apply hhmmss_value_nonneg.
  - destruct (int_of_str a) as [m|]; simpl; [ | discriminate ].
    destruct (int_of_str b) as [s|]; simpl; [ | discriminate ].
    apply hhmmss_value_nonneg.
  - destruct (int_of_str a) as [h|]; simpl; [ | discriminate ].
    destruct (int_of_str b) as [m|]; simpl; [ | discriminate ].
    destruct (int_of_str c) as [s|]; simpl; [ | discriminate ].
    apply hhmmss_value_nonneg.
Qed.

(** *** Blanks around a time *)

Lemma lstrip_blank_app (a x : string) :
  Forall (fun c => is_space c = true) (list_ascii_of_string a) ->
  lstrip (a +:+ x) = lstrip x.
Proof.
  induction a as [|c a IH]; intros H; [ reflexivity | ].
  inversion H as [|? ? Hc Ha]; subst. simpl. rewrite Hc. exact (IH Ha).
Qed.

Lemma rstrip_blank (b : string) :
  Forall (fun c => is_space c = true) (list_ascii_of_string b) -> rstrip b = "".
Proof.
  induction b as [|c b IH]; intros H; [ reflexivity | ].
  inversion H as [|? ? Hc Hb]; subst. simpl. rewrite (IH Hb), Hc. reflexivity.
Qed.

Lemma rstrip_app_blank (x b : string) :
  Forall (fun c => is_space c = true) (list_ascii_of_string b) ->
  rstrip (x +:+ b) = rstrip x.
Proof.
  intros H. induction x as [|c x IH]; [ exact (rstrip_blank b H) | ].
  simpl. rewrite IH. reflexivity.
Qed.

Lemma strip_app_blank (x b : string) :
  Forall (fun c => is_space c = true) (list_ascii_of_string b) ->
  strip (x +:+ b) = strip x.
Proof.
  intros H. unfold strip. induction x as [|c x IH].
  - simpl. pose proof (lstrip_blank_app b "" H) as E. rewrite append_empty in E.
    change ("" +:+ b) with b. rewrite E. reflexivity.
  - simpl. destruct (is_space c); [ exact IH | ].
    exact (rstrip_app_blank (String c x) b H).
Qed.

Lemma strip_blanks (a x b : string) :
  Forall (fun c => is_space c = true) (list_ascii_of_string a) ->
  Forall (fun c => is_space c = true) (list_ascii_of_string b) ->
  strip (a +:+ x +:+ b) = strip x.
Proof.
  intros Ha Hb. rewrite <- (strip_app_blank x b Hb). unfold strip.
  rewrite (lstrip_blank_app a _ Ha). reflexivity.
Qed.

(** [parse_hhmmss] reads the stripped text only. *)
Lemma parse_hhmmss_strip (x y : string) : strip x = strip y -> parse_hhmmss x = parse_hhmmss y.
Proof.
  assert (E : forall t, parse_hhmmss t
                        = match strip <$> split_sep ":" (strip t) with
                          | [a; b; c] =>
                              h ← int_of_str a; m ← int_of_str b; s ← int_of_str c;
                              hhmmss_value h m s
                          | [a; b] => m ← int_of_str a; s ← int_of_str b; hhmmss_value 0 m s
                          | [a] => s ← int_of_str a; hhmmss_value 0 0 s
                          | _ => None
                          end).
  { intros t. unfold parse_hhmmss. destruct (decide (t = "")) as [->|_]; reflexivity. }
  intros H. rewrite (E x), (E y), H. reflexivity.
Qed.

(** X3. Blanks before and after a time are ignored, and a text of
    blanks only is rejected like the empty text. *)
Theorem parse_hhmmss_ignores_blanks (a b time_str : string) :
  Forall (fun c => is_space c = true) (list_ascii_of_string a) ->
  Forall (fun c => is_space c = true) (list_ascii_of_string b) ->
  parse_hhmmss (a +:+ time_str +:+ b) = parse_hhmmss time_str
  /\ parse_hhmmss (a +:+ b) = None.
Proof.
  intros Ha Hb. split.
  - apply parse_hhmmss_strip. apply strip_blanks; assumption.
  - rewrite <- (append_empty b) at 1.
    rewrite (parse_hhmmss_strip (a +:+ b +:+ "") "").
    + reflexivity.
    + rewrite <- (append_empty (a +:+ b +:+ "")).
      replace (a +:+ b +:+ "") with (a +:+ "" +:+ b) by (rewrite append_empty; reflexivity).
      rewrite append_empty. apply strip_blanks; assumption.
Qed.

Lemma parse_hhmmss_ignores_blanks_witness :
  parse_hhmmss ("  " +:+ "01:02:03" +:+ " ") = parse_hhmmss "01:02:03"
  /\ parse_hhmmss ("  " +:+ " ") = None.
Proof.
  apply parse_hhmmss_ignores_blanks; repeat constructor.
Defined.

(** *** The shape of a written time *)

Lemma length_app (a b : string) :
  String.length (a +:+ b) = (String.length a + String.length b)%nat.
Proof. induction a as [|c a IH]; [ reflexivity | ]. simpl. rewrite IH. reflexivity. Qed.

Lemma format_02d_length (x : Z) :
  (2 <= String.length (format_02d x))%nat
  /\ (0 <= x < 100 -> String.length (format_02d x) = 2%nat).
Proof.
  split.
  - unfold format_02d. destruct (Nat.ltb_spec (String.length (str_of_int x)) 2) as [H|H].
    + destruct (str_of_int_shape x) as (c & r & E & _). rewrite E in *. simpl in *. lia.
    + exact H.
  - intros Hx.
    assert (Hall : forallb (fun n => Nat.eqb (String.length (format_02d (Z.of_nat n))) 2)
                     (seq 0 100) = true) by (vm_compute; reflexivity).
    rewrite forallb_forall in Hall. specialize (Hall (Z.to_nat x)).
    rewrite Z2Nat.id in Hall by lia. apply Nat.eqb_eq, Hall.
    apply in_seq. lia.
Qed.


(** ** More on the command *)

Lemma rate_flags_raises (self : ConversionThread) (encoder : string) :
  ((exists e, rate_flags self encoder = Raise e)
   <-> rate_mode self = "bitrate" /\ (forall k, bitrate_kbps self = Some k -> k <= 0))
  /\ (forall e, rate_flags self encoder = Raise e -> e = ValueError).
Proof.
  unfold rate_flags. destruct (decide (rate_mode self = "bitrate")) as [E|E].
  - destruct (bitrate_kbps self) as [k|].
    + destruct (Z.leb_spec k 0) as [Hk|Hk].
      * split; [ | congruence ]. split; [ | eauto ].
        intros _. split; [ exact E | ]. intros k' [= <-]. exact Hk.
      * split.
        -- split.
           ++ intros [e He]. destruct (is_nvenc encoder); discriminate He.
           ++ intros [_ H]. specialize (H k eq_refl). lia.
        -- intros e He. destruct (is_nvenc encoder); discriminate He.
    + split; [ | congruence ]. split; [ | eauto ].
      intros _. split; [ exact E | ]. intros k' H. discriminate H.
  - split.
    + split; [ | tauto ]. intros [e He]. destruct (is_nvenc encoder); [ discriminate He | ].
      destruct (decide (encoder = "libsvtav1")); discriminate He.
    + intros e He. destruct (is_nvenc encoder); [ discriminate He | ].
      destruct (decide (encoder = "libsvtav1")); discriminate He.
Qed.

(** X5. The command of a file cannot be built exactly when the file is
    not stream-copied, the mode is "bitrate" and the bitrate is missing
    or not positive; the exception is then a [ValueError], which the
    batch loop reports in one red line before any "Converting" line,
    leaving the counter as it was and going on with the next file. *)
Theorem build_cmd_raises_iff (self : ConversionThread) (file : string)
    (pinfo : ProbeInfo) (out_path encoder mapped_preset : string) :
  ((exists e, build_cmd self file pinfo out_path encoder mapped_preset = Raise e)
   <-> do_stream_copy self pinfo = false /\ rate_mode self = "bitrate"
       /\ (forall k, bitrate_kbps self = Some k -> k <= 0))
  /\ (forall e, build_cmd self file pinfo out_path encoder mapped_preset = Raise e ->
        e = ValueError
        /\ forall idx durations T w d t,
             durations !! idx = Some t -> resolved_out_path w = Ok out_path ->
             convert self encoder mapped_preset idx file pinfo durations T w d
             = ([log_message (ErrorConverting file ValueError) "red"], d, true)).
Proof.
  destruct (rate_flags_raises self encoder) as [R1 R2].
  assert (B : forall e, build_cmd self file pinfo out_path encoder mapped_preset = Raise e ->
                do_stream_copy self pinfo = false /\ rate_flags self encoder = Raise e).
  { intros e. unfold build_cmd. destruct (do_stream_copy self pinfo); simpl;
      [ discriminate | ].
    destruct (rate_flags self encoder) as [rate|e']; simpl; [ discriminate | ].
    intros [= ->]. split; reflexivity. }
  split; [ split | ].
  - intros [e He]. destruct (B e He) as [H1 H2]. split; [ exact H1 | ].
    apply R1. exists e. exact H2.
  - intros (H1 & H2). apply R1 in H2 as [e He]. exists e.
    unfold build_cmd. rewrite H1, He. reflexivity.
  - intros e He. destruct (B e He) as [H1 H2]. pose proof (R2 e H2) as ->.
    split; [ reflexivity | ].
    intros idx durations T w d t Hl Ho. unfold convert. rewrite Hl, Ho, He. reflexivity.
Qed.

Lemma nvenc_token (p : string) :
  default "p6" (nvenc_map !! p) ∈ ["p1"; "p2"; "p3"; "p4"; "p5"; "p6"; "p7"].
Proof.
  destruct (nvenc_map !! p) as [v|] eqn:E; simpl; [ | in_list ].
  apply elem_of_list_to_map_2 in E. simpl in E.
  in_cmd E; injection E as _ <-; in_list.
Qed.

(** A token that looks like an option is the mapped preset only when it
    is the preset of the user interface handed through. *)
Lemma mapped_preset_flag (encoder p flag : string) :
  flag_like flag = true -> flag = map_preset encoder p -> flag = p.
Proof.
  intros Hf ->. unfold map_preset in *. destruct (is_nvenc encoder).
  - exfalso. pose proof (nvenc_token p) as Ht.
    in_cmd Ht; rewrite Ht in Hf; discriminate Hf.
  - destruct (decide (encoder = "libsvtav1")); [ | reflexivity ].
    exfalso. pose proof (svt_token p) as Ht.
    in_cmd Ht; rewrite Ht in Hf; discriminate Hf.
Qed.

Lemma chosen_encoder_flag (codec flag : string) (encoders : list string) :
  flag_like flag = true -> flag <> choose_encoder codec encoders.
Proof.
  intros Hf ->. pose proof (choose_encoder_known codec encoders) as Hk.
  in_cmd Hk; rewrite Hk in Hf; discriminate Hf.
Qed.

(** X6. In quality mode (any mode other than "bitrate"), without stream
    copy, the command is always built; the quality is [crf_cq_value], or
    23 when that is missing or negative. An NVENC encoder gets
    [-rc:v vbr -cq:v q], libsvtav1 gets [-crf q -b:v 0], the other
    encoders get [-crf q]; a max-rate or buffer-size option never
    occurs (such a token can only be the input path, the output path or
    the preset string handed through). *)
Theorem quality_mode_flags (self : ConversionThread) (file : string)
    (pinfo : ProbeInfo) (out_path : string) (encoders : list string) :
  rate_mode self <> "bitrate" ->
  do_stream_copy self pinfo = false ->
  let encoder := choose_encoder (codec self) encoders in
  let mapped_preset := map_preset encoder (preset self) in
  let q := str_of_int (quality_of self) in
  exists cmd,
    build_cmd self file pinfo out_path encoder mapped_preset = Ok cmd
    /\ (encoder ∈ ["hevc_nvenc"; "av1_nvenc"] ->
        exists pre post, cmd = pre ++ ["-rc:v"; "vbr"; "-cq:v"; q] ++ post)
    /\ (encoder = "libsvtav1" ->
        exists pre post, cmd = pre ++ ["-crf"; q; "-b:v"; "0"] ++ post)
    /\ (encoder ∈ ["libx265"; "libaom-av1"] ->
        (exists pre post, cmd = pre ++ ["-crf"; q] ++ post)
        /\ (forall flag, flag ∈ ["-b:v"; "-rc:v"; "-cq:v"] -> flag ∈ cmd ->
              flag = file \/ flag = out_path \/ flag = preset self))
    /\ (forall flag, flag ∈ ["-maxrate"; "-bufsize"] -> flag ∈ cmd ->
          flag = file \/ flag = out_path \/ flag = preset self).
Proof.
  intros Hmode Hcopy encoder mapped_preset q.
  assert (Hr : exists rate,
             rate_flags self encoder = Ok rate
             /\ (encoder ∈ ["hevc_nvenc"; "av1_nvenc"] -> rate = ["-rc:v"; "vbr"; "-cq:v"; q])
             /\ (encoder = "libsvtav1" -> rate = ["-crf"; q; "-b:v"; "0"])
             /\ (encoder ∈ ["libx265"; "libaom-av1"] -> rate = ["-crf"; q])
             /\ (rate = ["-rc:v"; "vbr"; "-cq:v"; q] \/ rate = ["-crf"; q; "-b:v"; "0"]
                 \/ rate = ["-crf"; q])).
  { unfold rate_flags. destruct (decide (rate_mode self = "bitrate")); [ contradiction | ].
    fold (quality_of self). fold q. unfold is_nvenc.
    destruct (bool_decide_reflect (encoder ∈ ["hevc_nvenc"; "av1_nvenc"])) as [Hn|Hn].
    - eexists. split; [ reflexivity | ]. repeat split; try tauto.
      + intros ->. in_cmd Hn; discriminate Hn.
      + intros H. in_cmd H; rewrite H in Hn; in_cmd Hn; discriminate Hn.
    - destruct (decide (encoder = "libsvtav1")) as [Hs|Hs].
      + eexists. split; [ reflexivity | ]. repeat split; try tauto.
        intros H. rewrite Hs in H. in_cmd H; discriminate H.
      + eexists. split; [ reflexivity | ]. repeat split; tauto. }
  destruct Hr as (rate & Hr & R1 & R2 & R3 & R4).
  eexists. split; [ apply (build_cmd_encode _ _ _ _ _ _ _ Hcopy Hr) | ].
  assert (Hflags : forall flag, flag_like flag = true -> flag ∉ rate ->
            flag ∈ (["ffmpeg"; "-hide_banner"; "-nostats"]
                    ++ match crop_settings self !! file with
                       | Some (start, _) => ["-ss"; str_of_int start]
                       | None => []
                       end
                    ++ ["-i"; file]
                    ++ match crop_settings self !! file with
                       | Some (_, end_) => ["-to"; str_of_int end_]
                       | None => []
                       end
                    ++ ["-map"; "0"]
                    ++ (if decide (upper (container self) = "MP4")
                        then ["-movflags"; "+faststart"] else [])
                    ++ ["-c:v"; encoder; "-preset"; mapped_preset])
                   ++ rate
                   ++ (audio_flags self ++ ["-c:s"; "copy"; "-progress"; "pipe:2"; out_path]) ->
            flag ∈ ["-ss"; "-i"; "-to"; "-map"; "-movflags"; "-c:v"; "-preset"; "-c:a";
                    "-b:a"; "-c:s"; "-progress"; "-hide_banner"; "-nostats"]
            \/ flag = file \/ flag = out_path \/ flag = preset self).
  { intros flag Hf Hnr Hin.
    pose proof (chosen_encoder_flag (codec self) flag encoders Hf) as Henc.
    pose proof (mapped_preset_flag encoder (preset self) flag Hf) as Hmap.
    fold encoder in Henc. fold mapped_preset in Hmap.
    unfold audio_flags in Hin.
    apply elem_of_app in Hin as [Hin|Hin];
      [ | apply elem_of_app in Hin as [Hin|Hin]; [ contradiction | ] ].
    - destruct (crop_settings self !! file) as [[start end_]|];
        destruct (decide (upper (container self) = "MP4"));
        in_cmd Hin;
        first
          [ right; left; assumption
          | right; right; right; apply Hmap; assumption
          | exfalso; apply Henc; assumption
          | exfalso; eapply str_of_int_no_flag'; [ exact Hf | eassumption ]
          | subst flag; first [ discriminate Hf | solve [ left; repeat constructor ] ] ].
    - destruct (audio_copy self);
        destruct (decide (audio_codec self = "AAC"));
        destruct (decide (audio_codec self = "Opus"));
        in_cmd Hin;
        first
          [ right; right; left; assumption
          | exfalso; eapply str_of_int_no_flag; [ exact Hf | eassumption ]
          | subst flag; first [ discriminate Hf | solve [ left; repeat constructor ] ] ]. }
  assert (Hq : forall flag, flag_like flag = true -> flag <> q).
  { intros flag Hf. apply str_of_int_no_flag'. exact Hf. }
  repeat split.
  - intros H. rewrite (R1 H). eexists _, _. reflexivity.
  - intros H. rewrite (R2 H). eexists _, _. reflexivity.
  - rewrite (R3 H). eexists _, _. reflexivity.
  - intros flag Hflag Hin.
    assert (Hf : flag_like flag = true)
      by (clear -Hflag; in_cmd Hflag; subst flag; reflexivity).
    assert (Hnr : flag ∉ rate).
    { rewrite (R3 H). intros Hx. in_cmd Hx; [ | exact (Hq flag Hf Hx) ].
      clear -Hflag Hx. in_cmd Hflag; subst flag; discriminate Hx. }
    destruct (Hflags flag Hf Hnr Hin) as [Hk|Hk]; [ | exact Hk ].
    exfalso. clear -Hflag Hk. in_cmd Hflag; subst flag; in_cmd Hk; discriminate Hk.
  - intros flag Hflag Hin.
    assert (Hf : flag_like flag = true)
      by (clear -Hflag; in_cmd Hflag; subst flag; reflexivity).
    assert (Hnr : flag ∉ rate).
    { intros Hx. destruct R4 as [->|[->| ->]]; in_cmd Hx;
        first [ exact (Hq flag Hf Hx)
              | clear -Hflag Hx; in_cmd Hflag; subst flag; discriminate Hx ]. }
    destruct (Hflags flag Hf Hnr Hin) as [Hk|Hk]; [ | exact Hk ].
    exfalso. clear -Hflag Hk. in_cmd Hflag; subst flag; in_cmd Hk; discriminate Hk.
Qed.

Lemma quality_mode_flags_witness :
  exists cmd,
    build_cmd quality_thread "a.mp4" (info (probe two_probes ∅ "a.mp4")) "out/a_converted.mkv"
      "libsvtav1" "4" = Ok cmd
    /\ ("libsvtav1" ∈ ["hevc_nvenc"; "av1_nvenc"] ->
        exists pre post, cmd = pre ++ ["-rc:v"; "vbr"; "-cq:v"; "30"] ++ post)
    /\ ("libsvtav1" = "libsvtav1" ->
        exists pre post, cmd = pre ++ ["-crf"; "30"; "-b:v"; "0"] ++ post)
    /\ ("libsvtav1" ∈ ["libx265"; "libaom-av1"] ->
        (exists pre post, cmd = pre ++ ["-crf"; "30"] ++ post)
        /\ (forall flag, flag ∈ ["-b:v"; "-rc:v"; "-cq:v"] -> flag ∈ cmd ->
              flag = "a.mp4" \/ flag = "out/a_converted.mkv" \/ flag = "slow"))
    /\ (forall flag, flag ∈ ["-maxrate"; "-bufsize"] -> flag ∈ cmd ->
          flag = "a.mp4" \/ flag = "out/a_converted.mkv" \/ flag = "slow").
Proof.
  apply (quality_mode_flags quality_thread "a.mp4" (info (probe two_probes ∅ "a.mp4"))
           "out/a_converted.mkv" ["libx265"; "libsvtav1"]).
  - discriminate.
  - vm_compute. reflexivity.
Defined.

Example quality_cmd_svt :
  build_cmd quality_thread "a.mp4" (info (probe two_probes ∅ "a.mp4")) "out/a_converted.mkv"
    "libsvtav1" "4"
  = Ok ["ffmpeg"; "-hide_banner"; "-nostats"; "-i"; "a.mp4"; "-map"; "0";
        "-c:v"; "libsvtav1"; "-preset"; "4"; "-crf"; "30"; "-b:v"; "0";
        "-c:a"; "libopus"; "-b:a"; "160k"; "-c:s"; "copy";
        "-progress"; "pipe:2"; "out/a_converted.mkv"].
Proof. vm_compute. reflexivity. Qed.

(** X7. Trimming: when the file has a crop range, the command seeks with
    [-ss start] before the input and stops with [-to end] after it; when
    it has none, neither option occurs (such a token can only be a path,
    the encoder or the preset handed in). The command always begins with
    [ffmpeg -hide_banner -nostats] and ends with [-progress pipe:2] and
    the output path. *)
Theorem trim_flags (self : ConversionThread) (file : string) (pinfo : ProbeInfo)
    (out_path encoder mapped_preset : string) (cmd : list string) :
  build_cmd self file pinfo out_path encoder mapped_preset = Ok cmd ->
  (forall s e, crop_settings self !! file = Some (s, e) ->
     exists post,
       cmd = ["ffmpeg"; "-hide_banner"; "-nostats"; "-ss"; str_of_int s; "-i"; file;
              "-to"; str_of_int e; "-map"; "0"] ++ post)
  /\ (crop_settings self !! file = None ->
      (exists post, cmd = ["ffmpeg"; "-hide_banner"; "-nostats"; "-i"; file; "-map"; "0"]
                          ++ post)
      /\ (forall flag, flag ∈ ["-ss"; "-to"] -> flag ∈ cmd ->
            flag = file \/ flag = out_path \/ flag = encoder \/ flag = mapped_preset))
  /\ (exists pre, cmd = pre ++ ["-progress"; "pipe:2"; out_path]).
Proof.
  intros Hb.
  assert (Hc : exists streams_part,
             cmd = (["ffmpeg"; "-hide_banner"; "-nostats"]
                    ++ match crop_settings self !! file with
                       | Some (start, _) => ["-ss"; str_of_int start]
                       | None => []
                       end
                    ++ ["-i"; file]
                    ++ match crop_settings self !! file with
                       | Some (_, end_) => ["-to"; str_of_int end_]
                       | None => []
                       end
                    ++ ["-map"; "0"])
                   ++ ((if decide (upper (container self) = "MP4")
                        then ["-movflags"; "+faststart"] else [])
                       ++ streams_part) ++ ["-progress"; "pipe:2"; out_path]
             /\ forall flag, flag ∈ ["-ss"; "-to"] -> flag ∈ streams_part ->
                  flag = encoder \/ flag = mapped_preset).
  { revert Hb. unfold build_cmd.
    destruct (do_stream_copy self pinfo); simpl.
    - intros [= <-]. exists ["-c"; "copy"]. split.
      + destruct (crop_settings self !! file) as [[start end_]|];
          destruct (decide (upper (container self) = "MP4")); reflexivity.
      + intros flag Hflag Hin. exfalso.
        in_cmd Hflag; subst flag; in_cmd Hin; discriminate.
    - destruct (rate_flags self encoder) as [rate|e] eqn:Hr; simpl; [ | discriminate ].
      intros [= <-].
      exists (["-c:v"; encoder; "-preset"; mapped_preset] ++ rate
              ++ audio_flags self ++ ["-c:s"; "copy"]).
      split.
      + destruct (crop_settings self !! file) as [[start end_]|];
          destruct (decide (upper (container self) = "MP4")); simpl;
          rewrite <- ?app_assoc; reflexivity.
      + intros flag Hflag Hin.
        assert (Hf : flag_like flag = true)
          by (clear -Hflag; in_cmd Hflag; subst flag; reflexivity).
        unfold rate_flags, audio_flags in *.
        destruct (decide (rate_mode self = "bitrate"));
          [ destruct (bitrate_kbps self) as [k|]; [ | discriminate Hr ];
            destruct (k <=? 0); [ discriminate Hr | ] | ];
          destruct (is_nvenc encoder);
          try destruct (decide (encoder = "libsvtav1"));
          injection Hr as <-;
          destruct (audio_copy self);
          destruct (decide (audio_codec self = "AAC"));
          destruct (decide (audio_codec self = "Opus"));
          in_cmd Hin;
          first
            [ left; assumption
            | right; assumption
            | exfalso; eapply str_of_int_no_flag'; [ exact Hf | eassumption ]
            | exfalso; eapply str_of_int_no_flag; [ exact Hf | eassumption ]
            | exfalso; clear -Hflag Hin; in_cmd Hflag; subst flag; discriminate Hin ]. }
  destruct Hc as (streams_part & -> & Hs).
  split; [ | split ].
  - intros s e ->. eexists. simpl. reflexivity.
  - intros ->. split; [ eexists; simpl; reflexivity | ].
    intros flag Hflag Hin. simpl in Hin.
    destruct (decide (upper (container self) = "MP4")); in_cmd Hin;
      first
        [ left; assumption
        | right; left; assumption
        | right; right; apply Hs; assumption
        | exfalso; clear -Hflag Hin; in_cmd Hflag; subst flag; discriminate Hin ].
  - eexists. rewrite app_assoc. reflexivity.
Qed.

Lemma trim_flags_witness :
  (forall s e, crop_settings two_files !! "a.mp4" = Some (s, e) ->
     exists post,
       ["ffmpeg"; "-hide_banner"; "-nostats"; "-i"; "a.mp4"; "-map"; "0";
        "-movflags"; "+faststart"; "-c:v"; "libaom-av1"; "-preset"; "medium";
        "-b:v"; "2000k"; "-c:a"; "copy"; "-c:s"; "copy"; "-progress"; "pipe:2";
        "out/a_converted.mp4"]
       = ["ffmpeg"; "-hide_banner"; "-nostats"; "-ss"; str_of_int s; "-i"; "a.mp4";
          "-to"; str_of_int e; "-map"; "0"] ++ post)
  /\ (crop_settings two_files !! "a.mp4" = None ->
      (exists post,
         ["ffmpeg"; "-hide_banner"; "-nostats"; "-i"; "a.mp4"; "-map"; "0";
          "-movflags"; "+faststart"; "-c:v"; "libaom-av1"; "-preset"; "medium";
          "-b:v"; "2000k"; "-c:a"; "copy"; "-c:s"; "copy"; "-progress"; "pipe:2";
          "out/a_converted.mp4"]
         = ["ffmpeg"; "-hide_banner"; "-nostats"; "-i"; "a.mp4"; "-map"; "0"] ++ post)
      /\ (forall flag, flag ∈ ["-ss"; "-to"] ->
            flag ∈ ["ffmpeg"; "-hide_banner"; "-nostats"; "-i"; "a.mp4"; "-map"; "0";
                    "-movflags"; "+faststart"; "-c:v"; "libaom-av1"; "-preset"; "medium";
                    "-b:v"; "2000k"; "-c:a"; "copy"; "-c:s"; "copy"; "-progress";
                    "pipe:2"; "out/a_converted.mp4"] ->
            flag = "a.mp4" \/ flag = "out/a_converted.mp4" \/ flag = "libaom-av1"
            \/ flag = "medium"))
  /\ (exists pre,
        ["ffmpeg"; "-hide_banner"; "-nostats"; "-i"; "a.mp4"; "-map"; "0";
         "-movflags"; "+faststart"; "-c:v"; "libaom-av1"; "-preset"; "medium";
         "-b:v"; "2000k"; "-c:a"; "copy"; "-c:s"; "copy"; "-progress"; "pipe:2";
         "out/a_converted.mp4"]
        = pre ++ ["-progress"; "pipe:2"; "out/a_converted.mp4"]).
Proof.
  apply (trim_flags two_files "a.mp4" (info (probe two_probes ∅ "a.mp4"))
           "out/a_converted.mp4" "libaom-av1" "medium").
  vm_compute. reflexivity.
Defined.

Lemma completions_app (a b : list signal) :
  completions (a ++ b) = completions a ++ completions b.
Proof. unfold completions. apply omap_app. Qed.

Lemma percent_model_full (T : Z) : 1 <= T -> percent_model (inject_Z T) T = 100.
Proof.
  intros HT. unfold percent_model.
  assert (E : (rnd (rnd (inject_Z T / inject_Z T) * 100) == inject_Z 100)%Q).
  { assert (E1 : (inject_Z T / inject_Z T == 1)%Q).
    { apply Qmult_inv_r. change 0%Q with (inject_Z 0). rewrite inject_Z_injective. lia. }
    rewrite E1, rnd_1. rewrite <- (rnd_Z 100) by lia. apply rnd_proper. reflexivity. }
  rewrite (Qfloor_comp _ _ E), Qfloor_Z. reflexivity.
Qed.

(** The loop of a generator that is not interrupted and yields values
    within 0..100 runs to its end and emits only progress signals. *)
Lemma loop_clean (idx n : nat) (file : string) (d : spec_float) (D t T : Z)
    (items : list ff_item) :
  nonneg d -> (F2Q d == inject_Z D)%Q -> 0 <= D -> 0 <= t -> D + t < 2 ^ 53 ->
  1 <= T < 2 ^ 53 ->
  StopCalled ∉ items -> Forall in_range (samples items) ->
  forall last_pct,
  exists sigs, progress_loop idx n file d t T true last_pct items = (sigs, true, Exhausted)
               /\ completions sigs = [].
Proof.
  intros Nd Vd HD Ht HS HT. induction items as [|[pct|] rest IH]; intros Hno Hin last_pct.
  - exists []. split; reflexivity.
  - simpl in Hin. inversion Hin as [|? ? Hp Hrest]; subst.
    assert (Hno' : StopCalled ∉ rest) by (intros H; apply Hno; right; exact H).
    destruct (yield_value d D t T Nd Vd HD Ht HS HT pct Hp) as [E1 E2].
    simpl. fold (pct_float pct). rewrite E1.
    destruct (_ =? last_pct); [ apply IH; assumption | ].
    rewrite E2.
    destruct (IH Hno' Hrest (percent_model (during_model D (F2Q (pct_float pct)) t) T))
      as (sigs & -> & Hc).
    eexists. split; [ reflexivity | exact Hc ].
  - exfalso. apply Hno. left.
Qed.

Lemma rate_flags_ok (self : ConversionThread) (encoder : string) :
  (rate_mode self = "bitrate" -> exists k, bitrate_kbps self = Some k /\ 0 < k) ->
  exists rate, rate_flags self encoder = Ok rate.
Proof.
  intros H. unfold rate_flags. destruct (decide (rate_mode self = "bitrate")) as [E|_].
  - destruct (H E) as (k & -> & Hk).
    replace (k <=? 0) with false by (symmetry; apply Z.leb_gt; exact Hk).
    destruct (is_nvenc encoder); eexists; reflexivity.
  - destruct (is_nvenc encoder); [ eexists; reflexivity | ].
    destruct (decide (encoder = "libsvtav1")); eexists; reflexivity.
Qed.

Lemma sum_nonneg (l : list Z) : Forall (fun t => 0 <= t) l -> 0 <= foldr Z.add 0 l.
Proof. induction 1; simpl; lia. Qed.

Section CleanBatch.

Variables (self : ConversionThread) (encoder mapped_preset : string).
Variables (ffprobe : string -> result raw_info) (job : nat -> job_world).
Variables (durations : list Z) (T : Z).
Hypothesis Hdur : Forall (fun t => 0 <= t) durations.
Hypothesis HT : 1 <= T < 2 ^ 53.
Hypothesis Hrate :
  rate_mode self = "bitrate" -> exists k, bitrate_kbps self = Some k /\ 0 < k.

Lemma convert_clean (idx : nat) (file : string) (pinfo : ProbeInfo)
    (d : spec_float) (D t : Z) :
  nonneg d -> (F2Q d == inject_Z D)%Q -> 0 <= D ->
  durations !! idx = Some t -> D + t < 2 ^ 53 ->
  clean_job (job idx) ->
  exists sigs d' out_path,
    convert self encoder mapped_preset idx file pinfo durations T (job idx) d
    = (sigs, d', true)
    /\ resolved_out_path (job idx) = Ok out_path
    /\ nonneg d' /\ (F2Q d' == inject_Z (D + t))%Q
    /\ last (progress_values sigs) = Some (percent_model (inject_Z (D + t)) T)
    /\ completions sigs = [out_path].
Proof.
  intros Nd Vd HD Hl HS (_ & _ & (out_path & Ho) & Hno & Hin & Hra).
  assert (Ht : 0 <= t) by exact (Forall_lookup_1 _ _ _ _ Hdur Hl).
  unfold convert. rewrite Hl, Ho.
  destruct (rate_flags_ok self encoder Hrate) as (rate & Hr).
  destruct (build_cmd_ok self file pinfo out_path encoder mapped_preset rate Hr)
    as (cmd & ->).
  destruct (loop_clean idx (length (files self)) file d D t T (ffmpeg_items (job idx))
              Nd Vd HD Ht HS HT Hno Hin (-1)) as (sigs & -> & Hc).
  rewrite Hra.
  destruct (complete_correct file out_path d D t T Nd Vd HD Ht HS HT)
    as (d' & -> & Nd' & Vd').
  eexists _, d', out_path. split; [ reflexivity | ].
  repeat split; try assumption.
  - simpl. rewrite progress_values_app. simpl. rewrite last_app. reflexivity.
  - simpl. rewrite completions_app, Hc. reflexivity.
Qed.

Lemma probe_no_completion (c : gmap string ProbeInfo) (f : string) :
  completions (emitted (probe ffprobe c f)) = [].
Proof.
  unfold probe. destruct (c !! f); [ reflexivity | ].
  destruct (bind (ffprobe f) read_info); reflexivity.
Qed.

Lemma run_files_clean (fs : list string) : forall (idx : nat)
    (c : gmap string ProbeInfo) (d : spec_float) (D : Z),
  nonneg d -> (F2Q d == inject_Z D)%Q -> 0 <= D ->
  length durations = (idx + length fs)%nat ->
  D + foldr Z.add 0 (drop idx durations) < 2 ^ 53 ->
  (forall i, (i < length durations)%nat -> clean_job (job i)) ->
  let sigs := run_files self encoder mapped_preset ffprobe job durations T idx fs c d in
  (fs <> [] ->
   last (progress_values sigs)
   = Some (percent_model (inject_Z (D + foldr Z.add 0 (drop idx durations))) T))
  /\ Forall2 (fun i p => resolved_out_path (job i) = Ok p)
       (seq idx (length fs)) (completions sigs).
Proof.
  induction fs as [|file rest IH]; intros idx c d D Nd Vd HD Hlen Hsum Hjobs; simpl.
  - split; [ congruence | constructor ].
  - destruct (lookup_lt_is_Some_2 durations idx ltac:(simpl in Hlen; lia)) as [t Hl].
    pose proof (drop_S _ _ _ Hl) as Hdrop. rewrite Hdrop in Hsum |- *. simpl in Hsum |- *.
    assert (Ht : 0 <= t) by exact (Forall_lookup_1 _ _ _ _ Hdur Hl).
    assert (Hrest : 0 <= foldr Z.add 0 (drop (S idx) durations)).
    { apply sum_nonneg, Forall_drop. exact Hdur. }
    pose proof (Hjobs idx ltac:(simpl in Hlen; lia)) as Hj.
    destruct Hj as (Hs & He & Hj'). rewrite Hs, He. simpl.
    destruct (convert_clean idx file (info (probe ffprobe c file)) d D t
                Nd Vd HD Hl ltac:(lia) (conj Hs (conj He Hj')))
      as (sigs & d' & out_path & -> & Ho & Nd' & Vd' & Hlast & Hc).
    specialize (IH (S idx) (cache (probe ffprobe c file)) d' (D + t) Nd' Vd'
                  ltac:(lia) ltac:(simpl in Hlen; lia) ltac:(lia) Hjobs).
    simpl in IH. destruct IH as [IH1 IH2].
    rewrite !progress_values_app, !completions_app, probe_no_progress,
      probe_no_completion, Hc. simpl. split.
    + intros _. destruct rest as [|file' rest'].
      * simpl. rewrite app_nil_r, Hlast.
        rewrite drop_ge by (simpl in Hlen; lia). simpl. do 3 f_equal. lia.
      * specialize (IH1 ltac:(discriminate)). rewrite Z.add_assoc, last_app, IH1.
        reflexivity.
    + constructor; [ exact Ho | exact IH2 ].
Qed.

End CleanBatch.

Lemma build_totals_no_completion self ffprobe (fs : list string) : forall c,
  completions (build_totals self ffprobe fs c).1.1 = [].
Proof.
  induction fs as [|f rest IH]; intros c; simpl; [ reflexivity | ].
  destruct (target_duration self f _) as [dur|]; simpl;
    [ | apply probe_no_completion ].
  specialize (IH (cache (probe ffprobe c f))).
  destruct (build_totals self ffprobe rest _) as [[sigs' ds] c'']. simpl in *.
  rewrite completions_app, probe_no_completion, IH. reflexivity.
Qed.

(** The signals of a run whose first loop raised nothing. *)
Lemma run_signals (self : ConversionThread) (w : world) (durations : list Z) :
  run_durations self w = Ok durations ->
  run self w =
    [log_message (SelectedEncoder (run_encoder self w)) "black";
     log_message (UsingPreset (run_preset self w) (preset self)) "black"]
    ++ (build_totals self (ffprobe w) (files self) ∅).1.1
    ++ run_files self (run_encoder self w) (run_preset self w) (ffprobe w) (job w)
         durations (total_of durations) 0 (files self)
         (build_totals self (ffprobe w) (files self) ∅).2 F64.zero
    ++ [finished].
Proof.
  unfold run, run_durations, run_encoder, run_preset.
  destruct (build_totals self (ffprobe w) (files self) ∅) as [[sigs ds] c].
  simpl. intros ->. reflexivity.
Qed.

(** X8. A batch in which nothing goes wrong ends at 100: when the target
    durations are not negative and their sum is positive and below 2^53,
    every file exists, is converted without interruption or exception
    with progress values within 0..100, and the rate settings are valid,
    the last value emitted is 100, every file is reported completed, in
    the order of the batch, and [finished] is the last signal. *)
Theorem clean_batch_reaches_100 (self : ConversionThread) (w : world)
    (durations : list Z) :
  run_durations self w = Ok durations ->
  Forall (fun t => 0 <= t) durations ->
  0 < foldr Z.add 0 durations < 2 ^ 53 ->
  (rate_mode self = "bitrate" -> exists k, bitrate_kbps self = Some k /\ 0 < k) ->
  (forall i, (i < length (files self))%nat -> clean_job (job w i)) ->
  last (progress_values (run self w)) = Some 100
  /\ Forall2 (fun i p => resolved_out_path (job w i) = Ok p)
       (seq 0 (length (files self))) (completions (run self w))
  /\ last (run self w) = Some finished.
Proof.
  intros Hd Hpos Hsum Hrate Hjobs.
  pose proof (run_durations_length self w durations Hd) as Hlen.
  destruct zero_done as [N0 V0].
  assert (HT : total_of durations = foldr Z.add 0 durations).
  { unfold total_of. destruct (Z.eqb_spec (foldr Z.add 0 durations) 0); lia. }
  assert (Hne : files self <> []).
  { intros E. rewrite E in Hlen. destruct durations; [ simpl in Hsum; lia | discriminate ]. }
  destruct (run_files_clean self (run_encoder self w) (run_preset self w) (ffprobe w)
              (job w) durations (total_of durations) Hpos ltac:(lia) Hrate
              (files self) 0%nat (build_totals self (ffprobe w) (files self) ∅).2
              F64.zero 0 N0 V0 ltac:(lia) ltac:(simpl; lia)
              ltac:(rewrite drop_0; lia) ltac:(rewrite Hlen; exact Hjobs))
    as [H1 H2].
  specialize (H1 Hne). rewrite drop_0, Z.add_0_l, <- HT in H1.
  rewrite percent_model_full in H1 by lia.
  rewrite run_values, Hd. split; [ exact H1 | ].
  rewrite (run_signals self w durations Hd). split.
  - rewrite !completions_app, build_totals_no_completion. simpl.
    rewrite app_nil_r. exact H2.
  - rewrite !app_assoc, last_snoc. reflexivity.
Qed.

Lemma in_range_0_50_100 :
  Forall in_range (samples [Yields (PyInt 0); Yields (PyInt 50); Yields (PyInt 100)]).
Proof. exact (in_range_of_nondecreasing _ _ samples_0_50_100). Qed.

Lemma clean_batch_reaches_100_witness :
  last (progress_values (run two_files clean_world)) = Some 100
  /\ Forall2 (fun i p => resolved_out_path (job clean_world i) = Ok p)
       (seq 0 (length (files two_files))) (completions (run two_files clean_world))
  /\ last (run two_files clean_world) = Some finished.
Proof.
  apply (clean_batch_reaches_100 two_files clean_world [100; 50]).
  - vm_compute. reflexivity.
  - repeat constructor; lia.
  - vm_compute. split; reflexivity.
  - intros _. exists 2000. split; [ reflexivity | lia ].
  - intros i _. repeat split.
    + eexists. reflexivity.
    + simpl. in_list.
    + exact in_range_0_50_100.
Defined.

(** *** A batch without known durations *)

Lemma overall_int_zero (d p : spec_float) (v : Z) :
  F64.is_zero d = true -> overall_int d p 0 1 = Ok v -> v = 0.
Proof.
  intros Hd. unfold overall_int, F64.truediv.
  change (F64.is_zero (F64.of_Z 100)) with false. cbv iota. rewrite bind_ok.
  change (F64.of_int 0) with (Ok (S754_zero false)). rewrite bind_ok.
  generalize (SFdiv F64.prec F64.emax p (F64.of_Z 100)). intros x.
  unfold percent_of, F64.truediv.
  change (F64.of_int 1) with (Ok (F64.of_Z 1)). rewrite bind_ok.
  change (F64.is_zero (F64.of_Z 1)) with false. cbv iota. rewrite bind_ok.
  destruct d as [sd|sd| |sd md ed]; try discriminate Hd.
  destruct x as [sx|sx| |sx mx ex]; destruct sd; try destruct sx;
    vm_compute; congruence.
Qed.

Lemma complete_zero (file out_path : string) (d : spec_float) :
  F64.is_zero d = true ->
  F64.is_zero (complete file out_path d 0 1).2 = true
  /\ Forall (fun v => v = 0) (progress_values (complete file out_path d 0 1).1).
Proof.
  intros Hd. destruct d as [sd|sd| |sd md ed]; try discriminate Hd.
  destruct sd; vm_compute; repeat constructor.
Qed.

Lemma progress_loop_zero (idx n : nat) (file : string) (d : spec_float)
    (items : list ff_item) : forall (running : bool) (last_pct : Z),
  F64.is_zero d = true ->
  Forall (fun v => v = 0)
    (progress_values (progress_loop idx n file d 0 1 running last_pct items).1.1).
Proof.
  induction items as [|[pct|] rest IH]; intros running last_pct Hd; simpl.
  - constructor.
  - destruct running; simpl; [ | constructor ].
    destruct (overall_int d _ 0 1) as [overall|e] eqn:E; simpl; [ | constructor ].
    apply overall_int_zero in E; [ | exact Hd ].
    destruct (overall =? last_pct); [ apply IH; exact Hd | ].
    destruct (F64.to_int _) as [p|e]; simpl; [ | constructor; [ exact E | constructor ] ].
    specialize (IH true overall Hd).
    destruct (progress_loop idx n file d 0 1 true overall rest) as [[sigs r] x].
    simpl in *. constructor; assumption.
  - apply IH. exact Hd.
Qed.

Lemma convert_zero self encoder mapped_preset idx file pinfo durations w d :
  Forall (fun t => t = 0) durations -> F64.is_zero d = true ->
  let r := convert self encoder mapped_preset idx file pinfo durations 1 w d in
  F64.is_zero r.1.2 = true /\ Forall (fun v => v = 0) (progress_values r.1.1).
Proof.
  intros Hz Hd. unfold convert. destruct (durations !! idx) as [t|] eqn:Hl; simpl;
    [ | split; [ exact Hd | constructor ] ].
  assert (t = 0) as -> by exact (Forall_lookup_1 _ _ _ _ Hz Hl).
  destruct (resolved_out_path w) as [out_path|]; simpl; [ | split; [ exact Hd | constructor ] ].
  destruct (build_cmd _ _ _ _ _ _) as [cmd|]; simpl; [ | split; [ exact Hd | constructor ] ].
  pose proof (progress_loop_zero idx (length (files self)) file d
                (ffmpeg_items w) true (-1) Hd) as L.
  destruct (progress_loop _ _ _ _ _ _ _ _ _) as [[sigs running] exit]. simpl in L.
  destruct exit as [| |e]; simpl.
  - destruct (ffmpeg_raises w).
    + simpl. rewrite progress_values_app. split; [ exact Hd | ].
      apply Forall_app. split; [ exact L | constructor ].
    + destruct running; simpl; [ | split; assumption ].
      destruct (complete_zero file out_path d Hd) as [C1 C2].
      destruct (complete file out_path d 0 1) as [csigs d']. simpl in *.
      rewrite progress_values_app. split; [ exact C1 | ].
      apply Forall_app. split; assumption.
  - split; assumption.
  - rewrite progress_values_app. split; [ exact Hd | ].
    apply Forall_app. split; [ exact L | constructor ].
Qed.

Lemma run_files_zero self encoder mapped_preset ffprobe job durations
    (fs : list string) : forall idx c d,
  Forall (fun t => t = 0) durations -> F64.is_zero d = true ->
  Forall (fun v => v = 0)
    (progress_values
       (run_files self encoder mapped_preset ffprobe job durations 1 idx fs c d)).
Proof.
  induction fs as [|file rest IH]; intros idx c d Hz Hd; simpl; [ constructor | ].
  destruct (stop_before (job idx)); [ constructor | ].
  destruct (file_exists (job idx)); simpl; [ | apply IH; assumption ].
  pose proof (convert_zero self encoder mapped_preset idx file
                (info (probe ffprobe c file)) durations (job idx) d Hz Hd) as C.
  destruct (convert _ _ _ _ _ _ _ _ _ _) as [[sigs d'] running]. simpl in C.
  destruct C as [C1 C2].
  rewrite !progress_values_app, probe_no_progress. simpl.
  apply Forall_app. split; [ exact C2 | ].
  destruct running; [ apply IH; assumption | constructor ].
Qed.

(** X9. When every target duration is 0 (the probes failed, or reported
    no duration), the total is replaced by 1 and every value the run
    emits is 0, whatever the generators yield and also when files
    complete. *)
Theorem unknown_durations_stay_at_0 (self : ConversionThread) (w : world)
    (durations : list Z) :
  run_durations self w = Ok durations ->
  Forall (fun t => t = 0) durations ->
  total_of durations = 1
  /\ Forall (fun v => v = 0) (progress_values (run self w)).
Proof.
  intros Hd Hz.
  assert (HT : total_of durations = 1).
  { unfold total_of. assert (E : foldr Z.add 0 durations = 0).
    { clear Hd. induction Hz; simpl; lia. }
    rewrite E. reflexivity. }
  split; [ exact HT | ].
  rewrite run_values, Hd, HT. apply run_files_zero; [ exact Hz | reflexivity ].
Qed.

Lemma unknown_durations_stay_at_0_witness :
  total_of [0; 0] = 1
  /\ Forall (fun v => v = 0) (progress_values (run two_files unprobed_world)).
Proof.
  apply (unknown_durations_stay_at_0 two_files unprobed_world [0; 0]).
  - vm_compute. reflexivity.
  - repeat constructor.
Defined.

Example unprobed_run :
  progress_values (run two_files unprobed_world) = [0; 0; 0; 0]
  /\ completions (run two_files unprobed_world) = ["out/a_converted.mp4"; "out/b_converted.mp4"].
Proof. split; vm_compute; reflexivity. Qed.

(** *** The first loop and the [finished] signal *)

Lemma first_probe_eq ffprobe (f : string) :
  first_probe ffprobe f
  = match bind (ffprobe f) read_info with Ok pi => pi | Raise _ => sentinel end.
Proof.
  unfold first_probe, probe. rewrite lookup_empty.
  destruct (bind (ffprobe f) read_info); reflexivity.
Qed.

Lemma probe_miss ffprobe (c : gmap string ProbeInfo) (f : string) :
  c !! f = None ->
  info (probe ffprobe c f) = first_probe ffprobe f
  /\ cache (probe ffprobe c f) = <[f := first_probe ffprobe f]> c.
Proof.
  intros H. rewrite first_probe_eq. unfold probe. rewrite H.
  destruct (bind (ffprobe f) read_info); split; reflexivity.
Qed.

(** The entries of the cache are what a first probe answers. *)
Lemma probe_sound ffprobe (c : gmap string ProbeInfo) (f : string) :
  (forall g pi, c !! g = Some pi -> pi = first_probe ffprobe g) ->
  info (probe ffprobe c f) = first_probe ffprobe f
  /\ (forall g pi, cache (probe ffprobe c f) !! g = Some pi -> pi = first_probe ffprobe g).
Proof.
  intros Hc. destruct (c !! f) as [pf|] eqn:E.
  - rewrite (probe_cached ffprobe c f pf E). simpl.
    split; [ apply Hc; exact E | exact Hc ].
  - destruct (probe_miss ffprobe c f E) as [-> ->]. split; [ reflexivity | ].
    intros g pg. destruct (decide (f = g)) as [<-|Hne].
    + rewrite lookup_insert_eq. congruence.
    + rewrite lookup_insert_ne by exact Hne. apply Hc.
Qed.

Lemma build_totals_each self ffprobe (fs : list string) : forall c,
  (forall g pi, c !! g = Some pi -> pi = first_probe ffprobe g) ->
  (build_totals self ffprobe fs c).1.2
  = each_ok (map (fun f => target_duration self f (first_probe ffprobe f)) fs).
Proof.
  induction fs as [|f rest IH]; intros c Hc; simpl; [ reflexivity | ].
  destruct (probe_sound ffprobe c f Hc) as [E Hc']. rewrite E.
  destruct (target_duration self f (first_probe ffprobe f)) as [dur|e]; simpl;
    [ | reflexivity ].
  specialize (IH _ Hc').
  destruct (build_totals self ffprobe rest _) as [[sigs ds] c'']. simpl in *.
  rewrite IH. reflexivity.
Qed.

(** X10. The list of target durations does not depend on the order or
    the repetition of the files: each entry is computed from what a
    first probe of that file answers. A file with a crop never makes the
    first loop raise; one without raises exactly when the probed
    duration is infinite or not a number. *)
Theorem run_durations_per_file (self : ConversionThread) (w : world) :
  run_durations self w
  = each_ok (map (fun f => target_duration self f (first_probe (ffprobe w) f))
               (files self))
  /\ (forall f p,
        (exists e, target_duration self f p = Raise e)
        <-> crop_settings self !! f = None
            /\ (duration p = S754_nan \/ exists s, duration p = S754_infinity s)).
Proof.
  split.
  - unfold run_durations. apply build_totals_each. intros g pi H.
    rewrite lookup_empty in H. discriminate H.
  - intros f p. unfold target_duration.
    destruct (crop_settings self !! f) as [[s e]|].
    + split; [ intros [x H]; discriminate H | intros [H _]; discriminate H ].
    + destruct (duration p) as [sg|sg| |sg m e]; simpl; split;
        try (intros [x H]; discriminate H);
        try (intros [_ [H|[x H]]]; discriminate H);
        intros _; eauto.
Qed.

Lemma progress_loop_unfinished (idx n : nat) (file : string) (d : spec_float) (t T : Z)
    (items : list ff_item) : forall (running : bool) (last_pct : Z),
  Forall (fun s => s <> finished)
    (progress_loop idx n file d t T running last_pct items).1.1.
Proof.
  induction items as [|[pct|] rest IH]; intros running last_pct; simpl.
  - constructor.
  - destruct running; simpl; [ | constructor ].
    destruct (overall_int d _ t T) as [overall|e]; simpl; [ | constructor ].
    destruct (overall =? last_pct); [ apply IH | ].
    destruct (F64.to_int _) as [p|e]; simpl; [ | repeat constructor; discriminate ].
    specialize (IH true overall).
    destruct (progress_loop idx n file d t T true overall rest) as [[sigs r] x].
    simpl in *. repeat (constructor; [ discriminate | ]). exact IH.
  - apply IH.
Qed.

Lemma convert_unfinished self encoder mapped_preset idx file pinfo durations T w d :
  Forall (fun s => s <> finished)
    (convert self encoder mapped_preset idx file pinfo durations T w d).1.1.
Proof.
  unfold convert. destruct (durations !! idx) as [t|]; simpl;
    [ | repeat constructor; discriminate ].
  destruct (resolved_out_path w) as [out_path|]; simpl;
    [ | repeat constructor; discriminate ].
  destruct (build_cmd _ _ _ _ _ _) as [cmd|]; simpl;
    [ | repeat constructor; discriminate ].
  pose proof (progress_loop_unfinished idx (length (files self)) file d t T
                (ffmpeg_items w) true (-1)) as L.
  destruct (progress_loop _ _ _ _ _ _ _ _ _) as [[sigs running] exit]. simpl in L.
  assert (C : Forall (fun s => s <> finished) (complete file out_path d t T).1).
  { unfold complete. destruct (F64.of_int t); simpl; [ | repeat constructor; discriminate ].
    destruct (percent_of _ T); simpl; repeat constructor; discriminate. }
  destruct exit as [| |e]; simpl.
  - destruct (ffmpeg_raises w); simpl.
    + constructor; [ discriminate | ]. apply Forall_app. split; [ exact L | ].
      repeat constructor; discriminate.
    + destruct running; simpl; [ | constructor; [ discriminate | exact L ] ].
      destruct (complete file out_path d t T) as [csigs d']. simpl in *.
      constructor; [ discriminate | ]. apply Forall_app. split; assumption.
  - constructor; [ discriminate | exact L ].
  - constructor; [ discriminate | ]. apply Forall_app. split; [ exact L | ].
    repeat constructor; discriminate.
Qed.

Lemma probe_prelude ffprobe (c : gmap string ProbeInfo) (f : string) :
  Forall (fun s => is_prelude s = true) (emitted (probe ffprobe c f)).
Proof.
  unfold probe. destruct (c !! f); [ constructor | ].
  destruct (bind (ffprobe f) read_info); repeat constructor.
Qed.

Lemma prelude_unfinished (sigs : list signal) :
  Forall (fun s => is_prelude s = true) sigs -> Forall (fun s => s <> finished) sigs.
Proof.
  intros H. eapply Forall_impl; [ exact H | ]. simpl. intros s Hs ->. discriminate Hs.
Qed.

Lemma run_files_unfinished self encoder mapped_preset ffprobe job durations T
    (fs : list string) : forall idx c d,
  Forall (fun s => s <> finished)
    (run_files self encoder mapped_preset ffprobe job durations T idx fs c d).
Proof.
  induction fs as [|file rest IH]; intros idx c d; simpl; [ constructor | ].
  destruct (stop_before (job idx)); [ constructor | ].
  destruct (file_exists (job idx)); simpl; [ | constructor; [ discriminate | apply IH ] ].
  pose proof (convert_unfinished self encoder mapped_preset idx file
                (info (probe ffprobe c file)) durations T (job idx) d) as C.
  destruct (convert _ _ _ _ _ _ _ _ _ _) as [[sigs d'] running]. simpl in C.
  apply Forall_app. split; [ apply prelude_unfinished, probe_prelude | ].
  apply Forall_app. split; [ exact C | ].
  destruct running; [ apply IH | constructor ].
Qed.

Lemma build_totals_prelude self ffprobe (fs : list string) : forall c,
  Forall (fun s => is_prelude s = true) (build_totals self ffprobe fs c).1.1.
Proof.
  induction fs as [|f rest IH]; intros c; simpl; [ constructor | ].
  destruct (target_duration self f _) as [dur|]; simpl; [ | apply probe_prelude ].
  specialize (IH (cache (probe ffprobe c f))).
  destruct (build_totals self ffprobe rest _) as [[sigs' ds] c'']. simpl in *.
  apply Forall_app. split; [ apply probe_prelude | exact IH ].
Qed.

(** X11. [finished] is emitted exactly once, as the last signal, when the
    first loop raises nothing. When the first loop raises, the run emits
    the two lines about the encoder and the preset and the lines of
    failed probes, and nothing else: no file is converted and [finished]
    is never emitted. *)
Theorem finished_last_or_never (self : ConversionThread) (w : world) :
  (forall durations, run_durations self w = Ok durations ->
     exists sigs, run self w = sigs ++ [finished]
                  /\ Forall (fun s => s <> finished) sigs)
  /\ (forall e, run_durations self w = Raise e ->
        Forall (fun s => is_prelude s = true) (run self w)).
Proof.
  split.
  - intros durations Hd. rewrite (run_signals self w durations Hd).
    eexists. rewrite !app_assoc. split; [ reflexivity | ].
    rewrite <- !app_assoc. apply Forall_app. split; [ repeat constructor; discriminate | ].
    apply Forall_app. split; [ apply prelude_unfinished, build_totals_prelude | ].
    apply run_files_unfinished.
  - intros e. unfold run, run_durations.
    pose proof (build_totals_prelude self (ffprobe w) (files self) ∅) as P.
    destruct (build_totals self (ffprobe w) (files self) ∅) as [[sigs ds] c].
    simpl in *. intros ->. repeat (constructor; [ reflexivity | ]). exact P.
Qed.

Example endless_run :
  run_durations two_files endless_world = Raise OverflowError
  /\ run two_files endless_world =
       [log_message (SelectedEncoder "libaom-av1") "black";
        log_message (UsingPreset "medium" "medium") "black"].
Proof. split; vm_compute; reflexivity. Qed.

(** *** Cancellation *)

Lemma progress_loop_stopped (idx n : nat) (file : string) (d : spec_float) (t T : Z)
    (items : list ff_item) : forall (running : bool) (last_pct : Z),
  let r := progress_loop idx n file d t T running last_pct items in
  completions r.1.1 = []
  /\ (r.1.2 = false -> running = false \/ StopCalled ∈ items).
Proof.
  induction items as [|[pct|] rest IH]; intros running last_pct; simpl.
  - split; [ reflexivity | intros H; left; exact H ].
  - destruct running; simpl; [ | split; [ reflexivity | intros _; left; reflexivity ] ].
    destruct (overall_int d _ t T) as [overall|e]; simpl;
      [ | split; [ reflexivity | discriminate ] ].
    destruct (overall =? last_pct).
    { destruct (IH true last_pct) as [I1 I2]. split; [ exact I1 | ].
      intros H. destruct (I2 H) as [H'|H']; [ discriminate H' | ].
      right. right. exact H'. }
    destruct (F64.to_int _) as [p|e]; simpl; [ | split; [ reflexivity | discriminate ] ].
    destruct (IH true overall) as [I1 I2].
    destruct (progress_loop idx n file d t T true overall rest) as [[sigs r] x].
    simpl in *. split; [ exact I1 | ].
    intros H. destruct (I2 H) as [H'|H']; [ discriminate H' | ].
    right. right. exact H'.
  - destruct (IH false last_pct) as [I1 I2]. split; [ exact I1 | ].
    intros _. right. left.
Qed.

(** X12. A file whose conversion is left with [_is_running] false has
    met a call of [stop] while its generator ran; it is not reported
    completed, the counter of completed seconds is what it was, and the
    batch loop ends with it. *)
Theorem cancelled_file_not_completed (self : ConversionThread)
    (encoder mapped_preset : string) (ffprobe : string -> result raw_info)
    (job : nat -> job_world) (durations : list Z) (T : Z) (idx : nat)
    (file : string) (rest : list string) (c : gmap string ProbeInfo)
    (d : spec_float) :
  let p := probe ffprobe c file in
  let r := convert self encoder mapped_preset idx file (info p) durations T (job idx) d in
  r.2 = false ->
  StopCalled ∈ ffmpeg_items (job idx)
  /\ completions r.1.1 = []
  /\ r.1.2 = d
  /\ (stop_before (job idx) = false -> file_exists (job idx) = true ->
      run_files self encoder mapped_preset ffprobe job durations T idx (file :: rest) c d
      = emitted p ++ r.1.1).
Proof.
  intros p r Hr.
  assert (H : StopCalled ∈ ffmpeg_items (job idx) /\ completions r.1.1 = [] /\ r.1.2 = d).
  { subst r. revert Hr. unfold convert.
    destruct (durations !! idx) as [t|]; simpl; [ | discriminate ].
    destruct (resolved_out_path (job idx)) as [out_path|]; simpl; [ | discriminate ].
    destruct (build_cmd _ _ _ _ _ _) as [cmd|]; simpl; [ | discriminate ].
    destruct (progress_loop_stopped idx (length (files self)) file d t T
                (ffmpeg_items (job idx)) true (-1)) as [L1 L2].
    destruct (progress_loop _ _ _ _ _ _ _ _ _) as [[sigs running] exit].
    simpl in L1, L2.
    destruct exit as [| |e]; simpl.
    - destruct (ffmpeg_raises (job idx)); simpl.
      + intros ->. rewrite completions_app, L1.
        destruct (L2 eq_refl) as [H|H]; [ discriminate H | ]. repeat split. exact H.
      + destruct running; simpl.
        * destruct (complete file out_path d t T). simpl. discriminate.
        * intros _. destruct (L2 eq_refl) as [H|H]; [ discriminate H | ].
          repeat split; assumption.
    - intros ->. destruct (L2 eq_refl) as [H|H]; [ discriminate H | ].
      repeat split; assumption.
    - intros ->. rewrite completions_app, L1.
      destruct (L2 eq_refl) as [H|H]; [ discriminate H | ]. repeat split. exact H. }
  destruct H as (H1 & H2 & H3). repeat split; try assumption.
  intros Hs He. simpl. rewrite Hs, He. simpl. fold p. fold r.
  destruct r as [[sigs d'] running]. simpl in Hr. subst running.
  simpl. rewrite app_nil_r. reflexivity.
Qed.

Lemma cancelled_file_not_completed_witness :
  StopCalled ∈ ffmpeg_items (job cancelled_world 0)
  /\ completions
       (convert two_files "libaom-av1" "medium" 0 "a.mp4"
          (info (probe two_probes ∅ "a.mp4")) [100; 50] 150 (job cancelled_world 0)
          F64.zero).1.1 = []
  /\ (convert two_files "libaom-av1" "medium" 0 "a.mp4"
        (info (probe two_probes ∅ "a.mp4")) [100; 50] 150 (job cancelled_world 0)
        F64.zero).1.2 = F64.zero
  /\ (stop_before (job cancelled_world 0) = false ->
      file_exists (job cancelled_world 0) = true ->
      run_files two_files "libaom-av1" "medium" two_probes (job cancelled_world)
        [100; 50] 150 0 ("a.mp4" :: ["b.mp4"]) ∅ F64.zero
      = emitted (probe two_probes ∅ "a.mp4")
        ++ (convert two_files "libaom-av1" "medium" 0 "a.mp4"
              (info (probe two_probes ∅ "a.mp4")) [100; 50] 150 (job cancelled_world 0)
              F64.zero).1.1).
Proof.
  apply (cancelled_file_not_completed two_files "libaom-av1" "medium" two_probes
           (job cancelled_world) [100; 50] 150 0 "a.mp4" ["b.mp4"] ∅ F64.zero).
  vm_compute. reflexivity.
Defined.

Example cancelled_run :
  run two_files cancelled_world =
    [log_message (SelectedEncoder "libaom-av1") "black";
     log_message (UsingPreset "medium" "medium") "black";
     log_message (Converting "a.mp4" "out/a_converted.mp4" "AV1" false "libaom-av1") "black";
     progress_updated 0; per_file_label 1 2 "a.mp4" 0;
     progress_updated 33; per_file_label 1 2 "a.mp4" 50;
     finished].
Proof. vm_compute. reflexivity. Qed.

(** *** Repeated values *)

Lemma no_repeat_tail (a : Z) (l : list Z) : no_repeat (a :: l) -> no_repeat l.
Proof. destruct l; simpl; tauto. Qed.

(** X13. While one file is converted, a value is emitted only when it
    differs from the one emitted before it (and from [last_pct] at the
    start), so the loop never emits the same percentage twice in a row. *)
Theorem progress_loop_no_repeat (idx n : nat) (file : string) (d : spec_float)
    (t T : Z) (items : list ff_item) (running : bool) (last_pct : Z) :
  no_repeat
    (last_pct
     :: progress_values (progress_loop idx n file d t T running last_pct items).1.1).
Proof.
  revert running last_pct.
  induction items as [|[pct|] rest IH]; intros running last_pct; simpl.
  - exact I.
  - destruct running; simpl; [ | exact I ].
    destruct (overall_int d _ t T) as [overall|e]; simpl; [ | exact I ].
    destruct (Z.eqb_spec overall last_pct) as [E|E]; [ apply IH | ].
    destruct (F64.to_int _) as [p|e]; simpl; [ | split; [ congruence | exact I ] ].
    specialize (IH true overall).
    destruct (progress_loop idx n file d t T true overall rest) as [[sigs r] x].
    simpl in *. split; [ congruence | exact IH ].
  - apply IH.
Qed.

(** ** The list widget *)

Lemma lower_app (a b : string) : lower (a +:+ b) = lower a +:+ lower b.
Proof. induction a as [|c a IH]; [ reflexivity | ]. simpl. rewrite IH. reflexivity. Qed.

Lemma lower_upper_ascii (c : ascii) : lower_ascii (upper_ascii c) = lower_ascii c.
Proof. destruct c as [[] [] [] [] [] [] [] []]; vm_compute; reflexivity. Qed.

Lemma lower_lower_ascii (c : ascii) : lower_ascii (lower_ascii c) = lower_ascii c.
Proof. destruct c as [[] [] [] [] [] [] [] []]; vm_compute; reflexivity. Qed.

Lemma lower_upper (s : string) : lower (upper s) = lower s.
Proof.
  induction s as [|c s IH]; [ reflexivity | ]. simpl. rewrite IH, lower_upper_ascii.
  reflexivity.
Qed.

Lemma lower_lower (s : string) : lower (lower s) = lower s.
Proof.
  induction s as [|c s IH]; [ reflexivity | ]. simpl. rewrite IH, lower_lower_ascii.
  reflexivity.
Qed.

Lemma endswith_cons (c : ascii) (r suffix : string) :
  endswith (String c r) suffix
  = if String.eqb (String c r) suffix then true else endswith r suffix.
Proof. reflexivity. Qed.

Lemma endswith_refl (s : string) : endswith s s = true.
Proof. destruct s; [ reflexivity | ]. rewrite endswith_cons, String.eqb_refl. reflexivity. Qed.

Lemma endswith_app (a b : string) : endswith (a +:+ b) b = true.
Proof.
  induction a as [|c a IH]; [ apply endswith_refl | ].
  change (String c a +:+ b) with (String c (a +:+ b)).
  rewrite endswith_cons, IH. destruct (String.eqb _ b); reflexivity.
Qed.

Lemma endswith_lower (s e : string) :
  endswith (lower s) e = true -> exists stem ext, s = stem +:+ ext /\ lower ext = e.
Proof.
  induction s as [|c s IH].
  - simpl. destruct e; [ | discriminate ]. intros _. exists "", "". split; reflexivity.
  - change (lower (String c s)) with (String (lower_ascii c) (lower s)).
    rewrite endswith_cons.
    destruct (String.eqb_spec (String (lower_ascii c) (lower s)) e) as [E|_].
    + intros _. exists "", (String c s). split; [ reflexivity | exact E ].
    + intros H. destruct (IH H) as (stem & ext & -> & E).
      exists (String c stem), ext. split; [ reflexivity | exact E ].
Qed.

Lemma lower_length (s : string) : String.length (lower s) = String.length s.
Proof. induction s as [|c s IH]; [ reflexivity | ]. simpl. rewrite IH. reflexivity. Qed.

Lemma is_video_file_iff (s : string) :
  is_video_file s = true
  <-> exists stem ext, s = stem +:+ ext /\ lower ext ∈ valid_extensions.
Proof.
  unfold is_video_file. rewrite existsb_exists. split.
  - intros (e & He & H). destruct (endswith_lower s e H) as (stem & ext & -> & <-).
    exists stem, ext. split; [ reflexivity | ]. apply list_elem_of_In. exact He.
  - intros (stem & ext & -> & H). exists (lower ext).
    split; [ apply list_elem_of_In; exact H | ].
    rewrite lower_app. apply endswith_app.
Qed.

(** X14. A path of ASCII characters counts as a video file exactly when
    it ends in one of the four extensions, in any mix of upper and lower
    case; so it has at least four characters, and changing the case of
    the path changes nothing. *)
Theorem is_video_file_extension (s : string) :
  is_ascii s ->
  (is_video_file s = true
   <-> exists stem ext, s = stem +:+ ext
                        /\ lower ext ∈ [".mp4"; ".mkv"; ".avi"; ".mov"])
  /\ is_video_file (upper s) = is_video_file s
  /\ is_video_file (lower s) = is_video_file s
  /\ (is_video_file s = true -> (4 <= String.length s)%nat).
Proof.
  intros _.
  split; [ apply is_video_file_iff | ].
  split; [ unfold is_video_file; rewrite lower_upper; reflexivity | ].
  split; [ unfold is_video_file; rewrite lower_lower; reflexivity | ].
  intros H. apply is_video_file_iff in H as (stem & ext & -> & H).
  rewrite length_app, <- (lower_length ext).
  unfold valid_extensions in H. in_cmd H; rewrite H; simpl; lia.
Qed.

Lemma is_video_file_extension_witness :
  is_video_file "/v/Clip.MKV" = true
  /\ is_video_file (upper "/v/Clip.MKV") = is_video_file "/v/Clip.MKV"
  /\ is_video_file (lower "/v/Clip.MKV") = is_video_file "/v/Clip.MKV".
Proof.
  split; [ reflexivity | ].
  destruct (is_video_file_extension "/v/Clip.MKV") as (_ & H1 & H2 & _).
  - repeat constructor.
  - split; assumption.
Defined.

(** ** The file list of the window *)

Lemma update_estimate_files (self : App.VideoConverterApp) :
  App.files (App.update_estimate self) = App.files self
  /\ App.crop_settings (App.update_estimate self) = App.crop_settings self.
Proof.
  unfold App.update_estimate. destruct (App.files self) eqn:E; split; simpl; congruence.
Qed.

Lemma add_dropped_files_files (dropped : list string) (self : App.VideoConverterApp) :
  App.files (App.add_dropped_files dropped self).1
  = App.files self ++ filter (fun f => f ∉ App.files self) dropped
  /\ App.crop_settings (App.add_dropped_files dropped self).1 = App.crop_settings self.
Proof.
  unfold App.add_dropped_files. cbn [fst].
  rewrite (proj1 (update_estimate_files _)), (proj2 (update_estimate_files _)).
  split; reflexivity.
Qed.

Lemma filter_nil_iff {A : Type} (P : A -> Prop) `{forall x, Decision (P x)} (l : list A) :
  filter P l = [] <-> forall x, x ∈ l -> ~ P x.
Proof.
  split.
  - intros E x Hx Hp. exact (filter_nil_not_elem_of P l x E Hp Hx).
  - intros Hall. induction l as [|a l IH]; [ reflexivity | ].
    rewrite filter_cons. destruct (decide (P a)) as [Hp|_].
    + destruct (Hall a ltac:(left) Hp).
    + apply IH. intros x Hx. apply Hall. right. exact Hx.
Qed.

(** X15. Adding files keeps the files already listed where they are and
    appends, in their order, the added paths that were not listed; the
    crop ranges are not touched. When neither the list nor the added
    paths repeat a path, the new list repeats none. Adding the same
    paths again changes nothing, and a line is logged exactly when a
    path was new. *)
Theorem add_dropped_files_appends_new (dropped : list string)
    (self : App.VideoConverterApp) :
  let self' := (App.add_dropped_files dropped self).1 in
  (exists new_files,
     App.files self' = App.files self ++ new_files
     /\ new_files `sublist_of` dropped
     /\ forall f, f ∈ new_files <-> f ∈ dropped /\ f ∉ App.files self)
  /\ App.crop_settings self' = App.crop_settings self
  /\ (NoDup (App.files self) -> NoDup dropped -> NoDup (App.files self'))
  /\ App.files (App.add_dropped_files dropped self').1 = App.files self'
  /\ ((App.add_dropped_files dropped self).2 = []
      <-> forall f, f ∈ dropped -> f ∈ App.files self).
Proof.
  intros self'. subst self'.
  destruct (add_dropped_files_files dropped self) as [E1 E2].
  split; [ | split; [ exact E2 | split; [ | split ] ] ].
  - eexists. split; [ exact E1 | ]. split; [ apply sublist_filter | ].
    intros f. rewrite list_elem_of_filter. tauto.
  - intros N1 N2. rewrite E1. apply NoDup_app. split; [ exact N1 | ].
    split; [ | apply NoDup_filter; exact N2 ].
    intros f Hf Hn. apply list_elem_of_filter in Hn as [Hn _]. exact (Hn Hf).
  - destruct (add_dropped_files_files dropped (App.add_dropped_files dropped self).1)
      as [-> _].
    rewrite E1. set (l := App.files self ++ _).
    assert (E : filter (fun f => f ∉ l) dropped = []).
    { apply filter_nil_iff. intros f Hf Hn. apply Hn. subst l.
      destruct (decide (f ∈ App.files self)) as [Hi|Hi].
      - apply elem_of_app. left. exact Hi.
      - apply elem_of_app. right. apply list_elem_of_filter. split; assumption. }
    rewrite E. apply app_nil_r.
  - unfold App.add_dropped_files. cbn [snd].
    destruct (filter (fun f => f ∉ App.files self) dropped) as [|a l] eqn:E.
    + split; [ intros _ | reflexivity ].
      intros f Hf. destruct (decide (f ∈ App.files self)) as [Hi|Hi]; [ exact Hi | ].
      exfalso. exact (proj1 (filter_nil_iff _ _) E f Hf Hi).
    + split; [ discriminate | ]. intros Hall. exfalso.
      assert (Ha : a ∈ filter (fun f => f ∉ App.files self) dropped)
        by (rewrite E; left).
      apply list_elem_of_filter in Ha as [Hn Hd]. exact (Hn (Hall a Hd)).
Qed.

Lemma list_remove_absent (x : string) (l : list string) :
  x ∉ l -> App.list_remove x l = l.
Proof.
  induction l as [|y r IH]; intros H; simpl; [ reflexivity | ].
  destruct (decide (x = y)) as [->|_]; [ exfalso; apply H; left | ].
  rewrite IH; [ reflexivity | ]. intros Hr. apply H. right. exact Hr.
Qed.

Lemma list_remove_sublist (x : string) (l : list string) :
  App.list_remove x l `sublist_of` l.
Proof.
  induction l as [|y r IH]; simpl; [ constructor | ].
  destruct (decide (x = y)); [ apply sublist_cons; reflexivity | ].
  apply sublist_skip. exact IH.
Qed.

Lemma list_remove_other (x f : string) (l : list string) :
  f <> x -> (f ∈ App.list_remove x l <-> f ∈ l).
Proof.
  intros Hne. induction l as [|y r IH]; simpl; [ reflexivity | ].
  destruct (decide (x = y)) as [<-|_].
  - rewrite elem_of_cons. tauto.
  - rewrite !elem_of_cons, IH. reflexivity.
Qed.

Lemma list_remove_NoDup (x : string) (l : list string) :
  NoDup l -> App.list_remove x l = filter (fun f => f <> x) l.
Proof.
  induction 1 as [|y r Hy Hr IH]; simpl; [ reflexivity | ].
  rewrite filter_cons. destruct (decide (x = y)) as [<-|Hne].
  - destruct (decide (x <> x)) as [H|_]; [ congruence | ].
    symmetry. clear IH. induction r as [|z r IH]; [ reflexivity | ].
    rewrite filter_cons. destruct (decide (z <> x)) as [_|H].
    + f_equal. apply IH.
      * intros H. apply Hy. right. exact H.
      * inversion Hr; assumption.
    + exfalso. apply Hy. destruct (decide (z = x)) as [->|]; [ left | contradiction ].
  - destruct (decide (y <> x)) as [_|H]; [ | exfalso; apply H; congruence ].
    rewrite IH. reflexivity.
Qed.

Lemma remove_item_spec (self : App.VideoConverterApp) (file : string) :
  App.files (App.remove_item self file) = App.list_remove file (App.files self)
  /\ App.crop_settings (App.remove_item self file) = delete file (App.crop_settings self).
Proof.
  unfold App.remove_item. destruct (decide (file ∈ App.files self)) as [H|H]; simpl.
  - split; reflexivity.
  - rewrite (list_remove_absent _ _ H). split; reflexivity.
Qed.

Lemma remove_items_spec (selected : list string) : forall self : App.VideoConverterApp,
  App.files (foldl App.remove_item self selected)
  = foldl (fun l f => App.list_remove f l) (App.files self) selected
  /\ App.crop_settings (foldl App.remove_item self selected)
     = foldl (fun m f => delete f m) (App.crop_settings self) selected.
Proof.
  induction selected as [|f r IH]; intros self; simpl; [ split; reflexivity | ].
  destruct (IH (App.remove_item self f)) as [-> ->].
  destruct (remove_item_spec self f) as [-> ->]. split; reflexivity.
Qed.

Lemma delete_all_lookup (selected : list string) : forall (m : gmap string (Z * Z)) f,
  foldl (fun m f => delete f m) m selected !! f
  = if decide (f ∈ selected) then None else m !! f.
Proof.
  induction selected as [|g r IH]; intros m f; simpl.
  - destruct (decide (f ∈ [])) as [H|_]; [ | reflexivity ]. inversion H.
  - rewrite IH. destruct (decide (f ∈ r)) as [Hr|Hr].
    + rewrite decide_True by (right; exact Hr). reflexivity.
    + destruct (decide (f = g)) as [->|Hne].
      * rewrite decide_True by left. apply lookup_delete_eq.
      * rewrite decide_False by (rewrite elem_of_cons; tauto).
        apply lookup_delete_ne. congruence.
Qed.

Lemma remove_all_sublist (selected : list string) : forall l : list string,
  foldl (fun l f => App.list_remove f l) l selected `sublist_of` l.
Proof.
  induction selected as [|g r IH]; intros l; simpl; [ reflexivity | ].
  etransitivity; [ apply IH | apply list_remove_sublist ].
Qed.

Lemma remove_all_other (selected : list string) : forall (l : list string) f,
  f ∉ selected ->
  (f ∈ foldl (fun l f => App.list_remove f l) l selected <-> f ∈ l).
Proof.
  induction selected as [|g r IH]; intros l f H; simpl; [ reflexivity | ].
  rewrite IH by (intros Hr; apply H; right; exact Hr).
  apply list_remove_other. intros ->. apply H. left.
Qed.

Lemma remove_all_NoDup (selected : list string) : forall l : list string,
  NoDup l ->
  foldl (fun l f => App.list_remove f l) l selected = filter (fun f => f ∉ selected) l.
Proof.
  induction selected as [|g r IH]; intros l N; simpl.
  - symmetry. induction l as [|a l IHl]; [ reflexivity | ].
    rewrite filter_cons. destruct (decide (a ∉ [])) as [_|H].
    + f_equal. apply IHl. inversion N; assumption.
    + exfalso. apply H. intros Ha. inversion Ha.
  - rewrite IH by (eapply sublist_NoDup; [ exact N | apply list_remove_sublist ]).
    rewrite (list_remove_NoDup g l N). clear. induction l as [|a l IHl]; [ reflexivity | ].
    rewrite !filter_cons. destruct (decide (a <> g)) as [Hne|He].
    + rewrite filter_cons. destruct (decide (a ∉ r)) as [Hr|Hr].
      * rewrite decide_True by (rewrite elem_of_cons; tauto). f_equal. exact IHl.
      * rewrite decide_False by (rewrite elem_of_cons; tauto). exact IHl.
    + rewrite decide_False; [ exact IHl | ]. intros H. apply H.
      destruct (decide (a = g)) as [->|]; [ left | contradiction ].
Qed.

(** X16. "Remove Selected" deletes the crop range of every selected file
    and leaves the other ranges as they are; the files that stay keep
    their order, and no file that is not selected leaves the list. When
    the list repeats no path, exactly the paths that are not selected
    stay. *)
Theorem remove_selected_forgets_crops (selected : list string)
    (self : App.VideoConverterApp) :
  let self' := App._file_list_menu App.RemoveSelected selected self in
  (forall f, App.crop_settings self' !! f
             = if decide (f ∈ selected) then None else App.crop_settings self !! f)
  /\ App.files self' `sublist_of` App.files self
  /\ (forall f, f ∉ selected -> (f ∈ App.files self' <-> f ∈ App.files self))
  /\ (NoDup (App.files self) ->
      App.files self' = filter (fun f => f ∉ selected) (App.files self)).
Proof.
  intros self'. subst self'. unfold App._file_list_menu.
  rewrite (proj1 (update_estimate_files _)), (proj2 (update_estimate_files _)).
  destruct (remove_items_spec selected self) as [-> ->].
  split; [ intros f; apply delete_all_lookup | ].
  split; [ apply remove_all_sublist | ].
  split; [ intros f; apply remove_all_other | apply remove_all_NoDup ].
Qed.

(** X17. A drop adds only video files: a path of the list after
    [dropEvent] was in the list before, or is one of the dropped paths
    and has a video extension. Without URLs, and when no dropped path is
    a video file, the window is left as it is and nothing is logged. *)
Theorem dropEvent_adds_videos_only (has_urls : bool) (local_files : list string)
    (self : App.VideoConverterApp) :
  (forall f, f ∈ App.files (App.dropEvent has_urls local_files self).1 ->
     f ∈ App.files self \/ (f ∈ local_files /\ is_video_file f = true))
  /\ ((has_urls = false \/ forall f, f ∈ local_files -> is_video_file f = false) ->
      App.dropEvent has_urls local_files self = (self, [])).
Proof.
  unfold App.dropEvent. split.
  - intros f. destruct has_urls; [ | left; assumption ].
    destruct (filter _ local_files) as [|a l] eqn:E; [ left; assumption | ].
    rewrite <- E. rewrite (proj1 (add_dropped_files_files _ self)).
    rewrite elem_of_app, !list_elem_of_filter. tauto.
  - intros [->|H]; [ reflexivity | ]. destruct has_urls; [ | reflexivity ].
    rewrite (proj2 (filter_nil_iff _ local_files)); [ reflexivity | ].
    intros f Hf. rewrite (H f Hf). discriminate.
Qed.

(** ** Crop ranges *)

Lemma int_gt_float_mono (n n' : Z) (x : spec_float) :
  n <= n' -> int_gt_float n x = true -> int_gt_float n' x = true.
Proof.
  intros Hn. destruct x as [s|s| |s m e]; simpl; try trivial.
  - rewrite !Z.ltb_lt. lia.
  - destruct (Z.leb_spec 0 e) as [He|He]; rewrite !Z.ltb_lt; [ lia | ].
    assert (0 < 2 ^ (- e)) by (apply Z.pow_pos_nonneg; lia).
    nia.
Qed.

(** [int(x)] is not above [x], for [x >= 0]. *)
Lemma to_int_not_gt (x : spec_float) (k : Z) :
  F64.to_int x = Ok k -> 0 < k -> int_gt_float k x = false.
Proof.
  destruct x as [s|s| |s m e]; simpl; try discriminate.
  - intros [= <-]. lia.
  - intros [= <-] Hk. destruct s; simpl in *.
    + exfalso. assert (0 <= Z.shiftl (Z.pos m) e) by (apply Z.shiftl_nonneg; lia). lia.
    + destruct (Z.leb_spec 0 e) as [He|He]; apply Z.ltb_ge.
      * rewrite Z.shiftl_mul_pow2 by exact He. lia.
      * rewrite Z.shiftl_div_pow2 by lia.
        assert (0 < 2 ^ (- e)) by (apply Z.pow_pos_nonneg; lia).
        rewrite Z.mul_comm. apply Z.mul_div_le. assumption.
Qed.

(** What the comparison means for a finite float. *)
Lemma int_gt_float_finite (n : Z) (s : bool) (m : positive) (e : Z) :
  int_gt_float n (S754_finite s m e) = true
  <-> (F2Q (S754_finite s m e) < inject_Z n)%Q.
Proof.
  simpl. set (v := cond_Zopp s (Z.pos m)).
  destruct (Z.leb_spec 0 e) as [He|He]; rewrite Z.ltb_lt.
  - rewrite (pow2_Z e He), <- inject_Z_mult, <- Zlt_Qlt. reflexivity.
  - assert (Hp : (0 < pow2 (- e))%Q) by apply pow2_pos.
    pose proof (pow2_Z (- e) ltac:(lia)) as E.
    pose proof (pow2_add e (- e)) as A. replace (e + - e) with 0 in A by lia.
    change (pow2 0) with 1%Q in A.
    rewrite Zlt_Qlt, inject_Z_mult, <- E. split; intros H.
    + assert (H' : (inject_Z v * pow2 e * pow2 (- e) < inject_Z n * pow2 (- e))%Q).
      { rewrite <- Qmult_assoc, <- A. lra. }
      apply Qmult_lt_r in H'; assumption.
    + assert (H' : (inject_Z v * pow2 e * pow2 (- e) < inject_Z n * pow2 (- e))%Q).
      { apply Qmult_lt_r; assumption. }
      rewrite <- Qmult_assoc, <- A in H'. lra.
Qed.

Lemma crop_settings_set_crop_edits (a b : string) (self : App.VideoConverterApp) :
  App.crop_settings (App.set_crop_edits a b self) = App.crop_settings self.
Proof. reflexivity. Qed.

(** A range in the map after [update_crop_settings] was there before, or
    is the one the call stored for the selected file. *)
Lemma update_crop_settings_stores (ffprobe : string -> result raw_info)
    (selected : list string) (self : App.VideoConverterApp)
    (f : string) (s e : Z) :
  App.crop_settings (App.update_crop_settings ffprobe selected self).1 !! f
  = Some (s, e) ->
  App.crop_settings self !! f = Some (s, e)
  \/ (selected = [f]
      /\ exists info d,
           ffprobe f = Ok info /\ App.strict_duration info = Ok d
           /\ 0 <= s < e
           /\ int_gt_float e d = false /\ int_gt_float s d = false).
Proof.
  unfold App.update_crop_settings.
  destruct (App.start_edit_enabled self); simpl; [ | tauto ].
  destruct selected as [|file [|file' rest]]; simpl; try tauto.
  destruct (parse_hhmmss (App.start_edit self)) as [start|] eqn:Es; [ | tauto ].
  destruct (parse_hhmmss (App.end_edit self)) as [end_|] eqn:Ee; [ | tauto ].
  apply parse_hhmmss_nonneg in Es, Ee.
  destruct (Z.leb_spec end_ start) as [Hg|Hg]; [ tauto | ].
  destruct (ffprobe file) as [info|x] eqn:Ep; simpl; [ | tauto ].
  destruct (App.strict_duration info) as [d|x] eqn:Ed; simpl; [ | tauto ].
  destruct (int_gt_float end_ d) eqn:G1.
  - destruct (F64.to_int d) as [e'|x] eqn:Ei; simpl; [ | tauto ].
    destruct (int_gt_float start d) eqn:G2.
    + destruct (Z.leb_spec e' 0) as [Hg'|Hg']; simpl; [ tauto | ].
      rewrite (proj2 (update_estimate_files _)). simpl.
      destruct (decide (file = f)) as [<-|Hne].
      * rewrite lookup_insert_eq. intros [= <- <-]. right. split; [ reflexivity | ].
        exists info, d. pose proof (to_int_not_gt d e' Ei Hg') as G3.
        repeat split; try assumption; try lia.
        destruct (int_gt_float 0 d) eqn:G4; [ | reflexivity ].
        rewrite (int_gt_float_mono 0 e' d ltac:(lia) G4) in G3. discriminate G3.
      * rewrite lookup_insert_ne by exact Hne. tauto.
    + destruct (Z.leb_spec e' start) as [Hg'|Hg']; simpl; [ tauto | ].
      rewrite (proj2 (update_estimate_files _)). simpl.
      destruct (decide (file = f)) as [<-|Hne].
      * rewrite lookup_insert_eq. intros [= <- <-]. right. split; [ reflexivity | ].
        exists info, d. pose proof (to_int_not_gt d e' Ei ltac:(lia)) as G3.
        repeat split; try assumption; lia.
      * rewrite lookup_insert_ne by exact Hne. tauto.
  - destruct (int_gt_float start d) eqn:G2.
    { rewrite (int_gt_float_mono start end_ d ltac:(lia) G2) in G1. discriminate G1. }
    destruct (Z.leb_spec end_ start) as [Hg'|_]; [ lia | ]. simpl.
    rewrite (proj2 (update_estimate_files _)). simpl.
    destruct (decide (file = f)) as [<-|Hne].
    + rewrite lookup_insert_eq. intros [= <- <-]. right. split; [ reflexivity | ].
      exists info, d. repeat split; try assumption; lia.
    + rewrite lookup_insert_ne by exact Hne. tauto.
Qed.

(** X18. A crop range that [update_crop_settings] stores lies within the
    file: it was in the map before the call, or it belongs to the one
    selected file, whose duration was probed, and then
    [0 <= start < end], and neither bound is above the duration in
    Python's comparison; for a finite duration, [end <= duration]. *)
Theorem stored_crop_within_duration (ffprobe : string -> result raw_info)
    (selected : list string) (self : App.VideoConverterApp)
    (f : string) (s e : Z) :
  App.crop_settings (App.update_crop_settings ffprobe selected self).1 !! f
  = Some (s, e) ->
  App.crop_settings self !! f = Some (s, e)
  \/ (selected = [f]
      /\ exists info d,
           ffprobe f = Ok info /\ App.strict_duration info = Ok d
           /\ 0 <= s < e
           /\ int_gt_float e d = false /\ int_gt_float s d = false
           /\ (forall sg m ex, d = S754_finite sg m ex ->
                 (inject_Z s < inject_Z e <= F2Q d)%Q)).
Proof.
  intros H. apply update_crop_settings_stores in H as [H|(Hs & info & d & H)];
    [ left; exact H | right ].
  split; [ exact Hs | ]. exists info, d.
  destruct H as (H1 & H2 & H3 & H4 & H5). repeat split; try assumption; try lia.
  - rewrite <- Zlt_Qlt. lia.
  - subst d. apply Qnot_lt_le. intros Hlt.
    apply int_gt_float_finite in Hlt. rewrite Hlt in H4. discriminate H4.
Qed.

Lemma stored_crop_within_duration_witness :
  App.crop_settings cropping_window !! "a.mp4" = Some (10, 100)
  \/ (["a.mp4"] = ["a.mp4"]
      /\ exists info d,
           two_probes "a.mp4" = Ok info /\ App.strict_duration info = Ok d
           /\ 0 <= 10 < 100
           /\ int_gt_float 100 d = false /\ int_gt_float 10 d = false
           /\ (forall sg m ex, d = S754_finite sg m ex ->
                 (inject_Z 10 < inject_Z 100 <= F2Q d)%Q)).
Proof.
  apply (stored_crop_within_duration two_probes ["a.mp4"] cropping_window).
  vm_compute. reflexivity.
Defined.

Example crop_is_clamped :
  let r := App.update_crop_settings two_probes ["a.mp4"] cropping_window in
  App.crop_settings r.1 = {[ "a.mp4" := (10, 100) ]}
  /\ App.end_edit r.1 = "00:01:40" /\ App.start_edit r.1 = "00:00:10".
Proof. vm_compute. repeat split. Qed.

(** ** Starting a conversion *)

(** The thread [start_conversion] builds, field by field. *)
Lemma start_conversion_started (is_running : bool) (self self' : App.VideoConverterApp)
    (warn : bool) (t : ConversionThread) :
  App.start_conversion is_running self = (self', warn, App.Started t) ->
  files t = App.files self /\ App.files self <> []
  /\ crop_settings t = App.crop_settings self
  /\ codec t = App.get_codec self /\ container t = App.get_container self
  /\ int_of_str (App.audio_bitrate_edit self) = Some (audio_bitrate t)
  /\ ((App.rate_mode_combo self = 0 /\ rate_mode t = "bitrate"
       /\ bitrate_kbps t = value (get_bitrate (App.bitrate_edit self))
       /\ crf_cq_value t = None /\ is_Some (bitrate_kbps t))
      \/ (App.rate_mode_combo self <> 0 /\ rate_mode t = "quality"
          /\ bitrate_kbps t = None
          /\ crf_cq_value t
             = value (get_quality_value (App.quality_edit self) (App.codec_av1 self))
          /\ is_Some (crf_cq_value t)))
  /\ App.start_btn self' = false /\ App.cancel_btn self' = true
  /\ App.status_bar self' = App.ConvertingStatus
  /\ App.conversion_thread self' = Some t.
Proof.
  unfold App.start_conversion.
  destruct (_ && is_running); [ intros [=] | ].
  destruct (get_bitrate (App.bitrate_edit self)) as [vb tb wb].
  destruct (get_quality_value (App.quality_edit self) (App.codec_av1 self))
    as [vq tq wq].
  destruct (App.files self) as [|f0 fs] eqn:Ef; [ intros [=] | ].
  destruct (App.rate_mode_combo self =? 0) eqn:Hm;
    unfold App.set_rate_edits, App.set_converting, App.set_conversion_thread,
      App.get_codec, App.get_container; cbn; rewrite ?Hm, ?Ef.
  - apply Z.eqb_eq in Hm.
    destruct vb as [k|]; [ | intros [=] ].
    destruct (int_of_str (App.audio_bitrate_edit self)) as [a|]; [ | intros [=] ].
    intros [= <- <- <-]. cbn.
    repeat split; try discriminate. left. repeat split; eauto.
  - apply Z.eqb_neq in Hm.
    destruct vq as [q|]; [ | intros [=] ].
    destruct (int_of_str (App.audio_bitrate_edit self)) as [a|]; [ | intros [=] ].
    intros [= <- <- <-]. cbn.
    repeat split; try discriminate. right. repeat split; eauto.
Qed.

(** X19. A thread that [start_conversion] starts is valid: its file list
    is the non-empty list of the window and its crop ranges are the
    window's; in bitrate mode it carries a bitrate within 50..200000 and
    no quality, in quality mode a quality within 0..51 (0..63 for AV1)
    and no bitrate, so the fallback quality 23 is never used. The
    command of any of its files can therefore always be built: the
    "Invalid bitrate" error cannot occur. *)
Theorem started_thread_is_valid (is_running : bool) (self self' : App.VideoConverterApp)
    (warn : bool) (t : ConversionThread) :
  App.start_conversion is_running self = (self', warn, App.Started t) ->
  files t = App.files self /\ files t <> []
  /\ crop_settings t = App.crop_settings self
  /\ codec t ∈ ["AV1"; "H.265"] /\ container t ∈ ["MP4"; "MKV"]
  /\ ((rate_mode t = "bitrate" /\ crf_cq_value t = None
       /\ exists k, bitrate_kbps t = Some k
                    /\ BITRATE_MIN_KBPS <= k <= BITRATE_MAX_KBPS)
      \/ (rate_mode t = "quality" /\ bitrate_kbps t = None
          /\ exists q, crf_cq_value t = Some q
                       /\ 0 <= q <= (if decide (codec t = "AV1") then CRF_MAX_AV1
                                     else CRF_MAX_HEVC)
                       /\ quality_of t = q))
  /\ (forall file pinfo out_path encoder mapped_preset,
        exists cmd, build_cmd t file pinfo out_path encoder mapped_preset = Ok cmd)
  /\ App.conversion_thread self' = Some t.
Proof.
  intros H. apply start_conversion_started in H
    as (Hf & Hne & Hc & Hcodec & Hcont & _ & Hrate & _ & _ & _ & Ht).
  assert (R : (rate_mode t = "bitrate" /\ crf_cq_value t = None
               /\ exists k, bitrate_kbps t = Some k
                            /\ BITRATE_MIN_KBPS <= k <= BITRATE_MAX_KBPS)
              \/ (rate_mode t = "quality" /\ bitrate_kbps t = None
                  /\ exists q, crf_cq_value t = Some q
                               /\ 0 <= q <= (if decide (codec t = "AV1") then CRF_MAX_AV1
                                             else CRF_MAX_HEVC)
                               /\ quality_of t = q)).
  { destruct Hrate as [(_ & Hm & Hb & Hq & [k Hk])|(_ & Hm & Hb & Hq & [q Hq'])].
    - left. repeat split; try assumption. exists k. split; [ exact Hk | ].
      rewrite Hk in Hb. symmetry in Hb. apply get_clamped_some in Hb as (v & _ & ->).
      apply clamp_bounds. vm_compute. discriminate.
    - right. repeat split; try assumption. exists q. split; [ exact Hq' | ].
      rewrite Hq' in Hq. symmetry in Hq. apply get_clamped_some in Hq as (v & _ & ->).
      assert (Hb' : 0 <= _clamp v CRF_MIN
                         (if App.codec_av1 self then CRF_MAX_AV1 else CRF_MAX_HEVC)
                    <= (if App.codec_av1 self then CRF_MAX_AV1 else CRF_MAX_HEVC)).
      { apply clamp_bounds. unfold CRF_MIN, CRF_MAX_AV1, CRF_MAX_HEVC.
        destruct (App.codec_av1 self); lia. }
      assert (Hcd : (if decide (codec t = "AV1") then CRF_MAX_AV1 else CRF_MAX_HEVC)
                    = (if App.codec_av1 self then CRF_MAX_AV1 else CRF_MAX_HEVC)).
      { rewrite Hcodec. unfold App.get_codec. destruct (App.codec_av1 self); reflexivity. }
      rewrite Hcd. split; [ exact Hb' | ].
      unfold quality_of. rewrite Hq'. set (c := _clamp v _ _).
      assert (Hc0 : 0 <= c) by exact (proj1 Hb').
      destruct (Z.leb_spec 0 c); [ reflexivity | lia ]. }
  repeat split; try assumption.
  - rewrite Hf. exact Hne.
  - rewrite Hcodec. unfold App.get_codec. destruct (App.codec_av1 self); in_list.
  - rewrite Hcont. unfold App.get_container. destruct (App.container_mp4 self); in_list.
  - intros file pinfo out_path encoder mapped_preset.
    destruct (rate_flags_ok t encoder) as (rate & Hr).
    + intros Hbit. destruct R as [(_ & _ & k & Hk & Hb)|(Hm & Hb & _)].
      * exists k. split; [ exact Hk | ]. unfold BITRATE_MIN_KBPS in Hb. lia.
      * rewrite Hm in Hbit. discriminate Hbit.
    + exact (build_cmd_ok t file pinfo out_path encoder mapped_preset rate Hr).
Qed.

Lemma started_thread_is_valid_witness :
  files one_file_thread = App.files one_file_window /\ files one_file_thread <> []
  /\ crop_settings one_file_thread = App.crop_settings one_file_window
  /\ codec one_file_thread ∈ ["AV1"; "H.265"]
  /\ container one_file_thread ∈ ["MP4"; "MKV"]
  /\ ((rate_mode one_file_thread = "bitrate" /\ crf_cq_value one_file_thread = None
       /\ exists k, bitrate_kbps one_file_thread = Some k
                    /\ BITRATE_MIN_KBPS <= k <= BITRATE_MAX_KBPS)
      \/ (rate_mode one_file_thread = "quality" /\ bitrate_kbps one_file_thread = None
          /\ exists q, crf_cq_value one_file_thread = Some q
                       /\ 0 <= q <= (if decide (codec one_file_thread = "AV1")
                                     then CRF_MAX_AV1 else CRF_MAX_HEVC)
                       /\ quality_of one_file_thread = q))
  /\ (forall file pinfo out_path encoder mapped_preset,
        exists cmd,
          build_cmd one_file_thread file pinfo out_path encoder mapped_preset = Ok cmd)
  /\ App.conversion_thread (App.start_conversion false one_file_window).1.1
     = Some one_file_thread.
Proof.
  apply (started_thread_is_valid false one_file_window
           (App.start_conversion false one_file_window).1.1 false one_file_thread).
  vm_compute. reflexivity.
Defined.

(** X20. When the audio bitrate field holds no integer (it may be empty)
    and the rate value is fine, [start_conversion] raises a [ValueError]
    while it builds the thread: the start button is already disabled,
    the cancel button enabled and the status bar says "Converting", but
    no thread exists. *)
Theorem start_conversion_bad_audio_bitrate (is_running : bool)
    (self : App.VideoConverterApp) :
  bool_decide (is_Some (App.conversion_thread self)) && is_running = false ->
  App.files self <> [] ->
  is_Some (if App.rate_mode_combo self =? 0
           then value (get_bitrate (App.bitrate_edit self))
           else value (get_quality_value (App.quality_edit self) (App.codec_av1 self))) ->
  int_of_str (App.audio_bitrate_edit self) = None ->
  exists self' warn,
    App.start_conversion is_running self = (self', warn, App.Failed ValueError)
    /\ App.start_btn self' = false /\ App.cancel_btn self' = true
    /\ App.status_bar self' = App.ConvertingStatus
    /\ App.conversion_thread self' = App.conversion_thread self
    /\ App.files self' = App.files self.
Proof.
  intros Hrun Hne Hrate Haudio. unfold App.start_conversion. rewrite Hrun.
  destruct (get_bitrate (App.bitrate_edit self)) as [vb tb wb].
  destruct (get_quality_value (App.quality_edit self) (App.codec_av1 self))
    as [vq tq wq].
  destruct (App.files self) as [|f0 fs] eqn:Ef; [ congruence | ].
  destruct (App.rate_mode_combo self =? 0) eqn:Hm;
    unfold App.set_rate_edits, App.set_converting, App.set_conversion_thread,
      App.get_codec, App.get_container; cbn; rewrite ?Hm, ?Ef; cbn in Hrate.
  - destruct Hrate as [k ->]. rewrite Haudio. eexists _, _.
    split; [ reflexivity | ]. cbn. rewrite ?Ef. repeat split.
  - destruct Hrate as [q ->]. rewrite Haudio. eexists _, _.
    split; [ reflexivity | ]. cbn. rewrite ?Ef. repeat split.
Qed.

Lemma start_conversion_bad_audio_bitrate_witness :
  exists self' warn,
    App.start_conversion false blank_audio_window = (self', warn, App.Failed ValueError)
    /\ App.start_btn self' = false /\ App.cancel_btn self' = true
    /\ App.status_bar self' = App.ConvertingStatus
    /\ App.conversion_thread self' = App.conversion_thread blank_audio_window
    /\ App.files self' = App.files blank_audio_window.
Proof.
  apply (start_conversion_bad_audio_bitrate false blank_audio_window).
  - reflexivity.
  - discriminate.
  - vm_compute. eauto.
  - reflexivity.
Defined.

(** ** Crop ranges of the window and of the thread *)

Lemma select_files_files (chosen : list string) (self : App.VideoConverterApp) :
  App.crop_settings (App.select_files chosen self) = App.crop_settings self.
Proof.
  unfold App.select_files. rewrite (proj2 (update_estimate_files _)). reflexivity.
Qed.

Lemma clear_list_crops (self : App.VideoConverterApp) :
  App.crop_settings (App.clear_list self) = ∅.
Proof.
  unfold App.clear_list. rewrite (proj2 (update_estimate_files _)). reflexivity.
Qed.

Lemma menu_crops (action : App.menu_action) (selected : list string)
    (self : App.VideoConverterApp) (f : string) (r : Z * Z) :
  App.crop_settings (App._file_list_menu action selected self) !! f = Some r ->
  App.crop_settings self !! f = Some r.
Proof.
  destruct action; unfold App._file_list_menu.
  - rewrite (proj2 (update_estimate_files _)), (proj2 (remove_items_spec selected self)),
      delete_all_lookup.
    destruct (decide (f ∈ selected)); [ discriminate | trivial ].
  - rewrite clear_list_crops, lookup_empty. discriminate.
  - trivial.
Qed.

Lemma dropEvent_crops (has_urls : bool) (local_files : list string)
    (self : App.VideoConverterApp) :
  App.crop_settings (App.dropEvent has_urls local_files self).1 = App.crop_settings self.
Proof.
  unfold App.dropEvent. destruct has_urls; [ | reflexivity ].
  destruct (filter _ local_files) as [|a l]; [ reflexivity | ].
  apply add_dropped_files_files.
Qed.

Lemma reachable_crops (fs : list string) (cs : gmap string (Z * Z)) :
  App.reachable fs cs -> forall f s e, cs !! f = Some (s, e) -> 0 <= s < e.
Proof.
  induction 1 as [|dropped self _ IH|chosen self _ IH|action selected self _ IH
                  |self _ IH|ffprobe selected self _ IH|hu lf self _ IH];
    intros f s e Hl.
  - rewrite lookup_empty in Hl. discriminate Hl.
  - rewrite (proj2 (add_dropped_files_files dropped self)) in Hl. exact (IH f s e Hl).
  - rewrite select_files_files in Hl. exact (IH f s e Hl).
  - apply menu_crops in Hl. exact (IH f s e Hl).
  - rewrite clear_list_crops, lookup_empty in Hl. discriminate Hl.
  - apply update_crop_settings_stores in Hl as [Hl|(_ & info & d & _ & _ & Hr & _)];
      [ exact (IH f s e Hl) | exact Hr ].
  - rewrite dropEvent_crops in Hl. exact (IH f s e Hl).
Qed.

(** X21. Whatever the user does with the file list and the crop fields,
    every crop range the window holds satisfies [0 <= start < end].
    A thread started from such a window therefore gives each file with a
    crop range the target duration [end - start], which is at least one
    second, whatever the probe of the file says. *)
Theorem crop_ranges_stay_valid (fs : list string) (cs : gmap string (Z * Z)) :
  App.reachable fs cs ->
  (forall f s e, cs !! f = Some (s, e) -> 0 <= s < e)
  /\ (forall is_running self self' warn t,
        App.files self = fs -> App.crop_settings self = cs ->
        App.start_conversion is_running self = (self', warn, App.Started t) ->
        forall f s e, crop_settings t !! f = Some (s, e) ->
          1 <= e - s /\ forall p, target_duration t f p = Ok (e - s)).
Proof.
  intros Hr. pose proof (reachable_crops fs cs Hr) as Hv. split; [ exact Hv | ].
  intros is_running self self' warn t _ Hc Hs f s e Hl.
  apply start_conversion_started in Hs as (_ & _ & Ht & _).
  rewrite Ht, Hc in Hl. pose proof (Hv f s e Hl) as Hse.
  split; [ lia | ]. intros p. unfold target_duration. rewrite Ht, Hc, Hl.
  f_equal. lia.
Qed.

Lemma crop_ranges_stay_valid_witness :
  (forall f s e, App.crop_settings cropped_window !! f = Some (s, e) -> 0 <= s < e)
  /\ (forall is_running self self' warn t,
        App.files self = App.files cropped_window ->
        App.crop_settings self = App.crop_settings cropped_window ->
        App.start_conversion is_running self = (self', warn, App.Started t) ->
        forall f s e, crop_settings t !! f = Some (s, e) ->
          1 <= e - s /\ forall p, target_duration t f p = Ok (e - s)).
Proof.
  apply (crop_ranges_stay_valid (App.files cropped_window)
           (App.crop_settings cropped_window)).
  exact (App.reach_crop two_probes ["a.mp4"] cropping_window
           (App.reach_add ["a.mp4"] App.initial App.reach_init)).
Defined.

Example cropped_thread_duration :
  match (App.start_conversion false cropped_window).2 with
  | App.Started t =>
      crop_settings t !! "a.mp4" = Some (10, 100)
      /\ target_duration t "a.mp4" sentinel = Ok 90
  | _ => False
  end.
Proof. vm_compute. split; reflexivity. Qed.

(** ** Showing and storing a crop range *)

Lemma update_estimate_crop_edits (self : App.VideoConverterApp) :
  App.start_edit (App.update_estimate self) = App.start_edit self
  /\ App.end_edit (App.update_estimate self) = App.end_edit self
  /\ App.start_edit_enabled (App.update_estimate self) = App.start_edit_enabled self.
Proof.
  unfold App.update_estimate. destruct (App.files self); repeat split.
Qed.

(** A float that [int] rejects compares alike with every integer. *)
Lemma to_int_raises_flat (x : spec_float) (e : exn) (a b : Z) :
  F64.to_int x = Raise e -> int_gt_float a x = int_gt_float b x.
Proof. destruct x; simpl; intros H; try discriminate H; reflexivity. Qed.

(** The fields the estimate leaves alone. *)
Ltac through_estimate :=
  match goal with
  | |- context [App.update_estimate ?x] =>
      let E1 := fresh in let E2 := fresh in let E3 := fresh in
      destruct (update_estimate_crop_edits x) as (E1 & E2 & E3);
      rewrite ?(proj2 (update_estimate_files x)), ?E1, ?E2, ?E3; clear E1 E2 E3
  end.

Lemma edit_text_again (text : string) :
  edit_text (get_bitrate (edit_text (get_bitrate text))) = edit_text (get_bitrate text).
Proof.
  unfold get_bitrate, get_clamped, bitrate_bounds.
  destruct (decide (strip text = "")) as [E|E]; simpl.
  { rewrite decide_True by exact E. reflexivity. }
  destruct (int_of_str (strip text)) as [v|] eqn:Hv; simpl.
  2:{ rewrite decide_False by exact E. rewrite Hv. reflexivity. }
  destruct (decide (v = _clamp v BITRATE_MIN_KBPS BITRATE_MAX_KBPS)) as [C|C].
  { rewrite decide_False by exact E. rewrite Hv. simpl.
    rewrite decide_True by exact C. reflexivity. }
  set (c := _clamp v BITRATE_MIN_KBPS BITRATE_MAX_KBPS).
  assert (S : strip (str_of_int c) = str_of_int c).
  { apply strip_chars. eapply Forall_impl; [ apply str_of_int_plain | ].
    intros a [Ha _]. exact Ha. }
  rewrite S. rewrite decide_False by apply str_of_int_not_empty.
  rewrite int_of_str_of_int. simpl.
  rewrite decide_True; [ reflexivity | ].
  subst c. unfold _clamp, BITRATE_MIN_KBPS, BITRATE_MAX_KBPS. lia.
Qed.

Lemma set_crop_edits_same (self : App.VideoConverterApp) :
  App.set_crop_edits (App.start_edit self) (App.end_edit self) self = self.
Proof. destruct self; reflexivity. Qed.

Lemma estimate_again (m m' : gmap string (Z * Z)) (x : App.VideoConverterApp) :
  App.update_estimate (App.set_crop_settings m (App.update_estimate (App.set_crop_settings m' x)))
  = App.update_estimate (App.set_crop_settings m x).
Proof.
  unfold App.update_estimate. cbn. destruct (App.files x) eqn:F; cbn.
  - rewrite F. reflexivity.
  - rewrite F. unfold App.set_rate_edits. cbn. rewrite edit_text_again. reflexivity.
Qed.

Section Nested.

Variables (ffprobe : string -> result raw_info) (file : string).
Variables (info : raw_info) (d : spec_float).
Hypothesis Hp : ffprobe file = Ok info.
Hypothesis Hd : App.strict_duration info = Ok d.

(** The slot on two texts that name a range within the duration. *)
Lemma slot_value (x : App.VideoConverterApp) (s e : Z) :
  App.start_edit_enabled x = true ->
  parse_hhmmss (App.start_edit x) = Some s ->
  parse_hhmmss (App.end_edit x) = Some e ->
  s < e -> int_gt_float e d = false ->
  App.update_crop_settings ffprobe [file] x
  = (App.update_estimate
       (App.set_crop_settings (<[file := (s, e)]> (App.crop_settings x)) x), []).
Proof.
  intros Hen Hs He Hse Ge.
  assert (Gs : int_gt_float s d = false).
  { destruct (int_gt_float s d) eqn:G; [ | reflexivity ].
    rewrite (int_gt_float_mono s e d ltac:(lia) G) in Ge. discriminate Ge. }
  unfold App.update_crop_settings. rewrite Hen. cbn [negb]. rewrite Hs, He.
  replace (e <=? s) with false by (symmetry; apply Z.leb_gt; lia).
  rewrite Hp. simpl bind. rewrite Hd, Ge, Gs, set_crop_edits_same.
  replace (e <=? s) with false by (symmetry; apply Z.leb_gt; lia).
  reflexivity.
Qed.

(** The slot on two texts that name no range. *)
Lemma slot_idle (selected : list string) (x : App.VideoConverterApp) (s e : Z) :
  parse_hhmmss (App.start_edit x) = Some s ->
  parse_hhmmss (App.end_edit x) = Some e ->
  e <= s ->
  App.update_crop_settings ffprobe selected x = (x, []).
Proof.
  intros Hs He Hes. unfold App.update_crop_settings.
  destruct (negb _); [ reflexivity | ].
  destruct selected as [|f [|? ?]]; try reflexivity.
  rewrite Hs, He.
  replace (e <=? s) with true by (symmetry; apply Z.leb_le; lia).
  reflexivity.
Qed.

Lemma with_slot_probed (slot : App.VideoConverterApp -> App.VideoConverterApp * list App.log_line)
    (self : App.VideoConverterApp) :
  (forall x, slot x = (x, []) \/ slot x = App.update_crop_settings ffprobe [file] x) ->
  App.update_crop_settings_with slot ffprobe [file] self
  = App.update_crop_settings ffprobe [file] self.
Proof.
  intros H.
  destruct (App.start_edit_enabled self) eqn:Hen;
    [ | unfold App.update_crop_settings_with, App.update_crop_settings;
        rewrite Hen; reflexivity ].
  destruct (parse_hhmmss (App.start_edit self)) as [s|] eqn:Hs;
    [ | unfold App.update_crop_settings_with, App.update_crop_settings;
        rewrite Hen, Hs; reflexivity ].
  destruct (parse_hhmmss (App.end_edit self)) as [e|] eqn:He;
    [ | unfold App.update_crop_settings_with, App.update_crop_settings;
        rewrite Hen, Hs, He; reflexivity ].
  destruct (Z.leb_spec e s) as [Les|Lse].
  { rewrite (slot_idle [file] self s e Hs He Les).
    unfold App.update_crop_settings_with. rewrite Hen, Hs, He. cbn [negb].
    replace (e <=? s) with true by (symmetry; apply Z.leb_le; lia).
    reflexivity. }
  assert (Lf : (e <=? s) = false) by (apply Z.leb_gt; lia).
  destruct (int_gt_float e d) eqn:Ge.
  2:{ assert (Gs : int_gt_float s d = false).
      { destruct (int_gt_float s d) eqn:G; [ | reflexivity ].
        rewrite (int_gt_float_mono s e d ltac:(lia) G) in Ge. discriminate Ge. }
      rewrite (slot_value self s e Hen Hs He Lse Ge).
      unfold App.update_crop_settings_with. rewrite Hen, Hs, He. cbn [negb].
      rewrite Lf, Hp. simpl bind. rewrite Hd, Ge. cbv beta iota. rewrite Gs, Lf.
      reflexivity. }
  unfold App.update_crop_settings_with, App.update_crop_settings.
  rewrite Hen, Hs, He. cbn [negb]. rewrite Lf, Hp. simpl bind. rewrite Hd, Ge.
  destruct (F64.to_int d) as [k|ex] eqn:Hk; [ | reflexivity ].
  simpl bind. cbv beta iota.
  set (T := seconds_to_hhmmss k).
  set (x1 := App.set_crop_edits (App.start_edit self) T self).
  assert (PT : parse_hhmmss T = Some (Z.max 0 k)) by apply parse_format_seconds.
  assert (Gk : 0 < k -> int_gt_float k d = false) by (apply to_int_not_gt; exact Hk).
  pose proof (parse_hhmmss_nonneg _ _ Hs) as Ns.
  assert (E : exists self0,
             (if decide (App.end_edit self = T) then (self, []) else slot x1) = (self0, [])
             /\ (self0 = x1
                 \/ (s < k /\ 0 < k
                     /\ self0 = App.update_estimate
                                  (App.set_crop_settings
                                     (<[file := (s, k)]> (App.crop_settings self)) x1)))).
  { destruct (decide (App.end_edit self = T)) as [Et|Et].
    { exists self. split; [ reflexivity | left ].
      subst x1. rewrite <- Et. symmetry. apply set_crop_edits_same. }
    destruct (H x1) as [-> | ->]; [ exists x1; split; [ reflexivity | left; reflexivity ] | ].
    destruct (Z.leb_spec (Z.max 0 k) s) as [Lk|Lk].
    - exists x1. split; [ | left; reflexivity ].
      apply (slot_idle [file] x1 s (Z.max 0 k)); [ exact Hs | exact PT | exact Lk ].
    - assert (K : 0 < k) by lia. rewrite Z.max_r in PT, Lk by lia.
      eexists. split; [ | right; split; [ exact Lk | split; [ exact K | reflexivity ] ] ].
      apply (slot_value x1 s k); [ exact Hen | exact Hs | exact PT | exact Lk | exact (Gk K) ]. }
  destruct E as (self0 & -> & E).
  destruct (int_gt_float s d) eqn:Gs.
  - destruct E as [-> | (Lk & K & _)].
    2:{ rewrite (int_gt_float_mono s k d ltac:(lia) Gs) in Gk.
        specialize (Gk K). discriminate Gk. }
    set (x2 := App.set_crop_edits "00:00:00" T self).
    change (App.set_crop_edits "00:00:00" (App.end_edit x1) x1) with x2.
    change (App.start_edit x1) with (App.start_edit self).
    assert (E : exists self2,
               (if decide (App.start_edit self = "00:00:00") then (x1, []) else slot x2)
               = (self2, [])
               /\ (self2 = x2
                   \/ (0 < k
                       /\ self2 = App.update_estimate
                                    (App.set_crop_settings
                                       (<[file := (0, k)]> (App.crop_settings self)) x2)))).
    { destruct (decide (App.start_edit self = "00:00:00")) as [Et|Et].
      { exists x1. split; [ reflexivity | left ].
        subst x1 x2. rewrite Et. reflexivity. }
      destruct (H x2) as [-> | ->]; [ exists x2; split; [ reflexivity | left; reflexivity ] | ].
      destruct (Z.leb_spec (Z.max 0 k) 0) as [Lk|Lk].
      - exists x2. split; [ | left; reflexivity ].
        apply (slot_idle [file] x2 0 (Z.max 0 k)); [ reflexivity | exact PT | exact Lk ].
      - assert (K : 0 < k) by lia. rewrite Z.max_r in PT by lia.
        eexists. split; [ | right; split; [ exact K | reflexivity ] ].
        apply (slot_value x2 0 k); [ exact Hen | reflexivity | exact PT | exact K | exact (Gk K) ]. }
    destruct E as (self2 & -> & E). cbn [app].
    destruct E as [-> | (K & ->)]; [ reflexivity | ].
    replace (k <=? 0) with false by (symmetry; apply Z.leb_gt; exact K).
    rewrite (proj2 (update_estimate_files _)). cbn [App.crop_settings App.set_crop_settings].
    rewrite insert_insert_eq. rewrite estimate_again. reflexivity.
  - cbn [app]. destruct E as [-> | (Lk & K & ->)]; [ reflexivity | ].
    replace (k <=? s) with false by (symmetry; apply Z.leb_gt; exact Lk).
    rewrite (proj2 (update_estimate_files _)). cbn [App.crop_settings App.set_crop_settings].
    rewrite insert_insert_eq. rewrite estimate_again. reflexivity.
Qed.

End Nested.

(** Whatever the connected slot does of the two, nothing or what
    [update_crop_settings] does, the method leaves the window as
    [update_crop_settings] does and logs the same lines. *)
Lemma with_slot_same (slot : App.VideoConverterApp -> App.VideoConverterApp * list App.log_line)
    (ffprobe : string -> result raw_info) (selected : list string)
    (self : App.VideoConverterApp) :
  (forall x, slot x = (x, []) \/ slot x = App.update_crop_settings ffprobe selected x) ->
  App.update_crop_settings_with slot ffprobe selected self
  = App.update_crop_settings ffprobe selected self.
Proof.
  intros H.
  destruct selected as [|file [|? ?]];
    try (unfold App.update_crop_settings_with, App.update_crop_settings;
         destruct (negb _); reflexivity).
  destruct (ffprobe file) as [info|ex] eqn:Hp.
  - destruct (App.strict_duration info) as [d|ex] eqn:Hd.
    + exact (with_slot_probed ffprobe file info d Hp Hd slot self H).
    + unfold App.update_crop_settings_with, App.update_crop_settings.
      rewrite Hp. simpl bind. rewrite Hd. reflexivity.
  - unfold App.update_crop_settings_with, App.update_crop_settings.
    rewrite Hp. reflexivity.
Qed.

(** The nested runs of the slot change nothing: at every depth the
    outcome is that of [update_crop_settings]. *)
Lemma nested_slot_same (depth : nat) (ffprobe : string -> result raw_info)
    (selected : list string) (self : App.VideoConverterApp) :
  App.update_crop_settings_nested (S depth) ffprobe selected self
  = App.update_crop_settings ffprobe selected self.
Proof.
  revert self. induction depth as [|depth IH]; intros self.
  - apply with_slot_same. intros x. left. reflexivity.
  - change (App.update_crop_settings_nested (S (S depth)) ffprobe selected self)
      with (App.update_crop_settings_with
              (App.update_crop_settings_nested (S depth) ffprobe selected)
              ffprobe selected self).
    apply with_slot_same. intros x. right. apply IH.
Qed.

Section Slot.

Variables (ffprobe : string -> result raw_info) (file : string).
Variables (info : raw_info) (d : spec_float).
Hypothesis Hp : ffprobe file = Ok info.
Hypothesis Hd : App.strict_duration info = Ok d.

(** The slot on two texts that name a range within the duration stores
    the range and leaves the texts. *)
Lemma slot_stores (self : App.VideoConverterApp) (s e : Z) :
  App.start_edit_enabled self = true ->
  parse_hhmmss (App.start_edit self) = Some s ->
  parse_hhmmss (App.end_edit self) = Some e ->
  s < e -> int_gt_float e d = false ->
  let r := (App.update_crop_settings ffprobe [file] self).1 in
  App.crop_settings r = <[file := (s, e)]> (App.crop_settings self)
  /\ App.start_edit r = App.start_edit self
  /\ App.end_edit r = App.end_edit self.
Proof.
  intros Hen Hs He Hse Ge r. subst r.
  assert (Gs : int_gt_float s d = false).
  { destruct (int_gt_float s d) eqn:G; [ | reflexivity ].
    rewrite (int_gt_float_mono s e d ltac:(lia) G) in Ge. discriminate Ge. }
  unfold App.update_crop_settings. rewrite Hen. cbn [negb]. rewrite Hs, He.
  replace (e <=? s) with false by (symmetry; apply Z.leb_gt; lia).
  rewrite Hp. simpl bind. rewrite Hd, Ge, Gs.
  replace (e <=? s) with false by (symmetry; apply Z.leb_gt; lia).
  cbn [fst]. through_estimate. repeat split.
Qed.

Lemma slot_disabled (selected : list string) (self : App.VideoConverterApp) :
  App.start_edit_enabled self = false ->
  App.update_crop_settings ffprobe selected self = (self, []).
Proof. intros H. unfold App.update_crop_settings. rewrite H. reflexivity. Qed.

(** The slot on a start text within the duration, whatever the end text
    is: the start text stays; a range is stored, with the end the end
    text then names, or none is and the end text names nothing above the
    start. *)
Lemma slot_start (self : App.VideoConverterApp) (s : Z) :
  App.start_edit_enabled self = true ->
  parse_hhmmss (App.start_edit self) = Some s ->
  int_gt_float s d = false ->
  let r := (App.update_crop_settings ffprobe [file] self).1 in
  App.start_edit r = App.start_edit self
  /\ App.start_edit_enabled r = true
  /\ ((App.crop_settings r = App.crop_settings self
       /\ forall e1, parse_hhmmss (App.end_edit r) = Some e1 ->
            e1 <= s
            \/ exists x e0, F64.to_int d = Raise x /\ int_gt_float e0 d = true)
      \/ exists e', s < e' /\ int_gt_float e' d = false
           /\ App.crop_settings r = <[file := (s, e')]> (App.crop_settings self)
           /\ parse_hhmmss (App.end_edit r) = Some e').
Proof.
  intros Hen Hs Gs r. subst r.
  pose proof (parse_hhmmss_nonneg _ _ Hs) as Hs0.
  unfold App.update_crop_settings. rewrite Hen. cbn [negb]. rewrite Hs.
  destruct (parse_hhmmss (App.end_edit self)) as [e0|] eqn:He; cbn [fst];
    [ | split; [ reflexivity | split; [ exact Hen | left; split; [ reflexivity | ] ] ];
        intros e1 H; rewrite He in H; discriminate H ].
  destruct (Z.leb_spec e0 s) as [Hle|Hlt]; cbn [fst].
  { split; [ reflexivity | split; [ exact Hen | left; split; [ reflexivity | ] ] ].
    intros e1 H. rewrite He in H. injection H as <-. left. exact Hle. }
  rewrite Hp. simpl bind. rewrite Hd.
  destruct (int_gt_float e0 d) eqn:G0.
  - destruct (F64.to_int d) as [k|x] eqn:Ek; simpl bind; cbn [fst].
    + rewrite Gs.
      destruct (Z.leb_spec k s) as [Hks|Hks]; cbn [fst].
      * split; [ reflexivity | split; [ exact Hen | left; split; [ reflexivity | ] ] ].
        intros e1 H. cbn in H. rewrite parse_format_seconds in H. injection H as <-.
        left. lia.
      * through_estimate.
        split; [ reflexivity | split; [ exact Hen | right ] ].
        exists k. split; [ exact Hks | ].
        split; [ apply (to_int_not_gt d k Ek); lia | ].
        split; [ reflexivity | ].
        cbn. rewrite parse_format_seconds. f_equal. lia.
    + split; [ reflexivity | split; [ exact Hen | left; split; [ reflexivity | ] ] ].
      intros e1 _. right. exists x, e0. split; [ reflexivity | exact G0 ].
  - rewrite Gs.
    replace (e0 <=? s) with false by (symmetry; apply Z.leb_gt; lia).
    cbn [fst]. through_estimate.
    split; [ reflexivity | split; [ exact Hen | right ] ].
    exists e0. split; [ exact Hlt | ]. split; [ exact G0 | ].
    split; [ reflexivity | exact He ].
Qed.

(** Setting the start text. *)
Lemma start_step (self : App.VideoConverterApp) (text : string) (s : Z) :
  parse_hhmmss text = Some s -> int_gt_float s d = false ->
  let r := (App.set_start_edit ffprobe [file] text self).1 in
  App.start_edit r = text
  /\ App.start_edit_enabled r = App.start_edit_enabled self
  /\ ((App.crop_settings r = App.crop_settings self
       /\ App.end_edit r = App.end_edit self
       /\ (App.start_edit self = text \/ App.start_edit_enabled self = false))
      \/ (App.start_edit self <> text /\ App.start_edit_enabled self = true
          /\ ((App.crop_settings r = App.crop_settings self
               /\ forall e1, parse_hhmmss (App.end_edit r) = Some e1 ->
                    e1 <= s
            \/ exists x e0, F64.to_int d = Raise x /\ int_gt_float e0 d = true)
              \/ exists e', s < e' /\ int_gt_float e' d = false
                   /\ App.crop_settings r = <[file := (s, e')]> (App.crop_settings self)
                   /\ parse_hhmmss (App.end_edit r) = Some e'))).
Proof.
  intros Hs Gs r. subst r. unfold App.set_start_edit.
  destruct (decide (App.start_edit self = text)) as [E|E]; cbn [fst].
  { split; [ exact E | split; [ reflexivity | left ] ].
    split; [ reflexivity | split; [ reflexivity | left; exact E ] ]. }
  destruct (App.start_edit_enabled self) eqn:Hen.
  - destruct (slot_start (App.set_crop_edits text (App.end_edit self) self) s Hen Hs Gs)
      as (S1 & S2 & S3).
    split; [ exact S1 | split; [ exact S2 | right ] ].
    split; [ exact E | split; [ reflexivity | exact S3 ] ].
  - rewrite slot_disabled by exact Hen. cbn [fst].
    split; [ reflexivity | split; [ exact Hen | left ] ].
    split; [ reflexivity | split; [ reflexivity | right; reflexivity ] ].
Qed.

(** Setting the end text, when the two texts then name a range within
    the duration. *)
Lemma end_step (self : App.VideoConverterApp) (text : string) (s e : Z) :
  parse_hhmmss text = Some e -> parse_hhmmss (App.start_edit self) = Some s ->
  s < e -> int_gt_float e d = false ->
  let r := (App.set_end_edit ffprobe [file] text self).1 in
  App.start_edit r = App.start_edit self
  /\ App.end_edit r = text
  /\ App.crop_settings r
     = if App.start_edit_enabled self && negb (bool_decide (App.end_edit self = text))
       then <[file := (s, e)]> (App.crop_settings self)
       else App.crop_settings self.
Proof.
  intros He Hs Hse Ge r. subst r. unfold App.set_end_edit.
  destruct (decide (App.end_edit self = text)) as [E|E]; cbn [fst].
  { rewrite bool_decide_eq_true_2 by exact E. rewrite andb_false_r.
    split; [ reflexivity | split; [ exact E | reflexivity ] ]. }
  rewrite bool_decide_eq_false_2 by exact E. rewrite andb_true_r.
  destruct (App.start_edit_enabled self) eqn:Hen.
  - destruct (slot_stores (App.set_crop_edits (App.start_edit self) text self) s e
                Hen Hs He Hse Ge) as (S1 & S2 & S3).
    split; [ exact S2 | split; [ exact S3 | exact S1 ] ].
  - rewrite slot_disabled by exact Hen. cbn [fst]. repeat split.
Qed.

(** What [update_crop_inputs] leaves, when the texts to show name the
    range [(s, e)] within the duration. *)
Lemma inputs_shown (self : App.VideoConverterApp) (start_str end_str : string) (s e : Z) :
  parse_hhmmss start_str = Some s -> parse_hhmmss end_str = Some e ->
  s < e -> int_gt_float e d = false ->
  let r1 := (App.set_start_edit ffprobe [file] start_str self).1 in
  let r2 := (App.set_end_edit ffprobe [file] end_str r1).1 in
  App.start_edit r2 = start_str /\ App.end_edit r2 = end_str
  /\ App.crop_settings r2
     = if App.start_edit_enabled self
          && negb (bool_decide (App.start_edit self = start_str
                                /\ App.end_edit self = end_str))
       then <[file := (s, e)]> (App.crop_settings self)
       else App.crop_settings self.
Proof.
  intros Hs He Hse Ge r1 r2.
  assert (Gs : int_gt_float s d = false).
  { destruct (int_gt_float s d) eqn:G; [ | reflexivity ].
    rewrite (int_gt_float_mono s e d ltac:(lia) G) in Ge. discriminate Ge. }
  destruct (start_step self start_str s Hs Gs) as (A1 & A2 & A3). fold r1 in A1, A2, A3.
  destruct (end_step r1 end_str s e He ltac:(rewrite A1; exact Hs) Hse Ge) as (B1 & B2 & B3).
  fold r2 in B1, B2, B3.
  split; [ rewrite B1; exact A1 | split; [ exact B2 | ] ].
  rewrite B3, A2. clear B1 B2 B3.
  destruct (App.start_edit_enabled self) eqn:Hen; cbn [andb].
  2:{ destruct A3 as [(C & _ & _)|(_ & [=] & _)]. exact C. }
  destruct A3 as [(C & E2 & [E1|[=]])|(N1 & _ & [(C & Hno)|(e' & He' & Ge' & C & Pe')])].
  - rewrite C, E2.
    destruct (decide (App.end_edit self = end_str)) as [E|E].
    + rewrite bool_decide_eq_true_2 by exact E.
      rewrite bool_decide_eq_true_2 by (split; assumption). reflexivity.
    + rewrite bool_decide_eq_false_2 by exact E.
      rewrite bool_decide_eq_false_2 by (intros [_ H]; exact (E H)). reflexivity.
  - rewrite (bool_decide_eq_false_2 (App.start_edit self = start_str /\ _))
      by (intros [H _]; exact (N1 H)).
    cbn [negb]. rewrite C.
    destruct (decide (App.end_edit r1 = end_str)) as [E|E].
    + exfalso. destruct (Hno e ltac:(rewrite E; exact He)) as [H|(x & e0 & H & G)];
        [ lia | ].
      rewrite (to_int_raises_flat d x e0 e H) in G. rewrite G in Ge. discriminate Ge.
    + rewrite bool_decide_eq_false_2 by exact E. reflexivity.
  - rewrite (bool_decide_eq_false_2 (App.start_edit self = start_str /\ _))
      by (intros [H _]; exact (N1 H)).
    cbn [negb]. rewrite C.
    destruct (decide (App.end_edit r1 = end_str)) as [E|E].
    + rewrite bool_decide_eq_true_2 by exact E. cbn [negb].
      rewrite E, He in Pe'. injection Pe' as <-. reflexivity.
    + rewrite bool_decide_eq_false_2 by exact E. cbn [negb].
      apply insert_insert_eq.
Qed.

End Slot.

(** X22. Selecting a file shows its crop range, and storing what is
    shown changes nothing: for a file of the list with a valid range
    that ends within the probed duration, [update_crop_inputs] writes
    the two bounds as HH:MM:SS, enables the fields and leaves the map of
    ranges as it is, and [update_crop_settings] on these texts leaves the
    map and the texts as they are. For a file without a range the fields
    show from zero to the whole seconds of the duration; the selection
    itself stores this range for the file when the fields were enabled
    and showed other texts, and storing what is shown gives the file this
    range in any case. *)
Theorem shown_crop_is_kept (ffprobe : string -> result raw_info) (file : string)
    (self : App.VideoConverterApp) (info : raw_info) (d : spec_float) :
  file ∈ App.files self ->
  ffprobe file = Ok info -> App.strict_duration info = Ok d ->
  let shown := (App.update_crop_inputs ffprobe [file] self).1 in
  let again := (App.update_crop_settings ffprobe [file] shown).1 in
  (forall s e,
     App.crop_settings self !! file = Some (s, e) -> 0 <= s < e ->
     int_gt_float e d = false ->
     App.start_edit shown = seconds_to_hhmmss s
     /\ App.end_edit shown = seconds_to_hhmmss e
     /\ App.start_edit_enabled shown = true
     /\ App.crop_settings shown = App.crop_settings self
     /\ App.crop_settings again = App.crop_settings self
     /\ App.start_edit again = App.start_edit shown
     /\ App.end_edit again = App.end_edit shown)
  /\ (forall k,
        App.crop_settings self !! file = None -> F64.to_int d = Ok k -> 0 < k ->
        App.start_edit shown = "00:00:00"
        /\ App.end_edit shown = seconds_to_hhmmss k
        /\ App.crop_settings shown
           = (if App.start_edit_enabled self
                 && negb (bool_decide (App.start_edit self = "00:00:00"
                                       /\ App.end_edit self = seconds_to_hhmmss k))
              then <[file := (0, k)]> (App.crop_settings self)
              else App.crop_settings self)
        /\ App.crop_settings again = <[file := (0, k)]> (App.crop_settings self)).
Proof.
  intros Hin Hp Hd shown again. split.
  - intros s e Hl Hse Ge.
    assert (Ps : parse_hhmmss (seconds_to_hhmmss s) = Some s)
      by (rewrite parse_format_seconds; f_equal; lia).
    assert (Pe : parse_hhmmss (seconds_to_hhmmss e) = Some e)
      by (rewrite parse_format_seconds; f_equal; lia).
    destruct (inputs_shown ffprobe file info d Hp Hd self _ _ s e Ps Pe ltac:(lia) Ge)
      as (I1 & I2 & I3).
    assert (Eshown : shown = App.set_crop_enabled true
                       (App.set_end_edit ffprobe [file] (seconds_to_hhmmss e)
                          (App.set_start_edit ffprobe [file] (seconds_to_hhmmss s) self).1).1).
    { subst shown. unfold App.update_crop_inputs.
      rewrite decide_True by exact Hin. rewrite Hp. simpl bind. rewrite Hd, Hl.
      destruct (App.set_start_edit _ _ _ _) as [x l1]. cbn [fst].
      destruct (App.set_end_edit _ _ _ _) as [y l2]. reflexivity. }
    assert (C : App.crop_settings shown = App.crop_settings self).
    { rewrite Eshown. cbn [App.crop_settings App.set_crop_enabled]. rewrite I3.
      destruct (_ && _); [ apply insert_id; exact Hl | reflexivity ]. }
    assert (E1 : App.start_edit shown = seconds_to_hhmmss s)
      by (rewrite Eshown; exact I1).
    assert (E2 : App.end_edit shown = seconds_to_hhmmss e)
      by (rewrite Eshown; exact I2).
    assert (En : App.start_edit_enabled shown = true)
      by (rewrite Eshown; reflexivity).
    rewrite <- E1 in Ps. rewrite <- E2 in Pe.
    destruct (slot_stores ffprobe file info d Hp Hd shown s e En Ps Pe ltac:(lia) Ge)
      as (S1 & S2 & S3).
    fold again in S1, S2, S3.
    split; [ exact E1 | ]. split; [ exact E2 | ]. split; [ exact En | ].
    split; [ exact C | ].
    split; [ rewrite S1, C; apply insert_id; exact Hl | ].
    split; assumption.
  - intros k Hl Hk Hpos.
    pose proof (to_int_not_gt d k Hk Hpos) as Gk.
    assert (P0 : parse_hhmmss "00:00:00" = Some 0) by reflexivity.
    assert (Pk : parse_hhmmss (seconds_to_hhmmss k) = Some k)
      by (rewrite parse_format_seconds; f_equal; lia).
    destruct (inputs_shown ffprobe file info d Hp Hd self _ _ 0 k P0 Pk Hpos Gk)
      as (I1 & I2 & I3).
    assert (Eshown : shown = App.set_crop_enabled true
                       (App.set_end_edit ffprobe [file] (seconds_to_hhmmss k)
                          (App.set_start_edit ffprobe [file] "00:00:00" self).1).1).
    { subst shown. unfold App.update_crop_inputs.
      rewrite decide_True by exact Hin. rewrite Hp. simpl bind. rewrite Hd, Hl.
      simpl bind. rewrite Hk. simpl bind. cbv beta iota.
      destruct (App.set_start_edit _ _ _ _) as [x l1]. cbn [fst].
      destruct (App.set_end_edit _ _ _ _) as [y l2]. reflexivity. }
    assert (C : App.crop_settings shown
                = (if App.start_edit_enabled self
                      && negb (bool_decide (App.start_edit self = "00:00:00"
                                            /\ App.end_edit self = seconds_to_hhmmss k))
                   then <[file := (0, k)]> (App.crop_settings self)
                   else App.crop_settings self)).
    { rewrite Eshown. cbn [App.crop_settings App.set_crop_enabled]. exact I3. }
    assert (E1 : App.start_edit shown = "00:00:00")
      by (rewrite Eshown; exact I1).
    assert (E2 : App.end_edit shown = seconds_to_hhmmss k)
      by (rewrite Eshown; exact I2).
    assert (En : App.start_edit_enabled shown = true)
      by (rewrite Eshown; reflexivity).
    rewrite <- E1 in P0. rewrite <- E2 in Pk.
    destruct (slot_stores ffprobe file info d Hp Hd shown 0 k En P0 Pk Hpos Gk)
      as (S1 & S2 & S3).
    fold again in S1, S2, S3.
    split; [ exact E1 | ]. split; [ exact E2 | ].
    split; [ exact C | ].
    rewrite S1, C. destruct (_ && _); [ apply insert_insert_eq | reflexivity ].
Qed.

Lemma shown_crop_is_kept_witness :
  (forall s e,
     App.crop_settings cropped_window !! "a.mp4" = Some (s, e) -> 0 <= s < e ->
     int_gt_float e (F64.of_Z 100) = false ->
     App.start_edit (App.update_crop_inputs two_probes ["a.mp4"] cropped_window).1
     = seconds_to_hhmmss s
     /\ App.end_edit (App.update_crop_inputs two_probes ["a.mp4"] cropped_window).1
        = seconds_to_hhmmss e
     /\ App.start_edit_enabled
          (App.update_crop_inputs two_probes ["a.mp4"] cropped_window).1 = true
     /\ App.crop_settings (App.update_crop_inputs two_probes ["a.mp4"] cropped_window).1
        = App.crop_settings cropped_window
     /\ App.crop_settings
          (App.update_crop_settings two_probes ["a.mp4"]
             (App.update_crop_inputs two_probes ["a.mp4"] cropped_window).1).1
        = App.crop_settings cropped_window
     /\ App.start_edit
          (App.update_crop_settings two_probes ["a.mp4"]
             (App.update_crop_inputs two_probes ["a.mp4"] cropped_window).1).1
        = App.start_edit (App.update_crop_inputs two_probes ["a.mp4"] cropped_window).1
     /\ App.end_edit
          (App.update_crop_settings two_probes ["a.mp4"]
             (App.update_crop_inputs two_probes ["a.mp4"] cropped_window).1).1
        = App.end_edit (App.update_crop_inputs two_probes ["a.mp4"] cropped_window).1)
  /\ (forall k,
        App.crop_settings cropped_window !! "a.mp4" = None ->
        F64.to_int (F64.of_Z 100) = Ok k -> 0 < k ->
        App.start_edit (App.update_crop_inputs two_probes ["a.mp4"] cropped_window).1
        = "00:00:00"
        /\ App.end_edit (App.update_crop_inputs two_probes ["a.mp4"] cropped_window).1
           = seconds_to_hhmmss k
        /\ App.crop_settings
             (App.update_crop_inputs two_probes ["a.mp4"] cropped_window).1
           = (if App.start_edit_enabled cropped_window
                 && negb (bool_decide
                            (App.start_edit cropped_window = "00:00:00"
                             /\ App.end_edit cropped_window = seconds_to_hhmmss k))
              then <["a.mp4" := (0, k)]> (App.crop_settings cropped_window)
              else App.crop_settings cropped_window)
        /\ App.crop_settings
             (App.update_crop_settings two_probes ["a.mp4"]
                (App.update_crop_inputs two_probes ["a.mp4"] cropped_window).1).1
           = <["a.mp4" := (0, k)]> (App.crop_settings cropped_window)).
Proof.
  apply (shown_crop_is_kept two_probes "a.mp4" cropped_window (h264_of 100)
           (F64.of_Z 100)).
  - vm_compute. left.
  - reflexivity.
  - vm_compute. reflexivity.
Defined.

(** Selecting the second file, which has no range, while the fields
    still show the range of the first: the selection stores the range
    from zero to the 50 seconds of the second file. *)
Example selection_stores_range :
  App.crop_settings first_cropped_window = {[ "a.mp4" := (10, 100) ]}
  /\ App.start_edit_enabled first_cropped_window = true
  /\ App.crop_settings (App.update_crop_inputs two_probes ["b.mp4"] first_cropped_window).1
     = {[ "a.mp4" := (10, 100); "b.mp4" := (0, 50) ]}
  /\ App.end_edit (App.update_crop_inputs two_probes ["b.mp4"] first_cropped_window).1
     = "00:00:50".
Proof. vm_compute. repeat split. Qed.

(** ** More on probing *)

Lemma probe_stream_vcodec (l : list raw_stream) : forall v a b,
  (foldl probe_stream (v, a, b) l).1.1
  = foldl (fun v s =>
             if bool_decide (codec_type s = Some "video") && falsy v
             then codec_name s else v) v l.
Proof.
  induction l as [|s l IH]; intros v a b; [ reflexivity | ].
  simpl. destruct (bool_decide (codec_type s = Some "audio") && falsy a); apply IH.
Qed.

Lemma probe_stream_acodec (l : list raw_stream) : forall v a b,
  (foldl probe_stream (v, a, b) l).1.2
  = foldl (fun a s =>
             if bool_decide (codec_type s = Some "audio") && falsy a
             then codec_name s else a) a l.
Proof.
  induction l as [|s l IH]; intros v a b; [ reflexivity | ].
  simpl. destruct (bool_decide (codec_type s = Some "audio") && falsy a); apply IH.
Qed.

(** The codec the loop of [probe] ends with, for one kind of stream. *)
Lemma first_named_codec (kind : string) (pre post : list raw_stream) (s : raw_stream)
    (c : string) (v : option string) :
  falsy v = true ->
  Forall (fun s' => names_codec kind s' = false) pre ->
  codec_type s = Some kind -> codec_name s = Some c -> c <> "" ->
  foldl (fun v s =>
           if bool_decide (codec_type s = Some kind) && falsy v
           then codec_name s else v) v (pre ++ s :: post)
  = Some c.
Proof.
  intros Hv Hpre Ht Hn Hc. rewrite foldl_app. simpl.
  assert (Hf : falsy (foldl (fun v s =>
                               if bool_decide (codec_type s = Some kind) && falsy v
                               then codec_name s else v) v pre) = true).
  { revert v Hv. induction Hpre as [|s' pre Hs' _ IH]; intros v Hv; [ exact Hv | ].
    simpl. apply IH. rewrite Hv, andb_true_r.
    unfold names_codec in Hs'. destruct (bool_decide (codec_type s' = Some kind)).
    - simpl in Hs'. apply negb_false_iff in Hs'. exact Hs'.
    - exact Hv. }
  rewrite Hf, andb_true_r, bool_decide_eq_true_2 by exact Ht. rewrite Hn.
  assert (Hfc : falsy (Some c) = false).
  { simpl. apply bool_decide_eq_false_2. exact Hc. }
  clear -Hfc. induction post as [|s' post IH]; [ reflexivity | ].
  cbn [foldl]. rewrite Hfc, andb_false_r. exact IH.
Qed.

Lemma read_info_codecs (info : raw_info) (p : ProbeInfo) :
  read_info info = Ok p ->
  vcodec p = (foldl probe_stream (None, None, None) (default [] (streams info))).1.1
  /\ acodec p = (foldl probe_stream (None, None, None) (default [] (streams info))).1.2
  /\ audio_bitrate_kbps p
     = (foldl probe_stream (None, None, None) (default [] (streams info))).2.
Proof.
  unfold read_info. destruct (format_duration info) as [d|]; [ | discriminate ].
  destruct (py_float (default (PyFloat F64.zero) d)) as [x|]; [ | discriminate ].
  simpl. destruct (foldl probe_stream _ _) as [[v a] b]. intros [= <-].
  repeat split.
Qed.

Lemma unnamed_codec (kind : string) (l : list raw_stream) : forall v,
  falsy v = true ->
  Forall (fun s' => names_codec kind s' = false) l ->
  falsy (foldl (fun v s =>
                  if bool_decide (codec_type s = Some kind) && falsy v
                  then codec_name s else v) v l) = true.
Proof.
  induction l as [|s' l IH]; intros v Hv Hl; [ exact Hv | ].
  inversion Hl as [|? ? Hs' Hl']; subst. cbn [foldl]. apply IH; [ | exact Hl' ].
  rewrite Hv, andb_true_r. unfold names_codec in Hs'.
  destruct (bool_decide (codec_type s' = Some kind)).
  - simpl in Hs'. apply negb_false_iff in Hs'. exact Hs'.
  - exact Hv.
Qed.

(** X23. [probe] reports, as the video codec, the codec name of the first
    video stream whose name is not empty, wherever it stands among the
    streams, and likewise for the audio codec; when no video stream has
    a name the video codec stays empty, and without a list of streams
    all three stream fields are [None]. *)
Theorem probe_reports_first_named_codec (info : raw_info) (p : ProbeInfo) :
  read_info info = Ok p ->
  (forall pre s post c,
     streams info = Some (pre ++ s :: post) ->
     Forall (fun s' => names_codec "video" s' = false) pre ->
     codec_type s = Some "video" -> codec_name s = Some c -> c <> "" ->
     vcodec p = Some c)
  /\ (forall pre s post c,
        streams info = Some (pre ++ s :: post) ->
        Forall (fun s' => names_codec "audio" s' = false) pre ->
        codec_type s = Some "audio" -> codec_name s = Some c -> c <> "" ->
        acodec p = Some c)
  /\ (forall l, streams info = Some l ->
        Forall (fun s' => names_codec "video" s' = false) l ->
        falsy (vcodec p) = true)
  /\ (streams info = None ->
      vcodec p = None /\ acodec p = None /\ audio_bitrate_kbps p = None).
Proof.
  intros H. apply read_info_codecs in H as (Hv & Ha & Hb).
  rewrite probe_stream_vcodec in Hv. rewrite probe_stream_acodec in Ha.
  repeat split.
  - intros pre s post c Hs Hpre Ht Hn Hc. rewrite Hv, Hs. simpl default.
    apply first_named_codec; try assumption. reflexivity.
  - intros pre s post c Hs Hpre Ht Hn Hc. rewrite Ha, Hs. simpl default.
    apply first_named_codec; try assumption. reflexivity.
  - intros l Hs Hl. rewrite Hv, Hs. simpl default.
    apply unnamed_codec; [ reflexivity | exact Hl ].
  - rewrite Hv, H. reflexivity.
  - rewrite Ha, H. reflexivity.
  - rewrite Hb, H. reflexivity.
Qed.

Lemma probe_reports_first_named_codec_witness :
  (forall pre s post c,
     streams (h264_of 100) = Some (pre ++ s :: post) ->
     Forall (fun s' => names_codec "video" s' = false) pre ->
     codec_type s = Some "video" -> codec_name s = Some c -> c <> "" ->
     vcodec (first_probe two_probes "a.mp4") = Some c)
  /\ (forall pre s post c,
        streams (h264_of 100) = Some (pre ++ s :: post) ->
        Forall (fun s' => names_codec "audio" s' = false) pre ->
        codec_type s = Some "audio" -> codec_name s = Some c -> c <> "" ->
        acodec (first_probe two_probes "a.mp4") = Some c)
  /\ (forall l, streams (h264_of 100) = Some l ->
        Forall (fun s' => names_codec "video" s' = false) l ->
        falsy (vcodec (first_probe two_probes "a.mp4")) = true)
  /\ (streams (h264_of 100) = None ->
      vcodec (first_probe two_probes "a.mp4") = None
      /\ acodec (first_probe two_probes "a.mp4") = None
      /\ audio_bitrate_kbps (first_probe two_probes "a.mp4") = None).
Proof.
  apply (probe_reports_first_named_codec (h264_of 100)). vm_compute. reflexivity.
Defined.

(** ** More on presets *)



(** ** More on the list of encoders *)

Lemma word_of_chars (cur : list ascii) :
  cur <> [] -> Forall (fun c => is_space c = false) cur ->
  word (string_of_list_ascii (rev cur)).
Proof.
  intros Hne Hall. split.
  - intros E. apply (f_equal list_ascii_of_string) in E.
    rewrite list_ascii_of_string_of_list_ascii in E. simpl in E.
    apply (f_equal (@rev ascii)) in E. rewrite rev_involutive in E. exact (Hne E).
  - rewrite list_ascii_of_string_of_list_ascii. apply Forall_rev. exact Hall.
Qed.

Lemma split_aux_words (cs : list ascii) : forall cur,
  Forall (fun c => is_space c = false) cur -> Forall word (split_aux cur cs).
Proof.
  induction cs as [|c r IH]; intros cur Hcur; simpl.
  - destruct cur as [|a cur']; [ constructor | ].
    constructor; [ | constructor ]. apply word_of_chars; [ discriminate | exact Hcur ].
  - destruct (is_space c) eqn:Hc.
    + destruct cur as [|a cur']; [ apply IH; constructor | ].
      constructor; [ | apply IH; constructor ].
      apply word_of_chars; [ discriminate | exact Hcur ].
    + apply IH. constructor; assumption.
Qed.

(** X25. The names [available_encoders] returns are words: none is empty
    and none holds a blank; without a listing there is none. *)
Theorem encoder_names_are_words (listing : option string) :
  Forall word (available_encoders listing) /\ available_encoders None = [].
Proof.
  split; [ | reflexivity ]. destruct listing as [text|]; [ | constructor ].
  unfold available_encoders, encoder_names. apply Forall_flat_map.
  apply Forall_forall. intros line _.
  destruct (startswith_space line); [ | constructor ].
  pose proof (split_aux_words (list_ascii_of_string line) [] ltac:(constructor)) as H.
  fold (split line) in H. destruct (split line) as [|w [|name rest]]; try constructor.
  - inversion H as [|? ? _ H']; subst. inversion H'; assumption.
  - constructor.
Qed.

Lemma split_aux_word (w : list ascii) : forall cs cur,
  Forall (fun c => is_space c = false) w ->
  split_aux cur (w ++ cs) = split_aux (rev w ++ cur) cs.
Proof.
  induction w as [|c w IH]; intros cs cur H; [ reflexivity | ].
  inversion H as [|? ? Hc Hw]; subst. simpl. rewrite Hc, (IH _ _ Hw), <- app_assoc.
  reflexivity.
Qed.

(** The words of a line that starts with a blank, a word, a blank and a
    second word. *)
Lemma split_listing_line (flags name rest : string) :
  word flags -> word name ->
  (rest = "" \/ exists c r, rest = String c r /\ is_space c = true) ->
  exists more, split (" " +:+ flags +:+ " " +:+ name +:+ rest) = flags :: name :: more.
Proof.
  intros [Hf1 Hf2] [Hn1 Hn2] Hrest. unfold split. rewrite !chars_app.
  change (list_ascii_of_string " ") with [" "%char]. simpl app at 1.
  cbn [split_aux]. change (is_space " ") with true. cbv iota.
  rewrite (split_aux_word _ _ _ Hf2), app_nil_r. cbn [app split_aux].
  change (is_space " ") with true. cbv iota.
  assert (Ef : rev (list_ascii_of_string flags) <> []).
  { intros E. apply (f_equal (@rev ascii)) in E. rewrite rev_involutive in E.
    apply Hf1. rewrite <- (string_of_list_ascii_of_string flags), E. reflexivity. }
  destruct (rev (list_ascii_of_string flags)) as [|a l] eqn:E; [ congruence | ].
  rewrite <- E, rev_involutive, string_of_list_ascii_of_string.
  rewrite (split_aux_word _ _ _ Hn2), app_nil_r.
  assert (En : rev (list_ascii_of_string name) <> []).
  { intros E'. apply (f_equal (@rev ascii)) in E'. rewrite rev_involutive in E'.
    apply Hn1. rewrite <- (string_of_list_ascii_of_string name), E'. reflexivity. }
  destruct Hrest as [->|(c & r & -> & Hc)]; simpl.
  - destruct (rev (list_ascii_of_string name)) as [|a' l'] eqn:E'; [ congruence | ].
    rewrite <- E', rev_involutive, string_of_list_ascii_of_string. eexists. reflexivity.
  - rewrite Hc.
    destruct (rev (list_ascii_of_string name)) as [|a' l'] eqn:E'; [ congruence | ].
    rewrite <- E', rev_involutive, string_of_list_ascii_of_string. eexists. reflexivity.
Qed.

Lemma splitlines_aux_line (L A : list ascii) : forall cur,
  Forall (fun c => is_linebreak c = false) L ->
  (A = [] \/ exists c a, A = c :: a /\ is_linebreak c = true) ->
  rev cur ++ L <> [] ->
  exists more,
    splitlines_aux cur (L ++ A) = string_of_list_ascii (rev cur ++ L) :: more.
Proof.
  induction L as [|c L IH]; intros cur HL HA Hne.
  - rewrite app_nil_r in *. simpl. destruct HA as [->|(c & a & -> & Hc)].
    + simpl. destruct cur as [|x cur']; [ contradiction | ]. eexists. reflexivity.
    + simpl. rewrite Hc. eexists. reflexivity.
  - inversion HL as [|? ? Hc HL']; subst. simpl. rewrite Hc.
    destruct (IH (c :: cur) HL' HA) as [more E].
    { simpl. rewrite <- app_assoc. simpl. destruct (rev cur); discriminate. }
    rewrite E. simpl. rewrite <- app_assoc. eexists. reflexivity.
Qed.

Lemma splitlines_aux_before (n : nat) : forall (B X cur : list ascii),
  (length B <= n)%nat ->
  exists pre,
    splitlines_aux cur (B ++ ascii_of_nat 10 :: X) = pre ++ splitlines_aux [] X.
Proof.
  induction n as [|n IH]; intros B X cur Hlen.
  - destruct B; [ | simpl in Hlen; lia ]. simpl.
    exists [string_of_list_ascii (rev cur)]. destruct X; reflexivity.
  - destruct B as [|c r].
    { simpl. exists [string_of_list_ascii (rev cur)]. destruct X; reflexivity. }
    simpl in Hlen. cbn [app splitlines_aux]. destruct (is_linebreak c) eqn:Hc.
    + destruct r as [|c2 r'].
      * cbn [app]. destruct ((code c =? 13) && (code (ascii_of_nat 10) =? 10)).
        -- exists [string_of_list_ascii (rev cur)]. reflexivity.
        -- destruct (IH [] X [] ltac:(simpl; lia)) as [pre E]. simpl app in E.
           rewrite E. exists (string_of_list_ascii (rev cur) :: pre). reflexivity.
      * cbn [app]. destruct ((code c =? 13) && (code c2 =? 10)).
        -- destruct (IH r' X [] ltac:(simpl in Hlen; lia)) as [pre E].
           rewrite E. exists (string_of_list_ascii (rev cur) :: pre). reflexivity.
        -- destruct (IH (c2 :: r') X [] ltac:(simpl in Hlen |- *; lia)) as [pre E].
           simpl app in E. rewrite E.
           exists (string_of_list_ascii (rev cur) :: pre). reflexivity.
    + apply IH. lia.
Qed.

Lemma word_no_linebreak (s : string) :
  word s -> Forall (fun c => is_linebreak c = false) (list_ascii_of_string s).
Proof.
  intros [_ H]. eapply Forall_impl; [ exact H | ]. simpl. intros c Hc.
  unfold is_space, is_linebreak in *. apply orb_false_iff in Hc as [Hc H3].
  apply orb_false_iff in Hc as [H1 H2].
  apply andb_false_iff in H2, H3. rewrite !Z.leb_gt in H2, H3.
  apply orb_false_iff. split; apply andb_false_iff; rewrite !Z.leb_gt; lia.
Qed.

(** X26. A line of the listing that consists of a blank, a word of
    flags, a blank, the name of the encoder and, after a further blank,
    anything up to the end of the line, makes [available_encoders]
    return that name; so [choose_encoder] takes the NVENC encoder of the
    family when the listing has its line. *)
Theorem listed_encoder_is_found (before after flags name rest : string) :
  (before = "" \/ exists b, before = b +:+ LF) ->
  (after = "" \/ exists c a, after = String c a /\ is_linebreak c = true) ->
  word flags -> word name ->
  (rest = "" \/ exists c r, rest = String c r /\ is_space c = true) ->
  Forall (fun c => is_linebreak c = false) (list_ascii_of_string rest) ->
  let encoders :=
    available_encoders
      (Some (before +:+ (" " +:+ flags +:+ " " +:+ name +:+ rest) +:+ after)) in
  name ∈ encoders
  /\ (name = "hevc_nvenc" -> choose_encoder "H.265" encoders = "hevc_nvenc")
  /\ (name = "av1_nvenc" -> choose_encoder "AV1" encoders = "av1_nvenc").
Proof.
  intros Hb Ha Hf Hn Hr Hrl encoders.
  assert (Hin : name ∈ encoders).
  { subst encoders. unfold available_encoders, encoder_names.
    set (line := " " +:+ flags +:+ " " +:+ name +:+ rest).
    assert (HL : Forall (fun c => is_linebreak c = false) (list_ascii_of_string line)).
    { subst line. rewrite !chars_app. repeat (apply Forall_app; split);
        first [ apply word_no_linebreak; assumption | assumption
              | repeat constructor ]. }
    assert (Hne : list_ascii_of_string line <> []) by (subst line; discriminate).
    assert (Hs : startswith_space line = true) by reflexivity.
    destruct (split_listing_line flags name rest Hf Hn Hr) as [m Hm].
    fold line in Hm. clearbody line.
    assert (Hsp : exists pre more,
               splitlines (before +:+ line +:+ after) = pre ++ line :: more).
    { unfold splitlines. rewrite !chars_app.
      assert (HA : list_ascii_of_string after = []
                   \/ exists c a, list_ascii_of_string after = c :: a
                                  /\ is_linebreak c = true).
      { destruct Ha as [->|(c & a & -> & Hc)]; [ left; reflexivity | right ].
        eexists _, _. split; [ reflexivity | exact Hc ]. }
      destruct (splitlines_aux_line (list_ascii_of_string line)
                  (list_ascii_of_string after) [] HL HA Hne) as [more E].
      simpl app in E. rewrite string_of_list_ascii_of_string in E.
      destruct Hb as [->|(b & ->)].
      - exists [], more. exact E.
      - rewrite chars_app. unfold LF. cbn [list_ascii_of_string].
        rewrite <- app_assoc. cbn [app].
        destruct (splitlines_aux_before (length (list_ascii_of_string b))
                    (list_ascii_of_string b)
                    (list_ascii_of_string line ++ list_ascii_of_string after) []
                    ltac:(lia)) as [pre E'].
        rewrite E', E. exists pre, more. reflexivity. }
    destruct Hsp as (pre & more & ->).
    apply list_elem_of_In, in_flat_map. exists line. split.
    - apply list_elem_of_In, elem_of_app. right. left.
    - rewrite Hs, Hm. left. reflexivity. }
  split; [ exact Hin | ]. split; intros ->; unfold choose_encoder.
  - rewrite decide_True by reflexivity. rewrite decide_True by exact Hin. reflexivity.
  - rewrite decide_False by discriminate. rewrite decide_True by exact Hin. reflexivity.
Qed.

Lemma listed_encoder_is_found_witness :
  let encoders :=
    available_encoders
      (Some (("Encoders:" +:+ LF)
             +:+ (" " +:+ "V....D" +:+ " " +:+ "hevc_nvenc" +:+ " NVIDIA NVENC hevc encoder")
             +:+ (LF +:+ " V..... libx265 x"))) in
  "hevc_nvenc" ∈ encoders
  /\ ("hevc_nvenc" = "hevc_nvenc" -> choose_encoder "H.265" encoders = "hevc_nvenc")
  /\ ("hevc_nvenc" = "av1_nvenc" -> choose_encoder "AV1" encoders = "av1_nvenc").
Proof.
  apply (listed_encoder_is_found ("Encoders:" +:+ LF) (LF +:+ " V..... libx265 x")
           "V....D" "hevc_nvenc" " NVIDIA NVENC hevc encoder").
  - right. exists "Encoders:". reflexivity.
  - right. eexists _, _. split; reflexivity.
  - split; [ discriminate | repeat constructor ].
  - split; [ discriminate | repeat constructor ].
  - right. eexists _, _. split; reflexivity.
  - repeat constructor.
Defined.
